(* ===== verification/_CoqProject ===== *)
-Q . S2P
Prelude.v
GoStrings.v
ConfigTypes.v
PromScope.v
GoURL.v
GoJSON.v
GoHTTP.v
Acl.v
ConfigAuth.v
ConfigMain.v
Credentials.v
Basic.v
Jwks.v
JwksConcurrent.v
Session.v
Login.v
Saml.v
OAuthServer.v
Authenticate.v
Middleware.v
Registries.v
Atomic.v
Interleaved.v
Interference.v
OAuthProvider.v
PromFilter.v
PromRewrite.v
PromSilence.v
PromHandler.v
Proxy.v
Main.v
Interpolate.v
Source.v
Watcher.v
Telemetry.v
Startup.v
Process.v
Threads.v
Progress.v
