(* ===== verification/Prelude.v ===== *)
(** * token-auth-proxy: a verification development

    token-auth-proxy is a reverse proxy in Go.  It authenticates each request (HTTP
    Basic, JWT bearer tokens, browser login by OIDC or SAML), applies access rules,
    confines a caller to the labels of its tenant in the Prometheus and Alertmanager
    APIs, and forwards the request to one backend.  It is an OAuth authorization server
    itself, and reloads its configuration while it runs.  This library models the
    program's own code, all of [src/internal] and [src/cmd], as Rocq functions and
    transition systems, and proves what it is for.

    ** The program's parts and where they are

    Read from the listener inwards, a request meets [http.ServeMux], the middleware of
    [internal/authn], the label handler of [internal/promlabel] and the reverse proxy of
    [internal/proxy]; each reads the configuration that [internal/config]'s watcher
    publishes.  The middleware shares registries among all requests: verified passwords,
    JWT keys, SAML metadata, login endpoints and running redemptions, and the OAuth
    server of [internal/oauth], which signs tokens that the JWT keys verify.

    - What Go's library does: [GoStrings] (strings, utf8, path), [GoURL] (net/url),
      [GoHTTP] (headers, cookies, requests, responses), [GoJSON] (encoding/json, which
      the label handler reads responses with and the browser login its state).
    - [internal/config]: [ConfigTypes] (the structs), [ConfigAuth] (auth.go, ca.go,
      saml_keys.go), [ConfigMain] (config.go, oauth.go, promlabel.go), with the rules of
      acl.go in [Acl]; [Interpolate] (interpolate.go), [Source] (source.go, static.go),
      [Watcher] (watcher.go).
    - [internal/authn]: [Acl] (acl.go), [Credentials] (credentials.go, authn.go), [Basic]
      (basic.go), [Jwks] (jwks.go, discovery.go, verify.go) and [JwksConcurrent] (the same
      registry under concurrent requests), [Session] and [Login] (login.go,
      login_refresh.go, login_picker.go, logout.go), [Saml] (saml.go, saml_metadata.go,
      saml_session.go, saml_middleware.go), [Authenticate] (authenticate, of
      middleware.go), [Middleware] (NewMiddleware, promlabel.go, oauth.go and the routes
      of login_picker.go).
    - [internal/oauth]: [OAuthServer] (seal.go, storage.go, register.go, server.go,
      identity.go) and [OAuthProvider] (what the provider library sees: types.go, keys.go
      and the rest of storage.go).
    - [internal/promlabel]: [PromScope] (scope.go), [PromFilter] (filter.go),
      [PromRewrite] (promql.go, and handler.go as far as it rewrites), [PromSilence]
      (silences.go), [PromHandler] (handler.go).
    - [internal/proxy]: [Proxy].  [internal/telemetry]: [Telemetry].
    - [cmd/token-auth-proxy/main.go]: [Main] (the chain of handlers), [Startup] (run, from
      its flags to its exit) and [Process] (the process while it serves).
    - Requests inside the middleware at once: [Atomic] (a program as a sequence of atomic
      steps, and what may be assumed of the steps of others), [Interleaved] (the middleware
      as such a program), [Interference] (what each request relies on and guarantees),
      [Threads] (the process with any number of them) and [Progress] (none is stuck).
    - [Registries] joins what the components prove of their registries: whatever the
      middleware does keeps their invariants, and with them every decision is that of
      the configuration in force (up to the collisions and fingerprints named below).

    ** How code is represented

    A Go string is a string of bytes; durations and instants are nanoseconds in [Z]; a
    map is a [gmap], or a list where its order can be seen.  A function that returns an
    error returns a [result]; an error is kept as its format and operands, so that
    [errors.Is] can be asked of it.  State is passed and returned; an operation has the
    guards and early returns of the code, in their order ([let*], [check*] and
    [fail_if] below).  Where code under a lock interleaves with other code, the parts
    under the lock are the steps of a transition system ([Basic.bstep],
    [JwksConcurrent.kstep], [Login.flight_step], [OAuthServer.flow_step],
    [Watcher.wstep], [Process.pstep]); a function that runs them back to back is one of
    its runs ([JwksConcurrent.Reconcile_steps] and [Keyfunc_steps], [Login.redeem_refines]).
    The middleware is given twice: as a function ([Middleware.NewMiddleware]), and as a
    program whose steps are its critical sections and its atomic loads and stores
    ([Interleaved.middleware_p]), which is that function when it runs alone
    ([Interleaved.middleware_run]).  Requests take turns at its steps in [Threads.tstep].
    The one lock under which a request takes more than one step, the OAuth registry's, is
    part of the state ([sh_lock]), and blocks; the others are taken and released in one.

    Libraries that are not Go's own are type classes, each with what the program relies
    on as a hypothesis of the theorems that need it ([ideal_gcm]; [koanf_laws], where
    [Set] merges an object into what is there; [enforce_law]; [hs_laws], where golang-jwt
    keeps times to the second); so are cryptography, the network, the file system and
    the tables of Unicode.  Every class has a concrete instance, with which the
    theorems are applied to concrete requests.  The [n]-th fetch of a registry is an
    argument of its class, so any behaviour of a remote end is covered.

    ** What is proved

    - What reaches the backend: [Middleware.middleware_forwards] and
      [Main.label_scope_end_to_end] for one request; [Process.process_refines] for the
      whole process, with reloads and other requests in between: what is sent was
      authenticated by the credentials of its own request, under a configuration read
      whole and validated, granted by its rules and confined to its labels.
      [Threads.concurrent_refines] says it of requests that interleave step by step inside
      the middleware, where only the OAuth server's keys and denylist can be those of a
      configuration that another request has read ([Threads.denied_subject_passes] is such
      a run); [Progress.requests_never_stuck]: each of them comes to its end.  The two
      take SHA-256 and HMAC to be injective, are about requests whose Basic credentials
      (and the users they meet) are free of NUL, without which passwords can be mixed up
      ([Basic.key_collision]), and say of JWT keys and SAML providers that they were built
      for a source of the same fingerprint, which leaves out the issuer of a JWT source
      ([Jwks.fingerprint_ignores_issuer]).  What label enforcement says is for label names
      and values that are valid UTF-8, and with [enforce_law].
    - Authentication: [Authenticate.authenticate_sound], [authenticate_precedence] and
      [enforceJWT_spec]; the access rules: [Acl.authorize_spec], [validateACL_spec].
    - Labels: [PromHandler.ServeHTTP_guards] (requests) and [ModifyResponse_entries]
      (responses), [PromSilence.scopeMatchers_spec],
      [Middleware.resolvePromLabels_spec]; forwarding: [Proxy.Proxy_ServeHTTP_request].
    - Browser login: [Login.Callback_spec], [Start_Callback], [redeem_refines] and
      [refresh_single_flight] (one redemption, whatever the interleaving);
      [Saml.Provider_spec] and [saml_cookies_spec].
    - Shared registries: [Basic.Basic_answers_direct] (the cache answers as the
      configured hashes do), [JwksConcurrent.Keyfunc_concurrent].
    - The OAuth server: [OAuthServer.oauth_issue_safety] (an access token comes from a
      login), [sealed_kinds], [OAuthProvider.refresh_roundtrip], and
      [Middleware.serveOAuth_login] (who may log in to it).
    - Configuration: [ConfigMain.Config_Validate_oauth],
      [ConfigAuth.InboundAuth_Validate_wf], [Source.decode_enforces],
      [loadOverrides_precedence], [Interpolate.interpolateString_spec],
      [interpolateString_terminates], [interpolating_Read_shape]; reloading:
      [Watcher.Current_valid], [reload_follows], [reloads_coalesced].
    - The process: [Startup.run_spec] (what is started is stopped, on every path, but for
      the telemetry providers a failing [Setup] had started), [Telemetry.Setup_spec].

    The other theorems are the components' lemmas; those that show the code or a comment
    to be wrong are concrete: [Main.Connection_drops_Content_Type],
    [Login.logout_open_redirect], [Session.takeCookies_misses], [Basic.key_collision],
    [Jwks.evicted_build_leaks], [Interpolate.unreported_size],
    [Startup.server_error_exits_0], [Telemetry.Setup_leaves_running] and
    [Startup.telemetry_left_running], [Source.override_merges],
    [Jwks.fingerprint_ignores_issuer], [Threads.denied_subject_passes].

    ** Bounds and fuel

    Recursion that is not structural has fuel, and a lemma that it is enough: the scan
    of a configuration string, one step per byte ([Interpolate.interpolateString_terminates]);
    the JSON parser, two calls per byte ([GoJSON.parse_fuel_enough]: more changes
    nothing); PEM blocks, one per byte ([ConfigAuth.decode_blocks_fuel]).  [Itoa] writes
    up to twenty digits; what is written with it are lengths of configured strings, and
    [Registries.short] says they are below 10^20, which every string of a real machine
    is.  Widths do not wrap in this program: its integers are lengths, counters of
    reloads and fetches, and times from a clock.

    ** What is not modelled

    Log lines and the attributes of metrics (the rejection reasons are kept); the HTML
    and CSS of the pages (a page is its status, headers and links); the construction of
    HTTP clients and of TLS, sockets, and the text of gzip, PEM, X.509, YAML and PromQL,
    which are the classes' business; the two wrappers of otelhttp (the middleware around
    the root route, which hands on what it is given, and the transport, which adds
    trace-context headers to the request it is handed: what is proved of a request that
    is sent is of the one handed to it); the tunnel of a switched protocol; tests and the
    helpers under [src/test].  [Threads] stops where the middleware does, and takes as one
    step each what a request does when one of the proxy's own routes serves it, when it
    refreshes or starts a login, and when it asks for the SAML provider; how requests
    interleave inside a refresh is in [Login.flight_step].  [Process], which goes on to
    the label handler and the proxy, takes the middleware as one step. *)
From stdpp Require Export base tactics option list strings gmap sorting.
From Stdlib Require Export ZArith NArith Lia Ascii.

#[global] Arguments andb !_ _ : simpl nomatch.
#[global] Arguments orb !_ _ : simpl nomatch.
#[global] Arguments negb : simpl nomatch.
#[global] Arguments implb : simpl nomatch.
#[global] Arguments existsb : simpl nomatch.
#[global] Arguments String.append : simpl never.
#[global] Arguments bool_decide : simpl never.

(** * Errors and results *)

(** A Go [error].  [ENew msg] is [errors.New(msg)] or a sentinel value of a
    library, identified by its name; [EWrap fmt args inner] is
    [fmt.Errorf(fmt, args...)] whose [%w] operands are [inner].  The text is
    kept unformatted: the format string and its string operands. *)
Inductive error : Type :=
| ENew (msg : string)
| EWrap (format : string) (args : list string) (inner : list error).

(** [fmt.Errorf] with no operands, with string operands, and wrapping one
    error. *)
Abbreviation Errorf f := (EWrap f [] []).
Abbreviation ErrorfA f args := (EWrap f args []).
Abbreviation Wrapf f args e := (EWrap f args [e]).

(** [errors.Is(err, target)] for a sentinel [target] named by its message. *)
Fixpoint errors_Is (e : error) (target : string) : bool :=
  match e with
  | ENew msg => bool_decide (msg = target)
  | EWrap _ _ inner => existsb (λ e', errors_Is e' target) inner
  end.

(** A fallible Go function [(T, error)]: exactly one of the two is used. *)
Inductive result (A : Type) : Type :=
| Ok (a : A)
| Err (e : error).
Arguments Ok {A} a.
Arguments Err {A} e.

Definition rbind {A B} (r : result A) (k : A → result B) : result B :=
  match r with Ok a => k a | Err e => Err e end.
Definition rmap {A B} (f : A → B) (r : result A) : result B :=
  rbind r (λ a, Ok (f a)).
(** [if err != nil { return fmt.Errorf(format, args..., err) }] *)
Definition rwrap {A} (format : string) (args : list string) (r : result A) : result A :=
  match r with Ok a => Ok a | Err e => Err (Wrapf format args e) end.
Definition is_ok {A} (r : result A) : bool := if r is Ok _ then true else false.

Declare Scope go_scope.
Delimit Scope go_scope with go.
Notation "'let*' x := r 'in' k" := (rbind r (λ x, k))
  (at level 10, x pattern, r at level 100, k at level 200) : go_scope.
Notation "'check*' r 'in' k" := (rbind r (λ _ : unit, k))
  (at level 10, r at level 100, k at level 200) : go_scope.
(** [==] and [!=] on comparable Go values. *)
Notation "x =? y" := (bool_decide (x = y)) (at level 70) : go_scope.
Notation "x !=? y" := (negb (bool_decide (x = y))) (at level 70) : go_scope.
(** [if cond { return err }] *)
Notation "'fail_if' b 'with' e 'in' k" := (if b then Err e else k)
  (at level 10, b at level 100, e at level 100, k at level 200) : go_scope.
Global Open Scope go_scope.

(** The first error of a loop whose body is [if err := f(x); err != nil { return ... }]. *)
Fixpoint check_all {A} (f : nat → A → result unit) (i : nat) (l : list A) : result unit :=
  match l with
  | [] => Ok tt
  | x :: l' => check* f i x in check_all f (S i) l'
  end.

(** A loop that collects [f x] and returns the first error. *)
Section map_result.
Context {A B : Type} (f : A → result B).
Fixpoint map_result (l : list A) : result (list B) :=
  match l with
  | [] => Ok []
  | x :: l => let* y := f x in let* ys := map_result l in Ok (y :: ys)
  end.
End map_result.

(** * Tactics of the development *)

(** Splits boolean conjunctions and disjunctions in hypotheses and decides
    [bool_decide] equalities. *)
Ltac bool_hyps :=
  repeat match goal with
  | H : (_ && _) = true |- _ => apply andb_true_iff in H as [??]
  | H : (_ || _) = false |- _ => apply orb_false_iff in H as [??]
  | H : negb _ = true |- _ => apply negb_true_iff in H
  | H : negb _ = false |- _ => apply negb_false_iff in H
  | H : bool_decide _ = true |- _ => apply bool_decide_eq_true in H
  | H : bool_decide _ = false |- _ => apply bool_decide_eq_false in H
  end; simplify_eq.

(** Case analysis on the scrutinee of a match or if in a hypothesis, keeping
    the equation; closes the branches that return an error. *)
Ltac inv_result :=
  repeat match goal with
  | H : Err _ = Ok _ |- _ => discriminate H
  | H : Ok _ = Err _ |- _ => discriminate H
  | H : rbind ?r _ = _ |- _ => destruct r eqn:?; cbn [rbind] in H
  | H : (if ?b then _ else _) = Ok _ |- _ => destruct b eqn:?
  | H : rwrap _ _ ?r = Ok _ |- _ => destruct r eqn:?; cbn [rwrap] in H
  end; simplify_eq.

Ltac case_if := match goal with |- context [if ?b then _ else _] => destruct b eqn:? end.

Ltac case_if_in H := match type of H with context [if ?b then _ else _] => destruct b eqn:? end.

(** Runs a chain of checks in [H : ... = Ok _] that is known to have succeeded. *)
Ltac run_checks H :=
  repeat match type of H with
  | (if ?b then Err _ else _) = _ => destruct b eqn:?; [discriminate H|]
  | (if ?b then _ else _) = _ => destruct b eqn:?
  | rbind ?r _ = Ok _ => let E := fresh "E" in destruct r eqn:E; [cbn [rbind] in H|discriminate H]
  end; simplify_eq.

(** * Generic lemmas *)

Create HintDb go.

Section lists.
Context {A B : Type}.
Implicit Types l : list A.

Lemma check_all_ok (f : nat → A → result unit) i l :
  check_all f i l = Ok tt ↔ ∀ k x, l !! k = Some x → f (i + k) x = Ok tt.
Proof.
  revert i. induction l as [|x l IH]; intros i; cbn [check_all].
  - split; [intros _ k x; by rewrite lookup_nil | done].
  - split.
    + intros H [|k] y Hk; simpl in Hk; simplify_eq; inv_result; destruct a.
      * by rewrite Nat.add_0_r.
      * rewrite <- Nat.add_succ_comm. by eapply IH.
    + intros H. pose proof (H 0 x eq_refl) as H0. rewrite Nat.add_0_r in H0.
      rewrite H0. cbn. apply IH. intros k y Hk. rewrite Nat.add_succ_comm. by apply H.
Qed.

(** [check_all] with a body that does not use the index. *)
Lemma check_all_Forall (f : A → result unit) i l :
  check_all (λ _, f) i l = Ok tt ↔ Forall (λ x, f x = Ok tt) l.
Proof. rewrite check_all_ok, Forall_lookup. naive_solver. Qed.

Lemma existsb_bool (p : A → bool) l : existsb p l = true ↔ ∃ x, x ∈ l ∧ p x = true.
Proof.
  rewrite existsb_exists. setoid_rewrite list_elem_of_In. done.
Qed.

Lemma forallb_bool (p : A → bool) l : forallb p l = true ↔ ∀ x, x ∈ l → p x = true.
Proof.
  rewrite forallb_forall. setoid_rewrite list_elem_of_In. done.
Qed.

Lemma existsb_false (p : A → bool) l : existsb p l = false ↔ ∀ x, x ∈ l → p x = false.
Proof.
  rewrite <- not_true_iff_false, existsb_bool. split.
  - intros H x Hx. apply not_true_iff_false. naive_solver.
  - intros H (x & Hx & Hp). rewrite H in Hp; done.
Qed.

(** The first element satisfying [p], as a loop with [break] or an early
    return finds it. *)
Lemma find_some_first (p : A → bool) l x :
  find p l = Some x ↔ ∃ l1 l2, l = l1 ++ x :: l2 ∧ p x = true ∧ (∀ y, y ∈ l1 → p y = false).
Proof.
  split.
  - induction l as [|y l IH]; cbn; [done|]. destruct (p y) eqn:E.
    + intros [= ->]. exists [], l. set_solver.
    + intros H. destruct (IH H) as (l1 & l2 & -> & ? & ?).
      exists (y :: l1), l2. repeat split; [done|]. set_solver.
  - intros (l1 & l2 & -> & Hx & Hl). induction l1 as [|y l1 IH]; cbn.
    + by rewrite Hx.
    + rewrite Hl by set_solver. apply IH. set_solver.
Qed.

Lemma find_none_all (p : A → bool) l : find p l = None ↔ ∀ y, y ∈ l → p y = false.
Proof.
  split.
  - intros H y Hy. apply list_elem_of_In in Hy. by eapply List.find_none in H.
  - induction l as [|y l IH]; intros H; cbn; [done|].
    rewrite (H y) by set_solver. apply IH. set_solver.
Qed.
End lists.

(** [if b { return err }] followed by [k]. *)
Lemma fail_if_ok (b : bool) e (k : result unit) :
  (if b then Err e else k) = Ok tt ↔ b = false ∧ k = Ok tt.
Proof. destruct b; naive_solver. Qed.
Lemma check_ok (c k : result unit) : (check* c in k) = Ok tt ↔ c = Ok tt ∧ k = Ok tt.
Proof. destruct c as [[]|]; cbn; naive_solver. Qed.

Lemma fail_ok (b : bool) e : (if b then Err e else Ok tt) = Ok tt ↔ b = false.
Proof. destruct b; naive_solver. Qed.
Lemma check_list_ok {A} (f : A → result unit) l :
  check_all (λ _, f) 0 l = Ok tt ↔ ∀ x, x ∈ l → f x = Ok tt.
Proof. rewrite check_all_Forall, Forall_forall. done. Qed.
Lemma rbind_ok {A B} (r : result A) (k : A → result B) b :
  rbind r k = Ok b ↔ ∃ a, r = Ok a ∧ k a = Ok b.
Proof. destruct r; cbn; naive_solver. Qed.

Lemma is_ok_true {A} (r : result A) : is_ok r = true ↔ ∃ a, r = Ok a.
Proof. destruct r; naive_solver. Qed.

Lemma rwrap_ok {A} f args (r : result A) a : rwrap f args r = Ok a ↔ r = Ok a.
Proof. destruct r; cbn; naive_solver. Qed.
#[export] Hint Rewrite @rwrap_ok : go.
Lemma map_result_ok {A B} (f : A → result B) l ys :
  map_result f l = Ok ys ↔ Forall2 (λ x y, f x = Ok y) l ys.
Proof.
  revert ys. induction l as [|x l IH]; intros ys; cbn [map_result].
  - split; [intros [= <-]; constructor|]. by intros ->%Forall2_nil_inv_l.
  - rewrite rbind_ok. split.
    + intros (y & Hy & (zs & Hzs%IH & [= <-])%rbind_ok). by constructor.
    + intros (y & zs & Hy & Hzs & ->)%Forall2_cons_inv_l. exists y. split; [done|].
      apply rbind_ok. exists zs. by rewrite IH.
Qed.

(** * A text form of encoded values *)

(** The bits of a number as a string of zeros and ones. *)
Fixpoint bits (p : positive) : string :=
  match p with xH => "" | xO p => String "0" (bits p) | xI p => String "1" (bits p) end.
Fixpoint unbits (s : string) : positive :=
  match s with "" => xH | String c s => if c =? "0"%char then xO (unbits s) else xI (unbits s) end.
Lemma unbits_bits p : unbits (bits p) = p.
Proof. induction p as [p IH|p IH|]; cbn; [..|done]; rewrite IH; reflexivity. Qed.
