(* ===== verification/GoStrings.v ===== *)
(** The part of Go's [strings], [unicode/utf8] and [path] packages the program
    uses, on byte strings: a Go [string] is a Rocq [string], whose characters
    are bytes.  Each function is named as in Go and follows the documented
    behaviour of the standard library; every lemma here is a fact the
    components' proofs share.

    The Unicode case tables above U+007F are data of the Go distribution and a
    parameter ([Unicode]); the ASCII part, the UTF-8 coding and the Unicode
    space property are written out. *)
From S2P Require Import Prelude.

(** The case tables of package [unicode] for runes above U+007F. *)
Class Unicode : Type := {
  upper_hi : Z → Z;       (* unicode.ToUpper *)
  lower_hi : Z → Z;       (* unicode.ToLower *)
  simple_fold_hi : Z → Z  (* unicode.SimpleFold *)
}.

(** * Bytes *)

Definition byte (c : ascii) : Z := Z.of_N (N_of_ascii c).
Definition char (z : Z) : ascii := ascii_of_N (Z.to_N z).
Definition dquote : ascii := char 34.
(** The one-byte string holding a double quote. *)
Definition dq : string := String dquote "".

Definition in_range (lo hi b : Z) : bool := (lo <=? b)%Z && (b <=? hi)%Z.
Definition is_upper (b : Z) : bool := in_range 65 90 b.
Definition is_lower (b : Z) : bool := in_range 97 122 b.
Definition is_digit (b : Z) : bool := in_range 48 57 b.
Definition is_alpha (b : Z) : bool := is_upper b || is_lower b.

(** * Slices and searching *)

Fixpoint s_take (n : nat) (s : string) : string :=
  match n, s with
  | S n', String c s' => String c (s_take n' s')
  | _, _ => ""
  end.
Fixpoint s_drop (n : nat) (s : string) : string :=
  match n, s with
  | S n', String _ s' => s_drop n' s'
  | O, _ => s
  | S _, "" => ""
  end.

Fixpoint HasPrefix (s pre : string) : bool :=
  match pre, s with
  | "", _ => true
  | String p pre', String c s' => bool_decide (c = p) && HasPrefix s' pre'
  | String _ _, "" => false
  end.
Definition HasSuffix (s suf : string) : bool :=
  (String.length suf <=? String.length s) &&
  bool_decide (s_drop (String.length s - String.length suf) s = suf).
Definition CutPrefix (s pre : string) : option string :=
  if HasPrefix s pre then Some (s_drop (String.length pre) s) else None.
Definition CutSuffix (s suf : string) : option string :=
  if HasSuffix s suf then Some (s_take (String.length s - String.length suf) s) else None.
Definition TrimPrefix (s pre : string) : string := default s (CutPrefix s pre).
Definition TrimSuffix (s suf : string) : string := default s (CutSuffix s suf).

(** [strings.Contains] *)
Fixpoint Contains (s sub : string) : bool :=
  HasPrefix s sub || match s with "" => false | String _ s' => Contains s' sub end.

(** [strings.IndexByte]: the index of the first [c], if any. *)
Fixpoint IndexByte (s : string) (c : ascii) : option nat :=
  match s with
  | "" => None
  | String a s' => if bool_decide (a = c) then Some 0 else S <$> IndexByte s' c
  end.
(** [strings.ContainsAny] for a set of ASCII characters. *)
Definition ContainsAny (s chars : string) : bool :=
  existsb (λ c, existsb (λ d, bool_decide (c = d)) (String.list_ascii_of_string chars))
          (String.list_ascii_of_string s).

(** [strings.Cut(s, sep)] for a one-byte separator: (before, after, found). *)
Fixpoint Cut (s : string) (sep : ascii) : string * string * bool :=
  match s with
  | "" => ("", "", false)
  | String c s' =>
      if bool_decide (c = sep) then ("", s', true)
      else let '(b, a, f) := Cut s' sep in (String c b, a, f)
  end.

(** [strings.Split(s, sep)] for a one-byte separator: never empty. *)
Fixpoint Split (s : string) (sep : ascii) : list string :=
  match s with
  | "" => [""]
  | String c s' =>
      if bool_decide (c = sep) then "" :: Split s' sep
      else match Split s' sep with
           | h :: t => String c h :: t
           | [] => [String c ""]
           end
  end.

(** [strings.Join] *)
Fixpoint Join (l : list string) (sep : string) : string :=
  match l with
  | [] => ""
  | [x] => x
  | x :: l' => x +:+ sep +:+ Join l' sep
  end.

(** [strings.TrimRight(s, cutset)] for a one-byte cutset. *)
Fixpoint TrimRight (s : string) (c : ascii) : string :=
  match s with
  | "" => ""
  | String a s' =>
      match TrimRight s' c with
      | "" => if bool_decide (a = c) then "" else String a ""
      | t => String a t
      end
  end.

(** [strings.Trim(s, cutset)] for a one-byte cutset. *)
Fixpoint TrimLeft (s : string) (c : ascii) : string :=
  match s with
  | String a s' => if bool_decide (a = c) then TrimLeft s' c else s
  | "" => ""
  end.
Definition Trim (s : string) (c : ascii) : string := TrimRight (TrimLeft s c) c.

(** * UTF-8 *)

Definition RuneError : Z := 65533.
Definition cont (b : ascii) : bool := in_range 128 191 (byte b).
Definition low6 (b : ascii) : Z := (byte b - 128)%Z.

(** A string as [range] visits it: every rune with the bytes it was read from;
    an invalid byte is [RuneError] of width one. *)
Fixpoint runes (s : string) : list (Z * string) :=
  match s with
  | "" => []
  | String c0 s1 =>
      let b0 := byte c0 in
      let bad (_ : unit) := (RuneError, String c0 "") :: runes s1 in
      if (b0 <? 128)%Z then (b0, String c0 "") :: runes s1
      else if in_range 194 223 b0 then
        match s1 with
        | String c1 s2 =>
            if cont c1 then (((b0 - 192) * 64 + low6 c1)%Z, String c0 (String c1 "")) :: runes s2
            else bad tt
        | _ => bad tt
        end
      else if in_range 224 239 b0 then
        match s1 with
        | String c1 (String c2 s3) =>
            let lo := if (b0 =? 224)%Z then 160%Z else 128%Z in
            let hi := if (b0 =? 237)%Z then 159%Z else 191%Z in
            if in_range lo hi (byte c1) && cont c2 then
              (((b0 - 224) * 4096 + low6 c1 * 64 + low6 c2)%Z,
               String c0 (String c1 (String c2 ""))) :: runes s3
            else bad tt
        | _ => bad tt
        end
      else if in_range 240 244 b0 then
        match s1 with
        | String c1 (String c2 (String c3 s4)) =>
            let lo := if (b0 =? 240)%Z then 144%Z else 128%Z in
            let hi := if (b0 =? 244)%Z then 143%Z else 191%Z in
            if in_range lo hi (byte c1) && cont c2 && cont c3 then
              (((b0 - 240) * 262144 + low6 c1 * 4096 + low6 c2 * 64 + low6 c3)%Z,
               String c0 (String c1 (String c2 (String c3 "")))) :: runes s4
            else bad tt
        | _ => bad tt
        end
      else bad tt
  end.

(** [utf8.AppendRune] *)
Definition EncodeRune (r : Z) : string :=
  let b z := char z in
  if (r <? 0)%Z then String (char 239) (String (char 191) (String (char 189) ""))
  else if (r <? 128)%Z then String (b r) ""
  else if (r <? 2048)%Z then String (b (192 + r / 64)%Z) (String (b (128 + r mod 64)%Z) "")
  else if in_range 55296 57343 r || (1114111 <? r)%Z then
    String (char 239) (String (char 191) (String (char 189) ""))
  else if (r <? 65536)%Z then
    String (b (224 + r / 4096)%Z) (String (b (128 + (r / 64) mod 64)%Z)
      (String (b (128 + r mod 64)%Z) ""))
  else
    String (b (240 + r / 262144)%Z) (String (b (128 + (r / 4096) mod 64)%Z)
      (String (b (128 + (r / 64) mod 64)%Z) (String (b (128 + r mod 64)%Z) ""))).

(** [unicode.IsSpace]: White_Space of the Unicode database. *)
Definition IsSpace (r : Z) : bool :=
  in_range 9 13 r || (r =? 32)%Z || (r =? 133)%Z || (r =? 160)%Z || (r =? 5760)%Z ||
  in_range 8192 8202 r || (r =? 8232)%Z || (r =? 8233)%Z || (r =? 8239)%Z ||
  (r =? 8287)%Z || (r =? 12288)%Z.

Fixpoint concat_string (l : list string) : string :=
  match l with [] => "" | x :: l' => x +:+ concat_string l' end.

Fixpoint drop_while {A} (p : A → bool) (l : list A) : list A :=
  match l with
  | [] => []
  | x :: l' => if p x then drop_while p l' else l
  end.
Definition drop_while_end {A} (p : A → bool) (l : list A) : list A :=
  rev (drop_while p (rev l)).

(** [strings.TrimSpace] *)
Definition TrimSpace (s : string) : string :=
  let sp (x : Z * string) := IsSpace x.1 in
  concat_string (snd <$> drop_while_end sp (drop_while sp (runes s))).

Section unicode.
Context {U : Unicode}.

Definition rune_upper (r : Z) : Z :=
  if (r <? 128)%Z then if is_lower r then (r - 32)%Z else r else upper_hi r.
Definition rune_lower (r : Z) : Z :=
  if (r <? 128)%Z then if is_upper r then (r + 32)%Z else r else lower_hi r.
Definition ToUpper (s : string) : string :=
  concat_string ((λ x : Z * string, EncodeRune (rune_upper x.1)) <$> runes s).
Definition ToLower (s : string) : string :=
  concat_string ((λ x : Z * string, EncodeRune (rune_lower x.1)) <$> runes s).

(** [unicode.SimpleFold]: the next rune of the case-folding orbit. *)
Definition SimpleFold (r : Z) : Z :=
  if (r <? 128)%Z then
    if (r =? 107)%Z then 8490%Z          (* k: KELVIN SIGN *)
    else if (r =? 115)%Z then 383%Z      (* s: LONG S *)
    else if is_upper r then (r + 32)%Z
    else if is_lower r then (r - 32)%Z
    else r
  else simple_fold_hi r.

(** [r := SimpleFold(sr); for r != sr && r < tr { r = SimpleFold(r) }; r == tr];
    the fuel bounds the orbit, whose longest has four runes in Unicode. *)
Fixpoint fold_reaches (fuel : nat) (sr r tr : Z) : bool :=
  match fuel with
  | O => (r =? tr)%Z
  | S fuel' =>
      if negb (r =? sr)%Z && (r <? tr)%Z then fold_reaches fuel' sr (SimpleFold r) tr
      else (r =? tr)%Z
  end.
Definition rune_fold_eq (a b : Z) : bool :=
  if (a =? b)%Z then true
  else
    let sr := Z.min a b in
    let tr := Z.max a b in
    if (tr <? 128)%Z then is_upper sr && (tr =? sr + 32)%Z
    else fold_reaches 16 sr (SimpleFold sr) tr.

Fixpoint fold_runes (l m : list (Z * string)) : bool :=
  match l, m with
  | [], [] => true
  | (a, _) :: l', (b, _) :: m' => rune_fold_eq a b && fold_runes l' m'
  | _, _ => false
  end.
(** [strings.EqualFold] *)
Definition EqualFold (s t : string) : bool := fold_runes (runes s) (runes t).

Lemma fold_runes_refl l : fold_runes l l = true.
Proof.
  induction l as [|[r c] l IH]; cbn; [done|]. rewrite IH.
  unfold rune_fold_eq. by rewrite Z.eqb_refl.
Qed.
Lemma EqualFold_refl s : EqualFold s s = true.
Proof. apply fold_runes_refl. Qed.
End unicode.

(** Tables under which every rune above U+007F is its own case; the witnesses
    evaluate on ASCII data with them. *)
Definition ascii_unicode : Unicode :=
  {| upper_hi r := r; lower_hi r := r; simple_fold_hi r := r |}.

(** * Package path *)

(** One step of [path.Clean] on a path element: [stack] is the output so far,
    last element first. *)
Definition clean_step (rooted : bool) (stack : list string) (seg : string) : list string :=
  if bool_decide (seg = "") || bool_decide (seg = ".") then stack
  else if bool_decide (seg = "..") then
    match stack with
    | top :: rest => if bool_decide (top = "..") then seg :: stack else rest
    | [] => if rooted then [] else [seg]
    end
  else seg :: stack.

(** [path.Clean] *)
Definition path_Clean (p : string) : string :=
  let rooted := HasPrefix p "/" in
  let out := Join (rev (foldl (clean_step rooted) [] (Split p "/"))) "/" in
  if rooted then "/" +:+ out else if bool_decide (out = "") then "." else out.
(** [path.Join] *)
Definition path_Join (elem : list string) : string :=
  match filter (λ e, e ≠ "") elem with [] => "" | l => path_Clean (Join l "/") end.
(** [filepath.Dir] on Unix: what comes up to the last slash, cleaned. *)
Fixpoint upto_last (c : ascii) (s : string) : string :=
  match s with
  | "" => ""
  | String a s' =>
      match upto_last c s' with
      | "" => if bool_decide (a = c) then String a "" else ""
      | t => String a t
      end
  end.
Definition filepath_Dir (p : string) : string := path_Clean (upto_last "/" p).

(** * Lemmas *)

Lemma app_cons c s t : String c s +:+ t = String c (s +:+ t).
Proof. done. Qed.
Lemma app_nil_l' s : "" +:+ s = s.
Proof. done. Qed.
Lemma s_app_nil_r s : s +:+ "" = s.
Proof. induction s as [|c s IH]; [done|]. by rewrite app_cons, IH. Qed.
Lemma s_app_assoc s t u : (s +:+ t) +:+ u = s +:+ t +:+ u.
Proof. induction s as [|c s IH]; [done|]. by rewrite !app_cons, IH. Qed.
Lemma s_length_app s t : String.length (s +:+ t) = String.length s + String.length t.
Proof. induction s as [|c s IH]; [done|]. rewrite app_cons. cbn. by rewrite IH. Qed.
#[export] Hint Rewrite app_cons app_nil_l' s_app_nil_r s_app_assoc s_length_app : go.

Lemma s_app_inj_l s t u : s +:+ t = s +:+ u → t = u.
Proof. induction s as [|c s IH]; [done|]. rewrite !app_cons. intros [=]. auto. Qed.
Lemma s_app_inj_r s t u : s +:+ u = t +:+ u → s = t.
Proof.
  revert t. induction s as [|c s IH]; intros [|d t] H; [done| | |].
  - apply (f_equal String.length) in H. rewrite !s_length_app in H. cbn in H. lia.
  - apply (f_equal String.length) in H. rewrite !s_length_app in H. cbn in H. lia.
  - rewrite !app_cons in H. injection H as -> H. f_equal. auto.
Qed.
Lemma s_app_eq_nil s t : s +:+ t = "" → s = "" ∧ t = "".
Proof. destruct s; [done|]. rewrite app_cons. done. Qed.

Lemma s_length_nil s : String.length s = 0 → s = "".
Proof. by destruct s. Qed.

Lemma s_drop_app s t : s_drop (String.length s) (s +:+ t) = t.
Proof. induction s as [|c s IH]; [by destruct t|]. rewrite app_cons. apply IH. Qed.
Lemma s_take_app s t : s_take (String.length s) (s +:+ t) = s.
Proof. induction s as [|c s IH]; [done|]. rewrite app_cons. cbn. by rewrite IH. Qed.
Lemma s_take_drop n s : s_take n s +:+ s_drop n s = s.
Proof.
  revert s. induction n as [|n IH]; intros [|c s]; try done.
  cbn. rewrite app_cons. by rewrite IH.
Qed.
Lemma s_drop_0 s : s_drop 0 s = s.
Proof. by destruct s. Qed.
Lemma s_length_take n s : String.length (s_take n s) = n `min` String.length s.
Proof. revert s. induction n as [|n IH]; intros [|c s]; cbn; auto. Qed.

(** [strings.HasPrefix], [strings.HasSuffix] and [strings.Contains]
    characterised by concatenation. *)
Lemma HasPrefix_spec s pre : HasPrefix s pre = true ↔ ∃ t, s = pre +:+ t.
Proof.
  revert s. induction pre as [|p pre IH]; intros s; cbn.
  - split; [by exists s|by destruct s].
  - destruct s as [|c s].
    + split; [done|]. intros (t & Ht). done.
    + cbn. rewrite andb_true_iff, bool_decide_eq_true, IH. split.
      * intros (-> & t & ->). exists t. done.
      * intros (t & Ht). rewrite app_cons in Ht. naive_solver.
Qed.
Lemma HasPrefix_app pre t : HasPrefix (pre +:+ t) pre = true.
Proof. apply HasPrefix_spec. eauto. Qed.
Lemma HasPrefix_refl s : HasPrefix s s = true.
Proof. rewrite <- (s_app_nil_r s) at 1. apply HasPrefix_app. Qed.
Lemma HasPrefix_nil s : HasPrefix s "" = true.
Proof. by destruct s. Qed.
Lemma HasPrefix_trans a b c : HasPrefix a b = true → HasPrefix b c = true → HasPrefix a c = true.
Proof.
  rewrite !HasPrefix_spec. intros (t & ->) (u & ->). exists (u +:+ t). by rewrite s_app_assoc.
Qed.
#[export] Hint Resolve HasPrefix_app HasPrefix_refl HasPrefix_nil : go.

Lemma HasSuffix_spec s suf : HasSuffix s suf = true ↔ ∃ t, s = t +:+ suf.
Proof.
  unfold HasSuffix. rewrite andb_true_iff, bool_decide_eq_true, Nat.leb_le. split.
  - intros (Hlen & Hd). exists (s_take (String.length s - String.length suf) s).
    rewrite <- Hd at 2. by rewrite s_take_drop.
  - intros (t & ->). rewrite s_length_app. split; [lia|].
    replace (String.length t + String.length suf - String.length suf) with (String.length t) by lia.
    apply s_drop_app.
Qed.

Lemma CutPrefix_spec s pre t : CutPrefix s pre = Some t ↔ s = pre +:+ t.
Proof.
  unfold CutPrefix. destruct (HasPrefix s pre) eqn:E.
  - apply HasPrefix_spec in E as (u & ->). rewrite s_drop_app. split; [naive_solver|].
    intros H%s_app_inj_l. by subst.
  - split; [done|]. intros ->. by rewrite HasPrefix_app in E.
Qed.
Lemma CutSuffix_spec s suf t : CutSuffix s suf = Some t ↔ s = t +:+ suf.
Proof.
  unfold CutSuffix. destruct (HasSuffix s suf) eqn:E.
  - apply HasSuffix_spec in E as (u & ->). rewrite s_length_app.
    replace (String.length u + String.length suf - String.length suf) with (String.length u) by lia.
    rewrite s_take_app. split; [naive_solver|]. intros H%s_app_inj_r. by subst.
  - split; [done|]. intros ->. apply not_true_iff_false in E.
    destruct E. apply HasSuffix_spec. eauto.
Qed.
Lemma CutSuffix_none s suf : CutSuffix s suf = None ↔ ¬ ∃ t, s = t +:+ suf.
Proof.
  rewrite <- HasSuffix_spec. unfold CutSuffix. destruct (HasSuffix s suf); naive_solver.
Qed.
Lemma TrimPrefix_app pre t : TrimPrefix (pre +:+ t) pre = t.
Proof. unfold TrimPrefix. by rewrite (proj2 (CutPrefix_spec _ _ t)). Qed.

Lemma Contains_spec s sub : Contains s sub = true ↔ ∃ a b, s = a +:+ sub +:+ b.
Proof.
  split.
  - induction s as [|c s IH]; intros H; cbn [Contains] in H.
    + rewrite orb_false_r in H. apply HasPrefix_spec in H as (t & Ht). by exists "", t.
    + apply orb_true_iff in H as [H|H].
      * apply HasPrefix_spec in H as (t & Ht). by exists "", t.
      * destruct (IH H) as (a & b & ->). by exists (String c a), b.
  - intros (a & b & ->). induction a as [|c a IH].
    + rewrite app_nil_l'. destruct (sub +:+ b) eqn:E; cbn [Contains];
        rewrite <- E; by rewrite HasPrefix_app.
    + rewrite app_cons. cbn [Contains]. rewrite IH. by rewrite orb_true_r.
Qed.
Lemma Contains_nil_r s : Contains s "" = true.
Proof. apply Contains_spec. by exists "", s. Qed.

Lemma s_in_app c s t :
  c ∈ String.list_ascii_of_string (s +:+ t) ↔
  c ∈ String.list_ascii_of_string s ∨ c ∈ String.list_ascii_of_string t.
Proof. induction s as [|d s IH]; [set_solver|]. rewrite app_cons. cbn. set_solver. Qed.

(** [strings.Split] and [strings.Join] are inverse on elements free of the
    separator. *)
Definition sep_free (c : ascii) (s : string) : Prop := c ∉ String.list_ascii_of_string s.

Lemma Split_cons s c : ∃ h t, Split s c = h :: t.
Proof.
  induction s as [|d s (h & t & IH)]; cbn; [eauto|].
  case_bool_decide; [eauto|]. rewrite IH. eauto.
Qed.
Lemma Split_nonempty s c : Split s c ≠ [].
Proof. destruct (Split_cons s c) as (? & ? & ->). done. Qed.

Lemma Split_sep_free s c : Forall (sep_free c) (Split s c).
Proof.
  induction s as [|d s IH]; cbn.
  - constructor; [|done]. unfold sep_free. cbn. set_solver.
  - case_bool_decide as Hd.
    + constructor; [unfold sep_free; cbn; set_solver|done].
    + destruct (Split_cons s c) as (h & t & E). rewrite E in *.
      inversion IH as [|?? Hh Ht]; subst.
      constructor; [|done]. unfold sep_free in *. cbn. set_solver.
Qed.

Lemma Join_cons x l sep : l ≠ [] → Join (x :: l) sep = x +:+ sep +:+ Join l sep.
Proof. by destruct l. Qed.

Lemma Join_Split s c : Join (Split s c) (String c "") = s.
Proof.
  induction s as [|d s IHs]; cbn; [done|].
  case_bool_decide as Hd.
  - subst. rewrite Join_cons by apply Split_nonempty. by rewrite IHs.
  - destruct (Split_cons s c) as (h & t & E). rewrite E in IHs |- *.
    destruct t as [|h' t]; [cbn in *; by rewrite IHs|].
    rewrite Join_cons in IHs |- * by done. by rewrite app_cons, IHs.
Qed.

Lemma sep_free_cons c d s : sep_free c (String d s) ↔ d ≠ c ∧ sep_free c s.
Proof. unfold sep_free. cbn. set_solver. Qed.
Lemma sep_free_app c s t : sep_free c (s +:+ t) ↔ sep_free c s ∧ sep_free c t.
Proof. unfold sep_free. rewrite s_in_app. naive_solver. Qed.
Lemma sep_free_nil c : sep_free c "".
Proof. unfold sep_free. cbn. set_solver. Qed.
#[export] Hint Resolve sep_free_nil : go.

Lemma Split_sep s c t : sep_free c s → Split (s +:+ String c t) c = s :: Split t c.
Proof.
  induction s as [|d s IH]; [intros _|intros [Hd Hs]%sep_free_cons].
  - rewrite app_nil_l'. cbn. by rewrite bool_decide_true.
  - rewrite app_cons. cbn. rewrite bool_decide_false by done. by rewrite IH.
Qed.
Lemma Split_snoc t c : Split (t +:+ String c "") c = Split t c ++ [""].
Proof.
  induction t as [|d t IH]; [rewrite app_nil_l'; cbn; by rewrite bool_decide_true|].
  rewrite app_cons. cbn. rewrite IH. case_bool_decide; [done|].
  by destruct (Split_cons t c) as (h & tl & ->).
Qed.
Lemma Split_free s c : sep_free c s → Split s c = [s].
Proof.
  induction s as [|d s IH]; intros Hf; cbn; [done|].
  apply sep_free_cons in Hf as [??].
  rewrite bool_decide_false by done. by rewrite IH.
Qed.
Lemma Split_Join l c : l ≠ [] → Forall (sep_free c) l → Split (Join l (String c "")) c = l.
Proof.
  induction l as [|x l IH]; intros Hne Hf; [done|].
  inversion Hf as [|?? Hx Hl]; subst. destruct l as [|y l].
  - cbn. by apply Split_free.
  - change (Join (x :: y :: l) (String c "")) with (x +:+ String c "" +:+ Join (y :: l) (String c "")).
    rewrite app_cons, app_nil_l', Split_sep by done. f_equal. by apply IH.
Qed.

Lemma Cut_spec s sep :
  match Cut s sep with
  | (b, a, true) => s = b +:+ String sep a ∧ sep_free sep b
  | (b, a, false) => b = s ∧ a = "" ∧ sep_free sep s
  end.
Proof.
  induction s as [|c s IH]; cbn.
  - unfold sep_free. cbn. set_solver.
  - case_bool_decide as Hc; [subst; split; [done|unfold sep_free; cbn; set_solver]|].
    destruct (Cut s sep) as [[b a] []].
    + destruct IH as [-> Hf]. split; [done|]. unfold sep_free in *. cbn. set_solver.
    + destruct IH as (-> & -> & Hf). repeat split. unfold sep_free in *. cbn. set_solver.
Qed.

(** ** Clean rooted paths *)

(** An element a cleaned rooted path may have. *)
Definition normal_seg (s : string) : Prop :=
  s ≠ "" ∧ s ≠ "." ∧ s ≠ ".." ∧ sep_free "/" s.

Lemma clean_step_normal st s : normal_seg s → clean_step true st s = s :: st.
Proof.
  intros (?&?&?&?). unfold clean_step. by rewrite !bool_decide_false.
Qed.
Lemma clean_step_inv st s :
  Forall normal_seg st → sep_free "/" s → Forall normal_seg (clean_step true st s).
Proof.
  intros Hst Hs. unfold clean_step.
  destruct (bool_decide (s = "") || bool_decide (s = ".")) eqn:E; [done|].
  bool_hyps. case_bool_decide as Hdd.
  - destruct st as [|top rest]; [done|].
    inversion Hst as [|?? (?&?&?&?) ?]; subst. by rewrite bool_decide_false.
  - constructor; [by unfold normal_seg|done].
Qed.
Lemma foldl_clean_inv l st :
  Forall normal_seg st → Forall (sep_free "/") l →
  Forall normal_seg (foldl (clean_step true) st l).
Proof.
  revert st. induction l as [|s l IH]; intros st Hst Hl; [done|].
  inversion Hl; subst. cbn. apply IH; [by apply clean_step_inv|done].
Qed.
Lemma foldl_clean_normal l st :
  Forall normal_seg l → foldl (clean_step true) st l = rev l ++ st.
Proof.
  revert st. induction l as [|s l IH]; intros st Hl; [done|].
  inversion Hl; subst. cbn. rewrite clean_step_normal by done.
  rewrite IH by done. by rewrite <- app_assoc.
Qed.

(** The elements of a cleaned rooted path. *)
Definition clean_segs (p : string) : list string :=
  rev (foldl (clean_step true) [] (Split p "/")).
Lemma clean_segs_normal p : Forall normal_seg (clean_segs p).
Proof.
  unfold clean_segs. apply Forall_rev, foldl_clean_inv; [done|apply Split_sep_free].
Qed.
Lemma path_Clean_rooted p :
  HasPrefix p "/" = true → path_Clean p = "/" +:+ Join (clean_segs p) "/".
Proof. intros H. unfold path_Clean. by rewrite H. Qed.

Lemma normal_seg_free s : normal_seg s → sep_free "/" s.
Proof. by intros (?&?&?&?). Qed.

Lemma Split_rooted segs :
  Forall normal_seg segs → segs ≠ [] → Split ("/" +:+ Join segs "/") "/" = "" :: segs.
Proof.
  intros Hs Hne. rewrite app_cons, app_nil_l'. cbn.
  rewrite bool_decide_true by done. f_equal. apply Split_Join; [done|].
  eapply Forall_impl; [done|apply normal_seg_free].
Qed.
Lemma clean_segs_rooted segs :
  Forall normal_seg segs → clean_segs ("/" +:+ Join segs "/") = segs.
Proof.
  intros Hs. destruct segs as [|x segs]; [done|].
  unfold clean_segs. rewrite Split_rooted by done.
  change (foldl (clean_step true) [] ("" :: x :: segs)) with
    (foldl (clean_step true) [] (x :: segs)).
  rewrite foldl_clean_normal by exact Hs. by rewrite app_nil_r, rev_involutive.
Qed.

(** A rooted path is its own [path.Clean] exactly when it is "/" followed by
    normal elements separated by single slashes. *)
Lemma path_Clean_fix p :
  HasPrefix p "/" = true →
  path_Clean p = p ↔ ∃ segs, Forall normal_seg segs ∧ p = "/" +:+ Join segs "/".
Proof.
  intros Hr. split.
  - intros H. exists (clean_segs p). split; [apply clean_segs_normal|].
    by rewrite <- path_Clean_rooted.
  - intros (segs & Hs & ->). rewrite path_Clean_rooted by apply HasPrefix_app.
    by rewrite clean_segs_rooted.
Qed.

Lemma path_Clean_idem p : HasPrefix p "/" = true → path_Clean (path_Clean p) = path_Clean p.
Proof.
  intros Hr. rewrite (path_Clean_rooted p) by done.
  apply path_Clean_fix; [apply HasPrefix_app|]. eexists. split; [apply clean_segs_normal|done].
Qed.
