(* ===== verification/ConfigTypes.v ===== *)
(** The configuration data of [internal/config]: one record per struct, with
    the struct's field names, and the predicates every other component asks of
    it ([JWTEnabled], [LoginSources], [LoginMethodCount], [OAuthEnabled], ...).

    Durations are nanoseconds in [Z].  Fields that cache what [Validate] parsed
    (target URL, certificate pool, decoded keys, compiled patterns, normalised
    prefixes) are part of the record, as in the struct; third-party values in
    them (certificates, keys, regular expressions) are of types supplied by the
    class [Crypto] and [Regexp]. *)
From S2P Require Import Prelude GoStrings.

(** * net/url *)

(** [url.URL]; [User] is the textual userinfo. *)
Record URL := mkURL {
  u_Scheme : string; u_Opaque : string; u_User : option string; u_Host : string;
  u_Path : string; u_RawPath : string; u_ForceQuery : bool; u_RawQuery : string;
  u_Fragment : string
}.

(** Index of the last [c] in [s]. *)
Fixpoint LastIndexByte (s : string) (c : ascii) : option nat :=
  match s with
  | "" => None
  | String a s' =>
      match LastIndexByte s' c with
      | Some i => Some (S i)
      | None => if bool_decide (a = c) then Some 0 else None
      end
  end.
Definition all_digits (s : string) : bool :=
  forallb (λ c, is_digit (byte c)) (String.list_ascii_of_string s).
(** [validOptionalPort] of net/url: "" or ":" followed by digits. *)
Definition validOptionalPort (port : string) : bool :=
  match port with
  | "" => true
  | String c rest => bool_decide (c = ":"%char) && all_digits rest
  end.
(** [URL.Hostname] *)
Definition Hostname (u : URL) : string :=
  let h := u_Host u in
  let host := match LastIndexByte h ":" with
              | Some i => if validOptionalPort (s_drop i h) then s_take i h else h
              | None => h
              end in
  if HasPrefix host "[" && HasSuffix host "]"
  then s_take (String.length host - 2) (s_drop 1 host) else host.

(** The parsing functions of package net/url and [URL.String]. *)
Class NetURL : Type := {
  url_Parse : string → result URL;
  url_ParseRequestURI : string → result URL;
  url_String : URL → string
}.

(** * Library values held by the configuration *)

Class Crypto : Type := {
  CertPool : Type;             (* *x509.CertPool *)
  Certificate : Type;          (* *x509.Certificate *)
  ECPrivateKey : Type;         (* *ecdsa.PrivateKey on P-256 *)
  RSAPrivateKey : Type;        (* *rsa.PrivateKey *)
  empty_pool : CertPool;
  AddCert : CertPool → Certificate → CertPool
}.
Class Regexp : Type := {
  regexp : Type;
  regexp_Compile : string → result regexp;
  NumSubexp : regexp → nat;
  FindStringSubmatch : regexp → string → option (list string)
}.

Section types.
Context {C : Crypto} {R : Regexp}.

(** config/acl.go *)
Record ACLPrincipal := mkACLPrincipal {
  ap_Mode : string; ap_Source : string; ap_Username : string;
  ap_Claims : gmap string string
}.
Record ACLRule := mkACLRule {
  ar_Principals : list ACLPrincipal; ar_Methods : list string; ar_Paths : list string
}.

(** config/auth.go *)
Record CredentialLocation := mkCredentialLocation {
  cl_Location : string; cl_Name : string; cl_Prefix : string
}.
Record JWTLogin := mkJWTLogin {
  l_ClientID : string; l_ClientSecret : string; l_TokenAuthMethod : string;
  l_Scopes : list string; l_SPBaseURL : string; l_CallbackPath : string;
  l_CookieName : string; l_Label : string; l_Refresh : bool; l_RefreshMaxAge : Z;
  l_EndSession : bool; l_PostLogoutRedirectURI : string
}.
Record JWTSource := mkJWTSource {
  j_Name : string; j_Disabled : bool; j_Issuer : string; j_Audiences : list string;
  j_Credentials : list CredentialLocation; j_JWKSURL : string;
  j_OIDCDiscoveryURL : string; j_CACert : string; j_Algorithms : list string;
  j_JWKSCacheTTL : Z; j_ClockSkew : Z; j_Login : option JWTLogin; j_Local : bool
}.
Record SAMLSource := mkSAMLSource {
  s_Name : string; s_Disabled : bool; s_Issuer : string; s_Audiences : list string;
  s_IDPMetadataURL : string; s_IDPMetadataCacheTTL : Z; s_SPBaseURL : string;
  s_SPEntityID : string; s_ACSPath : string; s_SessionCookie : string;
  s_SessionSigningKeyEnv : string; s_SessionDuration : Z; s_CACert : string;
  s_SPKeyEnv : string; s_SPCert : string
}.
Record BasicUser := mkBasicUser { bu_Username : string; bu_PasswordHash : string }.
Record BasicSource := mkBasicSource {
  b_Disabled : bool; b_Realm : string; b_Users : list BasicUser
}.
Record LoginPageConfig := mkLoginPageConfig { lp_CSS : string }.
Record InboundAuthConfig := mkInboundAuth {
  a_JWT : list JWTSource; a_SAML : option SAMLSource; a_Basic : option BasicSource;
  a_LoginPage : option LoginPageConfig
}.

(** config/oauth.go *)
Record OAuthClient := mkOAuthClient { oc_ID : string; oc_RedirectURIs : list string }.
Record OAuthDenylist := mkDenylist { d_Subjects : list string }.
Record DynamicRegistration := mkDynReg { dr_Enabled : bool; dr_RedirectURIs : list string }.
Record OAuthServerConfig := mkOAuthServer {
  o_Disabled : bool; o_SPBaseURL : string; o_MCPURL : string; o_CodeTTL : Z;
  o_RefreshAbsoluteLifetime : Z; o_SealingKeys : list string; o_Clients : list OAuthClient;
  o_DynamicRegistration : DynamicRegistration; o_Denylist : OAuthDenylist;
  o_sealing : list string
}.
Record SigningKey := mkSigningKey { sk_KID : string; sk_PrivateKey : string }.
Record ParsedSigningKey := mkParsedKey { pk_KID : string; pk_Key : ECPrivateKey }.
Record TokenClaims := mkTokenClaims { tc_Subject : string; tc_Email : string; tc_Groups : string }.
Record TokenConfig := mkToken {
  t_SigningKeys : list SigningKey; t_AccessTokenTTL : Z; t_Audience : string;
  t_Claims : TokenClaims; t_keys : list ParsedSigningKey
}.

(** config/promlabel.go *)
Record PromLabel := mkPromLabel {
  pl_Name : string; pl_Claim : string; pl_Pattern : string; pl_pattern : option regexp
}.
Record PromLabelRule := mkPromRule {
  pr_Principals : list ACLPrincipal; pr_Labels : list PromLabel
}.
Record PromLabelProxyConfig := mkProm {
  pp_PathPrefixes : list string; pp_Exempt : list ACLPrincipal; pp_Rules : list PromLabelRule;
  pp_PassthroughPaths : list string; pp_prefixes : list string
}.

(** config/config.go and the two section structs of config/auth.go *)
Record InboundConfig := mkInbound {
  i_Auth : InboundAuthConfig; i_OAuthServer : option OAuthServerConfig
}.
Record OutboundConfig := mkOutbound {
  ob_Token : option TokenConfig; ob_PromLabelProxy : option PromLabelProxyConfig
}.
Record TimeoutConfig := mkTimeouts {
  t_ReadHeader : Z; t_Read : Z; t_Write : Z; t_Idle : Z; t_Dial : Z; t_ResponseHeader : Z
}.
Record Config := mkConfig {
  c_ListenAddr : string; c_Target : string; c_TargetCACert : string;
  c_Timeouts : TimeoutConfig; c_Inbound : InboundConfig; c_Outbound : OutboundConfig;
  c_ACL : list ACLRule; c_targetURL : option URL; c_targetCAPool : option CertPool
}.
End types.

(** * Constants *)

Definition ACLModeBasic := "basic".
Definition ACLModeJWT := "jwt".
Definition ACLModeSAML := "saml".
Definition ACLWildcard := "*".
Definition LoginPathPrefix := "/_tap/login".
Definition LogoutPath := "/_tap/logout".
Definition OAuthPathPrefix := "/_tap/oauth".
Definition OAuthSourceName := "tap-oauth".
Definition TokenAuthBasic := "client_secret_basic".
Definition TokenAuthPost := "client_secret_post".

Definition second : Z := 1000000000.
Definition millisecond : Z := 1000000.
Definition minute : Z := 60 * second.
Definition hour : Z := 60 * minute.

(** * Predicates on the auth configuration (config/auth.go) *)

Definition LoginEnabled (j : JWTSource) : bool :=
  negb (j_Disabled j) && bool_decide (is_Some (j_Login j)).

Definition RefreshCookieName (l : JWTLogin) : string := l_CookieName l +:+ "_refresh".

Definition JWTEnabled (a : InboundAuthConfig) : bool :=
  existsb (λ j, negb (j_Disabled j)) (a_JWT a).
Definition SAMLEnabled (a : InboundAuthConfig) : bool :=
  match a_SAML a with Some s => negb (s_Disabled s) | None => false end.
Definition BasicEnabled (a : InboundAuthConfig) : bool :=
  match a_Basic a with Some b => negb (b_Disabled b) | None => false end.
Definition Enabled (a : InboundAuthConfig) : bool :=
  JWTEnabled a || SAMLEnabled a || BasicEnabled a.

Definition LoginSources (a : InboundAuthConfig) : list JWTSource :=
  List.filter LoginEnabled (a_JWT a).

(** The three counting steps of [LoginMethodCount]. *)
Definition LoginMethodCount (a : InboundAuthConfig) : nat :=
  let n := foldl (λ n j, if LoginEnabled j then S n else n) 0 (a_JWT a) in
  let n := if SAMLEnabled a then S n else n in
  if BasicEnabled a then S n else n.

(** [JWTSourcesByIssuer]: one counting pass that remembers the first match,
    then no list, a slice of the configured list, or a fresh copy. *)
Definition issuer_match (iss : string) (j : JWTSource) : bool :=
  negb (j_Disabled j) && bool_decide (j_Issuer j = iss).
Fixpoint count_issuer (iss : string) (i : nat) (l : list JWTSource) (acc : nat * nat) : nat * nat :=
  match l with
  | [] => acc
  | j :: l' =>
      let '(n, first) := acc in
      count_issuer iss (S i) l'
        (if issuer_match iss j then (S n, if bool_decide (n = 0) then i else first)
         else (n, first))
  end.
Definition JWTSourcesByIssuer (a : InboundAuthConfig) (iss : string) : list JWTSource :=
  let '(n, first) := count_issuer iss 0 (a_JWT a) (0, 0) in
  match n with
  | 0 => []
  | 1 => take 1 (drop first (a_JWT a))
  | _ => foldl (λ matches j, if issuer_match iss j then matches ++ [j] else matches) [] (a_JWT a)
  end.

(** config/oauth.go *)
Definition OAuthEnabled `{Crypto} `{Regexp} (c : Config) : bool :=
  match i_OAuthServer (c_Inbound c), ob_Token (c_Outbound c) with
  | Some o, Some _ => negb (o_Disabled o)
  | _, _ => false
  end.
Definition Issuer (o : OAuthServerConfig) : string :=
  TrimRight (o_SPBaseURL o) "/" +:+ OAuthPathPrefix.
Definition ProtectedResourceMetadataURL (o : OAuthServerConfig) : string :=
  Issuer o +:+ "/protected-resource".
Definition Denylist_Contains `{Unicode} (d : OAuthDenylist) (sub : string) : bool :=
  existsb (λ s, EqualFold s sub) (d_Subjects d).

(** * Lemmas *)

Section issuer.
Implicit Types l : list JWTSource.

Lemma count_issuer_spec iss i l n first :
  (count_issuer iss i l (n, first)).1 = n + length (List.filter (issuer_match iss) l) ∧
  (n = 0 → length (List.filter (issuer_match iss) l) = 1 →
   ∃ l1 j l2, l = l1 ++ j :: l2 ∧ issuer_match iss j = true ∧
     List.filter (issuer_match iss) l = [j] ∧
     (count_issuer iss i l (n, first)).2 = i + length l1) ∧
  (n ≠ 0 → (count_issuer iss i l (n, first)).2 = first).
Proof.
  revert i n first. induction l as [|j l IH]; intros i n first; cbn.
  { split; [cbn; lia|split; [|done]]. cbn. lia. }
  destruct (issuer_match iss j) eqn:Ej; cbn.
  - destruct (IH (S i) (S n) (if bool_decide (n = 0) then i else first)) as (H1 & _ & H3).
    split; [lia|split].
    + intros -> Hl. exists [], j, l. split; [done|split; [done|split]].
      * f_equal. apply length_zero_iff_nil. lia.
      * rewrite H3 by done. rewrite bool_decide_true by done. cbn. lia.
    + intros Hn. rewrite H3 by done. by rewrite bool_decide_false.
  - destruct (IH (S i) n first) as (H1 & H2 & H3). split; [done|split; [|done]].
    intros Hn Hl. destruct (H2 Hn Hl) as (l1 & j' & l2 & -> & Hj & Hf & ->).
    exists (j :: l1), j', l2. split; [done|split; [done|split; [done|cbn; lia]]].
Qed.

Lemma foldl_filter_acc {A} (p : A → bool) (l acc : list A) :
  foldl (λ m x, if p x then m ++ [x] else m) acc l = acc ++ List.filter p l.
Proof.
  revert acc. induction l as [|x l IH]; intros acc; cbn; [by rewrite app_nil_r|].
  destruct (p x); rewrite IH; [by rewrite <- app_assoc|done].
Qed.

(** The three-way optimised lookup is the plain filter of the configured
    list. *)
Lemma JWTSourcesByIssuer_filter a iss :
  JWTSourcesByIssuer a iss = List.filter (issuer_match iss) (a_JWT a).
Proof.
  unfold JWTSourcesByIssuer.
  pose proof (count_issuer_spec iss 0 (a_JWT a) 0 0) as (H1 & H2 & _).
  destruct (count_issuer iss 0 (a_JWT a) (0, 0)) as [n first]; cbn in *.
  destruct n as [|[|n]].
  - symmetry. apply length_zero_iff_nil. lia.
  - destruct (H2 eq_refl) as (l1 & j & l2 & -> & Hj & -> & ->); [lia|].
    by rewrite drop_app_length.
  - by rewrite foldl_filter_acc.
Qed.
End issuer.

Lemma foldl_count {A} (p : A → bool) (l : list A) n :
  foldl (λ n x, if p x then S n else n) n l = n + length (List.filter p l).
Proof. revert n. induction l as [|x l IH]; intros n; cbn; [lia|]. destruct (p x); rewrite IH; cbn; lia. Qed.

Lemma LoginMethodCount_sources a :
  LoginMethodCount a = length (LoginSources a) + (if SAMLEnabled a then 1 else 0) +
                       (if BasicEnabled a then 1 else 0).
Proof.
  unfold LoginMethodCount, LoginSources. rewrite foldl_count.
  destruct (SAMLEnabled a), (BasicEnabled a); lia.
Qed.
