(* ===== verification/PromScope.v ===== *)
(** [internal/promlabel/scope.go]: the labels enforced for a caller, the
    matchers they become, the verdict [Scope] a request carries, and the table
    that decides how a path of the Prometheus and Alertmanager APIs is
    enforced.

    [github.com/prometheus/prometheus/model/labels] supplies [NewMatcher]; the
    matcher it returns is the triple it was given, or an error.
    [regexp.QuoteMeta] is written out. *)
From S2P Require Import Prelude GoStrings.

(** * Labels and matchers *)

Record Label := mkLabel { lb_Name : string; lb_Values : list string }.

(** [slices.Contains(l.Values, value)] *)
Definition allows (l : Label) (value : string) : bool :=
  existsb (λ v, bool_decide (v = value)) (lb_Values l).

Inductive MatchType := MatchEqual | MatchNotEqual | MatchRegexp | MatchNotRegexp.
#[export] Instance MatchType_eq_dec : EqDecision MatchType.
Proof. solve_decision. Defined.

(** [labels.Matcher] *)
Record Matcher := mkMatcher { m_Type : MatchType; m_Name : string; m_Value : string }.
#[export] Instance Matcher_eq_dec : EqDecision Matcher.
Proof. solve_decision. Defined.

Class PromLabels : Type := {
  NewMatcher : MatchType → string → string → result Matcher;
  Matcher_String : Matcher → string
}.

(** The metacharacters [regexp.QuoteMeta] escapes. *)
Definition is_meta (c : ascii) : bool :=
  existsb (λ d, bool_decide (c = d)) (String.list_ascii_of_string "\.+*?()|[]{}^$").
Fixpoint QuoteMeta (s : string) : string :=
  match s with
  | "" => ""
  | String c s' => if is_meta c then String "\" (String c (QuoteMeta s')) else String c (QuoteMeta s')
  end.

Section matcher.
Context {P : PromLabels}.

Definition matcher (l : Label) : result Matcher :=
  match lb_Values l with
  | [v] => NewMatcher MatchEqual (lb_Name l) v
  | vs => NewMatcher MatchRegexp (lb_Name l) (Join (QuoteMeta <$> vs) "|")
  end.
End matcher.

(** A regular expression made of literals and top-level alternation only, read
    back as the list of strings it matches in full; [None] when a
    metacharacter is used as an operator. *)
Definition head_cons (c : ascii) (l : list string) : list string :=
  match l with [] => [String c ""] | h :: t => String c h :: t end.
Fixpoint literal_alternatives (re : string) : option (list string) :=
  match re with
  | "" => Some [""]
  | String c re' =>
      if bool_decide (c = "\"%char) then
        match re' with
        | String d re'' => if is_meta d then head_cons d <$> literal_alternatives re'' else None
        | "" => None
        end
      else if bool_decide (c = "|"%char) then cons "" <$> literal_alternatives re'
      else if is_meta c then None
      else head_cons c <$> literal_alternatives re'
  end.

(** * Endpoints *)

Inductive Endpoint :=
| endpointNone | endpointQuery | endpointMatch | endpointRules | endpointAlerts
| endpointAMFilter | endpointSilences | endpointSilenceID.
#[export] Instance Endpoint_eq_dec : EqDecision Endpoint.
Proof. solve_decision. Defined.

Record Scope := mkScope {
  sc_Bypass : bool; sc_Labels : list Label; sc_Endpoint : Endpoint; sc_Prefix : string
}.

Definition silencePathPrefix := "/api/v2/silence/".

Definition isLabelValuesPath (path : string) : bool :=
  match CutPrefix path "/api/v1/label/" with
  | None => false
  | Some name =>
      match CutSuffix name "/values" with
      | None => false
      | Some name => (name !=? "") && negb (Contains name "/")
      end
  end.

Definition endpointFor (method path : string) : Endpoint :=
  let get := method =? "GET" in
  let getOrPost := get || (method =? "POST") in
  let rest :=
    if get && isLabelValuesPath path then endpointMatch
    else if (method =? "DELETE") && HasPrefix path silencePathPrefix then endpointSilenceID
    else endpointNone in
  if (path =? "/api/v1/query") || (path =? "/api/v1/query_range") ||
     (path =? "/api/v1/query_exemplars") then
    if getOrPost then endpointQuery else rest
  else if (path =? "/api/v1/series") || (path =? "/api/v1/labels") then
    if getOrPost then endpointMatch else rest
  else if path =? "/federate" then if get then endpointMatch else rest
  else if path =? "/api/v1/rules" then if get then endpointRules else rest
  else if path =? "/api/v1/alerts" then if get then endpointAlerts else rest
  else if (path =? "/api/v2/alerts") || (path =? "/api/v2/alerts/groups") then
    if get then endpointAMFilter else rest
  else if path =? "/api/v2/silences" then if getOrPost then endpointSilences else rest
  else rest.

(** [path == p || strings.HasPrefix(path, p+"/")] *)
Definition under (p path : string) : bool := (path =? p) || HasPrefix path (p +:+ "/").

Fixpoint Route (prefixes : list string) (method path : string) : Endpoint * string * bool :=
  match prefixes with
  | [] => (endpointNone, "", false)
  | p :: ps =>
      if under p path then
        let e := endpointFor method (TrimPrefix path p) in (e, p, e !=? endpointNone)
      else Route ps method path
  end.

(** * Lemmas *)

Lemma allows_spec l v : allows l v = true ↔ v ∈ lb_Values l.
Proof.
  unfold allows. rewrite existsb_bool. setoid_rewrite bool_decide_eq_true. naive_solver.
Qed.

Lemma literal_alternatives_quote v re l :
  literal_alternatives re = Some l → l ≠ [] →
  literal_alternatives (QuoteMeta v +:+ re) = Some (match l with [] => [] | h :: t => (v +:+ h) :: t end).
Proof.
  intros Hre Hl. induction v as [|c v IH]; cbn [QuoteMeta].
  - rewrite app_nil_l', Hre. by destruct l.
  - destruct l as [|h t]; [done|].
    destruct (is_meta c) eqn:Ec; rewrite !app_cons; cbn [literal_alternatives].
    + rewrite bool_decide_true by done. rewrite Ec, IH. done.
    + rewrite !bool_decide_false, Ec, IH by (intros ->; by vm_compute in Ec). done.
Qed.

Lemma literal_alternatives_join vs :
  vs ≠ [] → literal_alternatives (Join (QuoteMeta <$> vs) "|") = Some vs.
Proof.
  induction vs as [|v vs IH]; intros Hne; [done|].
  destruct vs as [|w vs].
  - cbn. rewrite <- (s_app_nil_r (QuoteMeta v)).
    rewrite (literal_alternatives_quote v "" [""]) by done. by rewrite s_app_nil_r.
  - rewrite fmap_cons, Join_cons by done.
    rewrite (literal_alternatives_quote v _ ("" :: w :: vs)); [by rewrite s_app_nil_r| |done].
    rewrite app_cons, app_nil_l'. cbn [literal_alternatives].
    rewrite bool_decide_false, bool_decide_true by done. by rewrite IH.
Qed.

Lemma under_prefix p path : under p path = true → HasPrefix path p = true.
Proof.
  unfold under. rewrite orb_true_iff, bool_decide_eq_true.
  intros [->|H]; [apply HasPrefix_refl|]. eapply HasPrefix_trans; [done|apply HasPrefix_app].
Qed.

Lemma Route_first ps m path :
  Route ps m path =
  match find (λ p, under p path) ps with
  | Some p => let e := endpointFor m (TrimPrefix path p) in (e, p, e !=? endpointNone)
  | None => (endpointNone, "", false)
  end.
Proof. induction ps as [|p ps IH]; cbn; [done|]. by destruct (under p path). Qed.

(** * Properties *)

(** The value of the matcher built for several claim values is a regular
    expression of escaped literals joined by "|": read back, it matches exactly
    the caller's values, so no claim value acts as a pattern; with one value
    the matcher is an equality on it. *)
Theorem matcher_exact {P : PromLabels} l m
    (Hnew : ∀ t n v m', NewMatcher t n v = Ok m' → m' = mkMatcher t n v)
    (Hne : lb_Values l ≠ []) (Hm : matcher l = Ok m) :
  m_Name m = lb_Name l ∧
  ((∃ v, lb_Values l = [v] ∧ m_Type m = MatchEqual ∧ m_Value m = v) ∨
   (m_Type m = MatchRegexp ∧ literal_alternatives (m_Value m) = Some (lb_Values l))).
Proof.
  unfold matcher in Hm. destruct (lb_Values l) as [|v [|w vs]] eqn:E; [done| |];
    apply Hnew in Hm as ->; cbn [m_Name m_Type m_Value].
  - eauto 10.
  - split; [done|right; split; [done|]]. by apply literal_alternatives_join.
Qed.

Definition demo_labels : PromLabels :=
  {| NewMatcher t n v := Ok (mkMatcher t n v);
     Matcher_String m := m_Name m +:+ "=" +:+ m_Value m |}.

Lemma matcher_exact_witness :
  ∃ m, @matcher demo_labels (mkLabel "ns" ["a.*"; "b|c"]) = Ok m ∧
    literal_alternatives (m_Value m) = Some ["a.*"; "b|c"].
Proof.
  eexists. split; [reflexivity|].
  destruct (@matcher_exact demo_labels (mkLabel "ns" ["a.*"; "b|c"])
    (mkMatcher MatchRegexp "ns" "a\.\*|b\|c")) as [_ [(v & H & _)|[_ H]]];
    [intros t n v m' [= <-]; reflexivity|discriminate|reflexivity|discriminate H|exact H].
Defined.

(** With the prefixes longest first, as [normalizePromLabelPrefixes]
    leaves them, [Route] decides by the longest prefix the path is under, and
    never falls back to a shorter one: the endpoint is that of the path with
    that prefix removed, and a path under no prefix is not enforced. *)
Theorem Route_longest ps m path e p ok
    (Hsorted : StronglySorted (λ a b, String.length b ≤ String.length a) ps)
    (HR : Route ps m path = (e, p, ok)) :
  if existsb (λ q, under q path) ps then
    p ∈ ps ∧ (∃ rest, path = p +:+ rest ∧ (rest = "" ∨ HasPrefix rest "/" = true) ∧
                e = endpointFor m rest) ∧
    ok = (e !=? endpointNone) ∧
    (∀ q, q ∈ ps → under q path = true → String.length q ≤ String.length p)
  else e = endpointNone ∧ ok = false.
Proof.
  rewrite Route_first in HR.
  destruct (find (λ p, under p path) ps) as [p'|] eqn:E.
  - apply find_some_first in E as (l1 & l2 & -> & Hp & Hl1). injection HR as <- -> <-.
    rewrite (proj2 (existsb_bool _ _)) by (exists p; set_solver).
    split; [set_solver|].
    pose proof (proj1 (HasPrefix_spec _ _) (under_prefix _ _ Hp)) as (rest & ->).
    split; [|split; [done|]].
    + exists rest. rewrite TrimPrefix_app. split; [done|split; [|done]]. unfold under in Hp.
      apply orb_true_iff in Hp as [H%bool_decide_eq_true|(t & Ht)%HasPrefix_spec].
      * left. rewrite <- (s_app_nil_r p) in H at 2. by apply s_app_inj_l in H.
      * right. rewrite s_app_assoc in Ht. apply s_app_inj_l in Ht as ->. apply HasPrefix_app.
    + intros q Hq Hu. apply elem_of_app in Hq as [Hq|Hq].
      * by rewrite (Hl1 q Hq) in Hu.
      * apply elem_of_cons in Hq as [->|Hq]; [done|].
        clear Hl1. induction l1 as [|y l1 IH]; inversion Hsorted as [|?? Hs Hall]; subst; [|auto].
        rewrite Forall_forall in Hall. auto.
  - simplify_eq. rewrite (proj2 (existsb_false _ _)); [done|]. by apply find_none_all.
Qed.

Lemma Route_longest_witness :
  ∃ rest, "/a/b/api/v1/rules" = "/a/b" +:+ rest ∧ endpointFor "GET" rest = endpointRules.
Proof.
  destruct (Route_longest ["/a/b"; "/a"] "GET" "/a/b/api/v1/rules" endpointRules "/a/b" true)
    as (_ & (rest & H & _ & He) & _).
  - repeat constructor.
  - reflexivity.
  - exists rest. split; [exact H|symmetry; exact He].
Defined.
