(* ===== verification/GoURL.v ===== *)
(** The part of Go's [net/url] the program uses: percent-coding of paths and
    query components, query strings ([url.Values]), and the reading and
    printing of rooted paths.  [URL] itself is declared with the configuration
    ([ConfigTypes.URL]); parsing of a string that does not begin with a single
    slash is left to the class [NetURL]. *)
From S2P Require Import Prelude GoStrings ConfigTypes.

(** * Percent-coding *)

Definition unhex (c : ascii) : option Z :=
  let b := byte c in
  if is_digit b then Some (b - 48)%Z
  else if in_range 97 102 b then Some (b - 87)%Z
  else if in_range 65 70 b then Some (b - 55)%Z
  else None.
Definition upperhex (z : Z) : ascii := char (if (z <? 10)%Z then z + 48 else z + 55)%Z.

Inductive encoding := encodePath | encodePathSegment | encodeQueryComponent.

Definition one_of (chars : string) (c : ascii) : bool :=
  existsb (λ d, bool_decide (c = d)) (String.list_ascii_of_string chars).

(** [shouldEscape] *)
Definition shouldEscape (c : ascii) (mode : encoding) : bool :=
  if is_alpha (byte c) || is_digit (byte c) then false
  else if one_of "-_.~" c then false
  else if one_of "$&+,/:;=?@" c then
    match mode with
    | encodePath => c =? "?"%char
    | encodePathSegment => one_of "/;,?" c
    | encodeQueryComponent => true
    end
  else true.

Fixpoint escape (s : string) (mode : encoding) : string :=
  match s with
  | "" => ""
  | String c s' =>
      let rest := escape s' mode in
      if shouldEscape c mode then
        match mode with
        | encodeQueryComponent =>
            if c =? " "%char then String "+" rest
            else String "%" (String (upperhex (byte c / 16)) (String (upperhex (byte c mod 16)) rest))
        | _ => String "%" (String (upperhex (byte c / 16)) (String (upperhex (byte c mod 16)) rest))
        end
      else String c rest
  end.

Fixpoint unescape (s : string) (mode : encoding) : result string :=
  match s with
  | "" => Ok ""
  | String c s' =>
      if c =? "%"%char then
        match s' with
        | String h (String l s'') =>
            match unhex h, unhex l with
            | Some h, Some l => rmap (String (char (16 * h + l))) (unescape s'' mode)
            | _, _ => Err (ENew "invalid URL escape")
            end
        | _ => Err (ENew "invalid URL escape")
        end
      else
        let c' := match mode with
                  | encodeQueryComponent => if c =? "+"%char then " "%char else c
                  | _ => c
                  end in
        rmap (String c') (unescape s' mode)
  end.

Definition QueryEscape (s : string) : string := escape s encodeQueryComponent.
Definition QueryUnescape (s : string) : result string := unescape s encodeQueryComponent.

(** * Query strings *)

(** [url.Values]: a map from keys to the list of their values. *)
Abbreviation Values := (gmap string (list string)).

Definition Values_Get (v : Values) (key : string) : string :=
  match v !! key with Some (x :: _) => x | _ => "" end.
Definition Values_Has (v : Values) (key : string) : bool := bool_decide (is_Some (v !! key)).
Definition Values_Set (key x : string) (v : Values) : Values := <[key := [x]]> v.
Definition Values_Add (key x : string) (v : Values) : Values :=
  <[key := default [] (v !! key) ++ [x]]> v.

(** One field of [parseQuery]; a bad field is skipped and its error kept. *)
Definition parse_field (acc : Values * option error) (field : string) : Values * option error :=
  let '(m, err) := acc in
  let fail e := (m, match err with Some e0 => Some e0 | None => Some e end) in
  if Contains field ";" then (m, Some (ENew "invalid semicolon separator in query"))
  else if field =? "" then acc
  else
    let '(key, value, _) := Cut field "=" in
    match QueryUnescape key with
    | Err e => fail e
    | Ok key =>
        match QueryUnescape value with
        | Err e => fail e
        | Ok value => (Values_Add key value m, err)
        end
    end.
Definition parseQuery (query : string) : Values * option error :=
  if query =? "" then (∅, None) else foldl parse_field (∅, None) (Split query "&").
(** [url.ParseQuery] *)
Definition ParseQuery (query : string) : result Values :=
  match parseQuery query with (m, None) => Ok m | (_, Some e) => Err e end.
(** [URL.Query], which ignores the errors. *)
Definition URL_Query (u : URL) : Values := (parseQuery (u_RawQuery u)).1.

(** [s <= t] on byte strings, the order of [sort.Strings]. *)
Fixpoint string_leb (s t : string) : bool :=
  match s, t with
  | "", _ => true
  | String _ _, "" => false
  | String a s', String b t' =>
      if (byte a <? byte b)%Z then true
      else if (byte b <? byte a)%Z then false
      else string_leb s' t'
  end.
Definition string_le (s t : string) : Prop := string_leb s t = true.
#[export] Instance string_le_dec : RelDecision string_le.
Proof. intros s t. unfold string_le. apply _. Defined.

(** [Values.Encode]: keys sorted. *)
Definition Values_Encode (v : Values) : string :=
  Join (flat_map (λ k, (λ x, QueryEscape k +:+ "=" +:+ QueryEscape x) <$> default [] (v !! k))
          (merge_sort string_le ((map_to_list v).*1))) "&".

(** * Paths *)

Definition validEncoded (s : string) (mode : encoding) : bool :=
  forallb (λ c, one_of "!$&'()*+,;=:@[]%" c || negb (shouldEscape c mode))
          (String.list_ascii_of_string s).

Definition EscapedPath (u : URL) : string :=
  let fallback := if u_Path u =? "*" then "*" else escape (u_Path u) encodePath in
  if (u_RawPath u !=? "") && validEncoded (u_RawPath u) encodePath then
    match unescape (u_RawPath u) encodePath with
    | Ok p => if p =? u_Path u then u_RawPath u else fallback
    | Err _ => fallback
    end
  else fallback.

(** [URL.RequestURI] *)
Definition RequestURI (u : URL) : string :=
  let result :=
    if u_Opaque u =? "" then
      let p := EscapedPath u in if p =? "" then "/" else p
    else if HasPrefix (u_Opaque u) "//" then u_Scheme u +:+ ":" +:+ u_Opaque u else u_Opaque u in
  if u_ForceQuery u || (u_RawQuery u !=? "") then result +:+ "?" +:+ u_RawQuery u else result.

Definition has_ctl (s : string) : bool :=
  existsb (λ c, (byte c <? 32)%Z || (byte c =? 127)%Z) (String.list_ascii_of_string s).

Definition empty_URL : URL := mkURL "" "" None "" "" "" false "" "".

(** [url.Parse] on a string beginning with one slash only: no scheme and no
    authority. *)
Definition parse_rooted (raw : string) : result URL :=
  let '(u, frag, _) := Cut raw "#" in
  if has_ctl u then Err (ENew "net/url: invalid control character in URL")
  else
    let '(path, query, found) := Cut u "?" in
    let force := found && (query =? "") in
    let* p := unescape path encodePath in
    let rawpath := if path =? escape p encodePath then "" else path in
    let* f := unescape frag encodePath in
    Ok (mkURL "" "" None "" p rawpath force query f).

Definition rooted_single (raw : string) : bool := HasPrefix raw "/" && negb (HasPrefix raw "//").
Definition Parse `{NetURL} (raw : string) : result URL :=
  if rooted_single raw then parse_rooted raw else url_Parse raw.

(** * Lemmas *)

Lemma unhex_upperhex z : (0 ≤ z < 16)%Z → unhex (upperhex z) = Some z.
Proof.
  intros Hz. destruct z as [|p|p]; [done| |lia].
  do 4 (destruct p as [p|p|]; [| |reflexivity]); lia.
Qed.

Lemma byte_bound c : (0 ≤ byte c < 256)%Z.
Proof. unfold byte. pose proof (N_ascii_bounded c). lia. Qed.
Lemma char_byte c : char (byte c) = c.
Proof. unfold char, byte. by rewrite N2Z.id, ascii_N_embedding. Qed.
Lemma byte_char z : (0 ≤ z < 256)%Z → byte (char z) = z.
Proof. intros Hz. unfold char, byte. rewrite N_ascii_embedding; lia. Qed.

Lemma shouldEscape_pct mode : shouldEscape "%" mode = true.
Proof. by destruct mode. Qed.

Lemma unescape_hex c rest mode :
  unescape (String "%" (String (upperhex (byte c / 16)) (String (upperhex (byte c mod 16)) rest))) mode
  = rmap (String c) (unescape rest mode).
Proof.
  pose proof (byte_bound c). cbn [unescape]. rewrite bool_decide_true by done.
  rewrite !unhex_upperhex.
  - by rewrite <- Z.div_mod, char_byte by lia.
  - by apply Z.mod_pos_bound.
  - split; [apply Z.div_pos; lia|apply Z.div_lt_upper_bound; lia].
Qed.

(** Decoding undoes encoding, in every mode. *)
Lemma unescape_escape s mode : unescape (escape s mode) mode = Ok s.
Proof.
  induction s as [|c s IH]; [done|].
  assert (Hplain : shouldEscape c mode = false →
    unescape (String c (escape s mode)) mode = Ok (String c s)).
  { intros Hc. assert (c ≠ "%"%char) by (intros ->; by rewrite shouldEscape_pct in Hc).
    cbn [unescape]. rewrite bool_decide_false by done. rewrite IH. cbn [rmap rbind].
    destruct mode; [done|done|]. case_bool_decide as Hp; [subst; by vm_compute in Hc|done]. }
  cbn [escape]. destruct (shouldEscape c mode) eqn:Ec; [|by apply Hplain].
  destruct mode; try (rewrite unescape_hex, IH; reflexivity).
  case_bool_decide as Hsp; [|rewrite unescape_hex, IH; reflexivity].
  subst. cbn. by rewrite IH.
Qed.

(** ** The byte order of strings *)

Lemma byte_inj a b : byte a = byte b → a = b.
Proof. intros H. by rewrite <- (char_byte a), <- (char_byte b), H. Qed.

Lemma string_le_refl s : string_le s s.
Proof.
  unfold string_le. induction s as [|c s IH]; [done|]. cbn. by rewrite Z.ltb_irrefl.
Qed.
Lemma string_leb_cons a s b t :
  string_leb (String a s) (String b t) = true ↔
  (byte a < byte b)%Z ∨ (a = b ∧ string_leb s t = true).
Proof.
  cbn. destruct (Z.ltb_spec (byte a) (byte b)); [naive_solver|].
  destruct (Z.ltb_spec (byte b) (byte a)); [naive_solver lia|].
  assert (a = b) by (apply byte_inj; lia). naive_solver lia.
Qed.
Lemma string_le_trans : Transitive string_le.
Proof.
  unfold string_le. intros s t u. revert t u. induction s as [|a s IH]; intros [|b t] [|c u]; try done.
  rewrite !string_leb_cons. intros [?|[-> ?]] [?|[-> ?]]; [left; lia|by left|by left|right; eauto].
Qed.
Lemma string_le_antisym s t : string_le s t → string_le t s → s = t.
Proof.
  unfold string_le. revert t. induction s as [|a s IH]; intros [|b t]; try done.
  rewrite !string_leb_cons. intros [?|[-> ?]] [?|[? ?]]; try lia; subst; try lia.
  f_equal. auto.
Qed.
#[export] Instance string_le_total : Total string_le.
Proof.
  unfold string_le. intros s. induction s as [|a s IH]; intros [|b t]; [by left..|by right|].
  rewrite !string_leb_cons. destruct (Z.lt_trichotomy (byte a) (byte b)) as [?|[E%byte_inj|?]].
  - by left; left.
  - subst. destruct (IH t); [left|right]; by right.
  - by right; left.
Qed.
#[export] Existing Instance string_le_trans.

(** ** Query strings *)

Lemma escape_query_free c s :
  shouldEscape c encodeQueryComponent = true → c ≠ "%"%char → c ≠ "+"%char → unhex c = None →
  sep_free c (escape s encodeQueryComponent).
Proof.
  intros Hc Hp Hs Hx. induction s as [|d s IH]; [apply sep_free_nil|]. cbn [escape].
  pose proof (byte_bound d).
  assert (Hhex : ∀ z, (0 ≤ z < 16)%Z → upperhex z ≠ c) by (intros z Hz <-; by rewrite unhex_upperhex in Hx).
  destruct (shouldEscape d _) eqn:Ed; [case_bool_decide|]; rewrite !sep_free_cons; repeat split; try done;
    try (by intros ->; congruence).
  - apply Hhex. split; [apply Z.div_pos; lia|apply Z.div_lt_upper_bound; lia].
  - by apply Hhex, Z.mod_pos_bound.
Qed.

Definition query_pairs (v : Values) : list (string * string) :=
  flat_map (λ k, (k,.) <$> default [] (v !! k)) (merge_sort string_le ((map_to_list v).*1)).
Definition query_field (kx : string * string) : string := QueryEscape kx.1 +:+ "=" +:+ QueryEscape kx.2.
Definition add_pair (m : Values) (kx : string * string) : Values := Values_Add kx.1 kx.2 m.

Lemma Values_Encode_pairs v : Values_Encode v = Join (query_field <$> query_pairs v) "&".
Proof.
  unfold Values_Encode, query_pairs. f_equal. induction (merge_sort _ _) as [|k l IH]; [done|].
  cbn [flat_map]. rewrite fmap_app, <- IH, <- list_fmap_compose. done.
Qed.

Lemma Contains_char s c : sep_free c s → Contains s (String c "") = false.
Proof.
  intros H. apply not_true_iff_false. intros (a & b & ->)%Contains_spec.
  rewrite !sep_free_app, sep_free_cons in H. tauto.
Qed.
Lemma Cut_field a b c : sep_free c a → Cut (a +:+ String c b) c = (a, b, true).
Proof.
  induction a as [|d a IH]; intros H.
  - rewrite app_nil_l'. cbn. destruct (bool_decide_reflect (c = c)); done.
  - apply sep_free_cons in H as [? ?]. rewrite app_cons. cbn [Cut].
    rewrite bool_decide_false by done. by rewrite IH.
Qed.

Lemma query_field_free c kx :
  shouldEscape c encodeQueryComponent = true → c ≠ "%"%char → c ≠ "+"%char → c ≠ "="%char → unhex c = None →
  sep_free c (query_field kx).
Proof.
  intros. unfold query_field, QueryEscape. rewrite !sep_free_app, sep_free_cons.
  split_and!; auto using escape_query_free, sep_free_nil.
Qed.

Lemma parse_query_field m kx : parse_field (m, None) (query_field kx) = (add_pair m kx, None).
Proof.
  unfold parse_field. rewrite Contains_char by (by apply query_field_free).
  rewrite bool_decide_false.
  2: { unfold query_field. intros [_ [? _]%s_app_eq_nil]%s_app_eq_nil. done. }
  unfold query_field. rewrite (app_cons "=" ""), app_nil_l', Cut_field by (by apply escape_query_free).
  unfold QueryEscape, QueryUnescape. by rewrite !unescape_escape.
Qed.

Lemma add_pairs_lookup l m j :
  foldl add_pair m l !! j =
  match snd <$> filter (λ kx, kx.1 = j) l with [] => m !! j | xs => Some (default [] (m !! j) ++ xs) end.
Proof.
  revert m. induction l as [|[k x] l IH]; intros m; [done|]. cbn [foldl]. rewrite IH, filter_cons.
  unfold add_pair, Values_Add. cbn [fst snd]. destruct (decide (k = j)) as [->|Hk].
  - rewrite lookup_insert_eq. cbn. destruct (snd <$> filter _ l) as [|y ys]; [done|].
    by rewrite <- (assoc_L (++)).
  - by rewrite lookup_insert_ne.
Qed.

Lemma filter_this_key (j : string) (xs : list string) : snd <$> filter (λ kx, kx.1 = j) ((j,.) <$> xs) = xs.
Proof.
  induction xs as [|x xs IH]; [done|]. rewrite fmap_cons, filter_cons_True by done. by rewrite fmap_cons, IH.
Qed.
Lemma filter_other_key (j : string) (f : string → list string) ks :
  j ∉ ks → snd <$> filter (λ kx, kx.1 = j) (flat_map (λ k, (k,.) <$> f k) ks) = [].
Proof.
  induction ks as [|k ks IH]; intros Hj; [done|]. cbn [flat_map]. rewrite filter_app, fmap_app, IH by set_solver.
  rewrite app_nil_r. induction (f k) as [|x xs IHx]; [done|].
  by rewrite fmap_cons, filter_cons_False by set_solver.
Qed.
Lemma query_pairs_key v j : snd <$> filter (λ kx, kx.1 = j) (query_pairs v) = default [] (v !! j).
Proof.
  unfold query_pairs. assert (Hin : j ∈ merge_sort string_le ((map_to_list v).*1) ↔ is_Some (v !! j)).
  { rewrite merge_sort_Permutation, list_elem_of_fmap. split.
    - intros ([k x] & -> & ?%elem_of_map_to_list). eauto.
    - intros [x Hx%elem_of_map_to_list]. by exists (j, x). }
  assert (Hnd : NoDup (merge_sort string_le ((map_to_list v).*1))).
  { rewrite merge_sort_Permutation. apply NoDup_fst_map_to_list. }
  destruct (decide (j ∈ merge_sort string_le ((map_to_list v).*1))) as [Hj|Hj].
  - apply list_elem_of_split in Hj as (l1 & l2 & E). rewrite E in *.
    rewrite flat_map_app, filter_app, fmap_app. cbn [flat_map]. rewrite filter_app, fmap_app.
    apply NoDup_app in Hnd as (_ & H1 & [H2 _]%NoDup_cons).
    rewrite !filter_other_key, app_nil_r by set_solver. cbn. apply filter_this_key.
  - rewrite filter_other_key by done. rewrite Hin in Hj. destruct (v !! j) eqn:E; [|done].
    exfalso. eauto.
Qed.

(** Decoding undoes encoding, up to keys without values. *)
Lemma ParseQuery_Encode v : ParseQuery (Values_Encode v) = Ok (filter (λ kx, kx.2 ≠ []) v).
Proof.
  assert (Hfold : ∀ l m, foldl parse_field (m, None) (query_field <$> l) = (foldl add_pair m l, None)).
  { induction l as [|kx l IH]; intros m; [done|]. rewrite fmap_cons. cbn [foldl]. by rewrite parse_query_field. }
  assert (Hmap : foldl add_pair ∅ (query_pairs v) = filter (λ kx, kx.2 ≠ []) v).
  { apply map_eq. intros j. rewrite add_pairs_lookup, query_pairs_key, lookup_empty, map_lookup_filter. cbn.
    destruct (v !! j) as [[|x xs]|]; cbn; [|case_guard|]; done. }
  rewrite Values_Encode_pairs. unfold ParseQuery, parseQuery.
  destruct (query_pairs v) as [|kx l] eqn:E; [by rewrite bool_decide_true, <- Hmap by done|].
  rewrite <- E in *. assert (Hne : query_field <$> query_pairs v ≠ []) by (by rewrite E).
  rewrite bool_decide_false.
  - rewrite Split_Join, Hfold, Hmap; [done|done|].
    apply Forall_fmap, Forall_forall. intros ? _. by apply query_field_free.
  - rewrite E, fmap_cons. unfold query_field at 1. destruct l as [|kx' l].
    + cbn. by intros [_ [? _]%s_app_eq_nil]%s_app_eq_nil.
    + rewrite Join_cons by done. by intros [[_ [? _]%s_app_eq_nil]%s_app_eq_nil _]%s_app_eq_nil.
Qed.
