(* ===== verification/GoJSON.v ===== *)
(** The part of Go's [encoding/json] the program uses, over texts as byte
    strings.

    A [json.RawMessage] is the syntax tree [json] of its text: numbers and string
    literals are kept as they were written, an object keeps its members in order
    with duplicates; only the white space between tokens, which [json.Marshal]
    drops from a raw message, is not kept.  [json_parse] is the scanner with its nesting
    limit, [json_print] the compact form, [Marshal] the form [json.Marshal] writes
    with its HTML escaping.  The [Decode_] functions are [json.Unmarshal] into the Go
    types the program declares. *)
From S2P Require Import Prelude GoStrings ConfigTypes GoURL.

Unset Elimination Schemes.
Inductive json :=
| JNull
| JBool (b : bool)
| JNumber (lit : string)
| JString (lit : string)          (* the text between the quotes *)
| JArray (l : list json)
| JObject (l : list (string * json)).
Set Elimination Schemes.

Section induction.
Context (P : json → Prop) (Hnull : P JNull) (Hbool : ∀ b, P (JBool b)) (Hnum : ∀ n, P (JNumber n))
  (Hstr : ∀ s, P (JString s)) (Harr : ∀ l, Forall P l → P (JArray l))
  (Hobj : ∀ l, Forall (λ kv, P kv.2) l → P (JObject l)).
Fixpoint json_ind (j : json) : P j :=
  match j with
  | JNull => Hnull
  | JBool b => Hbool b
  | JNumber n => Hnum n
  | JString s => Hstr s
  | JArray l => Harr l ((fix go l : Forall P l :=
      match l with [] => List.Forall_nil _ | x :: l => List.Forall_cons _ _ _ (json_ind x) (go l) end) l)
  | JObject l => Hobj l ((fix go l : Forall (λ kv, P kv.2) l :=
      match l with [] => List.Forall_nil _ | x :: l => List.Forall_cons _ _ _ (json_ind x.2) (go l) end) l)
  end.
End induction.

(** * The scanner *)

Definition is_hex (c : ascii) : bool := bool_decide (is_Some (unhex c)).
Definition is_json_space (c : ascii) : bool :=
  let b := byte c in (b =? 32)%Z || (b =? 9)%Z || (b =? 10)%Z || (b =? 13)%Z.
Fixpoint skip_space (s : string) : string :=
  match s with String c s' => if is_json_space c then skip_space s' else s | "" => "" end.

(** The rest of a string literal, after its opening quote: the text up to the
    closing quote, and what follows it. *)
Definition push (p : string) (r : option (string * string)) : option (string * string) :=
  (λ lr, (p +:+ lr.1, lr.2)) <$> r.
Fixpoint scan_string (s : string) : option (string * string) :=
  match s with
  | "" => None
  | String c s' =>
      if c =? dquote then Some ("", s')
      else if c =? "\"%char then
        match s' with
        | String d s'' =>
            if d =? "u"%char then
              match s'' with
              | String h1 (String h2 (String h3 (String h4 rest))) =>
                  if is_hex h1 && is_hex h2 && is_hex h3 && is_hex h4
                  then push (String c (String d (String h1 (String h2 (String h3 (String h4 "")))))) (scan_string rest)
                  else None
              | _ => None
              end
            else if (d =? dquote) || one_of "\/bfnrt" d then push (String c (String d "")) (scan_string s'')
            else None
        | "" => None
        end
      else if (byte c <? 32)%Z then None
      else push (String c "") (scan_string s')
  end.

Fixpoint span_digits (s : string) : string * string :=
  match s with
  | String c s' =>
      if is_digit (byte c) then let '(d, r) := span_digits s' in (String c d, r) else ("", s)
  | "" => ("", "")
  end.
(** Digits, at least one. *)
Definition scan_digits (s : string) : option (string * string) :=
  let '(d, r) := span_digits s in if d =? "" then None else Some (d, r).
Definition scan_exp (s : string) : option (string * string) :=
  match s with
  | String c s' =>
      if one_of "eE" c then
        match s' with
        | String d s'' => if one_of "+-" d then push (String c (String d "")) (scan_digits s'')
                          else push (String c "") (scan_digits s')
        | "" => None
        end
      else Some ("", s)
  | "" => Some ("", "")
  end.
Definition scan_frac (s : string) : option (string * string) :=
  match s with
  | String c s' =>
      if c =? "."%char then
        match scan_digits s' with
        | Some (d, r) => push (String c d) (scan_exp r)
        | None => None
        end
      else scan_exp s
  | "" => Some ("", "")
  end.
Definition scan_int (s : string) : option (string * string) :=
  match s with
  | String c s' =>
      if c =? "0"%char then push "0" (scan_frac s')
      else match scan_digits s with
           | Some (d, r) => push d (scan_frac r)
           | None => None
           end
  | "" => None
  end.
Definition scan_number (s : string) : option (string * string) :=
  match s with
  | String c s' => if c =? "-"%char then push "-" (scan_int s') else scan_int s
  | "" => None
  end.

(** [maxNestingDepth] *)
Definition maxNestingDepth : Z := 10000.

(** Values, the elements of an array after "[", and the members of an object
    after "{", both not empty. *)
Fixpoint parse_value (fuel : nat) (depth : Z) (s : string) : option (json * string) :=
  match fuel with
  | 0 => None
  | S fuel =>
      match skip_space s with
      | "" => None
      | String c s' =>
          if c =? dquote then (λ lr, (JString lr.1, lr.2)) <$> scan_string s'
          else if c =? "["%char then
            if (maxNestingDepth <=? depth)%Z then None
            else match skip_space s' with
                 | String d r => if d =? "]"%char then Some (JArray [], r)
                                 else (λ lr, (JArray lr.1, lr.2)) <$> parse_elems fuel (depth + 1) s'
                 | "" => None
                 end
          else if c =? "{"%char then
            if (maxNestingDepth <=? depth)%Z then None
            else match skip_space s' with
                 | String d r => if d =? "}"%char then Some (JObject [], r)
                                 else (λ lr, (JObject lr.1, lr.2)) <$> parse_members fuel (depth + 1) s'
                 | "" => None
                 end
          else if c =? "t"%char then (λ r, (JBool true, r)) <$> CutPrefix s' "rue"
          else if c =? "f"%char then (λ r, (JBool false, r)) <$> CutPrefix s' "alse"
          else if c =? "n"%char then (λ r, (JNull, r)) <$> CutPrefix s' "ull"
          else (λ lr, (JNumber lr.1, lr.2)) <$> scan_number (String c s')
      end
  end
with parse_elems (fuel : nat) (depth : Z) (s : string) : option (list json * string) :=
  match fuel with
  | 0 => None
  | S fuel =>
      match parse_value fuel depth s with
      | None => None
      | Some (v, r) =>
          match skip_space r with
          | String c r => if c =? ","%char then (λ lr, (v :: lr.1, lr.2)) <$> parse_elems fuel depth r
                          else if c =? "]"%char then Some ([v], r) else None
          | "" => None
          end
      end
  end
with parse_members (fuel : nat) (depth : Z) (s : string) : option (list (string * json) * string) :=
  match fuel with
  | 0 => None
  | S fuel =>
      match skip_space s with
      | "" => None
      | String q s =>
          if q =? dquote then
            match scan_string s with
            | None => None
            | Some (k, r) =>
                match skip_space r with
                | "" => None
                | String c r =>
                    if c =? ":"%char then
                      match parse_value fuel depth r with
                      | None => None
                      | Some (v, r) =>
                          match skip_space r with
                          | String c r =>
                              if c =? ","%char then (λ lr, ((k, v) :: lr.1, lr.2)) <$> parse_members fuel depth r
                              else if c =? "}"%char then Some ([(k, v)], r) else None
                          | "" => None
                          end
                      end
                    else None
                end
            end
          else None
      end
  end.

(** Two calls at most are made between two bytes consumed. *)
Definition parse_fuel (s : string) : nat := 2 * String.length s + 2.
Definition json_parse (s : string) : option json :=
  match parse_value (parse_fuel s) 0 s with
  | Some (v, r) => if skip_space r =? "" then Some v else None
  | None => None
  end.

(** * String literals *)

Definition hex4 (l : list (Z * string)) : Z :=
  foldl (λ acc rb, acc * 16 + match rb.2 with String c _ => default 0 (unhex c) | "" => 0 end)%Z 0%Z l.
Definition is_surrogate (r : Z) : bool := in_range 55296 57343 r.
(** [utf16.DecodeRune] *)
Definition utf16_DecodeRune (r1 r2 : Z) : Z :=
  if in_range 55296 56319 r1 && in_range 56320 57343 r2
  then ((r1 - 55296) * 1024 + (r2 - 56320) + 65536)%Z else RuneError.
Definition unescape_char (r : Z) : Z :=
  if (r =? 98)%Z then 8%Z else if (r =? 102)%Z then 12%Z else if (r =? 110)%Z then 10%Z
  else if (r =? 114)%Z then 13%Z else if (r =? 116)%Z then 9%Z else r.

(** The string a literal denotes; bytes that are not UTF-8 and lone surrogates
    become U+FFFD. *)
Fixpoint unquote_runes (l : list (Z * string)) : string :=
  match l with
  | [] => ""
  | (r, bs) :: l1 =>
      if (r =? 92)%Z then
        match l1 with
        | [] => ""
        | (e, _) :: l2 =>
            if (e =? 117)%Z then
              match l2 with
              | h1 :: h2 :: h3 :: h4 :: l3 =>
                  let u := hex4 [h1; h2; h3; h4] in
                  if is_surrogate u then
                    match l3 with
                    | (b, _) :: (c, _) :: g1 :: g2 :: g3 :: g4 :: l4 =>
                        let dec := utf16_DecodeRune u (hex4 [g1; g2; g3; g4]) in
                        if (b =? 92)%Z && (c =? 117)%Z && (dec !=? RuneError)
                        then EncodeRune dec +:+ unquote_runes l4
                        else EncodeRune RuneError +:+ unquote_runes l3
                    | _ => EncodeRune RuneError +:+ unquote_runes l3
                    end
                  else EncodeRune u +:+ unquote_runes l3
              | _ => ""
              end
            else EncodeRune (unescape_char e) +:+ unquote_runes l2
        end
      else EncodeRune r +:+ unquote_runes l1
  end.
Definition unquote (lit : string) : string := unquote_runes (runes lit).

Definition lowerhex (z : Z) : ascii := char (if (z <? 10)%Z then z + 48 else z + 87)%Z.
Definition u_escape (z : Z) : string :=
  "\u" +:+ String (lowerhex (z / 4096)) (String (lowerhex ((z / 256) mod 16))
    (String (lowerhex ((z / 16) mod 16)) (String (lowerhex (z mod 16)) ""))).
(** One rune of [appendString] with HTML escaping. *)
Definition quote_rune (rb : Z * string) : string :=
  let '(r, bs) := rb in
  if (r =? 34)%Z then String "\" dq
  else if (r =? 92)%Z then "\\"
  else if (r =? 8)%Z then "\b" else if (r =? 12)%Z then "\f" else if (r =? 10)%Z then "\n"
  else if (r =? 13)%Z then "\r" else if (r =? 9)%Z then "\t"
  else if (r <? 32)%Z || (r =? 60)%Z || (r =? 62)%Z || (r =? 38)%Z then u_escape r
  else if (r =? RuneError)%Z && bool_decide (String.length bs = 1) then "\ufffd"
  else if (r =? 8232)%Z || (r =? 8233)%Z then u_escape r
  else bs.
Definition quote_lit (s : string) : string := concat_string (quote_rune <$> runes s).
Definition jstring (s : string) : json := JString (quote_lit s).

(** * Printing *)

(** A literal of a raw message, HTML escaped as [compact] does it. *)
Definition html_rune (rb : Z * string) : string :=
  let '(r, bs) := rb in
  if (r =? 60)%Z || (r =? 62)%Z || (r =? 38)%Z || (r =? 8232)%Z || (r =? 8233)%Z then u_escape r else bs.
Definition html_escape (lit : string) : string := concat_string (html_rune <$> runes lit).

Definition in_quotes (s : string) : string := dq +:+ s +:+ dq.
Fixpoint json_print (j : json) : string :=
  match j with
  | JNull => "null"
  | JBool b => if b then "true" else "false"
  | JNumber n => n
  | JString l => in_quotes l
  | JArray l => "[" +:+ Join (json_print <$> l) "," +:+ "]"
  | JObject l => "{" +:+ Join ((λ kv, in_quotes kv.1 +:+ ":" +:+ json_print kv.2) <$> l) "," +:+ "}"
  end.
Fixpoint escape_json (j : json) : json :=
  match j with
  | JString l => JString (html_escape l)
  | JArray l => JArray (escape_json <$> l)
  | JObject l => JObject ((λ kv, (html_escape kv.1, escape_json kv.2)) <$> l)
  | _ => j
  end.
(** [json.Marshal] of a raw message, and [json.NewEncoder(w).Encode]. *)
Definition Marshal (j : json) : string := json_print (escape_json j).
Definition Encode (j : json) : string := Marshal j +:+ String (char 10) "".

(** A Go map: its keys sorted. *)
Definition jmap (m : gmap string json) : json :=
  JObject ((λ k, (quote_lit k, default JNull (m !! k))) <$> merge_sort string_le ((map_to_list m).*1)).

(** * Unmarshal *)

Definition errSyntax := ENew "invalid character".
Definition errEOF := ENew "unexpected end of JSON input".
Definition errType := ENew "json: cannot unmarshal".

(** [json.Unmarshal(data, &v)] of a body, into a type read by [decode]. *)
Definition Unmarshal {A} (decode : json → result A) (data : string) : result A :=
  match json_parse data with Some j => decode j | None => Err errSyntax end.
(** The same of a [json.RawMessage] found in a map, nil when the key is absent. *)
Definition UnmarshalRaw {A} (decode : json → result A) (raw : option json) : result A :=
  match raw with Some j => decode j | None => Err errEOF end.

(** [map[string]json.RawMessage] *)
Definition obj_map (l : list (string * json)) : gmap string json :=
  foldl (λ m kv, <[unquote kv.1 := kv.2]> m) ∅ l.
Definition Decode_map (j : json) : result (gmap string json) :=
  match j with JNull => Ok ∅ | JObject l => Ok (obj_map l) | _ => Err errType end.
(** [[]json.RawMessage] *)
Definition Decode_list (j : json) : result (list json) :=
  match j with JNull => Ok [] | JArray l => Ok l | _ => Err errType end.
(** [[]map[string]json.RawMessage] *)
Definition Decode_maps (j : json) : result (list (gmap string json)) :=
  let* l := Decode_list j in map_result Decode_map l.
(** [string]; null leaves the variable as it was. *)
Definition Decode_string (old : string) (j : json) : result string :=
  match j with JNull => Ok old | JString l => Ok (unquote l) | _ => Err errType end.
Definition Decode_bool (old : bool) (j : json) : result bool :=
  match j with JNull => Ok old | JBool b => Ok b | _ => Err errType end.
(** [*bool]; null makes it nil. *)
Definition Decode_boolp (old : option bool) (j : json) : result (option bool) :=
  match j with JNull => Ok None | JBool b => Ok (Some b) | _ => Err errType end.

(** A struct, field by field in the order of the text: [step] finds the field of
    a key, exactly or ignoring case. *)
Definition Decode_struct {A} (step : A → string → json → result A) (old : A) (j : json) : result A :=
  match j with
  | JNull => Ok old
  | JObject l => foldl (λ acc kv, let* a := acc in step a (unquote kv.1) kv.2) (Ok old) l
  | _ => Err errType
  end.

(** * Lemmas *)

(** ** Printing and parsing *)

Definition num_stop (s : string) : Prop :=
  match s with "" => True | String c _ => is_digit (byte c) = false ∧ one_of ".eE+-" c = false end.
(** A literal and a number as the scanner accepts them. *)
Definition wf_lit (l : string) : Prop := ∀ r, scan_string (l +:+ String dquote r) = Some (l, r).
Definition num_head (s : string) : Prop :=
  match s with "" => False | String c _ => c = "-"%char ∨ is_digit (byte c) = true end.
Definition wf_num (n : string) : Prop := num_head n ∧ ∀ r, num_stop r → scan_number (n +:+ r) = Some (n, r).
Inductive wf_json : Z → json → Prop :=
| wf_null d : wf_json d JNull
| wf_bool d b : wf_json d (JBool b)
| wf_number d n : wf_num n → wf_json d (JNumber n)
| wf_string d l : wf_lit l → wf_json d (JString l)
| wf_array d l : (d < maxNestingDepth)%Z → Forall (wf_json (d + 1)) l → wf_json d (JArray l)
| wf_object d l : (d < maxNestingDepth)%Z → Forall (λ kv, wf_lit kv.1 ∧ wf_json (d + 1) kv.2) l → wf_json d (JObject l).

(** Enough fuel for a value. *)
Fixpoint jsize (j : json) : nat :=
  match j with
  | JArray l => S (sum_list_with (λ x, S (jsize x)) l)
  | JObject l => S (sum_list_with (λ kv, S (jsize kv.2)) l)
  | _ => 1
  end.

Lemma num_stop_char c s :
  is_digit (byte c) = false → one_of ".eE+-" c = false → num_stop (String c s).
Proof. done. Qed.

Lemma num_head_chars c s :
  num_head (String c s) →
  is_json_space c = false ∧ c ≠ dquote ∧ c ≠ "["%char ∧ c ≠ "{"%char ∧ c ≠ "t"%char ∧ c ≠ "f"%char ∧ c ≠ "n"%char.
Proof.
  intros [->|H]; [vm_compute; by repeat split|].
  unfold is_digit, in_range in H. apply andb_true_iff in H as [H1 H2]. apply Z.leb_le in H1, H2.
  split.
  - unfold is_json_space. apply not_true_iff_false. rewrite !orb_true_iff, !Z.eqb_eq. lia.
  - repeat split; intros ->; vm_compute in H1, H2; done.
Qed.

Lemma print_head j d : wf_json d j →
  ∃ c s, json_print j = String c s ∧ is_json_space c = false ∧ c ≠ "]"%char ∧ c ≠ "}"%char.
Proof.
  inversion 1 as [| |? n [Hn _]|? l| |]; subst; cbn [json_print]; [by eexists _, _|by destruct b; eexists _, _| |by eexists _, _..].
  destruct n as [|c n]; [done|]. exists c, n. pose proof (num_head_chars _ _ Hn) as (? & _).
  repeat split; [done|..]; intros ->; destruct Hn as [[=]|Hn]; vm_compute in Hn; done.
Qed.

Lemma parse_elems_print l : ∀ d fuel r, l ≠ [] →
  Forall (λ j, ∀ d fuel r, wf_json d j → jsize j ≤ fuel → num_stop r →
            parse_value fuel d (json_print j +:+ r) = Some (j, r)) l →
  Forall (wf_json d) l → sum_list_with (λ x, S (jsize x)) l ≤ fuel →
  parse_elems fuel d (Join (json_print <$> l) "," +:+ String "]" r) = Some (l, r).
Proof.
  induction l as [|j l IH]; intros d fuel r Hne HP Hwf Hf; [done|]. apply Forall_cons in HP as [HP HPs].
  apply Forall_cons in Hwf as [Hj Hwf]. cbn [sum_list_with] in Hf.
  destruct fuel as [|fuel]; [lia|]. rewrite fmap_cons. destruct l as [|j' l].
  - cbn [Join fmap list_fmap parse_elems]. rewrite HP by (done || lia). done.
  - rewrite Join_cons, !s_app_assoc by done. cbn [parse_elems].
    rewrite HP by (done || cbn [sum_list_with] in *; lia). rewrite app_cons, app_nil_l'.
    change (skip_space (String "," ?s)) with (String "," s). cbn [skip_space].
    rewrite bool_decide_true by done. rewrite IH by (done || lia). done.
Qed.

Lemma parse_members_print l : ∀ d fuel r, l ≠ [] →
  Forall (λ kv, ∀ d fuel r, wf_json d kv.2 → jsize kv.2 ≤ fuel → num_stop r →
            parse_value fuel d (json_print kv.2 +:+ r) = Some (kv.2, r)) l →
  Forall (λ kv, wf_lit kv.1 ∧ wf_json d kv.2) l → sum_list_with (λ kv, S (jsize kv.2)) l ≤ fuel →
  parse_members fuel d (Join ((λ kv, in_quotes kv.1 +:+ ":" +:+ json_print kv.2) <$> l) "," +:+ String "}" r) = Some (l, r).
Proof.
  induction l as [|[k j] l IH]; intros d fuel r Hne HP Hwf Hf; [done|]. apply Forall_cons in HP as [HP HPs].
  apply Forall_cons in Hwf as [[Hk Hj] Hwf]. cbn [sum_list_with fst snd] in *.
  destruct fuel as [|fuel]; [lia|]. rewrite fmap_cons. cbn [fst snd].
  assert (Hstep : ∀ t, num_stop t → parse_members (S fuel) d ((in_quotes k +:+ ":" +:+ json_print j) +:+ t) =
    match skip_space t with
    | String c r => if c =? ","%char then (λ lr, ((k, j) :: lr.1, lr.2)) <$> parse_members fuel d r
                    else if c =? "}"%char then Some ([(k, j)], r) else None
    | "" => None
    end).
  { intros t Ht. unfold in_quotes, dq. rewrite !s_app_assoc, (app_cons dquote ""), app_nil_l'. cbn [parse_members].
    change (skip_space (String dquote ?s)) with (String dquote s). cbn match. rewrite bool_decide_true by done.
    rewrite (app_cons dquote ""), app_nil_l', Hk. rewrite (app_cons ":" ""), app_nil_l'.
    change (skip_space (String ":" ?s)) with (String ":" s). cbn match. rewrite bool_decide_true by done.
    by rewrite HP by (done || lia). }
  destruct l as [|kj l].
  - cbn [Join fmap list_fmap]. by rewrite Hstep.
  - rewrite Join_cons, (s_app_assoc _ ("," +:+ _)), Hstep by done. rewrite !app_cons, !app_nil_l'.
    change (skip_space (String "," ?s)) with (String "," s). cbn match.
    rewrite bool_decide_true by done. rewrite IH by (done || cbn [sum_list_with] in *; lia). done.
Qed.

Lemma CutPrefix_app p r : CutPrefix (p +:+ r) p = Some r.
Proof. by apply CutPrefix_spec. Qed.

Lemma parse_value_print j : ∀ d fuel r, wf_json d j → jsize j ≤ fuel → num_stop r →
  parse_value fuel d (json_print j +:+ r) = Some (j, r).
Proof.
  induction j as [|b|n|l|l IH|l IH] using json_ind; intros d fuel r Hwf Hf Hr;
    (destruct fuel as [|fuel]; [cbn in Hf; lia|]); inversion Hwf as [| |? ? [Hn Hs]|? ? Hl|? ? Hd Hl|? ? Hd Hl]; subst.
  - change (json_print JNull +:+ r) with (String "n" ("ull" +:+ r)).
    change (parse_value (S fuel) d _) with ((λ r, (JNull, r)) <$> CutPrefix ("ull" +:+ r) "ull").
    by rewrite CutPrefix_app.
  - destruct b.
    + change (json_print _ +:+ r) with (String "t" ("rue" +:+ r)).
      change (parse_value (S fuel) d _) with ((λ r, (JBool true, r)) <$> CutPrefix ("rue" +:+ r) "rue").
      by rewrite CutPrefix_app.
    + change (json_print _ +:+ r) with (String "f" ("alse" +:+ r)).
      change (parse_value (S fuel) d _) with ((λ r, (JBool false, r)) <$> CutPrefix ("alse" +:+ r) "alse").
      by rewrite CutPrefix_app.
  - cbn [json_print]. destruct n as [|c n]; [done|]. apply num_head_chars in Hn as (H1 & H2 & H3 & H4 & H5 & H6 & H7).
    rewrite app_cons. cbn [parse_value skip_space]. rewrite H1, !bool_decide_false by done.
    change (String c (n +:+ r)) with (String c n +:+ r). by rewrite Hs.
  - cbn [json_print]. unfold in_quotes, dq. rewrite !s_app_assoc, (app_cons dquote ""), app_nil_l'. cbn [parse_value].
    change (skip_space (String dquote ?s)) with (String dquote s). cbn match. rewrite bool_decide_true by done.
    by rewrite (app_cons dquote ""), app_nil_l', Hl.
  - cbn [json_print]. rewrite !s_app_assoc, !app_cons, !app_nil_l'. cbn [parse_value].
    change (skip_space (String "[" ?s)) with (String "[" s). cbn match.
    rewrite bool_decide_false, bool_decide_true by done. rewrite (proj2 (Z.leb_gt _ _)) by done.
    destruct l as [|j l]; [done|]. inversion Hl as [|?? Hj]; subst.
    destruct (print_head j (d + 1) Hj) as (c & s & E & Hc & H1 & H2).
    assert (Hhead : ∃ t, Join (json_print <$> (j :: l)) "," +:+ String "]" r = String c t).
    { rewrite fmap_cons. destruct (decide (json_print <$> l = [])) as [->|Hne]; [|rewrite Join_cons by done];
        cbn [Join]; rewrite E, ?s_app_assoc, !app_cons; eauto. }
    destruct Hhead as [t Ht]. rewrite Ht. cbn [skip_space]. rewrite Hc, bool_decide_false by done. rewrite <- Ht.
    rewrite parse_elems_print; [done|done|done|done|]. cbn [jsize] in Hf. lia.
  - cbn [json_print]. rewrite !s_app_assoc, !app_cons, !app_nil_l'. cbn [parse_value].
    change (skip_space (String "{" ?s)) with (String "{" s). cbn match.
    rewrite !bool_decide_false, bool_decide_true by done. rewrite (proj2 (Z.leb_gt _ _)) by done.
    destruct l as [|kj l]; [done|].
    assert (Hhead : ∃ t, Join ((λ kv, in_quotes kv.1 +:+ ":" +:+ json_print kv.2) <$> (kj :: l)) "," +:+ String "}" r = String dquote t).
    { rewrite fmap_cons. destruct (decide ((λ kv, in_quotes kv.1 +:+ ":" +:+ json_print kv.2) <$> l = [])) as [->|Hne];
        [|rewrite Join_cons by done]; cbn [Join]; unfold in_quotes, dq; rewrite ?s_app_assoc, !app_cons; eauto. }
    destruct Hhead as [t Ht]. rewrite Ht. change (skip_space (String dquote ?s)) with (String dquote s). cbn match.
    rewrite bool_decide_false by done. rewrite <- Ht.
    rewrite parse_members_print; [done|done|done|done|]. cbn [jsize] in Hf. lia.
Qed.

Lemma Join_length l sep :
  String.length (Join l sep) = sum_list_with String.length l + (length l - 1) * String.length sep.
Proof.
  induction l as [|x l IH]; [done|]. destruct l as [|y l]; [cbn; lia|].
  rewrite Join_cons, !s_length_app, IH by done. cbn [sum_list_with length]. lia.
Qed.

Lemma jsize_print j d : wf_json d j → S (jsize j) ≤ 2 * String.length (json_print j).
Proof.
  revert d. induction j as [|b|n|l|l IH|l IH] using json_ind; intros d Hwf; inversion Hwf as [| |? ? [Hn _]|? ? Hl|? ? Hd Hl|? ? Hd Hl]; subst;
    cbn [json_print jsize]; unfold in_quotes.
  - cbn. lia.
  - destruct b; cbn; lia.
  - destruct n; [done|]. cbn. lia.
  - rewrite !s_length_app. cbn. lia.
  - rewrite !s_length_app, Join_length. cbn [String.length].
    assert (sum_list_with (λ x, S (jsize x)) l ≤ 2 * sum_list_with String.length (json_print <$> l)); [|lia].
    clear Hwf Hd. induction l as [|j l IHl]; [cbn; lia|]. rewrite fmap_cons. cbn [sum_list_with].
    apply Forall_cons in IH as [Hj IH], Hl as [Hj' Hl]. apply Hj in Hj'. specialize (IHl IH Hl). lia.
  - rewrite !s_length_app, Join_length. cbn [String.length].
    assert (sum_list_with (λ kv, S (jsize kv.2)) l ≤
      2 * sum_list_with String.length ((λ kv, in_quotes kv.1 +:+ ":" +:+ json_print kv.2) <$> l)); [|unfold in_quotes in *; lia].
    clear Hwf Hd. induction l as [|j l IHl]; [cbn; lia|]. rewrite fmap_cons. cbn [sum_list_with].
    apply Forall_cons in IH as [Hj IH], Hl as [[_ Hj'] Hl]. apply Hj in Hj'. specialize (IHl IH Hl).
    rewrite !s_length_app. lia.
Qed.

Lemma json_parse_print j : wf_json 0 j → json_parse (json_print j) = Some j.
Proof.
  intros Hwf. unfold json_parse. rewrite <- (s_app_nil_r (json_print j)) at 2.
  rewrite parse_value_print; [done|done| |done].
  pose proof (jsize_print j 0 Hwf). unfold parse_fuel. lia.
Qed.

(** ** Runes and literals *)

Definition high (s : string) : Prop := Forall (λ c, (128 ≤ byte c)%Z) (String.list_ascii_of_string s).
(** What [runes] yields: an ASCII byte, an invalid byte, or the encoding of a
    rune, read back whatever follows. *)
Inductive rune_unit : Z * string → Prop :=
| unit_ascii c : (byte c < 128)%Z → rune_unit (byte c, String c "")
| unit_bad c : (128 ≤ byte c)%Z → rune_unit (RuneError, String c "")
| unit_rune r bs : (128 ≤ r)%Z → high bs → 2 ≤ String.length bs → EncodeRune r = bs →
    (∀ t, runes (bs +:+ t) = (r, bs) :: runes t) → rune_unit (r, bs).

Lemma byte_between c lo hi : in_range lo hi (byte c) = true ↔ (lo ≤ byte c ≤ hi)%Z.
Proof. unfold in_range. rewrite andb_true_iff, !Z.leb_le. lia. Qed.
Lemma char_is z c : z = byte c → char z = c.
Proof. intros ->. apply char_byte. Qed.
Lemma in_range_false lo hi z : (z < lo ∨ hi < z)%Z → in_range lo hi z = false.
Proof. intros H. apply not_true_iff_false. unfold in_range. rewrite andb_true_iff, !Z.leb_le. lia. Qed.

Ltac rune_arith := unfold low6 in *; Z.to_euclidean_division_equations; lia.

Lemma EncodeRune_2 c0 c1 : in_range 194 223 (byte c0) = true → cont c1 = true →
  EncodeRune ((byte c0 - 192) * 64 + low6 c1) = String c0 (String c1 "") ∧ (128 ≤ (byte c0 - 192) * 64 + low6 c1)%Z.
Proof.
  unfold cont. rewrite !byte_between. intros H0 H1. set (r := (_ + _)%Z).
  assert (Hr : (128 ≤ r < 2048)%Z) by (unfold r, low6; lia). split; [|lia]. unfold EncodeRune.
  rewrite (proj2 (Z.ltb_ge r 0)), (proj2 (Z.ltb_ge r 128)), (proj2 (Z.ltb_lt r 2048)) by lia.
  rewrite !(char_is _ c0), (char_is _ c1) by (unfold r in *; rune_arith). done.
Qed.
Lemma EncodeRune_3 c0 c1 c2 : in_range 224 239 (byte c0) = true →
  in_range (if (byte c0 =? 224)%Z then 160 else 128) (if (byte c0 =? 237)%Z then 159 else 191) (byte c1) = true →
  cont c2 = true →
  let r := ((byte c0 - 224) * 4096 + low6 c1 * 64 + low6 c2)%Z in
  EncodeRune r = String c0 (String c1 (String c2 "")) ∧ (128 ≤ r)%Z.
Proof.
  unfold cont. rewrite !byte_between. intros H0 H1 H2. set (r := ((byte c0 - 224) * 4096 + low6 c1 * 64 + low6 c2)%Z).
  assert (Hr : (2048 ≤ r < 65536 ∧ (r < 55296 ∨ 57343 < r))%Z).
  { destruct (Z.eqb_spec (byte c0) 224), (Z.eqb_spec (byte c0) 237); unfold r, low6; lia. }
  assert (Hc1 : (128 ≤ byte c1 ≤ 191)%Z) by (destruct (byte c0 =? 224)%Z, (byte c0 =? 237)%Z; lia).
  split; [|lia]. unfold EncodeRune.
  rewrite (proj2 (Z.ltb_ge r 0)), (proj2 (Z.ltb_ge r 128)), (proj2 (Z.ltb_ge r 2048)) by lia.
  rewrite in_range_false, (proj2 (Z.ltb_ge 1114111 r)), (proj2 (Z.ltb_lt r 65536)) by lia. cbn [orb].
  rewrite !(char_is _ c0), !(char_is _ c1), (char_is _ c2) by (unfold r in *; clear Hr; rune_arith). done.
Qed.
Lemma EncodeRune_4 c0 c1 c2 c3 : in_range 240 244 (byte c0) = true →
  in_range (if (byte c0 =? 240)%Z then 144 else 128) (if (byte c0 =? 244)%Z then 143 else 191) (byte c1) = true →
  cont c2 = true → cont c3 = true →
  let r := ((byte c0 - 240) * 262144 + low6 c1 * 4096 + low6 c2 * 64 + low6 c3)%Z in
  EncodeRune r = String c0 (String c1 (String c2 (String c3 ""))) ∧ (128 ≤ r)%Z.
Proof.
  unfold cont. rewrite !byte_between. intros H0 H1 H2 H3. set (r := ((byte c0 - 240) * 262144 + low6 c1 * 4096 + low6 c2 * 64 + low6 c3)%Z).
  assert (Hr : (65536 ≤ r ≤ 1114111)%Z).
  { destruct (Z.eqb_spec (byte c0) 240), (Z.eqb_spec (byte c0) 244); unfold r, low6; lia. }
  assert (Hc1 : (128 ≤ byte c1 ≤ 191)%Z) by (destruct (byte c0 =? 240)%Z, (byte c0 =? 244)%Z; lia).
  split; [|lia]. unfold EncodeRune.
  rewrite (proj2 (Z.ltb_ge r 0)), (proj2 (Z.ltb_ge r 128)), (proj2 (Z.ltb_ge r 2048)) by lia.
  rewrite in_range_false, (proj2 (Z.ltb_ge 1114111 r)), (proj2 (Z.ltb_ge r 65536)) by lia. cbn [orb].
  rewrite !(char_is _ c0), !(char_is _ c1), !(char_is _ c2), (char_is _ c3) by (unfold r in *; clear Hr; rune_arith). done.
Qed.

Lemma runes_cons c s : ∃ r bs t,
  String c s = bs +:+ t ∧ runes (String c s) = (r, bs) :: runes t ∧ rune_unit (r, bs).
Proof.
  destruct (Z.ltb (byte c) 128) eqn:Ea.
  { exists (byte c), (String c ""), s. cbn [runes]. rewrite Ea. apply Z.ltb_lt in Ea. by repeat constructor. }
  assert (Hc : (128 ≤ byte c)%Z) by (apply Z.ltb_ge in Ea; lia).
  assert (Hbad : runes (String c s) = (RuneError, String c "") :: runes s → ∃ r bs t,
    String c s = bs +:+ t ∧ runes (String c s) = (r, bs) :: runes t ∧ rune_unit (r, bs)).
  { intros H. exists RuneError, (String c ""), s. split_and!; [done|done|by constructor]. }
  destruct (in_range 194 223 (byte c)) eqn:E2.
  { destruct s as [|c1 s]; [apply Hbad; cbn; by rewrite Ea, E2|].
    destruct (cont c1) eqn:E1; [|apply Hbad; cbn [runes]; by rewrite Ea, E2, E1].
    destruct (EncodeRune_2 c c1 E2 E1) as [He Hr]. exists ((byte c - 192) * 64 + low6 c1)%Z, (String c (String c1 "")), s.
    assert (Hruns : ∀ t, runes (String c (String c1 "") +:+ t) = (((byte c - 192) * 64 + low6 c1)%Z, String c (String c1 "")) :: runes t).
    { intros t. rewrite !app_cons, app_nil_l'. cbn [runes]. by rewrite Ea, E2, E1. }
    split_and!; [done|apply (Hruns s)|]. constructor; [done|..|done|done].
    - apply byte_between in E1, E2. repeat constructor; lia.
    - cbn. lia. }
  destruct (in_range 224 239 (byte c)) eqn:E3.
  { destruct s as [|c1 [|c2 s]]; [apply Hbad; cbn [runes]; by rewrite Ea, E2, E3..|].
    destruct (in_range (if (byte c =? 224)%Z then 160 else 128) (if (byte c =? 237)%Z then 159 else 191) (byte c1)
              && cont c2) eqn:E; [|apply Hbad; cbn [runes]; by rewrite Ea, E2, E3, E].
    apply andb_true_iff in E as [E1 Ec]. destruct (EncodeRune_3 c c1 c2 E3 E1 Ec) as [He Hr].
    exists ((byte c - 224) * 4096 + low6 c1 * 64 + low6 c2)%Z, (String c (String c1 (String c2 ""))), s.
    assert (Hruns : ∀ t, runes (String c (String c1 (String c2 "")) +:+ t) = (((byte c - 224) * 4096 + low6 c1 * 64 + low6 c2)%Z, String c (String c1 (String c2 ""))) :: runes t).
    { intros t. rewrite !app_cons, app_nil_l'. cbn [runes]. by rewrite Ea, E2, E3, E1, Ec. }
    split_and!; [done|apply (Hruns s)|]. constructor; [done|..|done|done].
    - apply byte_between in E1, Ec, E3. repeat constructor; [lia| |lia].
      destruct (byte c =? 224)%Z, (byte c =? 237)%Z; lia.
    - cbn. lia. }
  destruct (in_range 240 244 (byte c)) eqn:E4; [|apply Hbad; cbn [runes]; by rewrite Ea, E2, E3, E4].
  destruct s as [|c1 [|c2 [|c3 s]]]; [apply Hbad; cbn [runes]; by rewrite Ea, E2, E3, E4..|].
  destruct (in_range (if (byte c =? 240)%Z then 144 else 128) (if (byte c =? 244)%Z then 143 else 191) (byte c1)
            && cont c2 && cont c3) eqn:E; [|apply Hbad; cbn [runes]; by rewrite Ea, E2, E3, E4, E].
  apply andb_true_iff in E as [[E1 Ec]%andb_true_iff Ed]. destruct (EncodeRune_4 c c1 c2 c3 E4 E1 Ec Ed) as [He Hr].
  exists ((byte c - 240) * 262144 + low6 c1 * 4096 + low6 c2 * 64 + low6 c3)%Z, (String c (String c1 (String c2 (String c3 "")))), s.
  assert (Hruns : ∀ t, runes (String c (String c1 (String c2 (String c3 ""))) +:+ t) = (((byte c - 240) * 262144 + low6 c1 * 4096 + low6 c2 * 64 + low6 c3)%Z, String c (String c1 (String c2 (String c3 "")))) :: runes t).
  { intros t. rewrite !app_cons, app_nil_l'. cbn [runes]. by rewrite Ea, E2, E3, E4, E1, Ec, Ed. }
  split_and!; [done|apply (Hruns s)|]. constructor; [done|..|done|done].
  - apply byte_between in E1, Ec, Ed, E4. repeat constructor; [lia| |lia..].
    destruct (byte c =? 240)%Z, (byte c =? 244)%Z; lia.
  - cbn. lia.
Qed.

Lemma runes_ind (P : string → Prop) :
  P "" → (∀ r bs t, rune_unit (r, bs) → runes (bs +:+ t) = (r, bs) :: runes t → P t → P (bs +:+ t)) → ∀ s, P s.
Proof.
  intros H0 Hs s. remember (String.length s) as n eqn:Hn. revert s Hn.
  induction n as [n IH] using lt_wf_ind; intros s ->. destruct s as [|c s]; [done|].
  destruct (runes_cons c s) as (r & bs & t & E & Hr & Hu). rewrite E in Hr |- *.
  apply (Hs r bs t); [done..|]. apply (IH (String.length t)); [|done]. rewrite E, s_length_app. inversion Hu; subst; cbn [String.length] in *; lia.
Qed.

Lemma push_push a b r : push a (push b r) = push (a +:+ b) r.
Proof. destruct r as [[l r]|]; cbn; [|done]. by rewrite s_app_assoc. Qed.
Lemma push_nil r : push "" r = r.
Proof. by destruct r as [[l r]|]. Qed.

Lemma high_cons c s : high (String c s) ↔ (128 ≤ byte c)%Z ∧ high s.
Proof. unfold high. cbn. by rewrite Forall_cons. Qed.
Lemma scan_high bs t : high bs → scan_string (bs +:+ t) = push bs (scan_string t).
Proof.
  induction bs as [|c bs IH]; intros Hh; [by rewrite push_nil|]. apply high_cons in Hh as [Hc Hh].
  rewrite app_cons. cbn [scan_string].
  rewrite !bool_decide_false by (intros ->; vm_compute in Hc; done).
  rewrite (proj2 (Z.ltb_ge _ _)) by lia. by rewrite IH, push_push.
Qed.

(** The text [quote_rune] writes for a rune. *)
Lemma quote_rune_rune r bs : (128 ≤ r)%Z → 2 ≤ String.length bs →
  quote_rune (r, bs) = if (r =? 8232)%Z || (r =? 8233)%Z then u_escape r else bs.
Proof.
  intros Hr Hl. unfold quote_rune. rewrite !(proj2 (Z.eqb_neq r _)) by lia. rewrite (proj2 (Z.ltb_ge _ _)) by lia.
  cbn [orb]. rewrite bool_decide_false by lia. rewrite andb_false_r.
  destruct (Z.eqb_spec r 8232), (Z.eqb_spec r 8233); try lia; reflexivity.
Qed.
Lemma quote_rune_bad c : quote_rune (RuneError, String c "") = "\ufffd".
Proof. reflexivity. Qed.

(** Case analysis on an ASCII byte. *)
Ltac each_ascii c H := destruct c as [[] [] [] [] [] [] [] []]; try (vm_compute in H; discriminate H).

Lemma scan_quote_rune rb t : rune_unit rb → scan_string (quote_rune rb +:+ t) = push (quote_rune rb) (scan_string t).
Proof.
  intros [c Hc|c Hc|r bs Hr Hh Hl He Hruns].
  - each_ascii c Hc; reflexivity.
  - rewrite quote_rune_bad. reflexivity.
  - rewrite quote_rune_rune by done. destruct (Z.eqb_spec r 8232) as [->|]; [reflexivity|].
    destruct (Z.eqb_spec r 8233) as [->|]; [reflexivity|]. by apply scan_high.
Qed.

Lemma unquote_high r bs l : (128 ≤ r)%Z → unquote_runes ((r, bs) :: l) = EncodeRune r +:+ unquote_runes l.
Proof. intros Hr. cbn [unquote_runes]. by rewrite (proj2 (Z.eqb_neq r 92)) by lia. Qed.
Lemma unquote_quote_rune rb t : rune_unit rb →
  unquote_runes (runes (quote_rune rb +:+ t)) = EncodeRune rb.1 +:+ unquote_runes (runes t).
Proof.
  intros [c Hc|c Hc|r bs Hr Hh Hl He Hruns].
  - each_ascii c Hc; reflexivity.
  - rewrite quote_rune_bad. reflexivity.
  - rewrite quote_rune_rune by done. destruct (Z.eqb_spec r 8232) as [->|]; [reflexivity|].
    destruct (Z.eqb_spec r 8233) as [->|]; [reflexivity|]. cbn [orb]. rewrite Hruns. by apply unquote_high.
Qed.

Lemma html_quote_rune rb t : rune_unit rb → html_escape (quote_rune rb +:+ t) = quote_rune rb +:+ html_escape t.
Proof.
  unfold html_escape. intros [c Hc|c Hc|r bs Hr Hh Hl He Hruns].
  - each_ascii c Hc; reflexivity.
  - rewrite quote_rune_bad. reflexivity.
  - rewrite quote_rune_rune by done. destruct (Z.eqb_spec r 8232) as [->|]; [reflexivity|].
    destruct (Z.eqb_spec r 8233) as [->|]; [reflexivity|]. cbn [orb]. rewrite Hruns, fmap_cons. cbn [concat_string].
    unfold html_rune at 1. by rewrite !(proj2 (Z.eqb_neq r _)) by (done || lia).
Qed.

Lemma quote_lit_app r bs t : runes (bs +:+ t) = (r, bs) :: runes t →
  quote_lit (bs +:+ t) = quote_rune (r, bs) +:+ quote_lit t.
Proof. unfold quote_lit. by intros ->. Qed.

Lemma wf_quote_lit s : wf_lit (quote_lit s).
Proof.
  induction s as [|r bs t Hu Hr IH] using runes_ind; intros rest; [reflexivity|].
  rewrite (quote_lit_app _ _ _ Hr), s_app_assoc, scan_quote_rune, IH by done. done.
Qed.
Lemma html_quote_lit s : html_escape (quote_lit s) = quote_lit s.
Proof.
  induction s as [|r bs t Hu Hr IH] using runes_ind; [reflexivity|].
  by rewrite (quote_lit_app _ _ _ Hr), html_quote_rune, IH.
Qed.

(** [strings.ToValidUTF8(s, U+FFFD)], one replacement for each byte. *)
Definition to_valid (s : string) : string := concat_string ((λ rb, EncodeRune rb.1) <$> runes s).
Definition valid_utf8 (s : string) : Prop := to_valid s = s.
#[export] Instance valid_utf8_dec s : Decision (valid_utf8 s) := decide (to_valid s = s).

Lemma unquote_quote s : unquote (quote_lit s) = to_valid s.
Proof.
  unfold unquote, to_valid. induction s as [|r bs t Hu Hr IH] using runes_ind; [reflexivity|].
  by rewrite (quote_lit_app _ _ _ Hr), unquote_quote_rune, IH, Hr.
Qed.

Lemma EncodeRune_error r : (r < 0)%Z ∨ is_surrogate r = true ∨ (1114111 < r)%Z → EncodeRune r = EncodeRune RuneError.
Proof.
  unfold EncodeRune, is_surrogate. intros H. destruct (Z.ltb_spec r 0); [done|].
  destruct H as [?|H]; [lia|].
  assert (2048 ≤ r)%Z by (unfold in_range in H; destruct H as [[?%Z.leb_le _]%andb_true_iff|?]; lia).
  rewrite (proj2 (Z.ltb_ge r 128)), (proj2 (Z.ltb_ge r 2048)) by lia.
  assert (Hb : in_range 55296 57343 r || (1114111 <? r)%Z = true).
  { apply orb_true_iff. destruct H as [?|?]; [by left|right]. by apply Z.ltb_lt. }
  by rewrite Hb.
Qed.

Lemma byte_char_in z lo hi : (0 ≤ lo)%Z → (hi < 256)%Z → (lo ≤ z ≤ hi)%Z →
  byte (char z) = z ∧ in_range lo hi (byte (char z)) = true.
Proof. intros. rewrite byte_char by lia. split; [done|]. unfold in_range. rewrite andb_true_iff, !Z.leb_le. lia. Qed.
Lemma in_range_true lo hi z : (lo ≤ z ≤ hi)%Z → in_range lo hi z = true.
Proof. intros. unfold in_range. rewrite andb_true_iff, !Z.leb_le. lia. Qed.

(** What [EncodeRune] writes is read back as one rune, the same or U+FFFD. *)
Lemma runes_Encode r t : ∃ r', runes (EncodeRune r +:+ t) = (r', EncodeRune r) :: runes t ∧ EncodeRune r' = EncodeRune r.
Proof.
  destruct (decide (r < 0 ∨ is_surrogate r = true ∨ 1114111 < r)%Z) as [H|H].
  { rewrite (EncodeRune_error r H). by exists RuneError. }
  assert (Hr : (0 ≤ r ≤ 1114111)%Z) by lia. assert (Hs : is_surrogate r = false) by (destruct (is_surrogate r); naive_solver).
  exists r. split; [|done]. unfold EncodeRune. rewrite (proj2 (Z.ltb_ge r 0)) by lia.
  destruct (Z.ltb_spec r 128).
  { rewrite app_cons, app_nil_l'. cbn [runes]. rewrite byte_char, (proj2 (Z.ltb_lt r 128)) by lia. done. }
  destruct (Z.ltb_spec r 2048).
  { rewrite !app_cons, app_nil_l'. cbn [runes].
    assert (2 ≤ r / 64 ≤ 31 ∧ 0 ≤ r mod 64 ≤ 63 ∧ r = r / 64 * 64 + r mod 64)%Z by rune_arith.
    unfold cont, low6. rewrite !byte_char by lia.
    rewrite (proj2 (Z.ltb_ge _ 128)), !in_range_true by lia. do 2 f_equal. lia. }
  unfold is_surrogate in Hs. rewrite Hs, (proj2 (Z.ltb_ge 1114111 r)) by lia. cbn [orb].
  destruct (Z.ltb_spec r 65536).
  { rewrite !app_cons, app_nil_l'. cbn [runes].
    set (x := (r / 4096)%Z). set (y := ((r / 64) mod 64)%Z). set (z := (r mod 64)%Z).
    assert (0 ≤ x ≤ 15 ∧ 0 ≤ y ≤ 63 ∧ 0 ≤ z ≤ 63 ∧ r = x * 4096 + y * 64 + z)%Z by (unfold x, y, z; rune_arith).
    unfold cont, low6. rewrite !byte_char by lia.
    rewrite (proj2 (Z.ltb_ge _ 128)), (in_range_false 194 223), (in_range_true 224 239) by lia.
    assert (¬ (55296 ≤ r ≤ 57343)%Z) by (intros ?; rewrite in_range_true in Hs by lia; done).
    rewrite in_range_true; [rewrite in_range_true by lia; cbn [andb]; do 2 f_equal; lia|].
    destruct (Z.eqb_spec (224 + x) 224), (Z.eqb_spec (224 + x) 237); lia. }
  rewrite !app_cons, app_nil_l'. cbn [runes].
  set (w := (r / 262144)%Z). set (x := ((r / 4096) mod 64)%Z). set (y := ((r / 64) mod 64)%Z). set (z := (r mod 64)%Z).
  assert (0 ≤ w ≤ 4 ∧ 0 ≤ x ≤ 63 ∧ 0 ≤ y ≤ 63 ∧ 0 ≤ z ≤ 63 ∧ r = w * 262144 + x * 4096 + y * 64 + z)%Z
    by (unfold w, x, y, z; rune_arith).
  unfold cont, low6. rewrite !byte_char by lia.
  rewrite (proj2 (Z.ltb_ge _ 128)), (in_range_false 194 223), (in_range_false 224 239), (in_range_true 240 244) by lia.
  rewrite in_range_true; [rewrite !in_range_true by lia; cbn [andb]; do 2 f_equal; lia|].
  destruct (Z.eqb_spec (240 + w) 240), (Z.eqb_spec (240 + w) 244); lia.
Qed.

Lemma valid_app_rune r t : valid_utf8 t → valid_utf8 (EncodeRune r +:+ t).
Proof.
  unfold valid_utf8, to_valid. intros Ht. destruct (runes_Encode r t) as (r' & -> & He).
  rewrite fmap_cons. cbn [concat_string fst]. by rewrite He, Ht.
Qed.
Lemma unquote_runes_valid l : valid_utf8 (unquote_runes l).
Proof.
  remember (length l) as n eqn:Hn. revert l Hn. induction n as [n IH] using lt_wf_ind; intros l ->.
  assert (Hs : ∀ r l', length l' < length l → valid_utf8 (EncodeRune r +:+ unquote_runes l')).
  { intros r l' Hl. by apply valid_app_rune, (IH (length l')). }
  clear IH. destruct l as [|[r bs] l1]; [done|]. cbn [unquote_runes].
  destruct (r =? 92)%Z; [|apply Hs; cbn; lia].
  destruct l1 as [|[e ?] l2]; [done|]. destruct (e =? 117)%Z; [|apply Hs; cbn; lia].
  destruct l2 as [|h1 [|h2 [|h3 [|h4 l3]]]]; try done.
  destruct (is_surrogate _); [|apply Hs; cbn; lia].
  destruct l3 as [|[b ?] [|[c ?] [|g1 [|g2 [|g3 [|g4 l4]]]]]]; try (apply Hs; cbn; lia).
  case_if; apply Hs; cbn; lia.
Qed.
Lemma unquote_valid l : valid_utf8 (unquote l).
Proof. apply unquote_runes_valid. Qed.

(** ** What the scanner accepts *)

Inductive lit : string → Prop :=
| lit_nil : lit ""
| lit_char c t : c ≠ dquote → c ≠ "\"%char → (32 ≤ byte c)%Z → lit t → lit (String c t)
| lit_esc d t : (d =? dquote) || one_of "\/bfnrt" d = true → lit t → lit (String "\" (String d t))
| lit_u a b c d t : is_hex a && is_hex b && is_hex c && is_hex d = true → lit t →
    lit (String "\" (String "u" (String a (String b (String c (String d t)))))).

Lemma lit_wf l : lit l → wf_lit l.
Proof.
  unfold wf_lit. induction 1 as [|c t H1 H2 H3 _ IH|d t Hd _ IH|a b c d t Hh _ IH]; intros r.
  - reflexivity.
  - rewrite app_cons. cbn [scan_string]. rewrite !bool_decide_false by done.
    rewrite (proj2 (Z.ltb_ge _ _)), IH by lia. done.
  - rewrite !app_cons. cbn [scan_string]. rewrite bool_decide_false, bool_decide_true by done.
    rewrite bool_decide_false by (intros ->; vm_compute in Hd; done). by rewrite Hd, IH.
  - rewrite !app_cons. cbn [scan_string]. rewrite bool_decide_false, !bool_decide_true by done. by rewrite Hh, IH.
Qed.

Lemma push_some p r l rest : push p r = Some (l, rest) → ∃ l', r = Some (l', rest) ∧ l = p +:+ l'.
Proof. destruct r as [[l' r']|]; cbn; [|done]. intros [= <- <-]. eauto. Qed.

Lemma scan_string_lit s : ∀ l r, scan_string s = Some (l, r) → lit l ∧ s = l +:+ String dquote r.
Proof.
  remember (String.length s) as n eqn:Hn. revert s Hn. induction n as [n IH] using lt_wf_ind.
  intros s -> l r Hs. destruct s as [|c s]; [done|]. cbn [scan_string] in Hs.
  case_bool_decide as H1. { injection Hs as <- <-. subst. split; [constructor|done]. }
  case_bool_decide as H2.
  - subst c. destruct s as [|d s]; [done|]. case_bool_decide as H3.
    + subst d. destruct s as [|a [|b [|c [|d s]]]]; try done. case_if_in Hs; [|done].
      apply push_some in Hs as (l' & Hs & ->). destruct (IH (String.length s)) with s l' r as [Hl ->]; [cbn; lia|done..|].
      by split; [constructor|].
    + case_if_in Hs; [|done]. apply push_some in Hs as (l' & Hs & ->).
      destruct (IH (String.length s)) with s l' r as [Hl ->]; [cbn; lia|done..|]. by split; [constructor|].
  - destruct (Z.ltb_spec (byte c) 32); [done|]. apply push_some in Hs as (l' & Hs & ->).
    destruct (IH (String.length s)) with s l' r as [Hl ->]; [cbn; lia|done..|]. split; [by constructor|done].
Qed.

Lemma lit_app_high bs t : high bs → lit (bs +:+ t) ↔ lit t.
Proof.
  induction bs as [|c bs IH]; intros Hh; [done|]. apply high_cons in Hh as [Hc Hh]. rewrite app_cons, <- IH by done.
  split.
  - intros H. inversion H; subst; [done|..]; vm_compute in Hc; done.
  - intros H. constructor; [..|lia|done]; intros ->; vm_compute in Hc; done.
Qed.

Lemma runes_ascii c t : (byte c < 128)%Z → runes (String c t) = (byte c, String c "") :: runes t.
Proof. intros H. cbn [runes]. by rewrite (proj2 (Z.ltb_lt _ _)). Qed.
Lemma valid_ascii s : Forall (λ c, (byte c < 128)%Z) (String.list_ascii_of_string s) → valid_utf8 s.
Proof.
  induction s as [|c s IH]; [done|]. intros [Hc Hs]%Forall_cons. specialize (IH Hs). unfold valid_utf8, to_valid in *.
  rewrite runes_ascii by done. cbn [fmap list_fmap concat_string]. rewrite IH. cbn [fst].
  unfold EncodeRune. rewrite (proj2 (Z.ltb_lt (byte c) 128)), (proj2 (Z.ltb_ge (byte c) 0)) by (pose proof (byte_bound c); lia).
  by rewrite char_byte.
Qed.
Lemma html_escape_ascii c t : (byte c < 128)%Z → html_escape (String c t) = html_rune (byte c, String c "") +:+ html_escape t.
Proof. intros H. unfold html_escape. by rewrite runes_ascii. Qed.

Lemma is_hex_lowerhex z : (0 ≤ z < 16)%Z → is_hex (lowerhex z) = true.
Proof.
  intros Hz. destruct z as [|p|p]; [done| |lia]. do 4 (destruct p as [p|p|]; [| |reflexivity]); lia.
Qed.
Lemma lit_u_escape r t : (0 ≤ r < 65536)%Z → lit t → lit (u_escape r +:+ t).
Proof.
  intros Hr Ht. unfold u_escape. rewrite !app_cons, !app_nil_l'. constructor; [|done].
  rewrite !is_hex_lowerhex; [done|rune_arith..].
Qed.

Lemma html_escape_lit l : lit l → lit (html_escape l).
Proof.
  remember (String.length l) as n eqn:Hn. revert l Hn. induction n as [n IH] using lt_wf_ind.
  intros l -> Hl. destruct l as [|c s]; [constructor|].
  destruct (Z.ltb_spec (byte c) 128) as [Ha|Ha].
  - inversion Hl as [|? ? H1 H2 H3 Ht|d t Hd Ht|h1 h2 h3 h4 t Hh Ht]; subst.
    + rewrite html_escape_ascii by done. assert (lit (html_escape s)) as Hs by (apply (IH (String.length s)); cbn; done || lia).
      pose proof (byte_bound c). unfold html_rune. case_if; [apply lit_u_escape; [lia|done]|by constructor].
    + assert (Hd' : (byte d < 128)%Z ∧ html_rune (byte d, String d "") = String d "").
      { each_ascii d Hd; vm_compute; done. }
      destruct Hd' as [Hd1 Hd2]. rewrite !html_escape_ascii, Hd2 by done.
      change (html_rune _) with "\". rewrite !app_cons, !app_nil_l'. constructor; [done|].
      apply (IH (String.length t)); [cbn; lia|done|done].
    + assert (Hx : ∀ h, is_hex h = true → (byte h < 128)%Z ∧ html_rune (byte h, String h "") = String h "").
      { intros h E. each_ascii h E; vm_compute; done. }
      pose proof Hh as [[[E1 E2]%andb_true_iff E3]%andb_true_iff E4]%andb_true_iff.
      destruct (Hx _ E1) as [? R1], (Hx _ E2) as [? R2], (Hx _ E3) as [? R3], (Hx _ E4) as [? R4].
      rewrite !html_escape_ascii, R1, R2, R3, R4 by done.
      change (html_rune (byte "\", _)) with "\". change (html_rune (byte "u", _)) with "u".
      rewrite !app_cons, !app_nil_l'. constructor; [done|]. apply (IH (String.length t)); [cbn; lia|done|done].
  - destruct (runes_cons c s) as (r & bs & t & E & Hr & Hu). rewrite E in *. unfold html_escape. rewrite Hr, fmap_cons.
    cbn [concat_string]. fold (html_escape t).
    assert (Hh : high bs ∧ (128 ≤ r)%Z ∧ 1 ≤ String.length bs).
    { inversion Hu; subst; cbn in *.
      - injection E as -> ->. lia.
      - unfold RuneError in *. split_and!; [repeat constructor; done|lia|lia].
      - split_and!; [done|done|lia]. }
    destruct Hh as (Hh & Hr' & Hlen). apply lit_app_high in Hl; [|done].
    assert (lit (html_escape t)) as Ht by (apply (IH (String.length t)); [rewrite s_length_app; lia|done|done]).
    unfold html_rune. rewrite !(proj2 (Z.eqb_neq r _)) by lia.
    destruct (Z.eqb_spec r 8232) as [->|]; [by apply lit_u_escape|].
    destruct (Z.eqb_spec r 8233) as [->|]; [by apply lit_u_escape|].
    by apply lit_app_high.
Qed.

Lemma span_digits_spec s : ∀ d r, span_digits s = (d, r) →
  s = d +:+ r ∧ Forall (λ c, is_digit (byte c) = true) (String.list_ascii_of_string d).
Proof.
  induction s as [|c s IH]; intros d r; cbn [span_digits]; [by intros [= <- <-]|].
  destruct (is_digit (byte c)) eqn:E; [|by intros [= <- <-]].
  destruct (span_digits s) as [d' r'] eqn:Es. intros [= <- <-]. destruct (IH d' r' eq_refl) as [-> H].
  split; [done|]. cbn. by constructor.
Qed.
Definition digit_stop (s : string) : Prop := match s with "" => True | String c _ => is_digit (byte c) = false end.
Lemma span_digits_app d r : Forall (λ c, is_digit (byte c) = true) (String.list_ascii_of_string d) → digit_stop r →
  span_digits (d +:+ r) = (d, r).
Proof.
  intros Hd Hr. induction d as [|c d IH].
  - rewrite app_nil_l'. destruct r as [|c r]; [done|]. cbn [span_digits]. by rewrite Hr.
  - cbn in Hd. apply Forall_cons in Hd as [Hc Hd]. rewrite app_cons. cbn [span_digits]. by rewrite Hc, IH.
Qed.
Lemma scan_digits_spec s d r : scan_digits s = Some (d, r) →
  s = d +:+ r ∧ (∃ c d', d = String c d' ∧ is_digit (byte c) = true) ∧
  ∀ r', digit_stop r' → scan_digits (d +:+ r') = Some (d, r').
Proof.
  unfold scan_digits. destruct (span_digits s) as [d0 r0] eqn:E. case_bool_decide as Hd; [done|]. intros [= <- <-].
  apply span_digits_spec in E as [-> HF]. split; [done|]. split.
  - destruct d0 as [|c d']; [done|]. cbn in HF. apply Forall_cons in HF as [? _]. eauto.
  - intros r' Hr'. rewrite span_digits_app by done. by rewrite bool_decide_false.
Qed.

Definition exp_stop (s : string) : Prop :=
  match s with "" => True | String c _ => is_digit (byte c) = false ∧ one_of "eE" c = false end.
Lemma num_stop_exp s : num_stop s → exp_stop s ∧ digit_stop s.
Proof.
  destruct s as [|c s]; [done|]. intros [H1 H2]. split; [|done]. split; [done|].
  apply not_true_iff_false. intros H3. apply not_true_iff_false in H2. apply H2.
  each_ascii c H3; reflexivity.
Qed.
Lemma exp_stop_none r : exp_stop r → scan_exp r = Some ("", r).
Proof. destruct r as [|c r]; [done|]. intros [_ H]. cbn [scan_exp]. by rewrite H. Qed.

Lemma scan_exp_spec s e r : scan_exp s = Some (e, r) →
  s = e +:+ r ∧ ∀ r', num_stop r' → scan_exp (e +:+ r') = Some (e, r').
Proof.
  destruct s as [|c s]; cbn [scan_exp].
  { intros [= <- <-]. split; [done|]. intros r' [? _]%num_stop_exp. by apply exp_stop_none. }
  destruct (one_of "eE" c) eqn:Ec.
  2: { intros [= <- <-]. split; [done|]. intros r' [? _]%num_stop_exp. by apply exp_stop_none. }
  destruct s as [|d s]; [done|]. destruct (one_of "+-" d) eqn:Ed.
  - intros (x & Hx & ->)%push_some. apply scan_digits_spec in Hx as (-> & _ & Hx). split; [done|].
    intros r' [_ ?]%num_stop_exp. rewrite s_app_assoc, !app_cons, app_nil_l'. cbn [scan_exp].
    by rewrite Ec, Ed, Hx.
  - intros (x & Hx & ->)%push_some. apply scan_digits_spec in Hx as (-> & (x0 & x' & -> & H0) & Hx). split; [done|].
    intros r' [_ ?]%num_stop_exp. rewrite s_app_assoc, (app_cons c ""), app_nil_l', app_cons. cbn [scan_exp].
    assert (Hs : one_of "+-" x0 = false).
    { apply not_true_iff_false. intros H1. each_ascii x0 H1; vm_compute in H0; done. }
    rewrite Ec, Hs, <- app_cons, Hx by done. done.
Qed.
Lemma scan_frac_spec s e r : scan_frac s = Some (e, r) →
  s = e +:+ r ∧ ∀ r', num_stop r' → scan_frac (e +:+ r') = Some (e, r').
Proof.
  assert (Hexp : ∀ s, scan_exp s = Some (e, r) → (match s with String c _ => c ≠ "."%char | "" => True end) →
    s = e +:+ r ∧ ∀ r', num_stop r' → scan_frac (e +:+ r') = Some (e, r')).
  { intros s0 Hs Hdot. apply scan_exp_spec in Hs as [-> Hs]. split; [done|]. intros r' Hr'. pose proof (Hs r' Hr') as H.
    destruct e as [|c e].
    - rewrite app_nil_l' in *. destruct r' as [|c r']; [done|]. cbn [scan_frac]. rewrite bool_decide_false; [done|].
      intros ->. by destruct Hr'.
    - rewrite app_cons in *. cbn [scan_frac]. by rewrite bool_decide_false. }
  destruct s as [|c s]; cbn [scan_frac]; [by intros H; apply Hexp|].
  case_bool_decide as Hc; [|by intros H; apply Hexp].
  destruct (scan_digits s) as [[d r0]|] eqn:Ed; [|done]. intros (x & Hx & ->)%push_some. clear Hexp. subst c.
  apply scan_exp_spec in Hx as [-> Hx]. apply scan_digits_spec in Ed as (-> & _ & Hd).
  split; [by rewrite !app_cons, s_app_assoc|]. intros r' Hr'. rewrite s_app_assoc, app_cons. cbn [scan_frac].
  rewrite bool_decide_true by done. rewrite Hd, Hx; [done|done|].
  destruct x as [|y x]; [by apply num_stop_exp in Hr' as [_ ?]|].
  specialize (Hx r' Hr'). rewrite app_cons in Hx |- *. cbn [scan_exp] in Hx. destruct (one_of "eE" y) eqn:Ey; [|done].
  cbn [digit_stop]. each_ascii y Ey; reflexivity.
Qed.
Lemma scan_int_spec s e r : scan_int s = Some (e, r) →
  s = e +:+ r ∧ num_head e ∧ ∀ r', num_stop r' → scan_int (e +:+ r') = Some (e, r').
Proof.
  destruct s as [|c s]; [done|]. cbn [scan_int]. case_bool_decide as Hc.
  - intros (x & Hx & ->)%push_some. subst c. apply scan_frac_spec in Hx as [-> Hx]. split; [done|].
    split; [by right|]. intros r' Hr'. rewrite s_app_assoc, app_cons, app_nil_l'. cbn [scan_int].
    rewrite bool_decide_true by done. by rewrite Hx.
  - destruct (scan_digits (String c s)) as [[d r0]|] eqn:Ed; [|done]. intros (x & Hx & ->)%push_some.
    apply scan_frac_spec in Hx as [-> Hx]. apply scan_digits_spec in Ed as (Es & (c0 & d' & -> & H0) & Hd).
    rewrite app_cons in Es. injection Es as <- ->. split; [by rewrite !app_cons, s_app_assoc|]. split; [by right|].
    intros r' Hr'. rewrite s_app_assoc, app_cons. cbn [scan_int]. rewrite bool_decide_false, <- app_cons by done.
    rewrite Hd, Hx; [done|done|].
    destruct x as [|y x]; [by apply num_stop_exp in Hr' as [_ ?]|].
    specialize (Hx r' Hr'). rewrite app_cons in Hx |- *. cbn [digit_stop]. apply not_true_iff_false. intros Hy.
    cbn [scan_frac scan_exp] in Hx. rewrite bool_decide_false in Hx by (intros ->; vm_compute in Hy; done).
    destruct (one_of "eE" y) eqn:Ey; [|done]. each_ascii y Ey; vm_compute in Hy; done.
Qed.
Lemma scan_number_wf s n r : scan_number s = Some (n, r) → wf_num n.
Proof.
  destruct s as [|c s]; [done|]. cbn [scan_number]. case_bool_decide as Hc.
  - intros (x & Hx & ->)%push_some. apply scan_int_spec in Hx as (-> & _ & Hx). split; [by left|].
    intros r' Hr'. rewrite s_app_assoc, app_cons, app_nil_l'. cbn [scan_number].
    rewrite bool_decide_true by done. by rewrite Hx.
  - intros Hx. apply scan_int_spec in Hx as (_ & Hh & Hx). split; [done|]. intros r' Hr'.
    pose proof (Hx r' Hr') as H. destruct n as [|c' n]; [done|]. rewrite app_cons in *. cbn [scan_number].
    case_bool_decide as Hm; [|done]. subst c'. cbn [scan_int scan_digits span_digits] in H. done.
Qed.

Lemma fmap_some {A B} (f : A → B) o b : f <$> o = Some b → ∃ a, o = Some a ∧ f a = b.
Proof. destruct o; cbn; naive_solver. Qed.

(** A parsed text is well formed. *)
Lemma parse_wf fuel :
  (∀ d s j r, parse_value fuel d s = Some (j, r) → wf_json d j) ∧
  (∀ d s l r, parse_elems fuel d s = Some (l, r) → Forall (wf_json d) l) ∧
  (∀ d s l r, parse_members fuel d s = Some (l, r) → Forall (λ kv, wf_lit kv.1 ∧ wf_json d kv.2) l).
Proof.
  induction fuel as [|fuel (IHv & IHe & IHm)]; [done|]. split_and!; intros d s j r H.
  - cbn [parse_value] in H. destruct (skip_space s) as [|c s']; [done|].
    case_bool_decide. { apply fmap_some in H as ([l r'] & H & [= <- <-]). constructor. by apply scan_string_lit in H as [?%lit_wf _]. }
    case_bool_decide.
    { destruct (Z.leb_spec maxNestingDepth d); [done|]. destruct (skip_space s'); [done|].
      case_bool_decide; [injection H as <- <-; by constructor|].
      apply fmap_some in H as ([l r'] & H & [= <- <-]). constructor; [lia|]. by eapply IHe. }
    case_bool_decide.
    { destruct (Z.leb_spec maxNestingDepth d); [done|]. destruct (skip_space s'); [done|].
      case_bool_decide; [injection H as <- <-; by constructor|].
      apply fmap_some in H as ([l r'] & H & [= <- <-]). constructor; [lia|]. by eapply IHm. }
    repeat (case_bool_decide; [apply fmap_some in H as (? & _ & [= <- <-]); constructor|]).
    apply fmap_some in H as ([n r'] & H & [= <- <-]). constructor. by eapply scan_number_wf.
  - cbn [parse_elems] in H. destruct (parse_value fuel d s) as [[v r']|] eqn:Ev; [|done].
    apply IHv in Ev. destruct (skip_space r'); [done|]. case_bool_decide.
    { apply fmap_some in H as ([l r''] & H & [= <- <-]). constructor; [done|]. by eapply IHe. }
    case_bool_decide; [|done]. injection H as <- <-. by constructor.
  - cbn [parse_members] in H. destruct (skip_space s) as [|q s']; [done|]. case_bool_decide; [|done].
    destruct (scan_string s') as [[k r0]|] eqn:Ek; [|done]. apply scan_string_lit in Ek as [Ek%lit_wf _].
    destruct (skip_space r0); [done|]. case_bool_decide; [|done].
    destruct (parse_value fuel d _) as [[v r']|] eqn:Ev; [|done]. apply IHv in Ev.
    destruct (skip_space r'); [done|]. case_bool_decide.
    { apply fmap_some in H as ([l r''] & H & [= <- <-]). constructor; [done|]. by eapply IHm. }
    case_bool_decide; [|done]. injection H as <- <-. by constructor.
Qed.
Lemma json_parse_wf s j : json_parse s = Some j → wf_json 0 j.
Proof.
  unfold json_parse. destruct (parse_value _ 0 s) as [[v r]|] eqn:E; [|done]. case_bool_decide; [|done].
  intros [= <-]. by eapply parse_wf.
Qed.

Lemma wf_lit_html l : wf_lit l → wf_lit (html_escape l).
Proof. intros H. apply lit_wf, html_escape_lit. specialize (H ""). by apply scan_string_lit in H as [? _]. Qed.
Lemma wf_escape j : ∀ d, wf_json d j → wf_json d (escape_json j).
Proof.
  induction j as [|b|n|l|l IH|l IH] using json_ind; intros d Hwf; inversion Hwf as [| | | |? ? Hd Hl|? ? Hd Hl]; subst;
    cbn [escape_json]; constructor; auto using wf_lit_html.
  - apply Forall_fmap. rewrite Forall_forall in *. cbn. auto.
  - apply Forall_fmap. rewrite Forall_forall in *. cbn. intros kv Hkv. destruct (Hl _ Hkv). auto using wf_lit_html.
Qed.
(** Nested in a deeper value, a text may have to be refused. *)
Lemma Marshal_parse j : wf_json 0 j → json_parse (Marshal j) = Some (escape_json j).
Proof. intros H. by apply json_parse_print, wf_escape. Qed.

(** ** The fuel *)

Lemma scan_number_shorter s n r : scan_number s = Some (n, r) → String.length r < String.length s.
Proof.
  destruct s as [|c s]; [done|]. cbn [scan_number]. case_bool_decide as Hc.
  - intros (x & Hx & ->)%push_some. apply scan_int_spec in Hx as (-> & _ & _).
    cbn [String.length]. rewrite s_length_app. lia.
  - intros (E & Hh & _)%scan_int_spec. rewrite E, s_length_app. destruct n; [done|]. cbn [String.length]. lia.
Qed.
Lemma scan_string_shorter s l r : scan_string s = Some (l, r) → String.length r < String.length s.
Proof. intros [_ ->]%scan_string_lit. rewrite s_length_app. cbn [String.length]. lia. Qed.
Lemma skip_space_le s : String.length (skip_space s) ≤ String.length s.
Proof. induction s as [|c s IH]; cbn [skip_space]; [done|]. case_if; cbn [String.length] in *; lia. Qed.
Lemma CutPrefix_le s p r : CutPrefix s p = Some r → String.length r ≤ String.length s.
Proof. intros ->%CutPrefix_spec. rewrite s_length_app. lia. Qed.

Ltac space_le :=
  repeat match goal with H : skip_space ?s = String _ _ |- _ =>
    let L := fresh in pose proof (skip_space_le s) as L; rewrite H in L; clear H; cbn [String.length] in L end.

Lemma parse_shorter fuel :
  (∀ d s j r, parse_value fuel d s = Some (j, r) → String.length r < String.length s) ∧
  (∀ d s l r, parse_elems fuel d s = Some (l, r) → String.length r < String.length s) ∧
  (∀ d s l r, parse_members fuel d s = Some (l, r) → String.length r < String.length s).
Proof.
  induction fuel as [|fuel (IHv & IHe & IHm)]; [done|]. split_and!; intros d s j r H.
  - cbn [parse_value] in H. destruct (skip_space s) as [|c s'] eqn:Es; [done|].
    case_bool_decide. { apply fmap_some in H as ([l r'] & H%scan_string_shorter & [= <- <-]). space_le. lia. }
    case_bool_decide.
    { destruct (maxNestingDepth <=? d)%Z; [done|]. destruct (skip_space s') eqn:Es'; [done|].
      case_bool_decide; [injection H as <- <-; space_le; lia|].
      apply fmap_some in H as ([l r'] & H%IHe & [= <- <-]). space_le. lia. }
    case_bool_decide.
    { destruct (maxNestingDepth <=? d)%Z; [done|]. destruct (skip_space s') eqn:Es'; [done|].
      case_bool_decide; [injection H as <- <-; space_le; lia|].
      apply fmap_some in H as ([l r'] & H%IHm & [= <- <-]). space_le. lia. }
    repeat (case_bool_decide; [apply fmap_some in H as (? & H%CutPrefix_le & [= <- <-]); space_le; lia|]).
    apply fmap_some in H as ([n r'] & H%scan_number_shorter & [= <- <-]). cbn [String.length] in H. space_le. lia.
  - cbn [parse_elems] in H. destruct (parse_value fuel d s) as [[v r']|] eqn:Ev; [|done].
    apply IHv in Ev. destruct (skip_space r') eqn:Es; [done|]. case_bool_decide.
    { apply fmap_some in H as ([l r''] & H%IHe & [= <- <-]). space_le. lia. }
    case_bool_decide; [|done]. injection H as <- <-. space_le. lia.
  - cbn [parse_members] in H. destruct (skip_space s) as [|q s'] eqn:Es; [done|]. case_bool_decide; [|done].
    destruct (scan_string s') as [[k r0]|] eqn:Ek; [|done]. apply scan_string_shorter in Ek.
    destruct (skip_space r0) eqn:Er; [done|]. case_bool_decide; [|done].
    destruct (parse_value fuel d _) as [[v r']|] eqn:Ev; [|done]. apply IHv in Ev.
    destruct (skip_space r') eqn:Es'; [done|]. case_bool_decide.
    { apply fmap_some in H as ([l r''] & H%IHm & [= <- <-]). space_le. lia. }
    case_bool_decide; [|done]. injection H as <- <-. space_le. lia.
Qed.

(** With fuel for the text, more fuel changes nothing: [json_parse] refuses a
    text only for its syntax. *)
Lemma parse_fuel_enough n : ∀ m,
  (∀ d s, 2 * String.length s + 1 ≤ n → 2 * String.length s + 1 ≤ m → parse_value n d s = parse_value m d s) ∧
  (∀ d s, 2 * String.length s + 2 ≤ n → 2 * String.length s + 2 ≤ m → parse_elems n d s = parse_elems m d s) ∧
  (∀ d s, 2 * String.length s + 2 ≤ n → 2 * String.length s + 2 ≤ m → parse_members n d s = parse_members m d s).
Proof.
  induction n as [|n IH]; intros m; [split_and!; intros; lia|].
  destruct m as [|m]; [split_and!; intros; lia|]. destruct (IH m) as (IHv & IHe & IHm).
  split_and!; intros d s Hn Hm.
  - cbn [parse_value]. destruct (skip_space s) as [|c s'] eqn:Es; [done|]. case_bool_decide; [done|].
    assert (String.length s' < String.length s) by (space_le; lia).
    rewrite IHe, IHm by lia. done.
  - cbn [parse_elems]. rewrite IHv by lia. destruct (parse_value m d s) as [[v r]|] eqn:Ev; [|done].
    apply parse_shorter in Ev. destruct (skip_space r) as [|c r'] eqn:Er; [done|].
    rewrite IHe by (space_le; lia). done.
  - cbn [parse_members]. destruct (skip_space s) as [|q s'] eqn:Es; [done|]. case_bool_decide; [|done].
    destruct (scan_string s') as [[k r0]|] eqn:Ek; [|done]. apply scan_string_shorter in Ek.
    destruct (skip_space r0) as [|c r1] eqn:Er; [done|]. case_bool_decide; [|done].
    rewrite IHv by (space_le; lia). destruct (parse_value m d r1) as [[v r']|] eqn:Ev; [|done]. apply parse_shorter in Ev.
    destruct (skip_space r') as [|c' r2] eqn:Es'; [done|]. rewrite IHm by (space_le; lia). done.
Qed.

(** ** Escaping does not change what a text denotes *)

(** The second half of a surrogate pair, right after the first. *)
Definition pair_next (u : Z) (l : list (Z * string)) : option (Z * list (Z * string)) :=
  match l with
  | (b, _) :: (c, _) :: g1 :: g2 :: g3 :: g4 :: l4 =>
      let dec := utf16_DecodeRune u (hex4 [g1; g2; g3; g4]) in
      if (b =? 92)%Z && (c =? 117)%Z && (dec !=? RuneError) then Some (dec, l4) else None
  | _ => None
  end.
Definition unquote_u (u : Z) (l : list (Z * string)) : string :=
  if is_surrogate u then
    match pair_next u l with
    | Some (dec, l4) => EncodeRune dec +:+ unquote_runes l4
    | None => EncodeRune RuneError +:+ unquote_runes l
    end
  else EncodeRune u +:+ unquote_runes l.
Lemma unquote_runes_u b1 b2 h1 h2 h3 h4 l :
  unquote_runes ((92%Z, b1) :: (117%Z, b2) :: h1 :: h2 :: h3 :: h4 :: l) = unquote_u (hex4 [h1; h2; h3; h4]) l.
Proof.
  unfold unquote_u. cbn [unquote_runes]. rewrite !Z.eqb_refl. destruct (is_surrogate _); [|done].
  destruct l as [|[b ?] [|[c ?] [|g1 [|g2 [|g3 [|g4 l4]]]]]]; try done. cbn [pair_next]. by case_if.
Qed.
Lemma pair_next_other u r b l : r ≠ 92%Z → pair_next u ((r, b) :: l) = None.
Proof.
  intros Hr. destruct l as [|[c ?] [|g1 [|g2 [|g3 [|g4 l4]]]]]; try done. cbn [pair_next].
  by rewrite (proj2 (Z.eqb_neq r 92)).
Qed.
Lemma pair_next_esc u e b1 b2 l : e ≠ 117%Z → pair_next u ((92%Z, b1) :: (e, b2) :: l) = None.
Proof.
  intros He. destruct l as [|g1 [|g2 [|g3 [|g4 l4]]]]; try done. cbn [pair_next].
  by rewrite (proj2 (Z.eqb_neq e 117)), andb_false_r by done.
Qed.

(** The runes of an escape [\uXXXX] for a character the escaping replaces. *)
Lemma runes_u_escape z t : z ∈ [60; 62; 38; 8232; 8233]%Z →
  ∃ h1 h2 h3 h4, runes (u_escape z +:+ t) = (92%Z, "\") :: (117%Z, "u") :: h1 :: h2 :: h3 :: h4 :: runes t ∧
    hex4 [h1; h2; h3; h4] = z.
Proof.
  rewrite !elem_of_cons, elem_of_nil. intros [->|[->|[->|[->|[->|[]]]]]]; eexists _, _, _, _; (split; [reflexivity|reflexivity]).
Qed.
Lemma pair_next_html u z t : z ∈ [60; 62; 38; 8232; 8233]%Z → pair_next u (runes (u_escape z +:+ t)) = None.
Proof.
  intros Hz. destruct (runes_u_escape z t Hz) as (h1 & h2 & h3 & h4 & -> & Hh). cbn [pair_next]. rewrite Hh.
  assert (Hd : utf16_DecodeRune u z = RuneError).
  { unfold utf16_DecodeRune. rewrite (in_range_false 56320 57343); [by rewrite andb_false_r|].
    rewrite !elem_of_cons, elem_of_nil in Hz. lia. }
  by rewrite Hd, bool_decide_true, andb_false_r by done.
Qed.

Lemma html_rune_cases r bs : html_rune (r, bs) = bs ∨ html_rune (r, bs) = u_escape r ∧ r ∈ [60; 62; 38; 8232; 8233]%Z.
Proof.
  unfold html_rune. case_if; [right|by left]. split; [done|].
  rewrite !orb_true_iff, !Z.eqb_eq in *. set_solver.
Qed.

(** The literal of which [html_escape] is taken starts with one rune of its text,
    an escape of one character, or an escape of four digits. *)
Inductive lit_step : string → Prop :=
| step_nil : lit_step ""
| step_rune r bs t : r ≠ 92%Z → runes (bs +:+ t) = (r, bs) :: runes t → rune_unit (r, bs) → lit t → lit_step (bs +:+ t)
| step_esc d t : (byte d < 128)%Z → byte d ≠ 117%Z → html_rune (byte d, String d "") = String d "" → lit t →
    lit_step (String "\" (String d t))
| step_u a b c d t : is_hex a && is_hex b && is_hex c && is_hex d = true → lit t →
    lit_step (String "\" (String "u" (String a (String b (String c (String d t)))))).
Lemma lit_steps l : lit l → lit_step l.
Proof.
  destruct l as [|c s]; [constructor|]. intros Hl. destruct (Z.ltb_spec (byte c) 128) as [Ha|Ha].
  - inversion Hl as [|? ? H1 H2 H3 Ht|d t Hd Ht|h1 h2 h3 h4 t Hh Ht]; subst.
    + change (String c s) with (String c "" +:+ s). apply (step_rune (byte c)); [|by apply runes_ascii|by constructor|done].
      intros E. apply H2. by apply byte_inj.
    + assert (E : (byte d < 128)%Z ∧ byte d ≠ 117%Z ∧ html_rune (byte d, String d "") = String d "").
      { each_ascii d Hd; vm_compute; done. }
      destruct E as (? & ? & ?). by constructor.
    + by constructor.
  - destruct (runes_cons c s) as (r & bs & t & E & Hr & Hu). rewrite E in *.
    assert (Hh : high bs ∧ (128 ≤ r)%Z).
    { inversion Hu; subst; cbn in *; [injection E as -> ->; lia| |done].
      unfold RuneError. split; [repeat constructor; done|lia]. }
    destruct Hh as [Hh ?]. apply lit_app_high in Hl; [|done]. apply (step_rune r); [lia|done..].
Qed.

Lemma hex_html h : is_hex h = true → (byte h < 128)%Z ∧ html_rune (byte h, String h "") = String h "".
Proof. intros E. each_ascii h E; vm_compute; done. Qed.
Lemma html_escape_rune r bs t : runes (bs +:+ t) = (r, bs) :: runes t →
  html_escape (bs +:+ t) = html_rune (r, bs) +:+ html_escape t.
Proof. unfold html_escape. by intros ->. Qed.
Lemma html_escape_u a b c d t : is_hex a && is_hex b && is_hex c && is_hex d = true →
  html_escape (String "\" (String "u" (String a (String b (String c (String d t)))))) =
  String "\" (String "u" (String a (String b (String c (String d (html_escape t)))))).
Proof.
  intros Hh. pose proof Hh as [[[E1 E2]%andb_true_iff E3]%andb_true_iff E4]%andb_true_iff.
  destruct (hex_html _ E1) as [? R1], (hex_html _ E2) as [? R2], (hex_html _ E3) as [? R3], (hex_html _ E4) as [? R4].
  by rewrite !html_escape_ascii, R1, R2, R3, R4 by done.
Qed.
Lemma runes_u a b c d t : is_hex a && is_hex b && is_hex c && is_hex d = true →
  runes (String "\" (String "u" (String a (String b (String c (String d t)))))) =
  (92%Z, "\") :: (117%Z, "u") :: (byte a, String a "") :: (byte b, String b "") :: (byte c, String c "")
  :: (byte d, String d "") :: runes t.
Proof.
  intros Hh. pose proof Hh as [[[E1 E2]%andb_true_iff E3]%andb_true_iff E4]%andb_true_iff.
  destruct (hex_html _ E1), (hex_html _ E2), (hex_html _ E3), (hex_html _ E4). by rewrite !runes_ascii by done.
Qed.

(** Texts equal up to a first difference between bytes that continue no rune. *)
Definition starts_rune (s : string) : Prop := match s with "" => True | String c _ => cont c = false end.
Inductive same_start : string → string → Prop :=
| same_cons c s s' : same_start s s' → same_start (String c s) (String c s')
| same_stop s s' : starts_rune s → starts_rune s' → same_start s s'.
Lemma same_start_refl s : same_start s s.
Proof. induction s as [|c s IH]; [by apply same_stop|by constructor]. Qed.
Lemma same_start_app a s s' : same_start s s' → same_start (a +:+ s) (a +:+ s').
Proof. induction a as [|c a IH]; [done|]. intros H. rewrite !app_cons. constructor. auto. Qed.
Lemma same_start_cont c s s' : same_start s (String c s') → cont c = true → ∃ t, s = String c t ∧ same_start t s'.
Proof. inversion 1 as [? t|? ? ? Hs]; subst; [by eauto|]. cbn in Hs. congruence. Qed.

Lemma cont_of lo hi c : (128 ≤ lo)%Z → (hi ≤ 191)%Z → in_range lo hi (byte c) = true → cont c = true.
Proof. unfold cont. rewrite !byte_between. lia. Qed.
Lemma bad_rune_same c s s' : (128 ≤ byte c)%Z → runes (String c s) = (RuneError, String c "") :: runes s →
  same_start s s' → runes (String c s') = (RuneError, String c "") :: runes s'.
Proof.
  intros Hc Hbad Hs. cbn [runes] in Hbad |- *. rewrite (proj2 (Z.ltb_ge _ _)) in Hbad |- * by lia.
  destruct (in_range 194 223 (byte c)).
  { destruct s' as [|c1 s']; [done|]. destruct (cont c1) eqn:E1; [|done].
    destruct (same_start_cont _ _ _ Hs E1) as (t & -> & Ht). by rewrite E1 in Hbad. }
  destruct (in_range 224 239 (byte c)).
  { destruct s' as [|c1 [|c2 s']]; [done..|]. case_if; [|done]. apply andb_true_iff in Heqb as [E1 E2].
    assert (Hc1 : cont c1 = true) by (eapply cont_of; [..|exact E1]; [destruct (_ =? 224)%Z|destruct (_ =? 237)%Z]; lia).
    destruct (same_start_cont _ _ _ Hs Hc1) as (t & -> & Ht). destruct (same_start_cont _ _ _ Ht E2) as (t' & -> & _).
    by rewrite E1, E2 in Hbad. }
  destruct (in_range 240 244 (byte c)); [|done].
  destruct s' as [|c1 [|c2 [|c3 s']]]; [done..|]. case_if; [|done].
  apply andb_true_iff in Heqb as [[E1 E2]%andb_true_iff E3].
  assert (Hc1 : cont c1 = true) by (eapply cont_of; [..|exact E1]; [destruct (_ =? 240)%Z|destruct (_ =? 244)%Z]; lia).
  destruct (same_start_cont _ _ _ Hs Hc1) as (t & -> & Ht). destruct (same_start_cont _ _ _ Ht E2) as (t' & -> & Ht').
  destruct (same_start_cont _ _ _ Ht' E3) as (t'' & -> & _). by rewrite E1, E2, E3 in Hbad.
Qed.

Lemma html_same_start t : same_start t (html_escape t).
Proof.
  induction t as [|r bs t Hu Hr IH] using runes_ind; [by apply same_stop|].
  rewrite (html_escape_rune _ _ _ Hr). destruct (html_rune_cases r bs) as [->|[-> Hz]]; [by apply same_start_app|].
  apply same_stop; [|reflexivity]. rewrite !elem_of_cons, elem_of_nil in Hz.
  inversion Hu as [c Hc|c Hc|r' bs' Hr' Hh Hl He Hruns]; subst.
  - cbn. apply in_range_false. lia.
  - exfalso. unfold RuneError in Hz. lia.
  - destruct Hz as [->|[->|[->|[->|[->|[]]]]]]; reflexivity.
Qed.
Lemma runes_html r bs t : rune_unit (r, bs) → runes (bs +:+ t) = (r, bs) :: runes t →
  runes (bs +:+ html_escape t) = (r, bs) :: runes (html_escape t).
Proof.
  intros Hu Hr. inversion Hu as [c Hc|c Hc|r' bs' Hr' Hh Hl He Hruns]; subst.
  - rewrite app_cons, app_nil_l'. by apply runes_ascii.
  - rewrite app_cons, app_nil_l' in Hr |- *. eapply bad_rune_same; [done|done|apply html_same_start].
  - apply Hruns.
Qed.

Lemma unquote_u_html u t : lit t → (∀ t', lit t' → String.length t' ≤ String.length t →
    unquote_runes (runes (html_escape t')) = unquote_runes (runes t')) →
  unquote_u u (runes (html_escape t)) = unquote_u u (runes t).
Proof.
  intros Ht IH. unfold unquote_u. destruct (is_surrogate u); [|by rewrite IH].
  assert (Hnone : pair_next u (runes t) = None → pair_next u (runes (html_escape t)) = None →
    match pair_next u (runes (html_escape t)) with
    | Some (dec, l4) => EncodeRune dec +:+ unquote_runes l4
    | None => EncodeRune RuneError +:+ unquote_runes (runes (html_escape t)) end =
    match pair_next u (runes t) with
    | Some (dec, l4) => EncodeRune dec +:+ unquote_runes l4
    | None => EncodeRune RuneError +:+ unquote_runes (runes t) end).
  { intros -> ->. by rewrite IH. }
  destruct (lit_steps t Ht) as [|r bs t Hr Hruns Hu Ht'|d t Hd Hd' Hk Ht'|a b c d t Hh Ht'].
  - done.
  - apply Hnone; [rewrite Hruns; by apply pair_next_other|]. rewrite (html_escape_rune _ _ _ Hruns).
    destruct (html_rune_cases r bs) as [->|[-> Hz]]; [|by apply pair_next_html].
    rewrite (runes_html r bs t) by done. by apply pair_next_other.
  - apply Hnone; [rewrite !runes_ascii by done; by apply pair_next_esc|].
    rewrite !html_escape_ascii, Hk by done. change (html_rune (byte "\", _)) with "\".
    rewrite !app_cons, !app_nil_l', !runes_ascii by done. by apply pair_next_esc.
  - rewrite html_escape_u, !runes_u by done. cbn [pair_next]. rewrite !Z.eqb_refl. cbn [andb]. case_if.
    + rewrite IH; [done|done|]. cbn [String.length]. lia.
    + rewrite <- !runes_u, <- html_escape_u, IH by done. done.
Qed.
Lemma unquote_html l : lit l → unquote (html_escape l) = unquote l.
Proof.
  unfold unquote. remember (String.length l) as n eqn:Hn. revert l Hn. induction n as [n IH] using lt_wf_ind.
  intros l -> Hl. destruct (lit_steps l Hl) as [|r bs t Hr Hruns Hu Ht|d t Hd Hd' Hk Ht|a b c d t Hh Ht].
  - done.
  - assert (Ht' : unquote_runes (runes (html_escape t)) = unquote_runes (runes t)).
    { apply (IH (String.length t)); [|done|done]. rewrite s_length_app. inversion Hu; subst; cbn in *; lia. }
    rewrite (html_escape_rune _ _ _ Hruns), Hruns.
    assert (Hone : ∀ X, unquote_runes ((r, bs) :: X) = EncodeRune r +:+ unquote_runes X).
    { intros X. cbn [unquote_runes]. by rewrite (proj2 (Z.eqb_neq r 92)). }
    rewrite Hone. destruct (html_rune_cases r bs) as [->|[-> Hz]].
    + by rewrite (runes_html r bs t), Hone, Ht' by done.
    + destruct (runes_u_escape r (html_escape t) Hz) as (h1 & h2 & h3 & h4 & -> & Hh4).
      rewrite unquote_runes_u, Hh4. unfold unquote_u, is_surrogate.
      rewrite in_range_false, Ht' by (rewrite !elem_of_cons, elem_of_nil in Hz; lia). done.
  - rewrite !html_escape_ascii, Hk by done. change (html_rune (byte "\", _)) with "\".
    rewrite !app_cons, !app_nil_l', !runes_ascii by done. cbn [unquote_runes].
    rewrite (proj2 (Z.eqb_neq (byte d) 117)) by done. change (byte "\" =? 92)%Z with true. cbn match.
    rewrite (IH (String.length t)) by (done || cbn [String.length]; lia). done.
  - rewrite html_escape_u, !runes_u, !unquote_runes_u by done. apply unquote_u_html; [done|].
    intros t' Ht' Hlen. apply (IH (String.length t')); [cbn [String.length]; lia|done|done].
Qed.
Lemma unquote_html_wf l : wf_lit l → unquote (html_escape l) = unquote l.
Proof. intros H. apply unquote_html. specialize (H ""). by apply scan_string_lit in H as [? _]. Qed.

(** ** Objects as maps *)

Lemma obj_map_app l1 l2 : obj_map (l1 ++ l2) = foldl (λ m kv, <[unquote kv.1 := kv.2]> m) (obj_map l1) l2.
Proof. apply foldl_app. Qed.
Lemma obj_map_snoc l kv : obj_map (l ++ [kv]) = <[unquote kv.1 := kv.2]> (obj_map l).
Proof. by rewrite obj_map_app. Qed.

Lemma obj_map_valid l k : is_Some (obj_map l !! k) → valid_utf8 k.
Proof.
  induction l as [|kv l IH] using rev_ind; [by intros [? ?]|]. rewrite obj_map_snoc.
  destruct (decide (unquote kv.1 = k)) as [<-|Hk]; [intros _; apply unquote_valid|].
  rewrite lookup_insert_ne by done. done.
Qed.
Lemma obj_map_lookup l k v : obj_map l !! k = Some v → ∃ lit, (lit, v) ∈ l.
Proof.
  induction l as [|[k' v'] l IH] using rev_ind; [done|]. rewrite obj_map_snoc.
  destruct (decide (unquote k' = k)) as [<-|Hk].
  - rewrite lookup_insert_eq. intros [= <-]. exists k'. set_solver.
  - rewrite lookup_insert_ne by done. intros [lit ?]%IH. exists lit. set_solver.
Qed.
Lemma obj_map_wf d l : Forall (λ kv, wf_lit kv.1 ∧ wf_json d kv.2) l → map_Forall (λ _, wf_json d) (obj_map l).
Proof. rewrite Forall_forall. intros H k v [q [_ Hv]%H]%obj_map_lookup. exact Hv. Qed.

Lemma obj_map_escape l : Forall (λ kv, wf_lit kv.1) l →
  obj_map ((λ kv, (html_escape kv.1, escape_json kv.2)) <$> l) = escape_json <$> obj_map l.
Proof.
  induction l as [|kv l IH] using rev_ind; [done|]. rewrite Forall_app, Forall_singleton. intros [Hl Hk].
  rewrite fmap_app, list_fmap_singleton, !obj_map_snoc, IH, fmap_insert by done. cbn [fst snd].
  by rewrite unquote_html_wf.
Qed.

Definition map_list (m : gmap string json) : list (string * json) :=
  (λ k, (quote_lit k, default JNull (m !! k))) <$> merge_sort string_le ((map_to_list m).*1).
Lemma jmap_list m : jmap m = JObject (map_list m).
Proof. done. Qed.
Lemma map_list_keys (m : gmap string json) k : k ∈ merge_sort string_le ((map_to_list m).*1) ↔ is_Some (m !! k).
Proof.
  rewrite merge_sort_Permutation, list_elem_of_fmap. split.
  - intros ([k' x] & -> & ?%elem_of_map_to_list). eauto.
  - intros [x Hx%elem_of_map_to_list]. by exists (k, x).
Qed.
Lemma obj_map_list m : (∀ k, is_Some (m !! k) → valid_utf8 k) → obj_map (map_list m) = m.
Proof.
  intros Hv. apply map_eq. intros j.
  assert (H : ∀ ks, (∀ k, k ∈ ks → valid_utf8 k) →
    obj_map ((λ k, (quote_lit k, default JNull (m !! k))) <$> ks) !! j =
    if decide (j ∈ ks) then Some (default JNull (m !! j)) else None).
  { intros ks. induction ks as [|k ks IH] using rev_ind; intros Hks; [done|].
    rewrite fmap_app, list_fmap_singleton, obj_map_snoc. cbn [fst snd]. rewrite unquote_quote.
    assert (E : to_valid k = k) by (apply Hks; set_solver). rewrite E. destruct (decide (k = j)) as [->|Hk].
    - rewrite lookup_insert_eq, decide_True by set_solver. done.
    - rewrite lookup_insert_ne, IH by (done || set_solver). destruct (decide (j ∈ ks)); case_decide; set_solver. }
  unfold map_list. rewrite H by (intros k Hk%map_list_keys; auto). pose proof (map_list_keys m j) as Hj.
  case_decide as Hd; destruct (m !! j) as [v|] eqn:E; try done.
  - apply Hj in Hd as [? [=]].
  - destruct Hd. apply Hj. eauto.
Qed.
Lemma wf_jmap d m : (d < maxNestingDepth)%Z → map_Forall (λ _, wf_json (d + 1)) m → wf_json d (jmap m).
Proof.
  intros Hd Hm. rewrite jmap_list. constructor; [done|]. apply Forall_fmap, Forall_forall. intros k Hk%map_list_keys.
  destruct Hk as [v Hv]. cbn. rewrite Hv. split; [apply wf_quote_lit|by eapply Hm].
Qed.

(** What reading back a written map gives. *)
Lemma Decode_escape_jmap m : (∀ k, is_Some (m !! k) → valid_utf8 k) →
  Decode_map (escape_json (jmap m)) = Ok (escape_json <$> m).
Proof.
  intros Hv. rewrite jmap_list. cbn [escape_json Decode_map]. rewrite obj_map_escape, obj_map_list; [done|done|].
  apply Forall_fmap, Forall_forall. intros k _. apply wf_quote_lit.
Qed.
Lemma Decode_map_ok j m : Decode_map j = Ok m → ∃ l, m = obj_map l ∧ (j = JObject l ∨ j = JNull ∧ l = []).
Proof. destruct j; try done; intros [= <-]; [by exists []; eauto|eauto]. Qed.
Lemma Decode_map_wf d j m : wf_json d j → Decode_map j = Ok m →
  (∀ k, is_Some (m !! k) → valid_utf8 k) ∧ map_Forall (λ _, wf_json (d + 1)) m.
Proof.
  intros Hwf (l & -> & Hj)%Decode_map_ok. split; [apply obj_map_valid|].
  destruct Hj as [->|[_ ->]]; [|apply map_Forall_empty]. inversion Hwf; subst. by apply obj_map_wf.
Qed.

Lemma wf_string_plain d s : wf_json d (jstring s).
Proof. constructor. apply wf_quote_lit. Qed.
Lemma escape_jstring s : escape_json (jstring s) = jstring s.
Proof. unfold jstring. cbn. by rewrite html_quote_lit. Qed.
Lemma Decode_to_valid old s : Decode_string old (jstring s) = Ok (to_valid s).
Proof. cbn. by rewrite unquote_quote. Qed.
Lemma Decode_jstring old s : valid_utf8 s → Decode_string old (jstring s) = Ok s.
Proof. intros H. by rewrite Decode_to_valid, H. Qed.
Lemma Decode_string_escape d old j : wf_json d j → Decode_string old (escape_json j) = Decode_string old j.
Proof. inversion 1; subst; try done. cbn. by rewrite unquote_html_wf. Qed.

(** A struct decoded from an escaped text: [g] is what escaping does to the raw
    messages it keeps. *)
Lemma Decode_struct_escape {A} (g : A → A) step d a j : wf_json d j →
  (∀ a k x d', wf_json d' x → step (g a) k (escape_json x) = rmap g (step a k x)) →
  Decode_struct step (g a) (escape_json j) = rmap g (Decode_struct step a j).
Proof.
  intros Hwf Hstep. destruct Hwf as [| | | |d l ? Hl|d l ? Hl]; try done. cbn [escape_json Decode_struct].
  induction l as [|[k x] l IH] using rev_ind; [done|]. apply Forall_app in Hl as [Hl Hx].
  apply Forall_singleton in Hx as [Hk Hx]. rewrite fmap_app, list_fmap_singleton, !foldl_app, (IH Hl).
  cbn [foldl fst snd]. destruct (foldl _ (Ok a) l) as [a'|e]; [|done]. cbn [rmap rbind].
  rewrite unquote_html_wf by done. by apply (Hstep _ _ _ (d + 1)%Z).
Qed.

Lemma Decode_struct_err {A} (step : A → string → json → result A) e l :
  foldl (λ acc kv, let* a := acc in step a (unquote kv.1) kv.2) (Err e) l = Err e.
Proof. by induction l. Qed.
Lemma Decode_struct_cons {A} (step : A → string → json → result A) a k x l :
  Decode_struct step a (JObject ((k, x) :: l)) = let* a' := step a (unquote k) x in Decode_struct step a' (JObject l).
Proof. cbn [Decode_struct foldl rbind fst snd]. destruct (step a (unquote k) x); [done|]. apply Decode_struct_err. Qed.
Lemma escape_object l : escape_json (JObject l) = JObject ((λ kv, (html_escape kv.1, escape_json kv.2)) <$> l).
Proof. done. Qed.

(** An invariant of the fields of a struct. *)
Lemma Decode_struct_inv {A} (I : A → Prop) (step : A → string → json → result A) d j a a' : wf_json d j → I a →
  (∀ a k x a', I a → wf_json (d + 1) x → step a k x = Ok a' → I a') → Decode_struct step a j = Ok a' → I a'.
Proof.
  intros Hwf Ha Hstep. destruct Hwf as [| | | |d l ? Hl|d l ? Hl]; try done; [by intros [= <-]|].
  revert a Ha. induction Hl as [|[k x] l [_ Hx] _ IH]; intros a Ha; [by intros [= <-]|].
  rewrite Decode_struct_cons. intros (a1 & H1 & H2)%rbind_ok. eapply IH; [|exact H2]. by eapply Hstep.
Qed.
Lemma Decode_string_valid old j s : valid_utf8 old → Decode_string old j = Ok s → valid_utf8 s.
Proof. destruct j; try done; intros H [= <-]; [done|apply unquote_valid]. Qed.
