(* ===== verification/GoHTTP.v ===== *)
(** The part of Go's [net/http], [net/textproto] and [encoding/base64] the
    program uses: header maps with canonical keys, request cookies, Basic
    credentials, the request, and the response being written.

    A [*http.Request] is a value passed and returned by the handlers that change
    it ([takeCookies], [AddCookie], [setBody]); its [context.Context] is the
    record of the two values the program puts there.  An [http.ResponseWriter]
    is the record of what was written so far: [WriteHeader] fixes the status and
    the headers once, [http.SetCookie] appends to the cookies, and the rejection
    metric ([recordRejection]) is the list of recorded reasons. Log output is
    not represented. *)
From S2P Require Import Prelude GoStrings ConfigTypes GoURL PromScope.

(** * Headers *)

Definition is_token_byte (c : ascii) : bool :=
  is_alpha (byte c) || is_digit (byte c) || one_of "!#$%&'*+-.^_`|~" c.
(** [isToken] of net/http. *)
Definition isToken (s : string) : bool :=
  (s !=? "") && forallb is_token_byte (String.list_ascii_of_string s).

Fixpoint canonical_bytes (upper : bool) (s : string) : string :=
  match s with
  | "" => ""
  | String c s' =>
      let b := byte c in
      let c' := if upper && is_lower b then char (b - 32)
                else if negb upper && is_upper b then char (b + 32) else c in
      String c' (canonical_bytes (c =? "-"%char) s')
  end.
Definition CanonicalHeaderKey (s : string) : string :=
  if forallb is_token_byte (String.list_ascii_of_string s) then canonical_bytes true s else s.

(** [http.Header]: values by canonical key. *)
Abbreviation Header := (gmap string (list string)).

Definition Header_Values (h : Header) (key : string) : list string :=
  default [] (h !! CanonicalHeaderKey key).
Definition Header_Get (h : Header) (key : string) : string := default "" (head (Header_Values h key)).
Definition Header_Set (key x : string) (h : Header) : Header := <[CanonicalHeaderKey key := [x]]> h.
Definition Header_Add (key x : string) (h : Header) : Header :=
  <[CanonicalHeaderKey key := Header_Values h key ++ [x]]> h.
Definition Header_Del (key : string) (h : Header) : Header := delete (CanonicalHeaderKey key) h.

(** * Requests *)

(** [samlSessionClaims] as stored in the request context by samlsp. *)
Record SamlSession := mkSamlSession {
  ss_Subject : string; ss_Attributes : gmap string (list string)
}.
Record Context_ := mkContext { ctx_session : option SamlSession; ctx_scope : option Scope }.

Record Request := mkRequest {
  r_Method : string; r_URL : URL; r_Header : Header; r_Body : string; r_ctx : Context_
}.
Definition with_Header (h : Header) (r : Request) : Request :=
  mkRequest (r_Method r) (r_URL r) h (r_Body r) (r_ctx r).
Definition with_ctx (c : Context_) (r : Request) : Request :=
  mkRequest (r_Method r) (r_URL r) (r_Header r) (r_Body r) c.
Definition with_Body (b : string) (r : Request) : Request :=
  mkRequest (r_Method r) (r_URL r) (r_Header r) b (r_ctx r).
Definition with_RawQuery (q : string) (r : Request) : Request :=
  let u := r_URL r in
  mkRequest (r_Method r)
    (mkURL (u_Scheme u) (u_Opaque u) (u_User u) (u_Host u) (u_Path u) (u_RawPath u)
       (u_ForceQuery u) q (u_Fragment u))
    (r_Header r) (r_Body r) (r_ctx r).
Definition r_Path (r : Request) : string := u_Path (r_URL r).

(** ** Cookies of a request *)

(** [textproto.TrimString] *)
Definition is_ascii_space (c : ascii) : bool :=
  let b := byte c in (b =? 32)%Z || (b =? 9)%Z || (b =? 10)%Z || (b =? 13)%Z.
Fixpoint trim_left_space (s : string) : string :=
  match s with
  | String c s' => if is_ascii_space c then trim_left_space s' else s
  | "" => ""
  end.
Fixpoint trim_right_space (s : string) : string :=
  match s with
  | "" => ""
  | String c s' =>
      match trim_right_space s' with
      | "" => if is_ascii_space c then "" else String c ""
      | t => String c t
      end
  end.
Definition TrimString (s : string) : string := trim_right_space (trim_left_space s).

Definition validCookieValueByte (c : ascii) : bool :=
  in_range 32 126 (byte c) && negb (bool_decide (c = dquote)) && negb (one_of ";\" c).

(** [parseCookieValue(raw, allowDoubleQuote=true)] *)
Definition parseCookieValue (raw : string) : option string :=
  let raw := if (1 <? String.length raw) && HasPrefix raw dq && HasSuffix raw dq
             then s_take (String.length raw - 2) (s_drop 1 raw) else raw in
  if forallb validCookieValueByte (String.list_ascii_of_string raw) then Some raw else None.

(** One part of a Cookie line: its name and value, if valid. *)
Definition cookie_part (part : string) : option (string * string) :=
  let part := TrimString part in
  if part =? "" then None
  else
    let '(name, val, _) := Cut part "=" in
    let name := TrimString name in
    if negb (isToken name) then None
    else (λ v, (name, v)) <$> parseCookieValue val.
Definition readCookies (h : Header) : list (string * string) :=
  flat_map (λ line, omap cookie_part (Split (TrimString line) ";")) (Header_Values h "Cookie").
(** [Request.Cookie] *)
Definition Cookie_ (r : Request) (name : string) : option string :=
  if name =? "" then None
  else snd <$> find (λ c : string * string, c.1 =? name) (readCookies (r_Header r)).

(** [Request.AddCookie] for a cookie whose value needs no quoting. *)
Definition AddCookie (name value : string) (r : Request) : Request :=
  let s := name +:+ "=" +:+ value in
  let c := Header_Get (r_Header r) "Cookie" in
  with_Header (Header_Set "Cookie" (if c =? "" then s else c +:+ "; " +:+ s) (r_Header r)) r.

(** ** Basic credentials *)

Definition b64_val (c : ascii) : option Z :=
  let b := byte c in
  if is_upper b then Some (b - 65)%Z
  else if is_lower b then Some (b - 71)%Z
  else if is_digit b then Some (b + 4)%Z
  else if (b =? 43)%Z then Some 62%Z
  else if (b =? 47)%Z then Some 63%Z
  else None.
Fixpoint strip_newlines (s : string) : string :=
  match s with
  | "" => ""
  | String c s' =>
      if (byte c =? 10)%Z || (byte c =? 13)%Z then strip_newlines s' else String c (strip_newlines s')
  end.
(** [base64.StdEncoding.DecodeString] *)
Fixpoint b64_quanta (s : string) : option string :=
  match s with
  | "" => Some ""
  | String a (String b (String c (String d rest))) =>
      match b64_val a, b64_val b with
      | Some x, Some y =>
          let b1 := char (x * 4 + y / 16) in
          if (c =? "="%char) && (d =? "="%char) then
            if rest =? "" then Some (String b1 "") else None
          else
            match b64_val c with
            | Some z =>
                let b2 := char ((y mod 16) * 16 + z / 4) in
                if d =? "="%char then
                  if rest =? "" then Some (String b1 (String b2 "")) else None
                else
                  match b64_val d with
                  | Some u =>
                      (λ t, String b1 (String b2 (String (char ((z mod 4) * 64 + u)) t)))
                        <$> b64_quanta rest
                  | None => None
                  end
            | None => None
            end
      | _, _ => None
      end
  | _ => None
  end.
Definition b64_decode (s : string) : option string := b64_quanta (strip_newlines s).

(** ASCII case-insensitive prefix test, as [parseBasicAuth] does it. *)
Definition ascii_lower (c : ascii) : ascii :=
  if is_upper (byte c) then char (byte c + 32) else c.
Fixpoint ascii_lower_s (s : string) : string :=
  match s with "" => "" | String c s' => String (ascii_lower c) (ascii_lower_s s') end.

(** [Request.BasicAuth] *)
Definition BasicAuth (r : Request) : option (string * string) :=
  let auth := Header_Get (r_Header r) "Authorization" in
  if auth =? "" then None
  else if (String.length auth <? 6) || (ascii_lower_s (s_take 6 auth) !=? "basic ") then None
  else
    match b64_decode (s_drop 6 auth) with
    | None => None
    | Some cs =>
        let '(username, password, ok) := Cut cs ":" in
        if ok then Some (username, password) else None
    end.

(** * Responses *)

Record Cookie := mkCookie {
  ck_Name : string; ck_Value : string; ck_Path : string; ck_MaxAge : Z;
  ck_HttpOnly : bool; ck_Secure : bool
}.

Record Response := mkResponse {
  w_status : option Z;             (* None: nothing sent yet *)
  w_header : Header;
  w_cookies : list Cookie;         (* Set-Cookie, in order *)
  w_body : string;
  w_rejections : list string       (* reasons recorded by recordRejection *)
}.
Definition new_response : Response := mkResponse None ∅ [] "" [].

(** A change of the headers after they were sent has no effect. *)
Definition w_map_header (f : Header → Header) (w : Response) : Response :=
  match w_status w with
  | Some _ => w
  | None => mkResponse None (f (w_header w)) (w_cookies w) (w_body w) (w_rejections w)
  end.
Definition w_Set (key x : string) : Response → Response := w_map_header (Header_Set key x).
Definition w_Add (key x : string) : Response → Response := w_map_header (Header_Add key x).
Definition SetCookie (c : Cookie) (w : Response) : Response :=
  match w_status w with
  | Some _ => w
  | None => mkResponse None (w_header w) (w_cookies w ++ [c]) (w_body w) (w_rejections w)
  end.
Definition WriteHeader (status : Z) (w : Response) : Response :=
  match w_status w with
  | Some _ => w
  | None => mkResponse (Some status) (w_header w) (w_cookies w) (w_body w) (w_rejections w)
  end.
Definition Write (s : string) (w : Response) : Response :=
  let w := WriteHeader 200 w in
  mkResponse (w_status w) (w_header w) (w_cookies w) (w_body w +:+ s) (w_rejections w).
Definition recordRejection (why : string) (w : Response) : Response :=
  mkResponse (w_status w) (w_header w) (w_cookies w) (w_body w) (w_rejections w ++ [why]).

(** [http.Error]; [w_header] has no Content-Length to delete. *)
Definition newline : string := String (char 10) "".
Definition http_Error (msg : string) (code : Z) (w : Response) : Response :=
  Write (msg +:+ newline)
    (WriteHeader code
       (w_Set "X-Content-Type-Options" "nosniff"
          (w_Set "Content-Type" "text/plain; charset=utf-8" w))).

(** * Lemmas *)

Lemma WriteHeader_status s w : is_Some (w_status (WriteHeader s w)).
Proof. unfold WriteHeader. destruct (w_status w) eqn:E; cbn; [rewrite E|]; eauto. Qed.
Lemma WriteHeader_fresh s w : w_status w = None → w_status (WriteHeader s w) = Some s.
Proof. unfold WriteHeader. by intros ->. Qed.
Lemma Write_status t w : w_status (Write t w) = w_status (WriteHeader 200 w).
Proof. done. Qed.
Lemma Write_sent t w s : w_status w = Some s → w_status (Write t w) = Some s.
Proof. intros H. rewrite Write_status. unfold WriteHeader. by rewrite H. Qed.
Lemma w_map_header_status f w : w_status (w_map_header f w) = w_status w.
Proof. unfold w_map_header. by destruct (w_status w) eqn:E; rewrite ?E. Qed.
Lemma SetCookie_status c w : w_status (SetCookie c w) = w_status w.
Proof. unfold SetCookie. by destruct (w_status w) eqn:E; rewrite ?E. Qed.
Lemma w_map_header_cookies f w : w_cookies (w_map_header f w) = w_cookies w.
Proof. unfold w_map_header. by destruct (w_status w). Qed.
Lemma w_Set_status k x w : w_status (w_Set k x w) = w_status w.
Proof. apply w_map_header_status. Qed.
Lemma w_Add_status k x w : w_status (w_Add k x w) = w_status w.
Proof. apply w_map_header_status. Qed.
Lemma w_Set_cookies k x w : w_cookies (w_Set k x w) = w_cookies w.
Proof. apply w_map_header_cookies. Qed.
Lemma w_Add_cookies k x w : w_cookies (w_Add k x w) = w_cookies w.
Proof. apply w_map_header_cookies. Qed.
Lemma WriteHeader_cookies s w : w_cookies (WriteHeader s w) = w_cookies w.
Proof. unfold WriteHeader. by destruct (w_status w). Qed.
Lemma Write_cookies t w : w_cookies (Write t w) = w_cookies w.
Proof. unfold Write. cbn. apply WriteHeader_cookies. Qed.
Lemma SetCookie_cookies c w : w_status w = None → w_cookies (SetCookie c w) = w_cookies w ++ [c].
Proof. unfold SetCookie. by intros ->. Qed.
Lemma w_Set_header k x w : w_status w = None → w_header (w_Set k x w) = Header_Set k x (w_header w).
Proof. unfold w_Set, w_map_header. by intros ->. Qed.
Lemma SetCookie_header c w : w_header (SetCookie c w) = w_header w.
Proof. unfold SetCookie. by destruct (w_status w). Qed.
Lemma WriteHeader_header s w : w_header (WriteHeader s w) = w_header w.
Proof. unfold WriteHeader. by destruct (w_status w). Qed.
#[export] Hint Rewrite w_map_header_status SetCookie_status : go.
(** What a response looks like after the calls that build it, and whether a
    status was sent. *)
Create HintDb resp.
#[export] Hint Rewrite w_Set_status w_Add_status SetCookie_status w_Set_cookies w_Add_cookies
  WriteHeader_cookies Write_cookies SetCookie_header WriteHeader_header : resp.
#[export] Hint Rewrite SetCookie_cookies w_Set_header using (autorewrite with resp; done) : resp.
#[export] Hint Rewrite WriteHeader_fresh using (autorewrite with resp; done) : resp.

Lemma http_Error_status msg code w :
  w_status w = None → w_status (http_Error msg code w) = Some code.
Proof.
  intros H. unfold http_Error. apply Write_sent, WriteHeader_fresh.
  unfold w_Set. by rewrite !w_map_header_status.
Qed.

Lemma Header_Values_Del key h : Header_Values (Header_Del key h) key = [].
Proof. unfold Header_Values, Header_Del. by rewrite lookup_delete_eq. Qed.
Lemma Header_Values_Set key x h : Header_Values (Header_Set key x h) key = [x].
Proof. unfold Header_Values, Header_Set. by rewrite lookup_insert_eq. Qed.
Lemma Header_Values_Add key x h : Header_Values (Header_Add key x h) key = Header_Values h key ++ [x].
Proof. unfold Header_Add. unfold Header_Values at 1. by rewrite lookup_insert_eq. Qed.
