(* ===== verification/Acl.v ===== *)
(** Access control: the rules and their validation ([internal/config/acl.go]),
    the authenticated principal and the matching of rules against it
    ([internal/authn/acl.go]), and the printed form of claim values
    ([scalarString], [claimStrings] of [internal/authn/promlabel.go]).

    A claim value ([any]) is one of the types JSON decoding and SAML attributes
    produce; 64-bit floats and their shortest decimal form are supplied by
    [Floats]. *)
From S2P Require Import Prelude GoStrings ConfigTypes GoURL PromScope GoHTTP.

(** * Claim values *)

Class Floats : Type := {
  float64 : Type;
  FormatFloat : float64 → string   (* strconv.FormatFloat(f, 'f', -1, 64) *)
}.

Section data.
Context {F : Floats}.

Inductive any : Type :=
| ANil
| ABool (b : bool)
| AString (s : string)
| AFloat (f : float64)
| AList (l : list any)                  (* []any *)
| AStrs (l : list string)               (* []string *)
| AMap (m : list (string * any)).       (* map[string]any *)

Record principal := mkPrincipal {
  p_mode : string; p_source : string; p_username : string; p_claims : gmap string any
}.
End data.

Section claims.
Context {F : Floats}.

(** [None] stands for [ok == false]; [fmt.Sprint] prints a string list in
    brackets. *)
Definition scalarString (v : any) : option string :=
  match v with
  | ANil | AList _ | AMap _ => None
  | AString s => Some s
  | AFloat f => Some (FormatFloat f)
  | ABool b => Some (if b then "true" else "false")
  | AStrs l => Some ("[" +:+ Join l " " +:+ "]")
  end.
Definition scalarEquals (v : any) (want : string) : bool :=
  match scalarString v with Some s => s =? want | None => false end.
Definition claimContains (claim : any) (want : string) : bool :=
  match claim with
  | ANil => false
  | AList l => existsb (λ v, scalarEquals v want) l
  | AStrs l => existsb (λ v, v =? want) l
  | c => scalarEquals c want
  end.
Definition claimStrings (claim : any) : list string :=
  match claim with
  | ANil => []
  | AStrs l => l
  | AList l => omap scalarString l
  | c => match scalarString c with Some s => [s] | None => [] end
  end.

(** [p.claims[name]]: nil for an absent key. *)
Definition claim_of (p : principal) (name : string) : any := default ANil (p_claims p !! name).

Definition basicPrincipal (username : string) : principal :=
  mkPrincipal ACLModeBasic "" username ∅.
Definition jwtPrincipal (src : JWTSource) (claims : gmap string any) : principal :=
  mkPrincipal ACLModeJWT (j_Name src) "" claims.
Definition samlPrincipal (s : SamlSession) : principal :=
  mkPrincipal ACLModeSAML "" "" (<["sub" := AString (ss_Subject s)]> (AStrs <$> ss_Attributes s)).
Definition samlSessionPrincipal (r : Request) : option principal :=
  samlPrincipal <$> ctx_session (r_ctx r).
End claims.

(** * Validation (config/acl.go) *)

Section validate.
Context {U : Unicode}.

Definition applyACLDefaults (rules : list ACLRule) : list ACLRule :=
  (λ r, mkACLRule (ar_Principals r) (ToUpper <$> ar_Methods r) (ar_Paths r)) <$> rules.
End validate.

Definition IsCleanPath (p : string) : bool :=
  let trimmed := if (1 <? String.length p) && HasSuffix p "/" then TrimSuffix p "/" else p in
  path_Clean trimmed =? trimmed.

Definition jwtSourceExists (auth : InboundAuthConfig) (name : string) : bool :=
  existsb (λ j, j_Name j =? name) (a_JWT auth).
Definition basicUserExists (auth : InboundAuthConfig) (username : string) : bool :=
  match a_Basic auth with
  | None => false
  | Some b => existsb (λ u, bu_Username u =? username) (b_Users b)
  end.

Definition is_token_rune (r : Z) : bool :=
  is_alpha r || is_digit r ||
  existsb (λ c, (byte c =? r)%Z) (String.list_ascii_of_string "!#$%&'*+-.^_`|~").
Definition isHTTPToken (s : string) : bool :=
  if s =? "" then false else forallb (λ x : Z * string, is_token_rune x.1) (runes s).

Definition validateACLPath (p : string) : result unit :=
  fail_if negb (HasPrefix p "/") with ErrorfA "%q must begin with %q" [p; "/"] in
  let base := if HasSuffix p ("/" +:+ ACLWildcard) then TrimSuffix p ACLWildcard else p in
  fail_if Contains base ACLWildcard
    with ErrorfA "%q: %q is only allowed as a trailing %q" [p; ACLWildcard; "/" +:+ ACLWildcard] in
  fail_if negb (IsCleanPath base) with ErrorfA "%q must be a clean path" [p] in
  Ok tt.

Definition validateACLPrincipal (p : ACLPrincipal) (auth : InboundAuthConfig) : result unit :=
  fail_if negb ((ap_Mode p =? ACLModeBasic) || (ap_Mode p =? ACLModeJWT) || (ap_Mode p =? ACLModeSAML))
    with ErrorfA "mode %q must be one of %s, %s, %s" [ap_Mode p] in
  fail_if (ap_Source p =? "") && (ap_Username p =? "") && (ap_Claims p =? ∅)
    with Errorf "at least one of source, username or claims is required" in
  check* (if ap_Source p !=? "" then
            fail_if ap_Mode p !=? ACLModeJWT with Errorf "source is only valid with mode %q" in
            fail_if negb (jwtSourceExists auth (ap_Source p))
              with ErrorfA "source %q does not name a configured inbound.auth.jwt source" [ap_Source p] in
            Ok tt
          else Ok tt) in
  fail_if (ap_Username p !=? "") && (ap_Mode p !=? ACLModeBasic)
    with Errorf "username is only valid with mode %q" in
  check* (if ap_Mode p =? ACLModeBasic then
            fail_if ap_Claims p !=? ∅ with Errorf "claims are not available for mode %q" in
            fail_if negb (basicUserExists auth (ap_Username p))
              with ErrorfA "username %q is not a configured inbound.auth.basic user" [ap_Username p] in
            Ok tt
          else Ok tt) in
  fail_if bool_decide (is_Some (ap_Claims p !! ""))
    with Errorf "claims: claim name must not be empty" in
  Ok tt.

(** The loop over [rule.Methods]. *)
Definition validate_method (n : nat) (i : nat) (m : string) : result unit :=
  if m =? ACLWildcard then
    fail_if 1 <? n
      with Errorf "methods: %q already matches every method and can't be combined with others" in
    Ok tt
  else
    fail_if negb (isHTTPToken m) || Contains m ACLWildcard
      with ErrorfA "methods[%d]: %q is not a valid HTTP method" [m] in
    Ok tt.

Definition validateACLRule (rule : ACLRule) (auth : InboundAuthConfig) : result unit :=
  fail_if ar_Principals rule =? []
    with Errorf "principals is required and must list at least one principal" in
  check* check_all (λ i p, rwrap "principals[%d]: %w" [] (validateACLPrincipal p auth))
           0 (ar_Principals rule) in
  check* check_all (validate_method (length (ar_Methods rule))) 0 (ar_Methods rule) in
  check_all (λ i p, rwrap "paths[%d]: %w" [] (validateACLPath p)) 0 (ar_Paths rule).

Definition validateACL (rules : list ACLRule) (auth : InboundAuthConfig) : result unit :=
  check_all (λ i rule, rwrap "acl[%d]: %w" [] (validateACLRule rule auth)) 0 rules.

(** * Matching (authn/acl.go) *)

Definition reasonACLDenied := "acl_denied".
Definition reasonPromLabelDenied := "prom_label_denied".

Section matching.
Context {U : Unicode} {F : Floats}.

Definition methodMatches (methods : list string) (method : string) : bool :=
  match methods with
  | [] => true
  | _ => existsb (λ m, (m =? ACLWildcard) || EqualFold m method) methods
  end.
Definition path_pattern_matches (p path : string) : bool :=
  match CutSuffix p ACLWildcard with
  | Some prefix => HasPrefix path prefix
  | None => path =? p
  end.
Definition pathMatches (paths : list string) (path : string) : bool :=
  match paths with
  | [] => true
  | _ => existsb (λ p, path_pattern_matches p path) paths
  end.
Definition principalMatches (pr : ACLPrincipal) (p : principal) : bool :=
  if ap_Mode pr !=? p_mode p then false
  else if (ap_Source pr !=? "") && (ap_Source pr !=? p_source p) then false
  else if (ap_Username pr !=? "") && (ap_Username pr !=? p_username p) then false
  else forallb (λ nw : string * string, claimContains (claim_of p nw.1) nw.2)
         (map_to_list (ap_Claims pr)).
Definition anyPrincipalMatches (prs : list ACLPrincipal) (p : principal) : bool :=
  existsb (λ pr, principalMatches pr p) prs.
Definition aclAllows (rules : list ACLRule) (p : option principal) (method path : string) : bool :=
  match p with
  | None => false
  | Some p =>
      existsb (λ rule, methodMatches (ar_Methods rule) method && pathMatches (ar_Paths rule) path &&
                       anyPrincipalMatches (ar_Principals rule) p) rules
  end.

Definition uncleanPath (r : Request) : bool :=
  negb (IsCleanPath (r_Path r)) || Contains (ToLower (u_RawPath (r_URL r))) "%2f".

(** [p] and the log fields only feed the log. *)
Definition rejectForbiddenFor (why : string) (w : Response) : Response :=
  recordRejection why (Write "forbidden" (WriteHeader 403
    (w_Set "Content-Type" "text/plain; charset=utf-8" w))).
Definition rejectForbidden (w : Response) : Response := rejectForbiddenFor reasonACLDenied w.

Definition authorize (w : Response) (r : Request) (rules : list ACLRule) (p : option principal)
  : Response * bool :=
  if rules =? [] then (w, true)
  else if uncleanPath r then (rejectForbidden w, false)
  else if aclAllows rules p (r_Method r) (r_Path r) then (w, true)
  else (rejectForbidden w, false).
End matching.

(** * Declarative reading of the rules *)

Section spec.
Context {U : Unicode} {F : Floats}.

(** The claim is a scalar printed as [want], or a list with such an element. *)
Inductive claim_has : any → string → Prop :=
| has_scalar v want : (∀ l, v ≠ AStrs l) → scalarString v = Some want → claim_has v want
| has_elem l v want : v ∈ l → scalarString v = Some want → claim_has (AList l) want
| has_str l want : want ∈ l → claim_has (AStrs l) want.

Definition method_granted (methods : list string) (method : string) : Prop :=
  methods = [] ∨ "*" ∈ methods ∨ ∃ m, m ∈ methods ∧ EqualFold m method = true.

(** A pattern is an exact path, or a prefix followed by "*". *)
Inductive pattern_covers : string → string → Prop :=
| covers_exact p : (¬ ∃ pre, p = pre +:+ "*") → pattern_covers p p
| covers_prefix pre rest : pattern_covers (pre +:+ "*") (pre +:+ rest).
Definition path_granted (paths : list string) (path : string) : Prop :=
  paths = [] ∨ ∃ p, p ∈ paths ∧ pattern_covers p path.

Record principal_granted (pr : ACLPrincipal) (p : principal) : Prop := {
  pg_mode : ap_Mode pr = p_mode p;
  pg_source : ap_Source pr = "" ∨ ap_Source pr = p_source p;
  pg_username : ap_Username pr = "" ∨ ap_Username pr = p_username p;
  pg_claims : ∀ name want, ap_Claims pr !! name = Some want →
                ∃ v, p_claims p !! name = Some v ∧ claim_has v want
}.

Definition rule_grants (rule : ACLRule) (p : principal) (method path : string) : Prop :=
  method_granted (ar_Methods rule) method ∧ path_granted (ar_Paths rule) path ∧
  ∃ pr, pr ∈ ar_Principals rule ∧ principal_granted pr p.
End spec.

(** A path a rule may be matched on: rooted, its elements non-empty and neither
    "." nor "..", optionally followed by one slash. *)
Definition clean_rooted (path : string) : Prop :=
  ∃ segs, Forall normal_seg segs ∧
    (path = "/" +:+ Join segs "/" ∨ path = "/" +:+ Join segs "/" +:+ "/").

(** * Lemmas *)

Lemma methodMatches_spec `{Unicode} ms m : methodMatches ms m = true ↔ method_granted ms m.
Proof.
  unfold method_granted. destruct ms as [|x ms]; [naive_solver|].
  unfold methodMatches. rewrite existsb_bool. setoid_rewrite orb_true_iff.
  setoid_rewrite bool_decide_eq_true. unfold ACLWildcard. naive_solver.
Qed.

Lemma path_pattern_matches_spec p path : path_pattern_matches p path = true ↔ pattern_covers p path.
Proof.
  unfold path_pattern_matches. destruct (CutSuffix p ACLWildcard) as [pre|] eqn:E.
  - apply CutSuffix_spec in E as ->. rewrite HasPrefix_spec. split.
    + intros (t & ->). constructor.
    + inversion 1 as [? Hn|? rest]; subst; [destruct Hn; eauto|].
      assert (pre0 = pre) as -> by (by eapply s_app_inj_r). eauto.
  - apply CutSuffix_none in E. rewrite bool_decide_eq_true. split.
    + intros ->. by constructor.
    + inversion 1; subst; [done|]. destruct E. eexists. done.
Qed.

Lemma pathMatches_spec ps path : pathMatches ps path = true ↔ path_granted ps path.
Proof.
  unfold path_granted. destruct ps as [|x ps]; [naive_solver|].
  unfold pathMatches. rewrite existsb_bool. setoid_rewrite path_pattern_matches_spec. naive_solver.
Qed.

Lemma scalarEquals_spec `{Floats} v want : scalarEquals v want = true ↔ scalarString v = Some want.
Proof.
  unfold scalarEquals. destruct (scalarString v); [|naive_solver].
  rewrite bool_decide_eq_true. naive_solver.
Qed.

Lemma claimContains_spec `{Floats} c want : claimContains c want = true ↔ claim_has c want.
Proof.
  split.
  - destruct c; cbn [claimContains]; rewrite ?existsb_bool, ?scalarEquals_spec; intros H'.
    all: try (constructor; [done|exact H']); try done.
    + destruct H' as (v & Hv & E%scalarEquals_spec). by econstructor.
    + destruct H' as (v & Hv & ->%bool_decide_eq_true). by constructor.
  - inversion 1; subst; cbn [claimContains].
    + destruct c; try (by apply scalarEquals_spec); naive_solver.
    + apply existsb_bool. setoid_rewrite scalarEquals_spec. eauto.
    + apply existsb_bool. setoid_rewrite bool_decide_eq_true. eauto.
Qed.

(** [field != "" && field != value]: a field left empty matches anything. *)
Lemma unset_or_equal (a b : string) : (a !=? "") && (a !=? b) = false ↔ a = "" ∨ a = b.
Proof.
  rewrite andb_false_iff, !negb_false_iff, !bool_decide_eq_true. done.
Qed.

Lemma early_returns (a b c d : bool) :
  (if negb a then false else if b then false else if c then false else d) = true ↔
  a = true ∧ b = false ∧ c = false ∧ d = true.
Proof. destruct a, b, c; naive_solver. Qed.

Lemma principalMatches_spec `{Floats} pr p : principalMatches pr p = true ↔ principal_granted pr p.
Proof.
  transitivity (ap_Mode pr = p_mode p ∧ (ap_Source pr = "" ∨ ap_Source pr = p_source p) ∧
    (ap_Username pr = "" ∨ ap_Username pr = p_username p) ∧
    (∀ nw, nw ∈ map_to_list (ap_Claims pr) → claimContains (claim_of p nw.1) nw.2 = true)).
  - rewrite <- !unset_or_equal, <- forallb_bool, <- (bool_decide_eq_true (ap_Mode pr = _)).
    apply early_returns.
  - assert (Hcl : (∀ nw, nw ∈ map_to_list (ap_Claims pr) → claimContains (claim_of p nw.1) nw.2 = true)
      ↔ ∀ name want, ap_Claims pr !! name = Some want →
          ∃ v, p_claims p !! name = Some v ∧ claim_has v want).
    { split.
      - intros Hc name want Hl. specialize (Hc (name, want)).
        rewrite elem_of_map_to_list, claimContains_spec in Hc.
        specialize (Hc Hl). unfold claim_of in Hc. cbn in Hc.
        destruct (p_claims p !! name) as [v|]; [by exists v|]. inversion Hc; naive_solver.
      - intros Hc [name want] Hl%elem_of_map_to_list. apply claimContains_spec.
        unfold claim_of. cbn. by destruct (Hc _ _ Hl) as (v & -> & ?). }
    rewrite Hcl. split; [by intros (?&?&?&?)|intros []; done].
Qed.

Lemma anyPrincipalMatches_spec `{Floats} prs p :
  anyPrincipalMatches prs p = true ↔ ∃ pr, pr ∈ prs ∧ principal_granted pr p.
Proof. unfold anyPrincipalMatches. rewrite existsb_bool. setoid_rewrite principalMatches_spec. done. Qed.

Lemma aclAllows_grants `{Unicode} `{Floats} rules p m path :
  aclAllows rules p m path = true ↔
  ∃ q rule, p = Some q ∧ rule ∈ rules ∧ rule_grants rule q m path.
Proof.
  unfold aclAllows, rule_grants. destruct p as [q|]; [|naive_solver].
  rewrite existsb_bool. setoid_rewrite andb_true_iff. setoid_rewrite andb_true_iff.
  setoid_rewrite methodMatches_spec. setoid_rewrite pathMatches_spec.
  setoid_rewrite anyPrincipalMatches_spec. naive_solver.
Qed.

(** ** Clean paths *)

Lemma normal_seg_app_slash segs : Forall normal_seg segs → segs ≠ [] →
  HasSuffix (Join segs "/") "/" = false.
Proof.
  intros Hs Hne. apply not_true_iff_false. intros (t & Ht)%HasSuffix_spec.
  assert (Hsplit : Split (Join segs "/") "/" = segs).
  { apply Split_Join; [done|]. eapply Forall_impl; [done|apply normal_seg_free]. }
  rewrite Ht in Hsplit.
  rewrite Split_snoc in Hsplit. subst segs. apply Forall_app in Hs as [_ Hs].
  inversion Hs as [|?? [? _] _]; done.
Qed.

Lemma IsCleanPath_spec p : HasPrefix p "/" = true → IsCleanPath p = true ↔ clean_rooted p.
Proof.
  intros Hr. unfold IsCleanPath, clean_rooted. rewrite bool_decide_eq_true.
  destruct ((1 <? String.length p) && HasSuffix p "/") eqn:E.
  - apply andb_true_iff in E as [Hlen%Nat.ltb_lt (t & ->)%HasSuffix_spec].
    assert (Ht : TrimSuffix (t +:+ "/") "/" = t).
    { unfold TrimSuffix. by rewrite (proj2 (CutSuffix_spec _ _ t)). }
    rewrite Ht. rewrite s_length_app in Hlen. cbn in Hlen.
    assert (Hrt : HasPrefix t "/" = true).
    { destruct t as [|c t]; [cbn in Hlen; lia|]. rewrite app_cons in Hr. cbn in Hr |- *.
      rewrite andb_true_iff in Hr |- *. destruct Hr as [? _]. by rewrite HasPrefix_nil. }
    rewrite path_Clean_fix by done. split.
    + intros (segs & Hs & ->). exists segs. split; [done|right].
      by rewrite s_app_assoc.
    + intros (segs & Hs & [Heq|Heq]).
      * exfalso. destruct (decide (segs = [])) as [->|Hne].
        { apply (f_equal String.length) in Heq. rewrite !s_length_app in Heq. cbn in Heq. lia. }
        pose proof (normal_seg_app_slash segs Hs Hne) as Hn.
        apply not_true_iff_false in Hn. apply Hn. apply HasSuffix_spec.
        destruct t as [|c t]; [cbn in Hlen; lia|]. rewrite !app_cons, app_nil_l' in Heq.
        injection Heq as -> Heq. eauto.
      * exists segs. split; [done|]. rewrite <- s_app_assoc in Heq. by apply s_app_inj_r in Heq.
  - rewrite path_Clean_fix by done. split.
    + intros (segs & Hs & ->). eauto.
    + intros (segs & Hs & [-> | ->]); [eauto|]. exfalso.
      apply andb_false_iff in E as [E|E].
      * apply Nat.ltb_ge in E. rewrite !s_length_app in E. cbn in E. lia.
      * apply not_true_iff_false in E. apply E. apply HasSuffix_spec.
        exists ("/" +:+ Join segs "/"). by rewrite s_app_assoc.
Qed.

(** ** Lower-casing and encoded slashes *)

Lemma runes_app_ascii a c t :
  (byte c < 128)%Z → runes (a +:+ String c t) = runes a ++ runes (String c t).
Proof.
  intros Hc. remember (String.length a) as n eqn:Hn. revert a Hn.
  induction n as [n IH] using lt_wf_ind. intros a ->.
  assert (Hnc : ∀ lo hi, (128 ≤ lo)%Z → in_range lo hi (byte c) = false).
  { intros lo hi Hlo. unfold in_range. rewrite (proj2 (Z.leb_gt lo (byte c))) by lia. done. }
  assert (Hcont : cont c = false) by (unfold cont; apply Hnc; lia).
  destruct a as [|c0 a]; [done|].
  assert (IH' : ∀ b, String.length b < S (String.length a) →
    runes (b +:+ String c t) = runes b ++ runes (String c t)) by (intros; by eapply IH).
  rewrite app_cons. cbn [runes].
  destruct (byte c0 <? 128)%Z; [by rewrite IH' by lia|].
  destruct (in_range 194 223 (byte c0)).
  { destruct a as [|c1 a].
    - rewrite app_nil_l', Hcont. done.
    - rewrite app_cons. destruct (cont c1); [by rewrite IH' by (cbn; lia)|].
      rewrite <- app_cons. by rewrite IH' by lia. }
  destruct (in_range 224 239 (byte c0)).
  { destruct a as [|c1 [|c2 a]].
    - rewrite app_nil_l'. destruct t as [|c2 t]; [done|].
      rewrite Hnc by (case_match; lia). done.
    - rewrite app_cons, app_nil_l', Hcont, andb_false_r. rewrite <- (app_nil_l' (String c t)) at 1.
      rewrite <- app_cons. by rewrite IH' by (cbn; lia).
    - rewrite !app_cons. destruct (in_range _ _ (byte c1) && cont c2); [by rewrite IH' by (cbn; lia)|].
      rewrite <- !app_cons. by rewrite IH' by (cbn; lia). }
  destruct (in_range 240 244 (byte c0)); [|by rewrite IH' by lia].
  destruct a as [|c1 [|c2 [|c3 a]]].
  - rewrite app_nil_l'. destruct t as [|c2 [|c3 t]]; try done.
    rewrite Hnc by (case_match; lia). done.
  - rewrite app_cons, app_nil_l'. destruct t as [|c3 t].
    + rewrite <- (app_nil_l' (String c "")) at 1. rewrite <- app_cons. by rewrite IH' by (cbn; lia).
    + rewrite Hcont, andb_false_r. cbn [andb]. rewrite <- (app_nil_l' (String c _)) at 1.
      rewrite <- app_cons. by rewrite IH' by (cbn; lia).
  - rewrite !app_cons, app_nil_l', Hcont, andb_false_r. rewrite <- (app_nil_l' (String c _)) at 1.
    rewrite <- !app_cons. by rewrite IH' by (cbn; lia).
  - rewrite !app_cons. case_if; [by rewrite IH' by (cbn; lia)|].
    rewrite <- !app_cons. by rewrite IH' by (cbn; lia).
Qed.

Lemma concat_string_app l m : concat_string (l ++ m) = concat_string l +:+ concat_string m.
Proof. induction l as [|x l IH]; cbn; [done|]. by rewrite IH, s_app_assoc. Qed.

Lemma ToLower_app_ascii `{Unicode} a c t :
  (byte c < 128)%Z → ToLower (a +:+ String c t) = ToLower a +:+ ToLower (String c t).
Proof.
  intros Hc. unfold ToLower. rewrite runes_app_ascii by done. by rewrite fmap_app, concat_string_app.
Qed.

Lemma ToLower_cons_ascii `{Unicode} c t :
  (byte c < 128)%Z →
  ToLower (String c t) = String (char (rune_lower (byte c))) (ToLower t).
Proof.
  intros Hc. unfold ToLower. cbn [runes]. rewrite (proj2 (Z.ltb_lt _ _)) by done.
  rewrite fmap_cons. cbn [concat_string fst]. unfold rune_lower, EncodeRune.
  pose proof (byte_bound c). rewrite !(proj2 (Z.ltb_lt (byte c) 128)) by done.
  assert (Hb : (0 ≤ (if is_upper (byte c) then (byte c + 32) else byte c) < 128)%Z).
  { unfold is_upper, in_range. case_match eqn:E; [|lia].
    apply andb_true_iff in E as [?%Z.leb_le ?%Z.leb_le]. lia. }
  rewrite (proj2 (Z.ltb_ge _ 0)), (proj2 (Z.ltb_lt _ 128)) by lia. done.
Qed.

(** An encoded slash, in either letter case, is found whatever surrounds it. *)
Lemma encoded_slash_found `{Unicode} (a b : string) (l : ascii) :
  l = "f"%char ∨ l = "F"%char →
  Contains (ToLower (a +:+ String "%" (String "2" (String l b)))) "%2f" = true.
Proof.
  intros Hl. rewrite ToLower_app_ascii by (vm_compute; done).
  apply Contains_spec. exists (ToLower a), (ToLower b). f_equal.
  rewrite !ToLower_cons_ascii by (destruct Hl as [-> | ->]; vm_compute; done).
  by destruct Hl as [-> | ->].
Qed.

(** * Properties *)

(** C14: the ACL decision. [authorize] lets a request through exactly when there
    is no rule, or its path is clean and some rule grants its method and path to
    the authenticated principal (in the declarative reading [rule_grants]); the
    response is then untouched, and otherwise it is one 403 recorded as
    acl_denied. No principal means no rule applies. *)
Theorem authorize_spec `{Unicode} `{Floats} w r rules p w' ok
    (Hrun : authorize w r rules p = (w', ok)) :
  (ok = true ↔ rules = [] ∨
     (uncleanPath r = false ∧ ∃ q rule, p = Some q ∧ rule ∈ rules ∧
        rule_grants rule q (r_Method r) (r_Path r))) ∧
  (ok = true → w' = w) ∧
  (ok = false → w_rejections w' = w_rejections w ++ [reasonACLDenied] ∧
     (w_status w = None → w_status w' = Some 403%Z ∧ w_body w' = w_body w +:+ "forbidden")).
Proof.
  rewrite <- aclAllows_grants. revert Hrun. unfold authorize.
  assert (Hrej : w_rejections (rejectForbidden w) = w_rejections w ++ [reasonACLDenied] ∧
     (w_status w = None → w_status (rejectForbidden w) = Some 403%Z ∧
        w_body (rejectForbidden w) = w_body w +:+ "forbidden")).
  { destruct w as [[s|] h ck b rj]; cbn; split; done. }
  case_bool_decide; [intros [= <- <-]; naive_solver|].
  destruct (uncleanPath r); [intros [= <- <-]; naive_solver|].
  destruct (aclAllows rules p (r_Method r) (r_Path r)); intros [= <- <-]; naive_solver.
Qed.

(** With rules present, nothing a backend could resolve differently from
    what the rules matched gets through: the path of an authorized request is
    "/" followed by elements other than "", "." and ".." (and possibly one
    closing slash), and its raw form holds no encoded slash in any letter case. *)
Theorem authorize_clean `{Unicode} `{Floats} w r rules p w'
    (Hroot : HasPrefix (r_Path r) "/" = true) (Hrules : rules ≠ [])
    (Hok : authorize w r rules p = (w', true)) :
  clean_rooted (r_Path r) ∧
  ∀ a b l, l = "f"%char ∨ l = "F"%char →
    u_RawPath (r_URL r) ≠ a +:+ String "%" (String "2" (String l b)).
Proof.
  unfold authorize in Hok. rewrite bool_decide_false in Hok by done.
  destruct (uncleanPath r) eqn:E; [by simplify_eq|]. unfold uncleanPath in E. bool_hyps.
  split; [by apply IsCleanPath_spec|]. intros a b l Hl Hraw.
  rewrite Hraw in *. by rewrite encoded_slash_found in * by done.
Qed.

(** ** Concrete library values for the witnesses *)

Definition demo_floats : Floats := {| float64 := Z; FormatFloat z := if (z =? 42)%Z then "42" else "0" |}.

Definition demo_url (path rawpath : string) : URL := mkURL "" "" None "h" path rawpath false "" "".
Definition demo_request (m path : string) : Request :=
  mkRequest m (demo_url path "") ∅ "" (mkContext None None).
Definition demo_rules : list ACLRule :=
  [mkACLRule [mkACLPrincipal "basic" "" "alice" ∅] ["GET"] ["/x/*"]].

Lemma authorize_spec_witness :
  ∃ w', @authorize ascii_unicode demo_floats new_response (demo_request "GET" "/x/y") demo_rules
          (Some (@basicPrincipal demo_floats "alice")) = (w', true) ∧ w' = new_response.
Proof.
  exists new_response. split; [vm_compute; reflexivity|].
  apply (@authorize_spec ascii_unicode demo_floats new_response (demo_request "GET" "/x/y") demo_rules
          (Some (@basicPrincipal demo_floats "alice")) new_response true);
    [vm_compute; reflexivity|reflexivity].
Defined.

Lemma authorize_clean_witness : clean_rooted "/x/y".
Proof.
  apply (@authorize_clean ascii_unicode demo_floats new_response (demo_request "GET" "/x/y") demo_rules
          (Some (@basicPrincipal demo_floats "alice")) new_response);
    [reflexivity|discriminate|vm_compute; reflexivity].
Defined.

(** ** What validation accepts *)

(** A principal of a rule that validation accepts. *)
Inductive wf_principal (auth : InboundAuthConfig) (p : ACLPrincipal) : Prop :=
| wf_basic b u :
    ap_Mode p = ACLModeBasic → ap_Source p = "" → ap_Claims p = ∅ → ap_Username p ≠ "" →
    a_Basic auth = Some b → u ∈ b_Users b → bu_Username u = ap_Username p → wf_principal auth p
| wf_claims :
    ap_Mode p = ACLModeJWT ∨ ap_Mode p = ACLModeSAML → ap_Username p = "" →
    ap_Claims p !! "" = None → ap_Source p ≠ "" ∨ ap_Claims p ≠ ∅ →
    (ap_Source p ≠ "" → ap_Mode p = ACLModeJWT ∧ ∃ j, j ∈ a_JWT auth ∧ j_Name j = ap_Source p) →
    wf_principal auth p.

(** A path pattern that validation accepts: a clean rooted path without "*",
    or one ending in a slash with "*" after it. *)
Definition wf_path (p : string) : Prop :=
  ∃ base, Contains base "*" = false ∧ clean_rooted base ∧
    (p = base ∨ (HasSuffix base "/" = true ∧ p = base +:+ "*")).

Definition wf_method (n : nat) (m : string) : Prop :=
  (m = "*" ∧ n ≤ 1) ∨ (m ≠ "*" ∧ isHTTPToken m = true ∧ Contains m "*" = false).

Record wf_rule (auth : InboundAuthConfig) (rule : ACLRule) : Prop := {
  wr_principals : ar_Principals rule ≠ [] ∧ Forall (wf_principal auth) (ar_Principals rule);
  wr_methods : Forall (wf_method (length (ar_Methods rule))) (ar_Methods rule);
  wr_paths : Forall wf_path (ar_Paths rule)
}.

Lemma basicUserExists_spec auth u :
  basicUserExists auth u = true ↔ ∃ b x, a_Basic auth = Some b ∧ x ∈ b_Users b ∧ bu_Username x = u.
Proof.
  unfold basicUserExists. destruct (a_Basic auth) as [b|]; [|naive_solver].
  rewrite existsb_bool. setoid_rewrite bool_decide_eq_true. naive_solver.
Qed.
Lemma jwtSourceExists_spec auth n :
  jwtSourceExists auth n = true ↔ ∃ j, j ∈ a_JWT auth ∧ j_Name j = n.
Proof.
  unfold jwtSourceExists. rewrite existsb_bool. by setoid_rewrite bool_decide_eq_true.
Qed.

Lemma validateACLPrincipal_spec auth p :
  validateACLPrincipal p auth = Ok tt ↔ wf_principal auth p.
Proof.
  unfold validateACLPrincipal.
  assert (Hname : bool_decide (is_Some (ap_Claims p !! "")) = false ↔ ap_Claims p !! "" = None)
    by (rewrite bool_decide_eq_false; destruct (ap_Claims p !! ""); naive_solver).
  rewrite !fail_if_ok, !check_ok, !fail_if_ok, check_ok, fail_if_ok, Hname. split.
  - intros (Hmode & Hone & Hsrc & Huser & Hbasic & Hcl & _).
    apply negb_false_iff in Hmode. rewrite !orb_true_iff, !bool_decide_eq_true in Hmode.
    rewrite andb_false_iff, negb_false_iff, bool_decide_eq_true, bool_decide_eq_false in *.
    assert (Hs : ap_Source p ≠ "" → ap_Mode p = ACLModeJWT ∧ ∃ j, j ∈ a_JWT auth ∧ j_Name j = ap_Source p).
    { intros Hn. rewrite bool_decide_false in Hsrc by done. cbn [negb] in Hsrc.
      rewrite !fail_if_ok, !negb_false_iff, bool_decide_eq_true, jwtSourceExists_spec in Hsrc.
      naive_solver. }
    destruct (decide (ap_Mode p = ACLModeBasic)) as [Hb|Hb].
    + rewrite bool_decide_true, !fail_if_ok, !negb_false_iff, bool_decide_eq_true,
        basicUserExists_spec in Hbasic by done. destruct Hbasic as (Hc & (b & u & ? & ? & ?) & _).
      assert (ap_Source p = "") as Hs0.
      { destruct (decide (ap_Source p = "")) as [?|Hn]; [done|]. apply Hs in Hn as [Hj _]. by rewrite Hb in Hj. }
      apply (wf_basic _ _ b u); try done.
      rewrite Hs0, Hc in Hone. intros Hu. rewrite Hu, !bool_decide_true in Hone by done. naive_solver.
    + assert (Hu : ap_Username p = "").
      { destruct Huser as [Hu|Hu]; [done|]. apply negb_false_iff, bool_decide_eq_true in Hu. done. }
      apply wf_claims; try done; [naive_solver|].
      rewrite Hu, andb_false_iff, !bool_decide_eq_false in Hone. naive_solver.
  - intros [b u Hm Hs Hc Hu Hb Hin Hun|Hm Hu Hc Hone Hs].
    + rewrite Hm, Hs, Hc, (bool_decide_false (ap_Username p = "")), lookup_empty by done.
      assert (basicUserExists auth (ap_Username p) = true) as -> by (apply basicUserExists_spec; eauto).
      by vm_compute.
    + rewrite Hu, Hc. assert (Hnb : ap_Mode p ≠ ACLModeBasic) by (destruct Hm as [-> | ->]; done).
      rewrite (bool_decide_false (ap_Mode p = ACLModeBasic)) by done. cbn [negb orb andb].
      split; [destruct Hm as [-> | ->]; by vm_compute|].
      split; [rewrite !andb_false_iff, !bool_decide_eq_false; naive_solver|].
      split; [|rewrite bool_decide_true by done; done].
      destruct (decide (ap_Source p = "")) as [->|Hn]; [by vm_compute|].
      rewrite (bool_decide_false (ap_Source p = "")) by done. destruct (Hs Hn) as [-> Hj].
      by rewrite (proj2 (jwtSourceExists_spec _ _)).
Qed.

Lemma validate_method_spec n i m : validate_method n i m = Ok tt ↔ wf_method n m.
Proof.
  unfold validate_method, wf_method. case_bool_decide as Hm; rewrite fail_if_ok.
  - rewrite Nat.ltb_ge. naive_solver.
  - rewrite orb_false_iff, negb_false_iff. naive_solver.
Qed.

Lemma validateACLPath_spec p : validateACLPath p = Ok tt ↔ wf_path p.
Proof.
  unfold validateACLPath, wf_path, ACLWildcard. rewrite !fail_if_ok, !negb_false_iff.
  assert (Hroot : ∀ b, clean_rooted b → HasPrefix b "/" = true).
  { intros b (segs & _ & [-> | ->]); apply HasPrefix_app. }
  destruct (HasSuffix p ("/" +:+ "*")) eqn:E.
  - apply HasSuffix_spec in E as (t & ->). rewrite <- s_app_assoc.
    assert (Ht : TrimSuffix ((t +:+ "/") +:+ "*") "*" = t +:+ "/").
    { unfold TrimSuffix. by rewrite (proj2 (CutSuffix_spec _ _ (t +:+ "/"))). }
    rewrite Ht. split.
    + intros (Hr & Hc & Hcl & _). exists (t +:+ "/"). split; [done|].
      assert (Hr' : HasPrefix (t +:+ "/") "/" = true).
      { destruct t as [|c t]; [done|]. rewrite !app_cons in *. cbn in *.
        apply andb_true_iff in Hr as [-> _]. by rewrite HasPrefix_nil. }
      split; [by apply IsCleanPath_spec|]. right. split; [apply HasSuffix_spec; eauto|done].
    + intros (base & Hstar & Hcl & Hp).
      assert (base = t +:+ "/") as ->.
      { destruct Hp as [<-|[_ Hp]]; [|by apply s_app_inj_r in Hp].
        exfalso. apply not_true_iff_false in Hstar. apply Hstar, Contains_spec.
        exists (t +:+ "/"), "". by rewrite s_app_nil_r. }
      split; [|split; [done|split; [apply IsCleanPath_spec; auto|done]]].
      apply Hroot in Hcl. apply HasPrefix_spec in Hcl as (u & ->).
      rewrite s_app_assoc. apply HasPrefix_app.
  - split.
    + intros (Hr & Hc & Hcl & _). exists p. split; [done|split; [by apply IsCleanPath_spec|by left]].
    + intros (base & Hstar & Hcl & [-> |[Hs ->]]).
      * split; [by apply Hroot|split; [done|split; [apply IsCleanPath_spec; auto|done]]].
      * exfalso. apply HasSuffix_spec in Hs as (u & ->). apply not_true_iff_false in E.
        apply E, HasSuffix_spec. exists u. by rewrite s_app_assoc.
Qed.

Lemma validateACLRule_spec auth rule : validateACLRule rule auth = Ok tt ↔ wf_rule auth rule.
Proof.
  unfold validateACLRule. rewrite fail_if_ok, !check_ok, !check_all_ok, bool_decide_eq_false.
  setoid_rewrite rwrap_ok. setoid_rewrite validateACLPrincipal_spec.
  setoid_rewrite validate_method_spec. setoid_rewrite validateACLPath_spec.
  rewrite <- !Forall_lookup. split; [intros (?&?&?&?)|intros [[??]??]]; repeat split; done.
Qed.

(** C40: validation accepts exactly the well-formed rule sets: every principal
    names a mode, an existing JWT source or Basic user where one is given, and
    at least one criterion; "*" stands alone among the methods; every path is a
    clean path, or a clean path ending in "/" followed by "*". *)
Theorem validateACL_spec rules auth :
  validateACL rules auth = Ok tt ↔ Forall (wf_rule auth) rules.
Proof.
  unfold validateACL. rewrite check_all_ok. setoid_rewrite rwrap_ok.
  setoid_rewrite validateACLRule_spec. by rewrite Forall_lookup.
Qed.

(** A validated path pattern respects element boundaries: it matches only
    its own path, or, for "/x/*", the paths below "/x/". *)
Theorem validated_pattern_boundary p path
    (Hv : validateACLPath p = Ok tt) (Hm : path_pattern_matches p path = true) :
  path = p ∨ ∃ base rest, p = base +:+ "/*" ∧ path = base +:+ "/" +:+ rest.
Proof.
  apply validateACLPath_spec in Hv as (base & Hstar & _ & Hp).
  apply path_pattern_matches_spec in Hm.
  destruct Hp as [-> |[Hs ->]].
  - inversion Hm as [|pre rest Hpre]; subst; [by left|]. exfalso.
    apply not_true_iff_false in Hstar. apply Hstar, Contains_spec. exists pre, "".
    by rewrite s_app_nil_r.
  - right. apply HasSuffix_spec in Hs as (b & ->).
    inversion Hm as [? Hn|pre rest Hpre Hrest]; subst.
    + destruct Hn. eauto.
    + apply s_app_inj_r in Hpre as ->. exists b, rest. by rewrite !s_app_assoc.
Qed.

Lemma validated_pattern_boundary_witness :
  "/x/y" = "/x/*" ∨ ∃ base rest, "/x/*" = base +:+ "/*" ∧ "/x/y" = base +:+ "/" +:+ rest.
Proof. apply (validated_pattern_boundary "/x/*" "/x/y"); vm_compute; reflexivity. Defined.
