(* ===== verification/ConfigAuth.v ===== *)
(** Defaults and validation of [inbound.auth] ([internal/config/auth.go]), with
    the URL rule of [config.go] and the PEM readers of [ca.go] and
    [saml_keys.go].

    [encoding/pem], [crypto/x509], bcrypt's hash parser and the process
    environment are supplied by the classes [X509] and [Env].  A [validate]
    method that only reads its receiver returns [result unit]; a map used to
    find duplicates is a set of strings. *)
From S2P Require Import Prelude GoStrings ConfigTypes GoHTTP.

Class Env : Type := { LookupEnv : string → option string }.

Record Block := mkBlock { bl_Type : string; bl_Bytes : string }.
Class X509 `{Crypto} : Type := {
  pem_Decode : string → option (Block * string);       (* block and rest *)
  ParseCertificate : string → result Certificate;
  ParsePKCS1PrivateKey : string → result RSAPrivateKey;
  ParsePKCS8PrivateKey : string → result (RSAPrivateKey + ECPrivateKey + unit);
  x509_ParseECPrivateKey : string → result ECPrivateKey;
  is_P256 : ECPrivateKey → bool;
  has_RSA_key : Certificate → bool;                     (* cert.PublicKey.( *rsa.PublicKey ) *)
  same_RSA_key : RSAPrivateKey → Certificate → bool;
  bcrypt_Cost : string → result Z
}.

Section auth.
Context `{X : X509} {N : NetURL} {U : Unicode} {En : Env}.

(** * config.go: URLs *)

Definition parseAbsoluteHTTPURL (field raw : string) : result URL :=
  let* u := rwrap "%s %q: %w" [field; raw] (url_ParseRequestURI raw) in
  fail_if (u_Scheme u !=? "http") && (u_Scheme u !=? "https")
    with ErrorfA "%s %q: scheme must be http or https, got %q" [field; raw; u_Scheme u] in
  fail_if u_Host u =? "" with ErrorfA "%s %q: missing host" [field; raw] in
  Ok u.
(** [if _, err := parseAbsoluteHTTPURL(field, raw); err != nil { return err }] *)
Definition check_url (field raw : string) : result unit :=
  let* _ := parseAbsoluteHTTPURL field raw in Ok tt.

(** * ca.go *)

(** The loop of [decodePEMCertBlocks]; [pem.Decode] consumes input, so the
    length of the input is fuel enough ([decode_blocks_fuel]). *)
Fixpoint decode_blocks (fuel : nat) (rest : string) (pool : CertPool) (n : nat)
  : option (result (CertPool * nat)) :=
  match pem_Decode rest with
  | None => Some (Ok (pool, n))
  | Some (block, rest) =>
      match fuel with
      | O => None
      | S fuel =>
          let n := S n in
          if bl_Type block !=? "CERTIFICATE" then
            Some (Err (ErrorfA "block %d: expected a CERTIFICATE block, got %q" [bl_Type block]))
          else
            match ParseCertificate (bl_Bytes block) with
            | Err e => Some (Err (Wrapf "block %d: %w" [] e))
            | Ok cert => decode_blocks fuel rest (AddCert pool cert) n
            end
      end
  end.
Definition decodePEMCertBlocks (raw : string) : result (CertPool * nat) :=
  default (Err (ENew "fuel")) (decode_blocks (String.length raw) raw empty_pool 0).

Definition strip_space (s : string) : string :=
  concat_string (snd <$> List.filter (λ x : Z * string, negb (IsSpace x.1)) (runes s)).

Definition ParseCACertPool (raw : string) : result CertPool :=
  let* x := decodePEMCertBlocks raw in
  let '(pool, n) := x in
  if 0 <? n then Ok pool
  else if Contains raw "-----BEGIN" then Err (ENew "no PEM-encoded certificate found: a BEGIN marker is present")
  else
    match b64_decode (strip_space raw) with
    | None => Err (ENew "no PEM-encoded certificate found (and it's not valid base64 either)")
    | Some decoded =>
        let* y := rwrap "base64-decoded content: %w" [] (decodePEMCertBlocks decoded) in
        let '(pool, n) := y in
        fail_if n =? 0 with ENew "no PEM-encoded certificate found" in
        Ok pool
    end.

(** * saml_keys.go *)

Definition ParseSPPrivateKey (pemStr : string) : result RSAPrivateKey :=
  match pem_Decode pemStr with
  | None => Err (Errorf "not a PEM-encoded private key")
  | Some (block, _) =>
      match ParsePKCS1PrivateKey (bl_Bytes block) with
      | Ok key => Ok key
      | Err _ =>
          match ParsePKCS8PrivateKey (bl_Bytes block) with
          | Err e => Err (Wrapf "not a PKCS#1 or PKCS#8 private key: %w" [] e)
          | Ok (inl (inl key)) => Ok key
          | Ok _ => Err (Errorf "must be an RSA private key, got %T")
          end
      end
  end.
Definition ParseSPCertificate (pemStr : string) : result Certificate :=
  match pem_Decode pemStr with
  | None => Err (Errorf "not a PEM-encoded certificate")
  | Some (block, _) => rwrap "parse certificate: %w" [] (ParseCertificate (bl_Bytes block))
  end.

(** * auth.go: defaults *)

Definition defaultJWKSCacheTTL : Z := 5 * minute.
Definition defaultClockSkew : Z := 60 * second.
Definition defaultSessionDuration : Z := 12 * hour.
Definition defaultIDPMetadataCacheTTL : Z := 1 * hour.
Definition minSessionSigningKeyLen : nat := 32.
Definition defaultRefreshMaxAge : Z := 30 * 24 * hour.
Definition bearer_location : CredentialLocation :=
  mkCredentialLocation "header" "Authorization" "Bearer ".

Definition or_default (s d : string) : string := if s =? "" then d else s.
Definition or_defaultZ (z d : Z) : Z := if (z =? 0)%Z then d else z.
Definition or_defaultL {A} (l d : list A) : list A := match l with [] => d | _ => l end.

Definition JWTLogin_applyDefaults (l : JWTLogin) : JWTLogin :=
  mkJWTLogin (l_ClientID l) (l_ClientSecret l)
    (if (l_ClientSecret l !=? "") && (l_TokenAuthMethod l =? "") then TokenAuthBasic else l_TokenAuthMethod l)
    (or_defaultL (l_Scopes l) ["openid"; "profile"; "email"])
    (l_SPBaseURL l) (or_default (l_CallbackPath l) "/_tap/oidc/callback")
    (or_default (l_CookieName l) "tap_id_token") (l_Label l) (l_Refresh l)
    (if l_Refresh l && (l_RefreshMaxAge l =? 0)%Z then defaultRefreshMaxAge else l_RefreshMaxAge l)
    (l_EndSession l) (l_PostLogoutRedirectURI l).

Definition is_login_cookie (l : JWTLogin) (c : CredentialLocation) : bool :=
  (cl_Location c =? "cookie") && (cl_Name c =? l_CookieName l).

Definition JWTSource_applyDefaults (j : JWTSource) : JWTSource :=
  let creds := or_defaultL (j_Credentials j) [bearer_location] in
  let login := JWTLogin_applyDefaults <$> j_Login j in
  let '(auds, creds) :=
    match login with
    | None => (j_Audiences j, creds)
    | Some l =>
        (or_defaultL (j_Audiences j) [l_ClientID l],
         if existsb (is_login_cookie l) creds then creds
         else creds ++ [mkCredentialLocation "cookie" (l_CookieName l) ""])
    end in
  mkJWTSource (or_default (j_Name j) (j_Issuer j)) (j_Disabled j) (j_Issuer j) auds creds
    (j_JWKSURL j) (j_OIDCDiscoveryURL j) (j_CACert j) (or_defaultL (j_Algorithms j) ["RS256"])
    (or_defaultZ (j_JWKSCacheTTL j) defaultJWKSCacheTTL)
    (or_defaultZ (j_ClockSkew j) defaultClockSkew) login (j_Local j).

Definition SAMLSource_applyDefaults (s : SAMLSource) : SAMLSource :=
  mkSAMLSource (or_default (s_Name s) (s_Issuer s)) (s_Disabled s) (s_Issuer s) (s_Audiences s)
    (s_IDPMetadataURL s) (or_defaultZ (s_IDPMetadataCacheTTL s) defaultIDPMetadataCacheTTL)
    (s_SPBaseURL s) (s_SPEntityID s) (or_default (s_ACSPath s) "/_tap/saml/acs")
    (s_SessionCookie s) (s_SessionSigningKeyEnv s)
    (or_defaultZ (s_SessionDuration s) defaultSessionDuration) (s_CACert s) (s_SPKeyEnv s) (s_SPCert s).

Definition BasicSource_applyDefaults (b : BasicSource) : BasicSource :=
  mkBasicSource (b_Disabled b) (or_default (b_Realm b) "restricted") (b_Users b).

Definition InboundAuth_applyDefaults (a : InboundAuthConfig) : InboundAuthConfig :=
  mkInboundAuth (JWTSource_applyDefaults <$> a_JWT a) (SAMLSource_applyDefaults <$> a_SAML a)
    (BasicSource_applyDefaults <$> a_Basic a) (a_LoginPage a).

(** * auth.go: validation of one source *)

Definition allowedAlgorithms : list string :=
  ["RS256"; "RS384"; "RS512"; "ES256"; "ES384"; "ES512"; "PS256"; "PS384"; "PS512"].
Definition allowedCredentialLocations : list string := ["header"; "cookie"; "query"].
Definition contains (l : list string) (x : string) : bool := existsb (λ y, y =? x) l.

Definition LoginPageConfig_validate (l : LoginPageConfig) : result unit :=
  fail_if Contains (ToLower (lp_CSS l)) "</style"
    with Errorf "login_page.css must not contain a closing style tag" in
  Ok tt.

(** A route of the login family. *)
Definition under_login (p : string) : bool :=
  (p =? LoginPathPrefix) || HasPrefix p (LoginPathPrefix +:+ "/").

(** [validCookieName]: the bytes of a token. *)
Definition validCookieName (s : string) : bool :=
  if s =? "" then false else forallb is_token_byte (String.list_ascii_of_string s).

Definition JWTLogin_validate (l : JWTLogin) (j : JWTSource) : result unit :=
  fail_if j_OIDCDiscoveryURL j =? "" with Errorf "login requires oidc_discovery_url" in
  fail_if l_ClientID l =? "" with Errorf "login.client_id is required" in
  fail_if negb (contains (j_Audiences j) (l_ClientID l))
    with ErrorfA "audiences must contain login.client_id %q" [l_ClientID l] in
  fail_if l_SPBaseURL l =? "" with Errorf "login.sp_base_url is required" in
  check* check_url "login.sp_base_url" (l_SPBaseURL l) in
  fail_if negb (HasPrefix (l_CallbackPath l) "/") with Errorf "login.callback_path must begin with %q" in
  fail_if (l_CallbackPath l =? "/healthz") || (l_CallbackPath l =? "/metrics") ||
          under_login (l_CallbackPath l) || (l_CallbackPath l =? LogoutPath)
    with ErrorfA "login.callback_path must not be %q" [l_CallbackPath l] in
  fail_if negb (contains (l_Scopes l) "openid") with Errorf "login.scopes must include %q" in
  check* (if l_ClientSecret l =? "" then
            fail_if l_TokenAuthMethod l !=? ""
              with Errorf "login.token_auth_method only applies with login.client_secret" in Ok tt
          else
            fail_if (l_TokenAuthMethod l !=? TokenAuthBasic) && (l_TokenAuthMethod l !=? TokenAuthPost)
              with ErrorfA "login.token_auth_method %q must be %s or %s" [l_TokenAuthMethod l] in Ok tt) in
  fail_if negb (l_EndSession l) && (l_PostLogoutRedirectURI l !=? "")
    with Errorf "login.post_logout_redirect_uri only applies with login.end_session" in
  check* (if l_PostLogoutRedirectURI l !=? ""
          then check_url "login.post_logout_redirect_uri" (l_PostLogoutRedirectURI l) else Ok tt) in
  fail_if negb (l_Refresh l) && negb (l_RefreshMaxAge l =? 0)%Z
    with Errorf "login.refresh_max_age only applies with login.refresh" in
  fail_if (l_RefreshMaxAge l <? 0)%Z with Errorf "login.refresh_max_age must not be negative" in
  fail_if negb (validCookieName (l_CookieName l))
    with ErrorfA "login.cookie_name %q is not a valid cookie name" [l_CookieName l] in
  fail_if HasPrefix (l_CookieName l) "tap_login_"
    with ErrorfA "login.cookie_name %q must not start with %q" [l_CookieName l] in
  Ok tt.

Definition validate_credential (i : nat) (c : CredentialLocation) : result unit :=
  fail_if negb (contains allowedCredentialLocations (cl_Location c))
    with ErrorfA "credentials[%d]: location %q must be one of header, cookie, query" [cl_Location c] in
  fail_if cl_Name c =? "" with Errorf "credentials[%d]: name is required" in
  Ok tt.

Definition JWTSource_validate (j : JWTSource) : result unit :=
  fail_if j_Issuer j =? "" with Errorf "issuer is required" in
  fail_if (j_JWKSURL j =? "") && (j_OIDCDiscoveryURL j =? "")
    with Errorf "one of jwks_url or oidc_discovery_url is required" in
  fail_if (j_JWKSURL j !=? "") && (j_OIDCDiscoveryURL j !=? "")
    with Errorf "jwks_url and oidc_discovery_url are mutually exclusive" in
  check* (if j_JWKSURL j !=? "" then check_url "jwks_url" (j_JWKSURL j) else Ok tt) in
  check* (if j_OIDCDiscoveryURL j !=? ""
          then check_url "oidc_discovery_url" (j_OIDCDiscoveryURL j) else Ok tt) in
  check* (if j_CACert j !=? "" then
            let* _ := rwrap "ca_cert: %w" [] (ParseCACertPool (j_CACert j)) in
            let endpoint := if j_JWKSURL j =? "" then j_OIDCDiscoveryURL j else j_JWKSURL j in
            fail_if HasPrefix (ToLower endpoint) "http://"
              with Errorf "ca_cert is set but %s is http://, so it would never be used" in
            Ok tt
          else Ok tt) in
  check* check_all (λ _ alg, fail_if negb (contains allowedAlgorithms alg)
                               with ErrorfA "algorithms: %q is not a supported algorithm" [alg] in Ok tt)
           0 (j_Algorithms j) in
  check* check_all validate_credential 0 (j_Credentials j) in
  match j_Login j with Some l => JWTLogin_validate l j | None => Ok tt end.

Definition SAMLSource_validate (s : SAMLSource) : result unit :=
  fail_if s_Issuer s =? "" with Errorf "issuer is required" in
  fail_if s_IDPMetadataURL s =? "" with Errorf "idp_metadata_url is required" in
  check* check_url "idp_metadata_url" (s_IDPMetadataURL s) in
  check* (if s_CACert s !=? "" then
            let* _ := rwrap "ca_cert: %w" [] (ParseCACertPool (s_CACert s)) in
            fail_if HasPrefix (ToLower (s_IDPMetadataURL s)) "http://"
              with Errorf "ca_cert is set but idp_metadata_url is http://" in
            Ok tt
          else Ok tt) in
  fail_if s_SPBaseURL s =? "" with Errorf "sp_base_url is required" in
  check* check_url "sp_base_url" (s_SPBaseURL s) in
  fail_if s_SPEntityID s =? "" with Errorf "sp_entity_id is required" in
  fail_if s_ACSPath s =? "" with Errorf "acs_path is required" in
  fail_if negb (HasPrefix (s_ACSPath s) "/") with Errorf "acs_path must begin with %q" in
  fail_if under_login (s_ACSPath s) || (s_ACSPath s =? LogoutPath)
    with ErrorfA "acs_path must not be %q: that path is served by the proxy itself" [s_ACSPath s] in
  fail_if s_ACSPath s =? "/healthz" with Errorf "acs_path must not be %q" in
  fail_if s_SessionCookie s =? "" with Errorf "session_cookie is required" in
  fail_if s_SessionSigningKeyEnv s =? "" with Errorf "session_signing_key_env is required" in
  check* (match LookupEnv (s_SessionSigningKeyEnv s) with
          | None => Err (ErrorfA "session_signing_key_env: environment variable %q is not set" [s_SessionSigningKeyEnv s])
          | Some v =>
              fail_if String.length v <? minSessionSigningKeyLen
                with ErrorfA "session_signing_key_env: environment variable %q must be at least %d bytes, got %d" [s_SessionSigningKeyEnv s] in
              Ok tt
          end) in
  fail_if negb (Bool.eqb (s_SPKeyEnv s =? "") (s_SPCert s =? ""))
    with Errorf "sp_key_env and sp_cert must be set together, or not at all" in
  if s_SPKeyEnv s !=? "" then
    match LookupEnv (s_SPKeyEnv s) with
    | None => Err (ErrorfA "sp_key_env: environment variable %q is not set" [s_SPKeyEnv s])
    | Some keyPEM =>
        let* key := rwrap "sp_key_env: environment variable %q: %w" [s_SPKeyEnv s] (ParseSPPrivateKey keyPEM) in
        let* cert := rwrap "sp_cert: %w" [] (ParseSPCertificate (s_SPCert s)) in
        fail_if negb (has_RSA_key cert) with Errorf "sp_cert: certificate's public key must be RSA" in
        fail_if negb (same_RSA_key key cert)
          with Errorf "sp_cert: certificate's public key does not match sp_key_env's private key" in
        Ok tt
    end
  else Ok tt.

Definition validateRealm (realm : string) : result unit :=
  fail_if realm =? "" with Errorf "realm must not be empty" in
  fail_if ContainsAny realm (String dquote "\")
    with ErrorfA "realm %q must not contain a quote or backslash" [realm] in
  fail_if existsb (λ x : Z * string, (x.1 <? 32)%Z || (x.1 =? 127)%Z) (runes realm)
    with ErrorfA "realm %q must not contain control characters" [realm] in
  Ok tt.

(** One iteration of the users loop; the set of seen names is the state. *)
Fixpoint validate_users (seen : gset string) (us : list BasicUser) : result unit :=
  match us with
  | [] => Ok tt
  | u :: us =>
      fail_if bu_Username u =? "" with Errorf "users[%d]: username is required" in
      fail_if bool_decide (bu_Username u ∈ seen)
        with ErrorfA "users[%d]: username %q is already used by another user" [bu_Username u] in
      fail_if bu_PasswordHash u =? ""
        with ErrorfA "users[%d] (%q): password_hash is required" [bu_Username u] in
      let* _ := rwrap "users[%d] (%q): password_hash is not a bcrypt hash: %w" [bu_Username u]
                  (bcrypt_Cost (bu_PasswordHash u)) in
      validate_users ({[bu_Username u]} ∪ seen) us
  end.
Definition BasicSource_validate (b : BasicSource) : result unit :=
  check* validateRealm (b_Realm b) in
  fail_if b_Users b =? [] with Errorf "users is required and must list at least one user" in
  validate_users ∅ (b_Users b).

(** * auth.go: cross-checks *)

Definition markUnique (seen : gset string) (label val : string) : result (gset string) :=
  if bool_decide (val ∈ seen) then Err (ErrorfA "%s %q is already used by another source" [label; val])
  else Ok ({[val]} ∪ seen).

(** The three sets the loop of [InboundAuthConfig.Validate] keeps. *)
Record Seen := mkSeen { names : gset string; loginPaths : gset string; loginCookies : gset string }.

Definition validate_jwt_step (sn : Seen) (j : JWTSource) : result Seen :=
  let wrap {A} (r : result A) := rwrap "inbound.auth.jwt[%d]: %w" [] r in
  let* _ := wrap (JWTSource_validate j) in
  let* ns := wrap (markUnique (names sn) "name" (j_Name j)) in
  match j_Login j with
  | Some l =>
      if j_Disabled j then Ok (mkSeen ns (loginPaths sn) (loginCookies sn))
      else
        let* ps := wrap (markUnique (loginPaths sn) "login.callback_path" (l_CallbackPath l)) in
        let* cs := wrap (markUnique (loginCookies sn) "login.cookie_name" (l_CookieName l)) in
        let* cs := (if l_Refresh l
                    then wrap (markUnique cs "login refresh cookie" (RefreshCookieName l)) else Ok cs) in
        Ok (mkSeen ns ps cs)
  | None => Ok (mkSeen ns (loginPaths sn) (loginCookies sn))
  end.
Fixpoint validate_jwts (sn : Seen) (l : list JWTSource) : result Seen :=
  match l with
  | [] => Ok sn
  | j :: l => let* sn := validate_jwt_step sn j in validate_jwts sn l
  end.

(** A JWT login against the SAML source. *)
Definition saml_login_clash (s : SAMLSource) (j : JWTSource) : result unit :=
  match j_Login j with
  | None => Ok tt
  | Some l =>
      fail_if l_CallbackPath l =? s_ACSPath s
        with ErrorfA "inbound.auth.jwt[%d]: login.callback_path %q collides with inbound.auth.saml.acs_path" [l_CallbackPath l] in
      fail_if l_CookieName l =? s_SessionCookie s
        with ErrorfA "inbound.auth.jwt[%d]: login.cookie_name %q collides with inbound.auth.saml.session_cookie" [l_CookieName l] in
      Ok tt
  end.
Definition saml_cookie_clash (s : SAMLSource) (j : JWTSource) : result unit :=
  check_all (λ _ c,
    fail_if (cl_Location c =? "cookie") && (cl_Name c =? s_SessionCookie s)
      with ErrorfA "inbound.auth.jwt[%d]: credentials cookie %q collides with inbound.auth.saml.session_cookie" [cl_Name c] in
    Ok tt) 0 (j_Credentials j).
Definition basic_header_clash (j : JWTSource) : result unit :=
  if j_Disabled j then Ok tt
  else check_all (λ _ c,
    fail_if (cl_Location c =? "header") && EqualFold (cl_Name c) "Authorization" && (cl_Prefix c =? "")
      with ErrorfA "inbound.auth.jwt[%d]: credentials header %q with no prefix collides with inbound.auth.basic" [cl_Name c] in
    Ok tt) 0 (j_Credentials j).

Definition InboundAuth_Validate (a : InboundAuthConfig) : result unit :=
  check* (match a_LoginPage a with
          | Some l => rwrap "inbound.auth.login_page: %w" [] (LoginPageConfig_validate l)
          | None => Ok tt
          end) in
  let* sn := validate_jwts (mkSeen ∅ ∅ ∅) (a_JWT a) in
  check* (match a_SAML a with
          | Some s => check_all (λ _, saml_login_clash s) 0 (a_JWT a)
          | None => Ok tt
          end) in
  check* (match a_SAML a with
          | Some s =>
              check* rwrap "inbound.auth.saml: %w" [] (SAMLSource_validate s) in
              let* _ := rwrap "inbound.auth.saml: %w" [] (markUnique (names sn) "name" (s_Name s)) in
              check_all (λ _, saml_cookie_clash s) 0 (a_JWT a)
          | None => Ok tt
          end) in
  match a_Basic a with
  | Some b =>
      check* rwrap "inbound.auth.basic: %w" [] (BasicSource_validate b) in
      if BasicEnabled a then check_all (λ _, basic_header_clash) 0 (a_JWT a) else Ok tt
  | None => Ok tt
  end.
End auth.

(** * Lemmas *)

(** The growth of a set of seen strings: [s'] is [s] with the distinct new
    elements [l]. *)
Record extends (s : gset string) (l : list string) (s' : gset string) : Prop := {
  ext_nodup : NoDup l;
  ext_fresh : ∀ x, x ∈ l → x ∉ s;
  ext_set : s' = list_to_set l ∪ s
}.

Lemma extends_nil s : extends s [] s.
Proof. split; [constructor|set_solver|set_solver]. Qed.
Lemma extends_app s l1 s1 l2 s2 : extends s l1 s1 → extends s1 l2 s2 → extends s (l1 ++ l2) s2.
Proof.
  intros [N1 F1 ->] [N2 F2 ->]. split.
  - apply NoDup_app. split; [done|split; [|done]]. intros x H1 H2. apply (F2 x H2). set_solver.
  - set_solver.
  - rewrite list_to_set_app_L. set_solver.
Qed.
Lemma markUnique_ok s label v s' : markUnique s label v = Ok s' ↔ extends s [v] s'.
Proof.
  unfold markUnique. case_bool_decide as Hv; split.
  - done.
  - intros [_ F _]. destruct (F v); set_solver.
  - intros [= <-]. split; [apply NoDup_singleton|set_solver|set_solver].
  - intros [_ _ ->]. f_equal. set_solver.
Qed.
#[export] Hint Resolve extends_nil extends_app : go.

Definition login_paths_of (j : JWTSource) : list string :=
  match j_Login j with
  | Some l => if j_Disabled j then [] else [l_CallbackPath l]
  | None => []
  end.
Definition login_cookies_of (j : JWTSource) : list string :=
  match j_Login j with
  | Some l => if j_Disabled j then []
              else l_CookieName l :: (if l_Refresh l then [RefreshCookieName l] else [])
  | None => []
  end.

Section auth_lemmas.
Context `{X : X509} {N : NetURL} {U : Unicode} {En : Env}.

(** With [pem.Decode] consuming its input, the length of the input is fuel
    enough. *)
Lemma decode_blocks_fuel fuel rest pool n :
  (∀ s b r, pem_Decode s = Some (b, r) → String.length r < String.length s) →
  String.length rest ≤ fuel → is_Some (decode_blocks fuel rest pool n).
Proof.
  intros Hdec. revert rest pool n.
  induction fuel as [|fuel IH]; intros rest pool n Hlen; cbn [decode_blocks];
    destruct (pem_Decode rest) as [[b r]|] eqn:E; try (eauto; fail); apply Hdec in E; [lia|].
  case_match; [eauto|]. destruct (ParseCertificate (bl_Bytes b)); [|eauto]. apply IH. lia.
Qed.

Lemma validate_jwt_step_ok sn j sn' :
  validate_jwt_step sn j = Ok sn' →
  JWTSource_validate j = Ok tt ∧ extends (names sn) [j_Name j] (names sn') ∧
  extends (loginPaths sn) (login_paths_of j) (loginPaths sn') ∧
  extends (loginCookies sn) (login_cookies_of j) (loginCookies sn').
Proof.
  unfold validate_jwt_step, login_paths_of, login_cookies_of.
  destruct (JWTSource_validate j) as [[]|]; [|done].
  destruct (markUnique (names sn) _ _) as [ns|] eqn:E1; [|done]. apply markUnique_ok in E1.
  cbn [rwrap rbind]. destruct (j_Login j) as [l|]; [destruct (j_Disabled j)|].
  1,3: intros [= <-]; cbn; auto using extends_nil.
  destruct (markUnique (loginPaths sn) _ _) as [ps|] eqn:E2; [|done]. apply markUnique_ok in E2.
  destruct (markUnique (loginCookies sn) _ _) as [cs|] eqn:E3; [|done]. apply markUnique_ok in E3.
  cbn [rwrap rbind]. destruct (l_Refresh l).
  - destruct (markUnique cs _ _) as [cs'|] eqn:E4; [|done]. apply markUnique_ok in E4.
    intros [= <-]. cbn. repeat split; try apply E1; try apply E2; eapply (extends_app _ [_] _ [_]); eauto.
  - intros [= <-]. cbn. auto.
Qed.

Lemma validate_jwts_ok sn l sn' :
  validate_jwts sn l = Ok sn' →
  Forall (λ j, JWTSource_validate j = Ok tt) l ∧
  extends (names sn) (j_Name <$> l) (names sn') ∧
  extends (loginPaths sn) (flat_map login_paths_of l) (loginPaths sn') ∧
  extends (loginCookies sn) (flat_map login_cookies_of l) (loginCookies sn').
Proof.
  revert sn. induction l as [|j l IH]; intros sn Hv; cbn in Hv.
  { simplify_eq. split; [constructor|]. cbn. auto using extends_nil. }
  destruct (validate_jwt_step sn j) as [sn1|] eqn:E; [|done].
  apply validate_jwt_step_ok in E as (Hj & E1 & E2 & E3).
  apply IH in Hv as (Hf & F1 & F2 & F3).
  split; [by constructor|]. cbn.
  split; [by eapply (extends_app _ [_])|split; by eapply extends_app].
Qed.

Lemma validate_users_ok seen us :
  validate_users seen us = Ok tt →
  NoDup (bu_Username <$> us) ∧ (∀ u, u ∈ us → bu_Username u ∉ seen) ∧
  Forall (λ u, bu_Username u ≠ "" ∧ is_ok (bcrypt_Cost (bu_PasswordHash u)) = true) us.
Proof.
  revert seen. induction us as [|u us IH]; intros seen Hv; cbn in Hv.
  { split; [constructor|split; [set_solver|constructor]]. }
  destruct (bool_decide (bu_Username u = "")) eqn:E1; [done|].
  destruct (bool_decide (bu_Username u ∈ seen)) eqn:E2; [done|].
  destruct (bool_decide (bu_PasswordHash u = "")) eqn:E3; [done|].
  destruct (bcrypt_Cost (bu_PasswordHash u)) eqn:E4; [|done]. cbn in Hv. bool_hyps.
  apply IH in Hv as (Hn & Hs & Hf). split; [|split].
  - cbn. constructor; [|done]. intros (v & Heq & Hin)%list_elem_of_fmap.
    apply (Hs v Hin). set_solver.
  - intros v [->|Hu]%elem_of_cons; [done|]. specialize (Hs v Hu). set_solver.
  - constructor; [by rewrite E4|done].
Qed.
End auth_lemmas.

(** The callback path or ACS path of a source does not name a login route. *)
Lemma or_default_idem s d : or_default (or_default s d) d = or_default s d.
Proof. unfold or_default. repeat case_bool_decide; congruence. Qed.
Lemma or_defaultZ_idem z d : or_defaultZ (or_defaultZ z d) d = or_defaultZ z d.
Proof. unfold or_defaultZ. destruct (z =? 0)%Z eqn:E; [by destruct (d =? 0)%Z|by rewrite E]. Qed.
Lemma or_defaultL_idem {A} (l d : list A) : or_defaultL (or_defaultL l d) d = or_defaultL l d.
Proof. by destruct l, d. Qed.

Lemma JWTLogin_defaults_idem l :
  JWTLogin_applyDefaults (JWTLogin_applyDefaults l) = JWTLogin_applyDefaults l.
Proof.
  unfold JWTLogin_applyDefaults. cbn. rewrite !or_default_idem, or_defaultL_idem. f_equal.
  - destruct (bool_decide (l_ClientSecret l = "")); cbn; [done|].
    destruct (bool_decide (l_TokenAuthMethod l = "")) eqn:E; cbn; [done|by rewrite E].
  - destruct (l_Refresh l); cbn; [|done].
    destruct (l_RefreshMaxAge l =? 0)%Z eqn:E; cbn; [done|by rewrite E].
Qed.

(** * Properties *)

(** After the defaults, a source with browser login reads its own login
    cookie back (the cookie is among its credential locations and the client ID
    among its audiences when none was given), and applying the defaults again
    changes nothing. *)
Theorem JWTSource_defaults_login (j : JWTSource) :
  JWTSource_applyDefaults (JWTSource_applyDefaults j) = JWTSource_applyDefaults j ∧
  j_Credentials (JWTSource_applyDefaults j) ≠ [] ∧
  ∀ l, j_Login (JWTSource_applyDefaults j) = Some l →
    (∃ c, c ∈ j_Credentials (JWTSource_applyDefaults j) ∧ cl_Location c = "cookie" ∧ cl_Name c = l_CookieName l) ∧
    (j_Audiences j = [] → j_Audiences (JWTSource_applyDefaults j) = [l_ClientID l]) ∧
    l_CookieName l ≠ "" ∧ l_CallbackPath l ≠ "".
Proof.
  destruct j as [name dis iss auds creds jwks disc ca algs ttl skew login loc].
  unfold JWTSource_applyDefaults; cbn.
  assert (Hne : or_defaultL creds [bearer_location] ≠ []) by (by destruct creds).
  set (cs := or_defaultL creds [bearer_location]) in *.
  assert (Hcs : or_defaultL cs [bearer_location] = cs) by apply or_defaultL_idem.
  destruct login as [l0|]; cbn.
  - set (l := JWTLogin_applyDefaults l0).
    set (cs' := if existsb (is_login_cookie l) cs then cs
                else cs ++ [mkCredentialLocation "cookie" (l_CookieName l) ""]).
    assert (Hin : existsb (is_login_cookie l) cs' = true).
    { subst cs'. destruct (existsb (is_login_cookie l) cs) eqn:E; [done|].
      rewrite existsb_app. cbn. unfold is_login_cookie. cbn.
      rewrite !bool_decide_true by done. by rewrite orb_true_r. }
    assert (Hcs' : or_defaultL cs' [bearer_location] = cs').
    { subst cs'. case_match; [done|]. by destruct cs. }
    change (or_default (l_CookieName l0) "tap_id_token") with (l_CookieName l). fold cs'.
    assert (Hl : JWTLogin_applyDefaults l = l) by apply JWTLogin_defaults_idem.
    change (JWTLogin_applyDefaults l0) with l. rewrite Hl, Hcs', Hin.
    split; [by rewrite or_default_idem, !or_defaultZ_idem, !or_defaultL_idem|].
    split; [subst cs'; case_match; [done|by destruct cs]|].
    intros l' [= <-]. split; [|split].
    + apply existsb_bool in Hin as (c & Hc & Hlc). unfold is_login_cookie in Hlc. bool_hyps. eauto.
    + intros ->. done.
    + subst l. unfold JWTLogin_applyDefaults, or_default. cbn.
      split; case_bool_decide; done.
  - rewrite Hcs. split; [by rewrite or_default_idem, !or_defaultZ_idem, !or_defaultL_idem|].
    split; [done|]. done.
Qed.

(** ** Concrete library values for the witnesses *)

(** Reads "scheme://host/path" with no query, enough for the witnesses. *)
Definition demo_parse_url (raw : string) : result URL :=
  let read scheme rest :=
    let '(host, path, found) := Cut rest "/" in
    Ok (mkURL scheme "" None host (if found then "/" +:+ path else "") "" false "" "") in
  match CutPrefix raw "https://", CutPrefix raw "http://" with
  | Some rest, _ => read "https" rest
  | None, Some rest => read "http" rest
  | None, None => Err (ENew "invalid URI for request")
  end.
Definition demo_neturl : NetURL :=
  {| url_Parse := demo_parse_url; url_ParseRequestURI := demo_parse_url;
     url_String u := u_Scheme u +:+ "://" +:+ u_Host u +:+ u_Path u +:+ "?" +:+ u_RawQuery u |}.
Definition demo_crypto : Crypto :=
  {| CertPool := nat; Certificate := string; ECPrivateKey := string; RSAPrivateKey := string;
     empty_pool := 0; AddCert n _ := S n |}.
Definition demo_x509 : @X509 demo_crypto :=
  @Build_X509 demo_crypto
    (λ s, (λ t, (mkBlock "EC PRIVATE KEY" t, "")) <$> CutPrefix s "PEM:")
    (λ s, Ok s) (λ s, Err (ENew "not PKCS#1")) (λ s, Err (ENew "not PKCS#8")) (λ s, Ok s)
    (λ _, true) (λ _, true) (λ k c, bool_decide (k = c))
    (λ s, if HasPrefix s "$2" then Ok 10%Z else Err (ENew "not a bcrypt hash")).
Definition demo_env : Env := {| LookupEnv := λ n, if bool_decide (n = "K")
  then Some "0123456789abcdef0123456789abcdef" else None |}.

Definition demo_login : JWTLogin :=
  mkJWTLogin "client" "" "" [] "https://p" "" "" "" true 0 false "".
Definition demo_jwt : JWTSource :=
  mkJWTSource "" false "https://idp" [] [] "" "https://idp/d" "" [] 0 0 (Some demo_login) false.
Definition demo_saml : SAMLSource :=
  mkSAMLSource "" false "https://saml" [] "https://saml/m" 0 "https://p" "sp" "" "saml_session" "K" 0 "" "" "".
Definition demo_basic : BasicSource := mkBasicSource false "" [mkBasicUser "alice" "$2a$x"].
Definition demo_auth : InboundAuthConfig :=
  InboundAuth_applyDefaults (mkInboundAuth [demo_jwt] (Some demo_saml) (Some demo_basic) None).

Section auth_spec.
Context `{X : X509} {N : NetURL} {U : Unicode} {En : Env}.

(** What [Validate] rules out across sources. *)
Record auth_wf (a : InboundAuthConfig) : Prop := {
  (** no two sources share a name *)
  aw_names : NoDup ((j_Name <$> a_JWT a) ++ from_option (λ s, [s_Name s]) [] (a_SAML a));
  (** no two enabled logins share a callback path, a login cookie or a refresh cookie *)
  aw_paths : NoDup (flat_map login_paths_of (a_JWT a));
  aw_cookies : NoDup (flat_map login_cookies_of (a_JWT a));
  (** the SAML session is not reachable through a JWT source *)
  aw_saml : ∀ s j, a_SAML a = Some s → j ∈ a_JWT a →
    (∀ l, j_Login j = Some l → l_CallbackPath l ≠ s_ACSPath s ∧ l_CookieName l ≠ s_SessionCookie s) ∧
    (∀ c, c ∈ j_Credentials j → cl_Location c = "cookie" → cl_Name c ≠ s_SessionCookie s);
  (** Basic users are distinct and have parseable hashes *)
  aw_basic : ∀ b, a_Basic a = Some b → b_Users b ≠ [] ∧ NoDup (bu_Username <$> b_Users b) ∧
    Forall (λ u, bu_Username u ≠ "" ∧ is_ok (bcrypt_Cost (bu_PasswordHash u)) = true) (b_Users b);
  (** with Basic enabled, no enabled JWT source takes the whole Authorization header *)
  aw_header : BasicEnabled a = true → ∀ j c, j ∈ a_JWT a → j_Disabled j = false →
    c ∈ j_Credentials j → cl_Location c = "header" → EqualFold (cl_Name c) "Authorization" = true →
    cl_Prefix c ≠ "";
  (** each source has one key location, and only asymmetric algorithms *)
  aw_source : ∀ j, j ∈ a_JWT a → j_Issuer j ≠ "" ∧ (j_JWKSURL j = "" ↔ j_OIDCDiscoveryURL j ≠ "") ∧
    ∀ alg, alg ∈ j_Algorithms j → alg ∈ allowedAlgorithms;
  (** the SAML session key is set and has at least 32 bytes *)
  aw_key : ∀ s, a_SAML a = Some s → ∃ v, LookupEnv (s_SessionSigningKeyEnv s) = Some v ∧ 32 ≤ String.length v
}.

Lemma contains_spec l x : contains l x = true ↔ x ∈ l.
Proof. unfold contains. rewrite existsb_bool. setoid_rewrite bool_decide_eq_true. naive_solver. Qed.

Lemma JWTSource_validate_ok j :
  JWTSource_validate j = Ok tt →
  j_Issuer j ≠ "" ∧ (j_JWKSURL j = "" ↔ j_OIDCDiscoveryURL j ≠ "") ∧
  ∀ alg, alg ∈ j_Algorithms j → alg ∈ allowedAlgorithms.
Proof.
  unfold JWTSource_validate. intros Hv.
  destruct (bool_decide (j_Issuer j = "")) eqn:E1; [done|].
  destruct (bool_decide (j_JWKSURL j = "")) eqn:E2, (bool_decide (j_OIDCDiscoveryURL j = "")) eqn:E3;
    cbn [negb andb] in Hv; try done; bool_hyps.
  all: split; [done|split; [naive_solver|]].
  all: repeat match type of Hv with
         | rbind ?r _ = _ => destruct r as [[]|] eqn:?; [cbn [rbind] in Hv|done] end.
  all: intros alg Hin; apply contains_spec; apply negb_false_iff.
  all: match goal with Ha : check_all (λ _ a, if negb (contains allowedAlgorithms a) then _ else _) _ _ = _ |- _ =>
         rewrite check_list_ok in Ha; specialize (Ha alg Hin); by apply fail_ok in Ha end.
Qed.

Lemma SAMLSource_validate_key s :
  SAMLSource_validate s = Ok tt →
  ∃ v, LookupEnv (s_SessionSigningKeyEnv s) = Some v ∧ 32 ≤ String.length v.
Proof.
  unfold SAMLSource_validate. intros Hv.
  repeat match type of Hv with
         | rbind (match LookupEnv _ with _ => _ end) _ = _ => fail 1
         | rbind ?r _ = _ => destruct r as [[]|]; [cbn [rbind] in Hv|done]
         | (if ?b then _ else _) = _ => destruct b; [done|] end.
  destruct (LookupEnv (s_SessionSigningKeyEnv s)) as [v|]; [|done]. exists v. split; [done|].
  destruct (String.length v <? minSessionSigningKeyLen) eqn:E; [done|].
  apply Nat.ltb_ge in E. exact E.
Qed.

(** C39: a configuration [Validate] accepts is well-formed across its sources:
    unique names, callback paths and cookies, no confusion between the SAML
    session cookie, the Basic header and JWT credentials, distinct Basic users
    with parseable hashes, asymmetric algorithms only and a session key of at
    least 32 bytes. *)
Theorem InboundAuth_Validate_wf a (Hv : InboundAuth_Validate a = Ok tt) : auth_wf a.
Proof.
  unfold InboundAuth_Validate in Hv. rewrite check_ok, rbind_ok in Hv.
  destruct Hv as (_ & sn & Hj & Hv). rewrite !check_ok in Hv. destruct Hv as (Hclash & Hsaml & Hb).
  apply validate_jwts_ok in Hj as (Hsrc & [Nn _ Sn] & [Np _ _] & [Nc _ _]). cbn in Sn.
  rewrite Forall_forall in Hsrc. split; try done.
  - destruct (a_SAML a) as [s|]; [|by rewrite app_nil_r]. cbn.
    rewrite check_ok, rbind_ok in Hsaml. destruct Hsaml as (_ & ns & Hm & _).
    apply rwrap_ok, markUnique_ok in Hm as [_ F _].
    apply NoDup_app. split; [done|split; [|apply NoDup_singleton]].
    intros x Hx [->|?]%elem_of_cons; [|set_solver]. apply (F (s_Name s)); [set_solver|].
    rewrite Sn. by apply elem_of_union_l, elem_of_list_to_set.
  - intros s j Es Hin. rewrite Es in Hclash, Hsaml.
    rewrite check_ok, rbind_ok in Hsaml. destruct Hsaml as (_ & ns & _ & Hcc).
    rewrite check_list_ok in Hclash, Hcc. specialize (Hclash j Hin). specialize (Hcc j Hin). split.
    + intros l El. unfold saml_login_clash in Hclash. rewrite El, fail_if_ok, fail_ok in Hclash.
      destruct Hclash. by bool_hyps.
    + intros c Hc Hloc. unfold saml_cookie_clash in Hcc. rewrite check_list_ok in Hcc.
      specialize (Hcc c Hc). rewrite fail_ok, bool_decide_true in Hcc by done. cbn in Hcc. by bool_hyps.
  - intros b Eb. rewrite Eb, check_ok in Hb. destruct Hb as [Hb%rwrap_ok _].
    unfold BasicSource_validate in Hb. rewrite check_ok, fail_if_ok in Hb.
    destruct Hb as (_ & Hne & Hu). apply validate_users_ok in Hu as (? & _ & ?). by bool_hyps.
  - intros Hben j c Hin Hdis Hc Hloc Hfold. unfold BasicEnabled in *.
    destruct (a_Basic a) as [b|]; [|done]. rewrite check_ok in Hb. destruct Hb as [_ Hb].
    rewrite Hben, check_list_ok in Hb. specialize (Hb j Hin). unfold basic_header_clash in Hb.
    rewrite Hdis, check_list_ok in Hb. specialize (Hb c Hc).
    rewrite fail_ok, bool_decide_true, Hfold in Hb by done. cbn in Hb. by bool_hyps.
  - intros j Hin. by apply JWTSource_validate_ok, Hsrc.
  - intros s Es. rewrite Es, check_ok in Hsaml. destruct Hsaml as [Hs%rwrap_ok _].
    by apply SAMLSource_validate_key.
Qed.
End auth_spec.

Lemma InboundAuth_Validate_wf_witness :
  @auth_wf demo_crypto demo_x509 ascii_unicode demo_env demo_auth.
Proof.
  apply (@InboundAuth_Validate_wf demo_crypto demo_x509 demo_neturl ascii_unicode demo_env demo_auth).
  vm_compute. reflexivity.
Defined.
