(* ===== verification/ConfigMain.v ===== *)
(** The whole configuration: [inbound.oauth_server] and [outbound.token]
    ([internal/config/oauth.go]), [outbound.prom_label_proxy]
    ([internal/config/promlabel.go]) and the top level
    ([internal/config/config.go]).

    A [validate] method that caches what it parsed returns the updated value;
    callers discard the value when it fails.  [slices.SortFunc] is a merge sort
    (the order of prefixes of equal length is not observable);
    label-name validity is a function of the Prometheus library. *)
From S2P Require Import Prelude GoStrings ConfigTypes GoURL GoHTTP Acl ConfigAuth.

(** [net.SplitHostPort], of which only success matters here. *)
Definition SplitHostPort_ok (hp : string) : bool :=
  match LastIndexByte hp ":" with
  | None => false
  | Some i =>
      let tail_ok j k := negb (Contains (s_drop j hp) "[") && negb (Contains (s_drop k hp) "]") in
      if HasPrefix hp "[" then
        match IndexByte hp "]" with
        | None => false
        | Some e => (S e =? i) && tail_ok 1 (S e)
        end
      else negb (Contains (s_take i hp) ":") && tail_ok 0 0
  end.

Class PromModel : Type := { IsValidLabelName : string → bool }.

(** [slices.Compact]: consecutive duplicates collapse. *)
Fixpoint compact (l : list string) : list string :=
  match l with
  | x :: l' =>
      match compact l' with
      | y :: r => if x =? y then y :: r else x :: y :: r
      | [] => [x]
      end
  | [] => []
  end.

Definition longer (a b : string) : Prop := String.length b ≤ String.length a.
#[export] Instance longer_dec : RelDecision longer.
Proof. intros a b. unfold longer. apply _. Defined.

Section main.
Context `{X : X509} {R : Regexp} {N : NetURL} {U : Unicode} {En : Env} {P : PromModel}.

(** * oauth.go: outbound.token *)

Definition minAccessTokenTTL : Z := minute.
Definition maxAccessTokenTTL : Z := hour.
Definition minCodeTTL : Z := 5 * second.
Definition maxCodeTTL : Z := 5 * minute.
Definition maxRefreshLife : Z := 365 * 24 * hour.
Definition sealingKeyLen : nat := 32.

Definition TokenConfig_applyDefaults (mcpURL : string) (t : TokenConfig) : TokenConfig :=
  mkToken (t_SigningKeys t) (or_defaultZ (t_AccessTokenTTL t) (15 * minute))
    (or_default (t_Audience t) mcpURL)
    (mkTokenClaims (or_default (tc_Subject (t_Claims t)) "sub")
       (or_default (tc_Email (t_Claims t)) "email") (or_default (tc_Groups (t_Claims t)) "groups"))
    (t_keys t).

Definition parseECPrivateKey (pemText : string) : result ECPrivateKey :=
  match pem_Decode pemText with
  | None => Err (Errorf "not PEM encoded")
  | Some (block, _) =>
      let* key :=
        (if bl_Type block =? "EC PRIVATE KEY" then
           rwrap "invalid EC private key: %w" [] (x509_ParseECPrivateKey (bl_Bytes block))
         else if bl_Type block =? "PRIVATE KEY" then
           match ParsePKCS8PrivateKey (bl_Bytes block) with
           | Err e => Err (Wrapf "invalid PKCS#8 private key: %w" [] e)
           | Ok (inl (inr ec)) => Ok ec
           | Ok _ => Err (Errorf "must be an EC key, got %T")
           end
         else Err (ErrorfA "PEM type %q must be EC PRIVATE KEY or PRIVATE KEY" [bl_Type block])) in
      fail_if negb (is_P256 key) with Errorf "must be a P-256 key (ES256)" in
      Ok key
  end.

Fixpoint parse_keys (kids : gset string) (l : list SigningKey) : result (list ParsedSigningKey) :=
  match l with
  | [] => Ok []
  | k :: l =>
      fail_if sk_KID k =? "" with Errorf "signing_keys[%d].kid is required" in
      let* kids := rwrap "signing_keys[%d]: %w" [] (markUnique kids "signing_keys kid" (sk_KID k)) in
      let* key := rwrap "signing_keys[%d].private_key: %w" [] (parseECPrivateKey (sk_PrivateKey k)) in
      rmap (cons (mkParsedKey (sk_KID k) key)) (parse_keys kids l)
  end.

(** The three claim names are checked in Go's random map order. *)
Definition TokenConfig_validate (t : TokenConfig) : result TokenConfig :=
  fail_if t_SigningKeys t =? [] with Errorf "signing_keys requires at least one key" in
  let* keys := parse_keys ∅ (t_SigningKeys t) in
  fail_if (t_AccessTokenTTL t <? minAccessTokenTTL)%Z || (maxAccessTokenTTL <? t_AccessTokenTTL t)%Z
    with Errorf "access_token_ttl %s must be between %s and %s" in
  check* check_url "audience" (t_Audience t) in
  check* check_all (λ _ v, fail_if TrimSpace v =? "" with Errorf "%s must not be empty" in Ok tt) 0
    [tc_Subject (t_Claims t); tc_Email (t_Claims t); tc_Groups (t_Claims t)] in
  Ok (mkToken (t_SigningKeys t) (t_AccessTokenTTL t) (t_Audience t) (t_Claims t) keys).

(** * oauth.go: inbound.oauth_server *)

Definition OAuthServer_applyDefaults (o : OAuthServerConfig) : OAuthServerConfig :=
  mkOAuthServer (o_Disabled o) (o_SPBaseURL o) (o_MCPURL o)
    (or_defaultZ (o_CodeTTL o) (60 * second)) (or_defaultZ (o_RefreshAbsoluteLifetime o) (24 * hour))
    (o_SealingKeys o) (o_Clients o) (o_DynamicRegistration o) (o_Denylist o) (o_sealing o).

Definition IsLoopbackHost (host : string) : bool :=
  (host =? "localhost") || (host =? "127.0.0.1") || (host =? "::1").

Definition validateRedirectURI (raw : string) : result unit :=
  let* u := parseAbsoluteHTTPURL "redirect URI" raw in
  fail_if Contains raw "#" || (u_User u !=? None)
    with ErrorfA "%q must have no fragment or credentials" [raw] in
  fail_if (u_Scheme u =? "http") && negb (IsLoopbackHost (Hostname u))
    with ErrorfA "%q: http is only allowed for localhost, 127.0.0.1 or [::1]" [raw] in
  Ok tt.

Definition OAuthClient_validate (c : OAuthClient) : result unit :=
  fail_if (oc_ID c =? "") || ContainsAny (oc_ID c) (" " +:+ String (char 9) (String (char 13) newline))
    with Errorf "id is required and must not contain whitespace" in
  fail_if oc_RedirectURIs c =? [] with Errorf "redirect_uris requires at least one URI" in
  check_all (λ _ raw, rwrap "redirect_uris[%d]: %w" [] (validateRedirectURI raw)) 0 (oc_RedirectURIs c).

Definition maxDynamicRedirectURIs : nat := 20.
Definition DynamicRegistration_validate (d : DynamicRegistration) : result unit :=
  fail_if maxDynamicRedirectURIs <? length (dr_RedirectURIs d)
    with Errorf "redirect_uris lists %d URIs, at most %d" in
  check_all (λ _ raw,
    let* u := rwrap "redirect_uris[%d]: %w" [] (parseAbsoluteHTTPURL "redirect URI" raw) in
    fail_if u_Scheme u !=? "https" with ErrorfA "redirect_uris[%d] %q must be https" [raw] in
    fail_if Contains raw "#" || (u_User u !=? None)
      with ErrorfA "redirect_uris[%d] %q must have no fragment or credentials" [raw] in
    Ok tt) 0 (dr_RedirectURIs d).
Definition AllowsDynamicRedirect (d : DynamicRegistration) (raw : string) : bool :=
  if negb (is_ok (validateRedirectURI raw)) then false
  else match url_Parse raw with
       | Err _ => false
       | Ok u => if u_Scheme u =? "http" then IsLoopbackHost (Hostname u)
                 else contains (dr_RedirectURIs d) raw
       end.

(** The standard and the URL alphabet, padded or not, in the order tried. *)
Definition url_to_std (s : string) : string :=
  String.string_of_list_ascii ((λ c, if c =? "-"%char then "+"%char else if c =? "_"%char then "/"%char else c)
                          <$> String.list_ascii_of_string s).
Definition b64_pad (s : string) : option string :=
  if Contains s "=" then None
  else match (String.length (strip_newlines s) mod 4)%nat with
       | 0 => Some s | 2 => Some (s +:+ "==") | 3 => Some (s +:+ "=") | _ => None
       end.
Definition b64_decode_any (s : string) : option string :=
  let url_ok := negb (ContainsAny s "+/") in
  match b64_decode s with
  | Some b => Some b
  | None =>
      match b64_pad s ≫= b64_decode with
      | Some b => Some b
      | None =>
          if url_ok then
            match b64_decode (url_to_std s) with
            | Some b => Some b
            | None => b64_pad (url_to_std s) ≫= b64_decode
            end
          else None
      end
  end.
Definition decodeSealingKey (s : string) : result string :=
  let s := TrimSpace s in
  fail_if s =? "" with Errorf "must not be empty" in
  match b64_decode_any s with
  | Some b => fail_if negb (String.length b =? sealingKeyLen)%nat
                with Errorf "must decode to %d bytes, got %d" in Ok b
  | None => Err (Errorf "must be base64 encoded")
  end.

Fixpoint decode_keys (l : list string) : result (list string) :=
  match l with
  | [] => Ok []
  | s :: l =>
      let* k := rwrap "sealing_keys[%d]: %w" [] (decodeSealingKey s) in
      rmap (cons k) (decode_keys l)
  end.
Fixpoint validate_clients (ids : gset string) (l : list OAuthClient) : result unit :=
  match l with
  | [] => Ok tt
  | c :: l =>
      check* rwrap "clients[%d]: %w" [] (OAuthClient_validate c) in
      let* ids := rwrap "clients[%d]: %w" [] (markUnique ids "clients id" (oc_ID c)) in
      validate_clients ids l
  end.

Definition underOAuthPrefix (p : string) : bool :=
  (p =? OAuthPathPrefix) || HasPrefix p (OAuthPathPrefix +:+ "/").

Definition OAuthServer_validate (o : OAuthServerConfig) : result OAuthServerConfig :=
  fail_if o_SPBaseURL o =? "" with Errorf "sp_base_url is required" in
  let* base := parseAbsoluteHTTPURL "sp_base_url" (o_SPBaseURL o) in
  fail_if (u_RawQuery base !=? "") || Contains (o_SPBaseURL o) "#" || (u_User base !=? None)
    with ErrorfA "sp_base_url %q must be an origin with no query, fragment or credentials" [o_SPBaseURL o] in
  fail_if (u_Path base !=? "") && (u_Path base !=? "/")
    with ErrorfA "sp_base_url %q must be an origin with no path" [o_SPBaseURL o] in
  fail_if o_MCPURL o =? "" with Errorf "mcp_url is required" in
  let* mcp := parseAbsoluteHTTPURL "mcp_url" (o_MCPURL o) in
  fail_if (u_RawQuery mcp !=? "") || Contains (o_MCPURL o) "#" || (u_User mcp !=? None)
    with ErrorfA "mcp_url %q must have no query, fragment or credentials" [o_MCPURL o] in
  fail_if (u_Scheme mcp !=? u_Scheme base) || (u_Host mcp !=? u_Host base)
    with ErrorfA "mcp_url %q must share sp_base_url's origin %s://%s" [o_MCPURL o] in
  fail_if (u_Path mcp =? "") || (u_Path mcp =? "/")
    with ErrorfA "mcp_url %q must name the MCP endpoint path" [o_MCPURL o] in
  fail_if underOAuthPrefix (u_Path mcp) || under_login (u_Path mcp) || (u_Path mcp =? LogoutPath)
    with ErrorfA "mcp_url %q must not be a path the proxy serves itself" [o_MCPURL o] in
  fail_if (o_CodeTTL o <? minCodeTTL)%Z || (maxCodeTTL <? o_CodeTTL o)%Z
    with Errorf "code_ttl %s must be between %s and %s" in
  fail_if (o_RefreshAbsoluteLifetime o <=? 0)%Z || (maxRefreshLife <? o_RefreshAbsoluteLifetime o)%Z
    with Errorf "refresh_absolute_lifetime %s must be positive and at most %s" in
  fail_if o_SealingKeys o =? [] with Errorf "sealing_keys requires at least one key" in
  let* sealing := decode_keys (o_SealingKeys o) in
  fail_if (o_Clients o =? []) && negb (dr_Enabled (o_DynamicRegistration o))
    with Errorf "clients requires at least one client, unless dynamic_registration is enabled" in
  check* rwrap "dynamic_registration: %w" [] (DynamicRegistration_validate (o_DynamicRegistration o)) in
  check* validate_clients ∅ (o_Clients o) in
  check* check_all (λ _ sub,
    fail_if TrimSpace sub =? "" with Errorf "denylist.subjects[%d] must not be empty" in
    fail_if sub !=? TrimSpace sub
      with ErrorfA "denylist.subjects[%d] %q has leading or trailing whitespace" [sub] in
    Ok tt) 0 (d_Subjects (o_Denylist o)) in
  Ok (mkOAuthServer (o_Disabled o) (o_SPBaseURL o) (o_MCPURL o) (o_CodeTTL o)
        (o_RefreshAbsoluteLifetime o) (o_SealingKeys o) (o_Clients o) (o_DynamicRegistration o)
        (o_Denylist o) sealing).

Definition oauth_jwt_clash (j : JWTSource) : result unit :=
  fail_if j_Name j =? OAuthSourceName
    with ErrorfA "inbound.auth.jwt[%d]: name %q is reserved for the tokens inbound.oauth_server issues" [OAuthSourceName] in
  match j_Login j with
  | Some l =>
      fail_if underOAuthPrefix (l_CallbackPath l)
        with ErrorfA "inbound.auth.jwt[%d]: login.callback_path %q is served by inbound.oauth_server" [l_CallbackPath l] in
      Ok tt
  | None => Ok tt
  end.

(** [validateOAuth] with the two validated blocks it leaves in the config. *)
Definition validateOAuth (auth : InboundAuthConfig) (srv : option OAuthServerConfig)
    (tok : option TokenConfig) : result (option OAuthServerConfig * option TokenConfig) :=
  match srv, tok with
  | None, None => Ok (None, None)
  | None, Some _ => Err (Errorf "outbound.token requires inbound.oauth_server")
  | Some _, None => Err (Errorf "inbound.oauth_server requires outbound.token")
  | Some srv, Some tok =>
      let* srv := rwrap "inbound.oauth_server: %w" [] (OAuthServer_validate srv) in
      let* tok := rwrap "outbound.token: %w" [] (TokenConfig_validate tok) in
      check* check_all (λ _, oauth_jwt_clash) 0 (a_JWT auth) in
      check* (match a_SAML auth with
              | Some s => fail_if underOAuthPrefix (s_ACSPath s)
                            with ErrorfA "inbound.auth.saml: acs_path %q is served by inbound.oauth_server" [s_ACSPath s] in
                          Ok tt
              | None => Ok tt
              end) in
      fail_if negb (o_Disabled srv) && (LoginMethodCount auth =? 0)%nat
        with Errorf "inbound.oauth_server needs a way for people to log in" in
      Ok (Some srv, Some tok)
  end.

Definition oauthSource (o : OAuthServerConfig) (t : TokenConfig) : JWTSource :=
  mkJWTSource OAuthSourceName false (Issuer o) [t_Audience t] [bearer_location] "" "" "" ["ES256"]
    0 defaultClockSkew None true.
Definition set_Disabled (b : bool) (j : JWTSource) : JWTSource :=
  mkJWTSource (j_Name j) b (j_Issuer j) (j_Audiences j) (j_Credentials j) (j_JWKSURL j)
    (j_OIDCDiscoveryURL j) (j_CACert j) (j_Algorithms j) (j_JWKSCacheTTL j) (j_ClockSkew j)
    (j_Login j) (j_Local j).

(** * promlabel.go *)

Definition PromLabel_Values (l : PromLabel) (claim : list string) : list string :=
  let keep v :=
    match pl_pattern l with
    | None => if v =? "" then None else Some v
    | Some re =>
        match FindStringSubmatch re v with
        | None => None
        | Some m => let v := List.last m "" in if v =? "" then None else Some v
        end
    end in
  compact (merge_sort string_le (omap keep claim)).

Definition PromLabel_validate (l : PromLabel) : result PromLabel :=
  fail_if negb (IsValidLabelName (pl_Name l)) with ErrorfA "name %q is not a valid label name" [pl_Name l] in
  fail_if pl_Claim l =? "" with Errorf "claim is required" in
  if pl_Pattern l =? "" then Ok (mkPromLabel (pl_Name l) (pl_Claim l) (pl_Pattern l) None)
  else
    let* re := rwrap "pattern: %w" [] (regexp_Compile (pl_Pattern l)) in
    fail_if 1 <? NumSubexp re
      with ErrorfA "pattern %q has %d capture groups, at most one is allowed" [pl_Pattern l] in
    (* MustCompile: the source panics where this returns the error *)
    let* anchored := regexp_Compile ("^(?:" +:+ pl_Pattern l +:+ ")$") in
    Ok (mkPromLabel (pl_Name l) (pl_Claim l) (pl_Pattern l) (Some anchored)).

Definition validatePromLabelPrincipal (p : ACLPrincipal) (auth : InboundAuthConfig) : result unit :=
  fail_if ap_Mode p =? ACLModeBasic
    with Errorf "mode %q has no claims to map, list the user under exempt instead" in
  if ((ap_Mode p =? ACLModeJWT) || (ap_Mode p =? ACLModeSAML)) && (ap_Source p =? "") &&
     (ap_Username p =? "") && (ap_Claims p =? ∅) then Ok tt
  else validateACLPrincipal p auth.

Fixpoint validate_labels (seen : gset string) (ls : list PromLabel) : result (list PromLabel) :=
  match ls with
  | [] => Ok []
  | l :: ls =>
      let* l := rwrap "labels[%d]: %w" [] (PromLabel_validate l) in
      fail_if bool_decide (pl_Name l ∈ seen) with ErrorfA "labels[%d]: label %q is listed twice" [pl_Name l] in
      rmap (cons l) (validate_labels ({[pl_Name l]} ∪ seen) ls)
  end.
Definition PromLabelRule_validate (auth : InboundAuthConfig) (r : PromLabelRule) : result PromLabelRule :=
  fail_if pr_Principals r =? [] with Errorf "principals is required and must list at least one principal" in
  check* check_all (λ _ p, rwrap "principals[%d]: %w" [] (validatePromLabelPrincipal p auth))
           0 (pr_Principals r) in
  match pr_Labels r with
  | [] => Err (Errorf "labels is required and must list at least one label")
  | ls => let* ls := validate_labels ∅ ls in Ok (mkPromRule (pr_Principals r) ls)
  end.
Fixpoint validate_rules (auth : InboundAuthConfig) (l : list PromLabelRule) : result (list PromLabelRule) :=
  match l with
  | [] => Ok []
  | r :: l =>
      let* r := rwrap "rules[%d]: %w" [] (PromLabelRule_validate auth r) in
      rmap (cons r) (validate_rules auth l)
  end.

Definition normalizePromLabelPrefixes (raw : list string) : result (list string) :=
  match raw with
  | [] => Ok [""]
  | _ =>
      check* check_all (λ _ prefix,
        fail_if Contains prefix ACLWildcard
          with ErrorfA "path_prefixes[%d]: %q must not contain %q" [prefix] in
        rwrap "path_prefixes[%d]: %w" [] (validateACLPath prefix)) 0 raw in
      Ok (compact (merge_sort longer ((λ p, TrimSuffix p "/") <$> raw)))
  end.

Definition PromLabelProxy_validate (auth : InboundAuthConfig) (p : PromLabelProxyConfig)
  : result PromLabelProxyConfig :=
  fail_if negb (Enabled auth) with Errorf "requires an inbound auth method" in
  match pp_Rules p with
  | [] => Err (Errorf "rules is required and must list at least one rule")
  | rules =>
      check* check_all (λ _ pr, rwrap "exempt[%d]: %w" [] (validateACLPrincipal pr auth)) 0 (pp_Exempt p) in
      let* rules := validate_rules auth rules in
      check* check_all (λ _ path, rwrap "passthrough_paths[%d]: %w" [] (validateACLPath path))
               0 (pp_PassthroughPaths p) in
      let* prefixes := normalizePromLabelPrefixes (pp_PathPrefixes p) in
      Ok (mkProm (pp_PathPrefixes p) (pp_Exempt p) rules (pp_PassthroughPaths p) prefixes)
  end.

(** * config.go *)

Definition Timeouts_applyDefaults (t : TimeoutConfig) : TimeoutConfig :=
  mkTimeouts (or_defaultZ (t_ReadHeader t) (5 * second)) (or_defaultZ (t_Read t) (30 * second))
    (or_defaultZ (t_Write t) (30 * second)) (or_defaultZ (t_Idle t) (120 * second))
    (or_defaultZ (t_Dial t) (5 * second)) (or_defaultZ (t_ResponseHeader t) (15 * second)).

Definition Inbound_applyDefaults (i : InboundConfig) : InboundConfig :=
  mkInbound (InboundAuth_applyDefaults (i_Auth i)) (OAuthServer_applyDefaults <$> i_OAuthServer i).

Definition Config_applyDefaults (c : Config) : Config :=
  let inb := Inbound_applyDefaults (c_Inbound c) in
  let mcpURL := match i_OAuthServer inb with Some o => o_MCPURL o | None => "" end in
  mkConfig (or_default (c_ListenAddr c) ":8080") (c_Target c) (c_TargetCACert c)
    (Timeouts_applyDefaults (c_Timeouts c)) inb
    (mkOutbound (TokenConfig_applyDefaults mcpURL <$> ob_Token (c_Outbound c))
       (ob_PromLabelProxy (c_Outbound c)))
    (applyACLDefaults (c_ACL c)) (c_targetURL c) (c_targetCAPool c).

Definition set_JWT (l : list JWTSource) (a : InboundAuthConfig) : InboundAuthConfig :=
  mkInboundAuth l (a_SAML a) (a_Basic a) (a_LoginPage a).

(** The derived source joins the configured ones, disabled with the server. *)
Definition with_oauth_source (auth : InboundAuthConfig)
    (oauth : option OAuthServerConfig * option TokenConfig) : InboundAuthConfig :=
  match oauth with
  | (Some o, Some t) => set_JWT (a_JWT auth ++ [set_Disabled (o_Disabled o) (oauthSource o t)]) auth
  | _ => auth
  end.

(** [Validate], returning the config with the derived OAuth source and the
    values it caches. *)
Definition Config_Validate (c : Config) : result Config :=
  fail_if negb (SplitHostPort_ok (c_ListenAddr c)) with ErrorfA "listen_addr %q: %w" [c_ListenAddr c] in
  fail_if c_Target c =? "" with Errorf "target is required" in
  let* u := parseAbsoluteHTTPURL "target" (c_Target c) in
  let auth := set_JWT (List.filter (λ j, negb (j_Local j)) (a_JWT (i_Auth (c_Inbound c))))
                (i_Auth (c_Inbound c)) in
  check* InboundAuth_Validate auth in
  let* oauth := validateOAuth auth (i_OAuthServer (c_Inbound c)) (ob_Token (c_Outbound c)) in
  let auth := with_oauth_source auth oauth in
  check* validateACL (c_ACL c) auth in
  let* prom := (match ob_PromLabelProxy (c_Outbound c) with
                | Some p => rmap Some (rwrap "outbound.prom_label_proxy: %w" [] (PromLabelProxy_validate auth p))
                | None => Ok None
                end) in
  let* pool := (if c_TargetCACert c =? "" then Ok None
                else
                  fail_if u_Scheme u !=? "https"
                    with ErrorfA "target_ca_cert only applies to an https target, not %q" [c_Target c] in
                  rmap Some (rwrap "target_ca_cert: %w" [] (ParseCACertPool (c_TargetCACert c)))) in
  Ok (mkConfig (c_ListenAddr c) (c_Target c) (c_TargetCACert c) (c_Timeouts c)
        (mkInbound auth oauth.1) (mkOutbound oauth.2 prom) (c_ACL c) (Some u) pool).
End main.

#[global] Arguments with_oauth_source : simpl never.

(** * Lemmas *)

Lemma compact_elem x l : x ∈ compact l ↔ x ∈ l.
Proof.
  induction l as [|y l IH]; [done|]. cbn. destruct (compact l) as [|z r].
  - set_solver.
  - case_bool_decide; [subst|]; set_solver.
Qed.
Lemma compact_head x l : ∃ r, compact (x :: l) = x :: r.
Proof.
  cbn. destruct (compact l) as [|z r]; [eauto|]. case_bool_decide; [subst|]; eauto.
Qed.
Lemma compact_sorted (R : relation string) l : StronglySorted R l → StronglySorted R (compact l).
Proof.
  induction 1 as [|x l Hs IH Hall]; [constructor|]. cbn.
  assert (Hall' : Forall (R x) (compact l)).
  { rewrite Forall_forall in *. intros y Hy. by apply Hall, compact_elem. }
  destruct (compact l) as [|z r]; [constructor; constructor|].
  case_bool_decide; [done|]. by constructor.
Qed.
Lemma compact_nodup l : StronglySorted string_le l → NoDup (compact l).
Proof.
  induction 1 as [|x l Hs IH Hall]; [constructor|]. cbn.
  destruct (compact l) as [|z r] eqn:E; [apply NoDup_singleton|].
  case_bool_decide as Hxz; [done|]. constructor; [|done].
  intros Hx. rewrite <- E, compact_elem in Hx.
  assert (Hz : z ∈ l) by (apply compact_elem; rewrite E; set_solver).
  assert (Hzs : StronglySorted string_le (z :: r)) by (rewrite <- E; by apply compact_sorted).
  inversion Hzs as [|?? _ Hzall]; subst. rewrite Forall_forall in Hall, Hzall.
  apply Hxz, string_le_antisym; [by apply Hall|].
  assert (Hx' : x ∈ z :: r) by (rewrite <- E; by apply compact_elem).
  apply elem_of_cons in Hx' as [?|Hx']; [congruence|by apply Hzall].
Qed.

#[export] Instance longer_trans : Transitive longer.
Proof. intros a b c. unfold longer. lia. Qed.
#[export] Instance longer_total : Total longer.
Proof. intros a b. unfold longer. lia. Qed.

(** Validated blocks validate to themselves: the cached fields are functions of
    the others. *)
Section idem.
Context `{X : X509} {R : Regexp} {N : NetURL} {U : Unicode} {En : Env} {P : PromModel}.

Lemma TokenConfig_validate_idem t t' :
  TokenConfig_validate t = Ok t' → TokenConfig_validate t' = Ok t'.
Proof.
  intros Hv. pose proof Hv as Hv'. unfold TokenConfig_validate in Hv'.
  run_checks Hv'. exact Hv.
Qed.

Lemma OAuthServer_validate_idem o o' :
  OAuthServer_validate o = Ok o' → OAuthServer_validate o' = Ok o'.
Proof.
  intros Hv. pose proof Hv as Hv'. unfold OAuthServer_validate in Hv'.
  run_checks Hv'. exact Hv.
Qed.

Lemma PromLabel_validate_idem l l' : PromLabel_validate l = Ok l' → PromLabel_validate l' = Ok l'.
Proof.
  intros Hv. pose proof Hv as Hv'. unfold PromLabel_validate in Hv'.
  run_checks Hv'; exact Hv.
Qed.
Lemma PromLabel_validate_name l l' : PromLabel_validate l = Ok l' → pl_Name l' = pl_Name l.
Proof.
  unfold PromLabel_validate. intros Hv'.
  by run_checks Hv'.
Qed.
Lemma validate_labels_idem seen ls ls' :
  validate_labels seen ls = Ok ls' → validate_labels seen ls' = Ok ls'.
Proof.
  revert seen ls'. induction ls as [|l ls IH]; intros seen ls' Hv; cbn in Hv; [by simplify_eq|].
  apply rbind_ok in Hv as (l' & Hl%rwrap_ok & Hv). case_bool_decide as Hs; [done|].
  apply rbind_ok in Hv as (r & Hr%IH & Hv). simplify_eq. cbn.
  rewrite (PromLabel_validate_idem _ _ Hl). cbn. rewrite bool_decide_false by done. by rewrite Hr.
Qed.
Lemma PromLabelRule_validate_idem a r r' :
  PromLabelRule_validate a r = Ok r' → PromLabelRule_validate a r' = Ok r'.
Proof.
  unfold PromLabelRule_validate. intros Hv. case_if_in Hv; [done|].
  apply rbind_ok in Hv as ([] & Hp & Hv). destruct (pr_Labels r) as [|l ls] eqn:El; [done|].
  apply rbind_ok in Hv as (ls' & Hl & Hv). simplify_eq. cbn -[validate_labels].
  rewrite Heqb, Hp. cbn -[validate_labels].
  pose proof (validate_labels_idem _ _ _ Hl) as Hl'. destruct ls' as [|l' ls'].
  - cbn in Hl. apply rbind_ok in Hl as (? & _ & Hl). case_if_in Hl; [done|].
    by apply rbind_ok in Hl as (? & _ & Hl).
  - cbn -[validate_labels]. by rewrite Hl'.
Qed.
Lemma validate_rules_idem a rs rs' : validate_rules a rs = Ok rs' → validate_rules a rs' = Ok rs'.
Proof.
  revert rs'. induction rs as [|r rs IH]; intros rs' Hv; cbn in Hv; [by simplify_eq|].
  apply rbind_ok in Hv as (r' & Hr%rwrap_ok & Hv). apply rbind_ok in Hv as (l & Hl%IH & Hv).
  simplify_eq. cbn. rewrite (PromLabelRule_validate_idem _ _ _ Hr). cbn. by rewrite Hl.
Qed.
Lemma validate_rules_nil a rs : validate_rules a rs = Ok [] → rs = [].
Proof.
  destruct rs; [done|]. cbn. intros Hv. apply rbind_ok in Hv as (? & _ & Hv).
  by apply rbind_ok in Hv as (? & _ & Hv).
Qed.
Lemma PromLabelProxy_validate_idem a p p' :
  PromLabelProxy_validate a p = Ok p' → PromLabelProxy_validate a p' = Ok p'.
Proof.
  unfold PromLabelProxy_validate. intros Hv. case_if_in Hv; [done|].
  destruct (pp_Rules p) as [|r rs] eqn:Er; [done|].
  apply rbind_ok in Hv as ([] & He & Hv). apply rbind_ok in Hv as (rs' & Hr & Hv).
  apply rbind_ok in Hv as ([] & Hp & Hv). apply rbind_ok in Hv as (ps & Hn & Hv). simplify_eq.
  cbn -[validate_rules].
  destruct rs' as [|r' rs']; [by apply validate_rules_nil in Hr|].
  rewrite He. cbn -[validate_rules]. rewrite (validate_rules_idem _ _ _ Hr). cbn. by rewrite Hp, Hn.
Qed.

Lemma validateOAuth_idem a o t o' t' :
  validateOAuth a o t = Ok (o', t') → validateOAuth a o' t' = Ok (o', t').
Proof.
  unfold validateOAuth. destruct o as [o|], t as [t|]; intros Hv; try (by simplify_eq).
  apply rbind_ok in Hv as (o1 & Ho%rwrap_ok & Hv). apply rbind_ok in Hv as (t1 & Ht%rwrap_ok & Hv).
  pose proof Hv as Hv'. apply rbind_ok in Hv' as (? & _ & Hv'). apply rbind_ok in Hv' as (? & _ & Hv').
  case_if_in Hv'; simplify_eq. rewrite (OAuthServer_validate_idem _ _ Ho), (TokenConfig_validate_idem _ _ Ht).
  cbn. rewrite Heqb. exact Hv.
Qed.

Lemma filter_local (l : list JWTSource) :
  List.filter (λ j, negb (j_Local j)) (List.filter (λ j, negb (j_Local j)) l)
  = List.filter (λ j, negb (j_Local j)) l.
Proof. induction l as [|j l IH]; [done|]. cbn. destruct (j_Local j) eqn:E; cbn; rewrite ?E; cbn; congruence. Qed.
End idem.

(** A non-empty value that [x] gives the label. *)
Definition label_value `{Regexp} (l : PromLabel) (x v : string) : Prop :=
  v ≠ "" ∧ match pl_pattern l with
           | None => v = x
           | Some re => ∃ m, FindStringSubmatch re x = Some m ∧ v = List.last m ""
           end.
Lemma PromLabel_Values_elem `{Regexp} l claim v :
  v ∈ PromLabel_Values l claim ↔ ∃ x, x ∈ claim ∧ label_value l x v.
Proof.
  unfold PromLabel_Values. set (keep := λ v, _).
  rewrite compact_elem, merge_sort_Permutation, list_elem_of_omap.
  assert (Hkeep : ∀ x, keep x = Some v ↔ label_value l x v).
  { intros x. unfold label_value. subst keep. cbn. destruct (pl_pattern l) as [re|].
    - destruct (FindStringSubmatch re x) as [m|]; [case_bool_decide|]; naive_solver.
    - case_bool_decide; naive_solver. }
  by setoid_rewrite Hkeep.
Qed.

(** * Properties *)

(** The values a claim gives a label are sorted, without duplicates, never
    empty, and exactly the non-empty values (or, with a pattern, the non-empty
    last groups of the values it matches) of the claim. *)
Theorem PromLabel_Values_spec `{Regexp} l claim :
  StronglySorted string_le (PromLabel_Values l claim) ∧ NoDup (PromLabel_Values l claim) ∧
  ∀ v, v ∈ PromLabel_Values l claim ↔
    v ≠ "" ∧ ∃ x, x ∈ claim ∧
      match pl_pattern l with
      | None => v = x
      | Some re => ∃ m, FindStringSubmatch re x = Some m ∧ v = List.last m ""
      end.
Proof.
  split; [apply compact_sorted, StronglySorted_merge_sort; apply _|].
  split; [apply compact_nodup, StronglySorted_merge_sort; apply _|].
  intros v. rewrite PromLabel_Values_elem. unfold label_value. naive_solver.
Qed.

(** The normalised path prefixes are longest first, which is the order
    [Route] relies on, and are the configured prefixes without their closing
    slash (the empty prefix when none is configured). *)
Theorem normalizePromLabelPrefixes_sorted raw out (Hn : normalizePromLabelPrefixes raw = Ok out) :
  StronglySorted longer out ∧
  ∀ p, p ∈ out ↔ if decide (raw = []) then p = "" else ∃ q, q ∈ raw ∧ p = TrimSuffix q "/".
Proof.
  unfold normalizePromLabelPrefixes in Hn. destruct raw as [|r raw].
  - simplify_eq. split; [repeat constructor|]. intros p. rewrite decide_True by done. set_solver.
  - apply rbind_ok in Hn as (_ & _ & Hn). simplify_eq. split.
    + apply compact_sorted, StronglySorted_merge_sort; apply _.
    + intros p. rewrite decide_False, compact_elem, merge_sort_Permutation by done.
      set_solver.
Qed.

Lemma normalizePromLabelPrefixes_sorted_witness :
  normalizePromLabelPrefixes ["/a/"; "/b/c"] = Ok ["/b/c"; "/a"] ∧
  StronglySorted longer ["/b/c"; "/a"].
Proof.
  split; [vm_compute; reflexivity|].
  apply (normalizePromLabelPrefixes_sorted ["/a/"; "/b/c"] ["/b/c"; "/a"]).
  vm_compute. reflexivity.
Defined.

(** [Validate] can run again on its own result without piling up derived
    sources: it returns the same configuration. *)
Theorem Config_Validate_idem `{X509} `{Regexp} `{NetURL} `{Unicode} `{Env} `{PromModel} c c'
    (Hv : Config_Validate c = Ok c') : Config_Validate c' = Ok c'.
Proof.
  unfold Config_Validate in Hv |- *.
  destruct (negb (SplitHostPort_ok _)) eqn:Eh; [done|].
  destruct (bool_decide (c_Target c = "")) eqn:Et; [done|].
  apply rbind_ok in Hv as (u & Hu & Hv).
  set (a := set_JWT _ _) in Hv.
  apply rbind_ok in Hv as ([] & Ha & Hv). apply rbind_ok in Hv as ([o t] & Ho & Hv).
  set (a' := with_oauth_source a (o, t)) in Hv.
  apply rbind_ok in Hv as ([] & Hacl & Hv). apply rbind_ok in Hv as (prom & Hp & Hv).
  apply rbind_ok in Hv as (pool & Hpool & Hv). simplify_eq. cbn. rewrite Eh, Et, Hu. cbn.
  assert (Hfix : set_JWT (List.filter (λ j, negb (j_Local j)) (a_JWT a')) a' = a).
  { subst a' a. unfold with_oauth_source. destruct o as [o|], t as [t|]; cbn;
      rewrite ?List.filter_app, filter_local; cbn; by rewrite ?app_nil_r. }
  rewrite Hfix, Ha. cbn. rewrite (validateOAuth_idem _ _ _ _ _ Ho).
  cbn. fold a'. unfold validateACL in Hacl. rewrite Hacl. cbn.
  assert (Hprom : match prom with
    | Some p => rmap Some (rwrap "outbound.prom_label_proxy: %w" [] (PromLabelProxy_validate a' p))
    | None => Ok None end = Ok prom).
  { destruct (ob_PromLabelProxy (c_Outbound c)) as [p|]; [|by simplify_eq].
    apply rbind_ok in Hp as (p' & Hp%rwrap_ok & ?). simplify_eq.
    by rewrite (PromLabelProxy_validate_idem _ _ _ Hp). }
  rewrite Hprom. cbn. by rewrite Hpool.
Qed.

Section oauth_facts.
Context `{X : X509} {N : NetURL} {U : Unicode} {En : Env}.

Lemma decodeSealingKey_len s k : decodeSealingKey s = Ok k → String.length k = sealingKeyLen.
Proof.
  unfold decodeSealingKey. intros Hv. run_checks Hv.
  destruct (b64_decode_any _) as [b|]; [|done]. run_checks Hv.
  match goal with Hb : negb _ = false |- _ => by apply negb_false_iff, Nat.eqb_eq in Hb end.
Qed.
Lemma decode_keys_len l ks :
  decode_keys l = Ok ks → length ks = length l ∧ Forall (λ k, String.length k = sealingKeyLen) ks.
Proof.
  revert ks. induction l as [|s l IH]; intros ks Hv; cbn in Hv; [by simplify_eq|].
  apply rbind_ok in Hv as (k & Hk%rwrap_ok & Hv). apply rbind_ok in Hv as (ks' & [Hl Hf]%IH & Hv).
  simplify_eq. cbn. split; [congruence|]. constructor; [by eapply decodeSealingKey_len|done].
Qed.

(** The bounds an accepted server and token block satisfy. *)
Record oauth_wf (o : OAuthServerConfig) (t : TokenConfig) : Prop := {
  ow_keys : o_sealing o ≠ [] ∧ length (o_sealing o) = length (o_SealingKeys o) ∧
    Forall (λ k, String.length k = sealingKeyLen) (o_sealing o);
  ow_code : (minCodeTTL ≤ o_CodeTTL o ≤ maxCodeTTL)%Z;
  ow_refresh : (0 < o_RefreshAbsoluteLifetime o ≤ maxRefreshLife)%Z;
  ow_access : (minAccessTokenTTL ≤ t_AccessTokenTTL t ≤ maxAccessTokenTTL)%Z
}.

Lemma OAuthServer_validate_wf o o' :
  OAuthServer_validate o = Ok o' →
  o_sealing o' ≠ [] ∧ length (o_sealing o') = length (o_SealingKeys o') ∧
  Forall (λ k, String.length k = sealingKeyLen) (o_sealing o') ∧
  (minCodeTTL ≤ o_CodeTTL o' ≤ maxCodeTTL)%Z ∧
  (0 < o_RefreshAbsoluteLifetime o' ≤ maxRefreshLife)%Z.
Proof.
  unfold OAuthServer_validate. intros Hv. run_checks Hv. cbn.
  match goal with Hk : decode_keys _ = Ok _ |- _ => apply decode_keys_len in Hk as [Hl Hf] end.
  bool_hyps. repeat split; try done; try lia.
  intros ->. destruct (o_SealingKeys o); done.
Qed.

Lemma TokenConfig_validate_ttl t t' :
  TokenConfig_validate t = Ok t' → (minAccessTokenTTL ≤ t_AccessTokenTTL t' ≤ maxAccessTokenTTL)%Z.
Proof. unfold TokenConfig_validate. intros Hv. run_checks Hv. cbn. bool_hyps. lia. Qed.

Lemma oauth_jwt_clash_ok j :
  oauth_jwt_clash j = Ok tt →
  j_Name j ≠ OAuthSourceName ∧
  ∀ l, j_Login j = Some l → underOAuthPrefix (l_CallbackPath l) = false.
Proof.
  unfold oauth_jwt_clash. rewrite fail_if_ok. intros [Hn Hl]. split; [by bool_hyps|].
  intros l E. rewrite E, fail_ok in Hl. done.
Qed.
End oauth_facts.

(** A validated configuration with the OAuth server on has the derived source. *)
Lemma Config_Validate_local `{X509} `{Regexp} `{NetURL} `{Unicode} `{Env} `{PromModel} c c' :
  Config_Validate c = Ok c' → OAuthEnabled c' = true → JWTEnabled (i_Auth (c_Inbound c')) = true.
Proof.
  intros Hv He. unfold Config_Validate in Hv.
  destruct (negb (SplitHostPort_ok _)); [done|]. destruct (bool_decide (c_Target c = "")); [done|].
  apply rbind_ok in Hv as (u & _ & Hv). apply rbind_ok in Hv as ([] & _ & Hv). apply rbind_ok in Hv as ([o t] & _ & Hv).
  apply rbind_ok in Hv as ([] & _ & Hv). apply rbind_ok in Hv as (prom & _ & Hv).
  apply rbind_ok in Hv as (pool & _ & Hv). simplify_eq. unfold OAuthEnabled in He. cbn in *.
  destruct o as [o|], t as [t|]; try done. unfold JWTEnabled, with_oauth_source. cbn. apply existsb_bool.
  eexists. split; [apply elem_of_app; right; by apply list_elem_of_singleton|]. exact He.
Qed.

(** C38: what [Validate] leaves behind. The ACL rules are well-formed against the
    final sources. With the OAuth server configured, exactly one source is
    derived, last, disabled with the server; no configured JWT source has its name,
    and neither a JWT source's login callback nor SAML's ACS is at a path that the
    server serves; every sealing key has 32 bytes and the lifetimes are within bounds;
    an enabled server has a login method. Otherwise no source is derived. *)
Theorem Config_Validate_oauth `{X509} `{Regexp} `{NetURL} `{Unicode} `{Env} `{PromModel} c c'
    (Hv : Config_Validate c = Ok c') :
  Forall (wf_rule (i_Auth (c_Inbound c'))) (c_ACL c') ∧
  ∃ js, (∀ j, j ∈ js → j_Local j = false) ∧
    match i_OAuthServer (c_Inbound c'), ob_Token (c_Outbound c') with
    | Some o, Some t =>
        a_JWT (i_Auth (c_Inbound c')) = js ++ [set_Disabled (o_Disabled o) (oauthSource o t)] ∧
        (∀ j, j ∈ js → j_Name j ≠ OAuthSourceName ∧
           ∀ l, j_Login j = Some l → underOAuthPrefix (l_CallbackPath l) = false) ∧
        (∀ s, a_SAML (i_Auth (c_Inbound c')) = Some s → underOAuthPrefix (s_ACSPath s) = false) ∧
        oauth_wf o t ∧
        (o_Disabled o = false → LoginMethodCount (set_JWT js (i_Auth (c_Inbound c'))) ≠ 0)
    | None, None => a_JWT (i_Auth (c_Inbound c')) = js
    | _, _ => False
    end.
Proof.
  unfold Config_Validate in Hv.
  destruct (negb (SplitHostPort_ok _)); [done|]. destruct (bool_decide (c_Target c = "")); [done|].
  apply rbind_ok in Hv as (u & _ & Hv). set (js := List.filter _ _) in Hv. set (a := set_JWT js _) in Hv.
  apply rbind_ok in Hv as ([] & _ & Hv). apply rbind_ok in Hv as ([o t] & Ho & Hv).
  apply rbind_ok in Hv as ([] & Hacl & Hv). apply rbind_ok in Hv as (prom & _ & Hv).
  apply rbind_ok in Hv as (pool & _ & Hv). simplify_eq. cbn. split.
  { unfold validateACL in Hacl. rewrite check_all_ok in Hacl. apply Forall_lookup. intros i r Hr.
    apply validateACLRule_spec. specialize (Hacl i r Hr). by apply rwrap_ok in Hacl. }
  exists js. split.
  { intros j Hj. apply list_elem_of_In, filter_In in Hj as [_ Hj]. by bool_hyps. }
  unfold validateOAuth in Ho.
  destruct (i_OAuthServer (c_Inbound c)) as [o0|], (ob_Token (c_Outbound c)) as [t0|]; try by simplify_eq.
  apply rbind_ok in Ho as (o1 & Ho1%rwrap_ok & Ho). apply rbind_ok in Ho as (t1 & Ht1%rwrap_ok & Ho).
  apply rbind_ok in Ho as ([] & Hclash & Ho). apply rbind_ok in Ho as ([] & Hsaml & Ho).
  case_if_in Ho; [done|]. simplify_eq.
  apply OAuthServer_validate_wf in Ho1 as (?&?&?&?&?). apply TokenConfig_validate_ttl in Ht1.
  split; [done|split; [|split; [|split; [by split|]]]].
  - rewrite check_list_ok in Hclash. intros j Hj. by apply oauth_jwt_clash_ok, Hclash.
  - intros s Es. change (a_SAML a = Some s) in Es. rewrite Es in Hsaml. by apply fail_ok in Hsaml.
  - intros Hd. rewrite Hd in Heqb. apply Nat.eqb_neq in Heqb. exact Heqb.
Qed.

(** ** A configuration for the witnesses *)

Definition demo_regexp : Regexp :=
  {| regexp := string; regexp_Compile s := Ok s; NumSubexp _ := 0;
     FindStringSubmatch re s := if HasPrefix s "t" then Some [s] else None |}.
Definition demo_prom : PromModel := {| IsValidLabelName s := s !=? "" |}.
Definition demo_server : OAuthServerConfig :=
  mkOAuthServer false "https://p" "https://p/mcp" 0 0
    ["AAAAAAAAAAAAAAAAAAAAAAAAAAAAAAAAAAAAAAAAAAA="]
    [mkOAuthClient "cli" ["http://localhost/cb"]] (mkDynReg false []) (mkDenylist []) [].
Definition demo_token : @TokenConfig demo_crypto :=
  @mkToken demo_crypto [mkSigningKey "k1" "PEM:x"] 0 "" (mkTokenClaims "" "" "") [].
Definition demo_proxy : @PromLabelProxyConfig demo_regexp :=
  @mkProm demo_regexp ["/prom/"] []
    [@mkPromRule demo_regexp [mkACLPrincipal "saml" "" "" ∅] [@mkPromLabel demo_regexp "ns" "groups" "t.*" None]]
    [] [].
Definition demo_raw : @Config demo_crypto demo_regexp :=
  @mkConfig demo_crypto demo_regexp "" "https://backend/" "" (mkTimeouts 0 0 0 0 0 0)
    (mkInbound (mkInboundAuth [demo_jwt] (Some demo_saml) (Some demo_basic) None) (Some demo_server))
    (@mkOutbound demo_crypto demo_regexp (Some demo_token) (Some demo_proxy))
    [mkACLRule [mkACLPrincipal "jwt" "tap-oauth" "" ∅] ["get"] ["/x/*"]] None None.
Definition demo_defaulted : @Config demo_crypto demo_regexp :=
  @Config_applyDefaults demo_crypto demo_regexp ascii_unicode demo_raw.
Definition demo_validate : @Config demo_crypto demo_regexp → result (@Config demo_crypto demo_regexp) :=
  @Config_Validate demo_crypto demo_x509 demo_regexp demo_neturl ascii_unicode demo_env demo_prom.
(** The demo configuration after [Validate]. *)
Definition demo_config : @Config demo_crypto demo_regexp :=
  match demo_validate demo_defaulted with Ok c => c | Err _ => demo_raw end.

Lemma Config_Validate_idem_witness :
  demo_validate demo_defaulted = Ok demo_config ∧ demo_validate demo_config = Ok demo_config.
Proof.
  split; [vm_compute; reflexivity|].
  apply (@Config_Validate_idem demo_crypto demo_x509 demo_regexp demo_neturl ascii_unicode demo_env
           demo_prom demo_defaulted demo_config).
  vm_compute. reflexivity.
Defined.

Lemma Config_Validate_oauth_witness :
  Forall (wf_rule (i_Auth (c_Inbound demo_config))) (c_ACL demo_config).
Proof.
  apply (@Config_Validate_oauth demo_crypto demo_x509 demo_regexp demo_neturl ascii_unicode demo_env
           demo_prom demo_defaulted demo_config).
  vm_compute. reflexivity.
Defined.
