(* ===== verification/Credentials.v ===== *)
(** Reading credentials off a request ([internal/authn/credentials.go]) and the
    responses that turn one away: the 401s of [internal/authn/middleware.go] and
    the 503 of [internal/authn/saml_middleware.go], with the reasons of
    [internal/authn/authn.go].

    [%q] prints its operand between double quotes; the operands here (a validated
    realm, a configured URL) hold nothing it would escape. *)
From S2P Require Import Prelude GoStrings ConfigTypes GoURL GoHTTP.

(** * Extraction *)

(** [len(v) < len(prefix) || !EqualFold(v[:len(prefix)], prefix)] negated: the
    rest of [v] when it begins with [prefix] up to letter case. *)
Definition cut_fold_prefix `{Unicode} (v prefix : string) : option string :=
  let n := String.length prefix in
  if (String.length v <? n) || negb (EqualFold (s_take n v) prefix) then None else Some (s_drop n v).

Section credentials.
Context {U : Unicode}.

Definition extractFrom (r : Request) (loc : CredentialLocation) : option string :=
  let v :=
    if cl_Location loc =? "header" then Some (Header_Get (r_Header r) (cl_Name loc))
    else if cl_Location loc =? "cookie" then Cookie_ r (cl_Name loc)
    else if cl_Location loc =? "query" then Some (Values_Get (URL_Query (r_URL r)) (cl_Name loc))
    else None in
  match v with
  | None => None
  | Some v =>
      if v =? "" then None
      else
        match (if cl_Prefix loc !=? "" then cut_fold_prefix v (cl_Prefix loc) else Some v) with
        | None => None
        | Some v => let v := TrimSpace v in if v =? "" then None else Some v
        end
  end.

Inductive basicExtraction :=
| basicAbsent
| basicMalformed
| basicPresent (username password : string).

Definition basicPrefix := "Basic ".
Definition extractBasic (r : Request) : basicExtraction :=
  match cut_fold_prefix (Header_Get (r_Header r) "Authorization") basicPrefix with
  | None => basicAbsent
  | Some _ =>
      match BasicAuth r with
      | None => basicMalformed
      | Some (u, p) => basicPresent u p
      end
  end.

(** Is [loc] the login cookie of [src]? *)
Definition is_own_login_cookie (src : JWTSource) (loc : CredentialLocation) : bool :=
  match j_Login src with
  | Some l => (cl_Location loc =? "cookie") && LoginEnabled src && (cl_Name loc =? l_CookieName l)
  | None => false
  end.

Fixpoint extract_locations (r : Request) (src : JWTSource) (locs : list CredentialLocation)
  : option (string * option JWTSource) :=
  match locs with
  | [] => None
  | loc :: locs =>
      match extractFrom r loc with
      | Some v => Some (v, if is_own_login_cookie src loc then Some src else None)
      | None => extract_locations r src locs
      end
  end.
Fixpoint extract_sources (r : Request) (l : list JWTSource) : option (string * option JWTSource) :=
  match l with
  | [] => None
  | src :: l =>
      if j_Disabled src then extract_sources r l
      else match extract_locations r src (j_Credentials src) with
           | Some x => Some x
           | None => extract_sources r l
           end
  end.
Definition extractTokenFrom (r : Request) (auth : InboundAuthConfig) : option (string * option JWTSource) :=
  extract_sources r (a_JWT auth).
Definition extractToken (r : Request) (auth : InboundAuthConfig) : option string :=
  fst <$> extractTokenFrom r auth.
End credentials.

(** * Rejections *)

Definition reasonNoCredential := "no_credential".
Definition reasonMalformedToken := "malformed_token".
Definition reasonUnknownIssuer := "unknown_issuer".
Definition reasonKeysUnavailable := "keys_unavailable".
Definition reasonExpired := "expired".
Definition reasonNotYetValid := "not_yet_valid".
Definition reasonBadSignature := "bad_signature".
Definition reasonBadAudience := "bad_audience".
Definition reasonBadIssuer := "issuer_mismatch".
Definition reasonInvalidClaims := "invalid_claims".
Definition reasonSubjectDenied := "subject_denied".
Definition reasonBadCredential := "bad_credential".
Definition reasonMalformedCredential := "malformed_credential".
Definition reasonBasicSaturated := "basic_saturated".
Definition reasonSAMLMetadataUnavailable := "saml_metadata_unavailable".
Definition reasonLoginUnavailable := "login_unavailable".

Definition quote (s : string) : string := dq +:+ s +:+ dq.

Definition basicChallenge (realm : string) : string :=
  "Basic realm=" +:+ quote realm +:+ ", charset=" +:+ quote "UTF-8".

Section challenges.
Context `{C : Crypto} {R : Regexp}.
Implicit Types cfg : Config.

Definition metadata_url cfg : string :=
  match i_OAuthServer (c_Inbound cfg) with Some o => ProtectedResourceMetadataURL o | None => "" end.
Definition bearerChallenge cfg : string :=
  if OAuthEnabled cfg then "Bearer resource_metadata=" +:+ quote (metadata_url cfg) else "Bearer".
Definition bearerInvalidChallenge cfg : string :=
  "Bearer error=" +:+ quote "invalid_token" +:+
  (if OAuthEnabled cfg then ", resource_metadata=" +:+ quote (metadata_url cfg) else "").
End challenges.

Definition rejectChallenges (w : Response) (why : string) (challenges : list string) : Response :=
  let w := foldl (λ w c, w_Add "WWW-Authenticate" c w) w challenges in
  recordRejection why (Write "unauthorized" (WriteHeader 401
    (w_Set "Content-Type" "text/plain; charset=utf-8" w))).
Definition reject (w : Response) (challenge why : string) : Response :=
  rejectChallenges w why [challenge].

(** Decimal digits of a natural number, as [strconv.Itoa] prints it. *)
Fixpoint itoa_digits (fuel : nat) (n : Z) (acc : string) : string :=
  match fuel with
  | O => acc
  | S fuel =>
      let acc := String (char (48 + n mod 10)) acc in
      if (n <? 10)%Z then acc else itoa_digits fuel (n / 10) acc
  end.
Definition Itoa (z : Z) : string :=
  if (z <? 0)%Z then "-" +:+ itoa_digits 20 (- z) "" else itoa_digits 20 z "".
(** [int(d.Seconds())] *)
Definition seconds (d : Z) : Z := Z.quot d second.

Definition rejectUnavailable (w : Response) (why : string) (retryAfter : Z) : Response :=
  recordRejection why (Write "service unavailable" (WriteHeader 503
    (w_Set "Content-Type" "text/plain; charset=utf-8"
      (w_Set "Retry-After" (Itoa (seconds retryAfter)) w)))).

(** * Lemmas *)

Lemma foldl_w_Add_status w cs : w_status (foldl (λ w c, w_Add "WWW-Authenticate" c w) w cs) = w_status w.
Proof.
  revert w. induction cs as [|c cs IH]; intros w; cbn; [done|]. rewrite IH. apply w_map_header_status.
Qed.
Lemma recordRejection_status why w : w_status (recordRejection why w) = w_status w.
Proof. done. Qed.

Lemma rejectChallenges_status w why cs :
  w_status w = None → w_status (rejectChallenges w why cs) = Some 401%Z.
Proof.
  intros Hw. unfold rejectChallenges. rewrite recordRejection_status. apply Write_sent, WriteHeader_fresh.
  unfold w_Set. by rewrite w_map_header_status, foldl_w_Add_status.
Qed.
Lemma rejectUnavailable_status w why d :
  w_status w = None → w_status (rejectUnavailable w why d) = Some 503%Z.
Proof.
  intros Hw. unfold rejectUnavailable. rewrite recordRejection_status. apply Write_sent, WriteHeader_fresh.
  unfold w_Set. by rewrite !w_map_header_status.
Qed.
#[export] Hint Resolve rejectChallenges_status rejectUnavailable_status : go.

Section extraction_lemmas.
Context {U : Unicode}.

(** A credential is never empty, and comes from an enabled source's own list
    of locations; the reported login source, if any, is that source. *)
Lemma extract_locations_some r src locs v s :
  extract_locations r src locs = Some (v, s) →
  ∃ loc, loc ∈ locs ∧ extractFrom r loc = Some v ∧ s = (if is_own_login_cookie src loc then Some src else None).
Proof.
  induction locs as [|loc locs IH]; cbn; [done|].
  destruct (extractFrom r loc) eqn:E; [intros [= <- <-]; exists loc; set_solver|].
  intros H. destruct (IH H) as (l & ? & ? & ?). exists l. set_solver.
Qed.
Lemma extractTokenFrom_some r auth v s :
  extractTokenFrom r auth = Some (v, s) →
  ∃ src loc, src ∈ a_JWT auth ∧ j_Disabled src = false ∧ loc ∈ j_Credentials src ∧
    extractFrom r loc = Some v ∧ s = (if is_own_login_cookie src loc then Some src else None).
Proof.
  unfold extractTokenFrom. induction (a_JWT auth) as [|j l IH]; cbn; [done|].
  destruct (j_Disabled j) eqn:Ed.
  - intros H. destruct (IH H) as (src & loc & ? & ?). exists src, loc. set_solver.
  - destruct (extract_locations r j (j_Credentials j)) as [x|] eqn:E.
    + intros [= ->]. apply extract_locations_some in E as (loc & ? & ? & ?). exists j, loc. set_solver.
    + intros H. destruct (IH H) as (src & loc & ? & ?). exists src, loc. set_solver.
Qed.
Lemma extractFrom_nonempty r loc v : extractFrom r loc = Some v → v ≠ "".
Proof.
  unfold extractFrom. intros H.
  destruct (if _ =? "header" then _ else _) as [x|]; [|done]. case_if_in H; [done|].
  destruct (if cl_Prefix loc !=? "" then _ else _) as [y|]; [|done].
  case_if_in H; [done|]. by bool_hyps.
Qed.
End extraction_lemmas.
