(* ===== verification/Basic.v ===== *)
(** HTTP Basic ([internal/authn/basic.go]): the verified-credential cache, its
    reconciliation with the configuration, verification, and [enforceBasic] of
    [middleware.go].

    Time is nanoseconds passed in where the code reads its clock.  bcrypt and
    HMAC-SHA256 are supplied by [BasicCrypto]; waiting for a bcrypt slot is a
    boolean argument (did the slot come before the timeout).  The registry's
    mutex makes [Reconcile], [lookup] and [store] atomic; the section [steps]
    interleaves those of any number of concurrent requests.  The pointer
    comparison that makes [Reconcile] cheap compares configurations by the
    identity the watcher gave them, a number here. *)
From S2P Require Import Prelude GoStrings ConfigTypes GoHTTP Credentials.

Class BasicCrypto : Type := {
  CompareHash : string → string → bool;   (* bcrypt.CompareHashAndPassword == nil *)
  hmac_sum : string → string              (* HMAC-SHA256 under the process's random key *)
}.

Definition basicCacheTTL : Z := 5 * minute.
Definition basicNegativeCacheTTL : Z := 30 * second.
Definition maxBasicCacheEntries : nat := 4096.
Definition maxBasicNegativeCacheEntries : nat := 1024.
Definition maxBasicCredentialLen : nat := 1024.
Definition basicVerifyTimeout : Z := 5 * second.
Definition errBasicSaturated := ENew "basic auth verification is saturated".

Record BasicRegistry := mkBasicRegistry {
  br_seen : option nat;
  br_fingerprint : string;
  br_cache : gmap string Z;
  br_negative : gmap string Z
}.
Definition NewBasicRegistry : BasicRegistry := mkBasicRegistry None "" ∅ ∅.

Definition NUL : ascii := char 0.
Definition nul : string := String NUL "".

Definition basicFingerprint (b : BasicSource) : string :=
  Join (b_Realm b :: flat_map (λ u, [bu_Username u; bu_PasswordHash u]) (b_Users b)) nul.

Definition Basic_Reconcile (ptr : nat) (auth : InboundAuthConfig) (r : BasicRegistry) : BasicRegistry :=
  if br_seen r =? Some ptr then r
  else
    let fp := match a_Basic auth with
              | Some b => if BasicEnabled auth then basicFingerprint b else ""
              | None => ""
              end in
    let r := if fp !=? br_fingerprint r then mkBasicRegistry (br_seen r) fp ∅ ∅ else r in
    mkBasicRegistry (Some ptr) (br_fingerprint r) (br_cache r) (br_negative r).

(** The later of two entries with one username wins. *)
Definition hashFor (src : BasicSource) (username : string) : string * bool :=
  foldl (λ acc u, if bu_Username u =? username then (bu_PasswordHash u, true) else acc)
    ("", false) (b_Users src).
Definition anyHash (src : BasicSource) : string :=
  match b_Users src with [] => "" | u :: _ => bu_PasswordHash u end.

Section basic.
Context {B : BasicCrypto}.

(** The message the cache key authenticates. *)
Definition key_message (fingerprint username password : string) : string :=
  fingerprint +:+ nul +:+ username +:+ nul +:+ password.
Definition key (fingerprint username password : string) : string :=
  hmac_sum (key_message fingerprint username password).

Definition lookup_ (now : Z) (k : string) (r : BasicRegistry) : option bool * BasicRegistry :=
  let live := match br_cache r !! k with Some exp => (now <? exp)%Z | None => false end in
  if live then (Some true, r)
  else
    let r := mkBasicRegistry (br_seen r) (br_fingerprint r) (delete k (br_cache r)) (br_negative r) in
    let live := match br_negative r !! k with Some exp => (now <? exp)%Z | None => false end in
    if live then (Some false, r)
    else (None, mkBasicRegistry (br_seen r) (br_fingerprint r) (br_cache r) (delete k (br_negative r))).

Definition store (now : Z) (k : string) (ok : bool) (r : BasicRegistry) : BasicRegistry :=
  if ok then
    let c := if maxBasicCacheEntries <=? size (br_cache r) then ∅ else br_cache r in
    mkBasicRegistry (br_seen r) (br_fingerprint r) (<[k := (now + basicCacheTTL)%Z]> c) (br_negative r)
  else
    let n := if maxBasicNegativeCacheEntries <=? size (br_negative r) then ∅ else br_negative r in
    mkBasicRegistry (br_seen r) (br_fingerprint r) (br_cache r) (<[k := (now + basicNegativeCacheTTL)%Z]> n).

Definition compare (slot : bool) (hash password : string) : result bool :=
  if slot then Ok (CompareHash hash password) else Err errBasicSaturated.

(** What a miss of the cache computes before storing: [None] when there is no
    hash to compare with. *)
Definition verify_uncached (slot : bool) (src : BasicSource) (username password : string)
  : option (result bool) :=
  let '(hash, known) := hashFor src username in
  let hash := if known then hash else anyHash src in
  if hash =? "" then None
  else Some (rmap (λ ok, ok && known) (compare slot hash password)).

(** [now] is read by [lookup], [now'] by [store]. *)
Definition Verify (now now' : Z) (slot : bool) (src : BasicSource) (username password : string)
    (r : BasicRegistry) : result bool * BasicRegistry :=
  if maxBasicCredentialLen <? String.length username + String.length password then (Ok false, r)
  else
    let k := key (basicFingerprint src) username password in
    let '(hit, r) := lookup_ now k r in
    match hit with
    | Some ok => (Ok ok, r)
    | None =>
        match verify_uncached slot src username password with
        | None => (Ok false, r)
        | Some (Err e) => (Err e, r)
        | Some (Ok ok) => (Ok ok, store now' k ok r)
        end
    end.

(** * enforceBasic (middleware.go) *)

Inductive basicOutcome := basicNoCredential | basicAllowed (username : string) | basicRejected.

Definition enforceBasic `{Unicode} (now now' : Z) (slot : bool) (w : Response) (req : Request)
    (src : BasicSource) (r : BasicRegistry) : basicOutcome * Response * BasicRegistry :=
  match extractBasic req with
  | basicAbsent => (basicNoCredential, w, r)
  | basicMalformed =>
      (basicRejected, rejectChallenges w reasonMalformedCredential [basicChallenge (b_Realm src)], r)
  | basicPresent username password =>
      let '(res, r) := Verify now now' slot src username password r in
      match res with
      | Err _ => (basicRejected, rejectUnavailable w reasonBasicSaturated basicVerifyTimeout, r)
      | Ok false => (basicRejected, rejectChallenges w reasonBadCredential [basicChallenge (b_Realm src)], r)
      | Ok true => (basicAllowed username, w, r)
      end
  end.

(** * The registry under concurrent requests *)

(** A request past its cache miss, comparing outside the lock. *)
Record Pending := mkPending { pd_src : BasicSource; pd_user : string; pd_pass : string }.

(** An answer given to a request. *)
Record Answer := mkAnswer { an_src : BasicSource; an_user : string; an_pass : string; an_ok : bool }.

(** [cred_ok] bounds what sources are configured and what is presented. *)
Variable cred_ok : BasicSource → string → string → Prop.

(** One atomic step of the registry shared by all requests, with the answer it
    gives, if any. *)
Inductive bstep : BasicRegistry * list Pending → option Answer → BasicRegistry * list Pending → Prop :=
| S_reconcile r ps ptr auth : bstep (r, ps) None (Basic_Reconcile ptr auth r, ps)
| S_toolong r ps src u p :
    (maxBasicCredentialLen <? String.length u + String.length p) = true →
    bstep (r, ps) (Some (mkAnswer src u p false)) (r, ps)
| S_hit r ps now src u p ok r' :
    cred_ok src u p → (maxBasicCredentialLen <? String.length u + String.length p) = false →
    lookup_ now (key (basicFingerprint src) u p) r = (Some ok, r') →
    bstep (r, ps) (Some (mkAnswer src u p ok)) (r', ps)
| S_miss r ps now src u p r' :
    cred_ok src u p → (maxBasicCredentialLen <? String.length u + String.length p) = false →
    lookup_ now (key (basicFingerprint src) u p) r = (None, r') →
    bstep (r, ps) None (r', mkPending src u p :: ps)
| S_nohash r ps1 ps2 pd :
    verify_uncached true (pd_src pd) (pd_user pd) (pd_pass pd) = None →
    bstep (r, ps1 ++ pd :: ps2) (Some (mkAnswer (pd_src pd) (pd_user pd) (pd_pass pd) false)) (r, ps1 ++ ps2)
| S_saturated r ps1 ps2 pd e :
    verify_uncached false (pd_src pd) (pd_user pd) (pd_pass pd) = Some (Err e) →
    bstep (r, ps1 ++ pd :: ps2) None (r, ps1 ++ ps2)
| S_store r ps1 ps2 pd now ok :
    verify_uncached true (pd_src pd) (pd_user pd) (pd_pass pd) = Some (Ok ok) →
    bstep (r, ps1 ++ pd :: ps2) (Some (mkAnswer (pd_src pd) (pd_user pd) (pd_pass pd) ok))
      (store now (key (basicFingerprint (pd_src pd)) (pd_user pd) (pd_pass pd)) ok r, ps1 ++ ps2).

Inductive bruns : BasicRegistry * list Pending → list Answer → BasicRegistry * list Pending → Prop :=
| R_nil s : bruns s [] s
| R_step s a s' l s'' : bstep s a s' → bruns s' l s'' →
    bruns s (match a with Some a => [a] | None => [] end ++ l) s''.

(** What an answer should be: the configured hash of that user accepts the
    password. *)
Definition direct (src : BasicSource) (username password : string) : bool :=
  let '(hash, known) := hashFor src username in
  known && (hash !=? "") && CompareHash hash password.
End basic.

(** * Lemmas *)

(** No component of a key contains the separator. *)
Record plain (src : BasicSource) (u p : string) : Prop := {
  pl_realm : sep_free NUL (b_Realm src);
  pl_users : Forall (λ x, sep_free NUL (bu_Username x) ∧ sep_free NUL (bu_PasswordHash x)) (b_Users src);
  pl_user : sep_free NUL u;
  pl_pass : sep_free NUL p
}.

Definition user_parts (us : list BasicUser) : list string :=
  flat_map (λ u, [bu_Username u; bu_PasswordHash u]) us.

Lemma Join_app l1 l2 sep : l1 ≠ [] → l2 ≠ [] → Join (l1 ++ l2) sep = Join l1 sep +:+ sep +:+ Join l2 sep.
Proof.
  intros H1 H2. induction l1 as [|x l1 IH]; [done|]. destruct l1 as [|y l1].
  - cbn [app]. by rewrite Join_cons.
  - cbn [app] in *. rewrite !(Join_cons x) by done. rewrite IH by done. by rewrite !s_app_assoc.
Qed.

Lemma key_message_Join src u p :
  key_message (basicFingerprint src) u p = Join ((b_Realm src :: user_parts (b_Users src)) ++ [u; p]) nul.
Proof. rewrite Join_app by done. done. Qed.

Lemma user_parts_inj us us' : user_parts us = user_parts us' → us = us'.
Proof.
  revert us'. induction us as [|[u h] us IH]; intros [|[u' h'] us'] H; try done.
  cbn in H. injection H as -> -> H. f_equal. auto.
Qed.

Lemma plain_parts src u p :
  plain src u p → Forall (sep_free NUL) ((b_Realm src :: user_parts (b_Users src)) ++ [u; p]).
Proof.
  intros [Hr Hu ? ?]. apply Forall_app. split; [|by repeat constructor]. constructor; [done|].
  induction Hu as [|x us [? ?] _ IH]; cbn; [constructor|]. by repeat constructor.
Qed.

(** The key separates any two credentials whose parts are free of NUL. *)
Lemma key_message_inj src u p src' u' p' :
  plain src u p → plain src' u' p' →
  key_message (basicFingerprint src) u p = key_message (basicFingerprint src') u' p' →
  b_Users src = b_Users src' ∧ u = u' ∧ p = p'.
Proof.
  intros H1%plain_parts H2%plain_parts H. rewrite !key_message_Join in H.
  apply (f_equal (λ s, Split s NUL)) in H. unfold nul in H.
  rewrite !Split_Join in H by done. injection H as _ H.
  apply app_inj_2 in H as [Hu H]; [|done]. apply user_parts_inj in Hu. naive_solver.
Qed.

Section basic_lemmas.
Context {B : BasicCrypto}.

Lemma direct_users src src' u p : b_Users src = b_Users src' → direct src u p = direct src' u p.
Proof. unfold direct, hashFor. by intros ->. Qed.

Lemma hashFor_unknown src u h : hashFor src u = (h, false) → h = "".
Proof.
  unfold hashFor. assert (Hg : ∀ us acc, (acc.2 = false → acc.1 = "") →
    (foldl (λ acc x, if bu_Username x =? u then (bu_PasswordHash x, true) else acc) acc us).2 = false →
    (foldl (λ acc x, if bu_Username x =? u then (bu_PasswordHash x, true) else acc) acc us).1 = "").
  { induction us as [|x us IH]; intros acc Ha; cbn; [done|]. apply IH. by case_bool_decide. }
  intros H. specialize (Hg (b_Users src) ("", false)). rewrite H in Hg. by apply Hg.
Qed.

Lemma verify_uncached_none slot src u p :
  verify_uncached slot src u p = None → direct src u p = false.
Proof.
  unfold verify_uncached, direct. destruct (hashFor src u) as [h []]; case_bool_decide; done.
Qed.
Lemma verify_uncached_ok slot src u p ok :
  verify_uncached slot src u p = Some (Ok ok) → ok = direct src u p.
Proof.
  unfold verify_uncached, direct, compare. destruct (hashFor src u) as [h known].
  destruct known; case_bool_decide; try done; destruct slot; cbn; try done; intros [= <-];
    rewrite ?bool_decide_false, ?andb_true_r, ?andb_false_r by done; done.
Qed.

(** ** The invariant of the caches *)

Definition entries_ok (want : bool) (m : gmap string Z) : Prop :=
  ∀ k exp, m !! k = Some exp → ∃ src u p, plain src u p ∧
    k = key (basicFingerprint src) u p ∧ direct src u p = want.
Record cache_ok (r : BasicRegistry) : Prop := {
  co_cache : entries_ok true (br_cache r);
  co_negative : entries_ok false (br_negative r);
  co_size : size (br_cache r) ≤ maxBasicCacheEntries;
  co_nsize : size (br_negative r) ≤ maxBasicNegativeCacheEntries
}.

Lemma entries_ok_empty b : entries_ok b ∅.
Proof. intros k exp H. by rewrite lookup_empty in H. Qed.
Lemma entries_ok_delete b k m : entries_ok b m → entries_ok b (delete k m).
Proof. intros Hm k' exp [_ H]%lookup_delete_Some. by eapply Hm. Qed.
Lemma size_delete_le (k : string) (m : gmap string Z) n : size m ≤ n → size (delete k m) ≤ n.
Proof. intros H. rewrite map_size_delete. destruct (m !! k); unfold id; lia. Qed.

Lemma cache_ok_new : cache_ok NewBasicRegistry.
Proof. split; try apply entries_ok_empty; cbn; rewrite map_size_empty; apply Nat.le_0_l. Qed.

Lemma cache_ok_Reconcile ptr auth r : cache_ok r → cache_ok (Basic_Reconcile ptr auth r).
Proof.
  intros [? ? ? ?]. unfold Basic_Reconcile. case_bool_decide; [done|].
  destruct (_ !=? _); split; cbn; try done; try apply entries_ok_empty;
    rewrite map_size_empty; apply Nat.le_0_l.
Qed.

Lemma cache_ok_lookup now k r a r' : cache_ok r → lookup_ now k r = (a, r') → cache_ok r'.
Proof.
  intros [? ? ? ?] H. unfold lookup_ in H.
  destruct (match br_cache r !! k with Some _ => _ | None => _ end); [by simplify_eq|]. cbn in H.
  destruct (match br_negative r !! k with Some _ => _ | None => _ end); simplify_eq;
    split; cbn; auto using entries_ok_delete, size_delete_le.
Qed.

(** A hit comes from a live entry of the map it names. *)
Lemma lookup_hit now k r ok r' :
  lookup_ now k r = (Some ok, r') →
  ∃ exp, (if ok then br_cache r else br_negative r) !! k = Some exp ∧ (now < exp)%Z.
Proof.
  unfold lookup_. destruct (br_cache r !! k) as [e|] eqn:Ec.
  - destruct (now <? e)%Z eqn:El; [intros [= <- <-]; exists e; split; [done|lia]|]. cbn.
    destruct (br_negative r !! k) as [e'|] eqn:En; [|done].
    destruct (now <? e')%Z eqn:El'; [|done]. intros [= <- <-]. exists e'. split; [done|lia].
  - cbn. destruct (br_negative r !! k) as [e'|] eqn:En; [|done].
    destruct (now <? e')%Z eqn:El'; [|done]. intros [= <- <-]. exists e'. split; [done|lia].
Qed.

Lemma entries_ok_insert b k exp m :
  entries_ok b m → (∃ src u p, plain src u p ∧ k = key (basicFingerprint src) u p ∧ direct src u p = b) →
  entries_ok b (<[k := exp]> m).
Proof. intros Hm Hk k' e [[<- _]|[_ H]]%lookup_insert_Some; [done|]. by eapply Hm. Qed.

Lemma size_insert_capped (k : string) (e : Z) (m : gmap string Z) n :
  size m ≤ S n → size (<[k := e]> (if S n <=? size m then ∅ else m)) ≤ S n.
Proof.
  intros H. destruct (S n <=? size m) eqn:E.
  - rewrite map_size_insert, lookup_empty, map_size_empty. lia.
  - apply Nat.leb_gt in E. rewrite map_size_insert. destruct (m !! k); unfold id; lia.
Qed.

Lemma cache_ok_store now r src u p :
  plain src u p → cache_ok r →
  cache_ok (store now (key (basicFingerprint src) u p) (direct src u p) r).
Proof.
  intros Hp [? ? ? ?]. unfold store. destruct (direct src u p) eqn:Ed.
  - split; cbn [br_cache br_negative]; try done.
    + apply entries_ok_insert; [|by eauto 10]. case_if; [apply entries_ok_empty|done].
    + by apply size_insert_capped.
  - split; cbn [br_cache br_negative]; try done.
    + apply entries_ok_insert; [|by eauto 10]. case_if; [apply entries_ok_empty|done].
    + by apply size_insert_capped.
Qed.

(** A hit answers what a direct check would, when keys do not collide. *)
Lemma hit_direct (Hmac : ∀ m m', hmac_sum m = hmac_sum m' → m = m') now src u p r ok r' :
  cache_ok r → plain src u p →
  lookup_ now (key (basicFingerprint src) u p) r = (Some ok, r') → ok = direct src u p.
Proof.
  intros [Hc Hn _ _] Hp (exp & Hl & _)%lookup_hit.
  assert (∃ src' u' p', plain src' u' p' ∧
    key (basicFingerprint src) u p = key (basicFingerprint src') u' p' ∧ direct src' u' p' = ok)
    as (src' & u' & p' & Hp' & Hk & <-) by (destruct ok; [by eapply Hc|by eapply Hn]).
  apply Hmac in Hk. apply key_message_inj in Hk as (Hu & -> & ->); [|done..].
  symmetry. by apply direct_users.
Qed.

Definition run_ok (s : BasicRegistry * list Pending) : Prop :=
  cache_ok s.1 ∧ Forall (λ pd, plain (pd_src pd) (pd_user pd) (pd_pass pd) ∧
    (maxBasicCredentialLen <? String.length (pd_user pd) + String.length (pd_pass pd)) = false) s.2.

Definition answer_ok (a : Answer) : Prop :=
  an_ok a = negb (maxBasicCredentialLen <? String.length (an_user a) + String.length (an_pass a)) &&
            direct (an_src a) (an_user a) (an_pass a).
End basic_lemmas.

Section basic_runs.
Context {B : BasicCrypto}.

Lemma bstep_ok (Hmac : ∀ m m', hmac_sum m = hmac_sum m' → m = m') s a s' :
  bstep plain s a s' → run_ok s → run_ok s' ∧ ∀ x, a = Some x → answer_ok x.
Proof.
  intros Hstep [Hc Hp]. unfold run_ok, answer_ok.
  destruct Hstep as [r ps ptr auth|r ps src u p Hlen|r ps now src u p ok r' Hpl Hlen Hl
    |r ps now src u p r' Hpl Hlen Hl|r ps1 ps2 pd Hv|r ps1 ps2 pd e Hv|r ps1 ps2 pd now ok Hv]; cbn in *.
  - split; [split; [by apply cache_ok_Reconcile|done]|done].
  - split; [done|]. intros x [= <-]. cbn. by rewrite Hlen.
  - split; [split; [by eapply cache_ok_lookup|done]|]. intros x [= <-]. cbn. rewrite Hlen. cbn.
    by eapply hit_direct.
  - split; [|done]. split; [by eapply cache_ok_lookup|by constructor].
  - apply Forall_app in Hp as [Hp1 Hp]. inversion Hp as [|? ? [Hpd Hlen] Hp2]; subst.
    split; [split; [done|by apply Forall_app]|]. intros x [= <-]. cbn.
    apply verify_uncached_none in Hv as ->. by rewrite andb_false_r.
  - apply Forall_app in Hp as [Hp1 Hp]. inversion Hp as [|? ? [Hpd Hlen] Hp2]; subst.
    split; [split; [done|by apply Forall_app]|done].
  - apply Forall_app in Hp as [Hp1 Hp]. inversion Hp as [|? ? [Hpd Hlen] Hp2]; subst.
    apply verify_uncached_ok in Hv as ->.
    split; [split; [by apply cache_ok_store|by apply Forall_app]|]. intros x [= <-]. cbn.
    by rewrite Hlen.
Qed.

Lemma bruns_ok (Hmac : ∀ m m', hmac_sum m = hmac_sum m' → m = m') s l s' :
  bruns plain s l s' → run_ok s → run_ok s' ∧ Forall answer_ok l.
Proof.
  induction 1 as [s|s a s1 l s2 Hstep Hruns IH]; intros Hs; [by split|].
  destruct (bstep_ok Hmac _ _ _ Hstep Hs) as [Hs1 Ha]. destruct (IH Hs1) as [Hs2 Hl].
  split; [done|]. destruct a as [a|]; cbn; [constructor; [by apply Ha|done]|done].
Qed.

Lemma run_ok_new : run_ok (NewBasicRegistry, []).
Proof. split; [apply cache_ok_new|constructor]. Qed.
End basic_runs.

(** * Properties *)

(** C22: whatever the interleaving of concurrent requests and configuration
    reloads, every answer the Basic registry gives, cached or not, is the one a
    direct check of the presented credential against the source it was presented
    to would give (and "no" for an oversized one); and the two caches never
    exceed 4096 and 1024 entries. Keys are assumed not to collide under HMAC, and
    names, hashes and presented credentials to be free of NUL, the separator the
    key is delimited with. *)
Theorem Basic_answers_direct {B : BasicCrypto} answers r ps
    (Hmac : ∀ m m', hmac_sum m = hmac_sum m' → m = m')
    (Hrun : bruns plain (NewBasicRegistry, []) answers (r, ps)) :
  Forall (λ a, an_ok a =
    negb (1024 <? String.length (an_user a) + String.length (an_pass a)) &&
    direct (an_src a) (an_user a) (an_pass a)) answers ∧
  size (br_cache r) ≤ 4096 ∧ size (br_negative r) ≤ 1024.
Proof.
  destruct (bruns_ok Hmac _ _ _ Hrun run_ok_new) as [[[_ _ ? ?] _] Ha]. split; [exact Ha|done].
Qed.

Definition demo_bcrypto : BasicCrypto :=
  {| CompareHash h p := bool_decide (h = "$2" +:+ p); hmac_sum m := m |}.
Definition demo_users : BasicSource := mkBasicSource false "r" [mkBasicUser "alice" "$2pw"].
Lemma demo_plain : plain demo_users "alice" "pw".
Proof. split; cbn; repeat constructor; unfold sep_free; vm_compute; set_solver. Qed.

Lemma Basic_answers_direct_witness :
  direct (B := demo_bcrypto) demo_users "alice" "pw" = true ∧
  ∃ r, bruns (B := demo_bcrypto) plain (NewBasicRegistry, []) [mkAnswer demo_users "alice" "pw" true] (r, []) ∧
       size (br_cache r) ≤ 4096.
Proof.
  split; [vm_compute; reflexivity|]. eexists.
  assert (Hrun : bruns (B := demo_bcrypto) plain (NewBasicRegistry, [])
    [mkAnswer demo_users "alice" "pw" true]
    (store 1 (key (B := demo_bcrypto) (basicFingerprint demo_users) "alice" "pw") true
       (lookup_ 0 (key (B := demo_bcrypto) (basicFingerprint demo_users) "alice" "pw") NewBasicRegistry).2, [])).
  { eapply (R_step _ _ None _ [_]).
    - eapply (S_miss _ _ _ 0 demo_users "alice" "pw"); [apply demo_plain|reflexivity|vm_compute; reflexivity].
    - eapply (R_step _ _ (Some _) _ []); [|apply R_nil].
      eapply (S_store _ _ [] [] (mkPending demo_users "alice" "pw") 1 true). reflexivity. }
  split; [exact Hrun|].
  apply (Basic_answers_direct (B := demo_bcrypto) _ _ _ (λ m m' H, H) Hrun).
Defined.

(** A single [Verify], on a registry in the invariant of its caches and for
    credentials without the key's separator, answers as the direct check of the
    password does, keeps the invariant, and fails only when no bcrypt slot came in
    time. *)
Theorem Verify_spec {B : BasicCrypto} now now' slot src u p r res r'
    (Hmac : ∀ m m', hmac_sum m = hmac_sum m' → m = m')
    (Hr : cache_ok r) (Hp : plain src u p)
    (Hv : Verify now now' slot src u p r = (res, r')) :
  cache_ok r' ∧
  match res with
  | Ok ok => ok = negb (maxBasicCredentialLen <? String.length u + String.length p) && direct src u p
  | Err e => slot = false ∧ e = errBasicSaturated
  end.
Proof.
  unfold Verify in Hv. destruct (maxBasicCredentialLen <? _) eqn:Elen; [simplify_eq; by split|].
  destruct (lookup_ now _ r) as [[ok|] r1] eqn:El; pose proof (cache_ok_lookup _ _ _ _ _ Hr El) as Hr1.
  - simplify_eq. split; [done|]. exact (hit_direct Hmac _ _ _ _ _ _ _ Hr Hp El).
  - destruct (verify_uncached slot src u p) as [[ok|e]|] eqn:Ev.
    + simplify_eq. apply verify_uncached_ok in Ev as ->. split; [by apply cache_ok_store|done].
    + simplify_eq. split; [done|]. unfold verify_uncached in Ev. destruct (hashFor src u) as [h k].
      case_if_in Ev; [done|]. unfold compare in Ev. destruct slot; cbn in Ev; by simplify_eq.
    + simplify_eq. split; [done|]. by rewrite (verify_uncached_none _ _ _ _ Ev).
Qed.

Lemma Verify_spec_witness :
  (Verify (B := demo_bcrypto) 0 1 true demo_users "alice" "pw" NewBasicRegistry).1 = Ok true ∧
  cache_ok (B := demo_bcrypto) (Verify (B := demo_bcrypto) 0 1 true demo_users "alice" "pw" NewBasicRegistry).2.
Proof.
  split; [vm_compute; reflexivity|].
  apply (Verify_spec (B := demo_bcrypto) 0 1 true demo_users "alice" "pw" NewBasicRegistry (Ok true)
    _ (λ m m' H, H) (cache_ok_new (B := demo_bcrypto)) demo_plain).
  vm_compute. reflexivity.
Defined.

(** Reloading the configuration revokes: once [Reconcile] has seen a
    configuration whose users, hashes or realm differ from those the caches were
    filled under, or in which Basic is off, no cached verification is left; a
    reload that changes none of them keeps the caches. *)
Theorem Reconcile_revokes ptr auth r
    (Hnew : br_seen r ≠ Some ptr) :
  let fp := match a_Basic auth with
            | Some b => if BasicEnabled auth then basicFingerprint b else ""
            | None => "" end in
  let r' := Basic_Reconcile ptr auth r in
  br_seen r' = Some ptr ∧ br_fingerprint r' = fp ∧
  (fp ≠ br_fingerprint r → br_cache r' = ∅ ∧ br_negative r' = ∅) ∧
  (fp = br_fingerprint r → br_cache r' = br_cache r ∧ br_negative r' = br_negative r).
Proof.
  cbn. unfold Basic_Reconcile. rewrite bool_decide_false by done.
  set (fp := match a_Basic auth with Some _ => _ | None => _ end).
  destruct (decide (fp = br_fingerprint r)) as [E|E].
  - rewrite bool_decide_true by done. cbn. rewrite <- E. split_and!; done.
  - rewrite bool_decide_false by done. cbn. by split_and!.
Qed.

Lemma Reconcile_revokes_witness :
  br_cache (Basic_Reconcile 1 (mkInboundAuth [] None (Some demo_users) None)
    (mkBasicRegistry (Some 0) "old" {["k" := 5%Z]} ∅)) = ∅.
Proof.
  assert (Hnew : br_seen (mkBasicRegistry (Some 0) "old" {["k" := 5%Z]} ∅) ≠ Some 1) by discriminate.
  destruct (Reconcile_revokes 1 (mkInboundAuth [] None (Some demo_users) None) _ Hnew)
    as (_ & _ & Hdrop & _).
  apply Hdrop. vm_compute. intros H. discriminate H.
Defined.

(** Credentials that hold the key's separator, a NUL, can collide: two
    different ones share a cache key, which the comment on [key] rules out, so a
    result cached for one is served for the other. *)
Theorem key_collision {B : BasicCrypto} fp u v p :
  key fp (u +:+ nul +:+ v) p = key fp u (v +:+ nul +:+ p).
Proof. unfold key, key_message. by rewrite !s_app_assoc. Qed.
