(* ===== verification/Jwks.v ===== *)
(** The key registry of JWT sources ([internal/authn/jwks.go]), OIDC discovery
    ([discovery.go]) and token verification ([verify.go]).

    Resolvers live on a heap and are shared by reference: the registry's map
    holds their addresses, and a [Keyfunc] call keeps the address it looked up
    while the registry's lock is free.  The call is therefore two atomic steps,
    [Keyfunc_lookup] under [r.mu] and [Keyfunc_build] under [res.mu];
    [Keyfunc_] runs them back to back; [JwksConcurrent] interleaves them.  Network fetches are numbered; the class
    [Network] gives the outcome of the [n]-th.  golang-jwt and keyfunc are the
    class [JWT].  A background refresher runs for every resolver on the heap that
    is built and not cancelled ([running]). *)
From S2P Require Import Prelude GoStrings ConfigTypes GoHTTP Acl ConfigAuth Credentials Basic.

Definition defaultResolverRetry : Z := 30 * second.

(** * discovery.go *)

Record discoveryDoc := mkDiscoveryDoc {
  dd_Issuer : string; dd_JWKSURI : string; dd_AuthorizationEndpoint : string;
  dd_TokenEndpoint : string; dd_EndSessionEndpoint : string
}.

(** What the [n]-th fetch brings: a transport error, or a status and the decoded
    body.  A client is its pinned pool, or the shared default. *)
Class Network `{Crypto} : Type := {
  get_doc : nat → option CertPool → string → result (Z * result discoveryDoc)
}.

(** golang-jwt: an unverified issuer, and parsing under a policy with keys;
    [newKeyfunc] is keyfunc's constructor (its first fetch is the [n]-th). *)
Record parser := mkParser {
  ps_ValidMethods : list string; ps_Leeway : Z; ps_Issuer : string;
  ps_ExpirationRequired : bool; ps_Audience : option (list string)
}.
Class JWT `{Crypto} `{Floats} : Type := {
  keyfn : Type;
  newKeyfunc : nat → string → Z → option CertPool → result keyfn;
  ParseUnverified : string → result string;
  ParseWithClaims : parser → string → keyfn → result (gmap string any);
  Duration_String : Z → string
}.

Section discovery.
Context {C : Crypto} {W : Network} {N : NetURL}.

Definition validateAbsoluteHTTPURL (raw : string) : result unit :=
  let* u := url_ParseRequestURI raw in
  fail_if (u_Scheme u !=? "http") && (u_Scheme u !=? "https")
    with ErrorfA "scheme must be http or https, got %q" [u_Scheme u] in
  fail_if u_Host u =? "" with Errorf "missing host" in
  Ok tt.

Definition fetchDiscovery (n : nat) (client : option CertPool) (discoveryURL wantIssuer : string)
  : result discoveryDoc :=
  let* resp := rwrap "fetch discovery document: %w" [] (get_doc n client discoveryURL) in
  let '(status, body) := resp in
  fail_if negb (status =? 200)%Z with Errorf "discovery document: unexpected status %d" in
  let* doc := rwrap "decode discovery document: %w" [] body in
  fail_if dd_Issuer doc !=? wantIssuer
    with ErrorfA "discovery document issuer %q does not match configured issuer %q" [dd_Issuer doc; wantIssuer] in
  check* rwrap "discovery document jwks_uri: %w" [] (validateAbsoluteHTTPURL (dd_JWKSURI doc)) in
  Ok doc.
Definition fetchJWKSURI (n : nat) (client : option CertPool) (discoveryURL wantIssuer : string)
  : result string :=
  rmap dd_JWKSURI (fetchDiscovery n client discoveryURL wantIssuer).
End discovery.

(** * jwks.go *)

Section jwks.
Context {C : Crypto} {X : X509} {N : NetURL} {U : Unicode} {F : Floats} {J : JWT} {W : Network}.

Record resolver := mkResolver {
  rs_name : string; rs_fingerprint : string;
  rs_kf : option keyfn; rs_cancelled : bool; rs_jwksURL : string;
  rs_lastErr : error; rs_nextTry : Z;
  rs_client : option CertPool       (* the pinned pool, when the client is its own *)
}.
Definition new_resolver (name fp : string) : resolver :=
  mkResolver name fp None false "" (ENew "") 0 None.

Record Registry := mkRegistry {
  rg_local : option keyfn; rg_denied : option (string → bool);
  rg_seen : option nat;
  rg_resolvers : gmap string nat;     (* name to address *)
  rg_heap : gmap nat resolver;
  rg_next : nat;                      (* next address *)
  rg_fetches : nat                    (* network fetches so far *)
}.
Definition NewRegistry : Registry := mkRegistry None None None ∅ ∅ 0 0.
Definition SetLocalSource (kf : keyfn) (denied : string → bool) (r : Registry) : Registry :=
  mkRegistry (Some kf) (Some denied) (rg_seen r) (rg_resolvers r) (rg_heap r) (rg_next r) (rg_fetches r).

Definition fingerprint (j : JWTSource) : string :=
  j_JWKSURL j +:+ nul +:+ j_OIDCDiscoveryURL j +:+ nul +:+ Duration_String (j_JWKSCacheTTL j) +:+ nul +:+ j_CACert j.

(** [resolver.close]: cancelling without a build is a no-op. *)
Definition close_resolver (res : resolver) : resolver :=
  mkResolver (rs_name res) (rs_fingerprint res) (rs_kf res)
    (rs_cancelled res || bool_decide (is_Some (rs_kf res)))
    (rs_jwksURL res) (rs_lastErr res) (rs_nextTry res) (rs_client res).

Definition desired (auth : InboundAuthConfig) : gmap string string :=
  foldl (λ m j, if j_Disabled j || j_Local j then m else <[j_Name j := fingerprint j]> m) ∅ (a_JWT auth).

Definition fp_at (h : gmap nat resolver) (addr : nat) : option string := rs_fingerprint <$> h !! addr.

(** The entries of the map that no longer match. *)
Definition keep_entry (want : gmap string string) (h : gmap nat resolver) (na : string * nat) : bool :=
  match want !! na.1 with
  | Some fp => bool_decide (fp_at h na.2 = Some fp)
  | None => false
  end.
(** Placeholders for the names that are missing. *)
Definition add_placeholder (r : Registry) (nf : string * string) : Registry :=
  match rg_resolvers r !! nf.1 with
  | Some _ => r
  | None =>
      mkRegistry (rg_local r) (rg_denied r) (rg_seen r) (<[nf.1 := rg_next r]> (rg_resolvers r))
        (<[rg_next r := new_resolver nf.1 nf.2]> (rg_heap r)) (S (rg_next r)) (rg_fetches r)
  end.
Definition close_all (addrs : list nat) (h : gmap nat resolver) : gmap nat resolver :=
  foldl (λ h a, alter close_resolver a h) h addrs.

Definition Reconcile (ptr : nat) (auth : InboundAuthConfig) (r : Registry) : Registry :=
  if rg_seen r =? Some ptr then r
  else
    let want := desired auth in
    let kept := filter (λ na, keep_entry want (rg_heap r) na = true) (rg_resolvers r) in
    let stale := (map_to_list (filter (λ na, keep_entry want (rg_heap r) na = false) (rg_resolvers r))).*2 in
    let r := mkRegistry (rg_local r) (rg_denied r) (rg_seen r) kept (rg_heap r) (rg_next r) (rg_fetches r) in
    let r := foldl add_placeholder r (map_to_list want) in
    mkRegistry (rg_local r) (rg_denied r) (Some ptr) (rg_resolvers r) (close_all stale (rg_heap r))
      (rg_next r) (rg_fetches r).

Definition errNoLocalKeys := ENew "no keys for the local OAuth source".

Definition deniedLocalSubject (r : Registry) (claims : gmap string any) : bool :=
  match rg_denied r with
  | None => false
  | Some denied => denied (match claims !! "sub" with Some (AString s) => s | _ => "" end)
  end.

(** The first half of [Keyfunc]: the resolver's address, created or replaced
    when it does not match. *)
Definition Keyfunc_lookup (src : JWTSource) (r : Registry) : nat * Registry :=
  let fp := fingerprint src in
  let old := rg_resolvers r !! j_Name src in
  match old with
  | Some a =>
      if bool_decide (fp_at (rg_heap r) a = Some fp) then (a, r)
      else
        (rg_next r,
         mkRegistry (rg_local r) (rg_denied r) None (<[j_Name src := rg_next r]> (rg_resolvers r))
           (alter close_resolver a (<[rg_next r := new_resolver (j_Name src) fp]> (rg_heap r)))
           (S (rg_next r)) (rg_fetches r))
  | None =>
      (rg_next r,
       mkRegistry (rg_local r) (rg_denied r) None (<[j_Name src := rg_next r]> (rg_resolvers r))
         (<[rg_next r := new_resolver (j_Name src) fp]> (rg_heap r)) (S (rg_next r)) (rg_fetches r))
  end.

Definition set_resolver (a : nat) (res : resolver) (fetches : nat) (r : Registry) : Registry :=
  mkRegistry (rg_local r) (rg_denied r) (rg_seen r) (rg_resolvers r) (<[a := res]> (rg_heap r))
    (rg_next r) fetches.
Definition failed_resolver (now : Z) (e : error) (res : resolver) : resolver :=
  mkResolver (rs_name res) (rs_fingerprint res) None (rs_cancelled res) (rs_jwksURL res) e
    (now + defaultResolverRetry)%Z (rs_client res).

(** What the build fetches: the keys for [src] over its client, starting with
    fetch number [n]; also how many fetches it made. *)
Definition build_keyfn (n : nat) (src : JWTSource) : result (keyfn * string * option CertPool) * nat :=
  match (if j_CACert src !=? "" then rmap Some (ParseCACertPool (j_CACert src)) else Ok None) with
  | Err e => (Err (Wrapf "build ca_cert trust roots: %w" [] e), n)
  | Ok client =>
      let '(url, n) :=
        if j_JWKSURL src =? ""
        then (fetchJWKSURI n client (j_OIDCDiscoveryURL src) (j_Issuer src), S n)
        else (Ok (j_JWKSURL src), n) in
      match url with
      | Err e => (Err (Wrapf "resolve oidc discovery: %w" [] e), n)
      | Ok url =>
          match newKeyfunc n url (j_JWKSCacheTTL src) client with
          | Err e => (Err (Wrapf "build jwks resolver: %w" [] e), S n)
          | Ok kf => (Ok (kf, url, client), S n)
          end
      end
  end.

(** The second half, on the resolver at [a]. *)
Definition Keyfunc_build (now : Z) (src : JWTSource) (a : nat) (r : Registry) : result keyfn * Registry :=
  match rg_heap r !! a with
  | None => (Err (ENew "unreachable"), r)
  | Some res =>
      match rs_kf res with
      | Some kf => (Ok kf, r)
      | None =>
          if (now <? rs_nextTry res)%Z then (Err (rs_lastErr res), r)
          else
            let '(b, n) := build_keyfn (rg_fetches r) src in
            match b with
            | Err e => (Err e, set_resolver a (failed_resolver now e res) n r)
            | Ok (kf, url, client) =>
                (Ok kf, set_resolver a
                   (mkResolver (rs_name res) (rs_fingerprint res) (Some kf) (rs_cancelled res) url
                      (ENew "") (rs_nextTry res) client) n r)
            end
      end
  end.

Definition Keyfunc_ (now : Z) (src : JWTSource) (r : Registry) : result keyfn * Registry :=
  if j_Local src then
    (match rg_local r with Some kf => Ok kf | None => Err errNoLocalKeys end, r)
  else
    let '(a, r) := Keyfunc_lookup src r in Keyfunc_build now src a r.

(** The resolvers whose background refresher is running. *)
Definition running (r : Registry) (a : nat) : Prop :=
  ∃ res, rg_heap r !! a = Some res ∧ is_Some (rs_kf res) ∧ rs_cancelled res = false.

(** * verify.go *)

Definition unverifiedIssuer (raw : string) : result string := ParseUnverified raw.
Definition parserFor (src : JWTSource) : parser :=
  mkParser (j_Algorithms src) (j_ClockSkew src) (j_Issuer src) true
    (match j_Audiences src with [] => None | l => Some l end).
Definition verify (raw : string) (src : JWTSource) (kf : keyfn) : result (gmap string any) :=
  ParseWithClaims (parserFor src) raw kf.

(** golang-jwt's sentinel errors, by their text. *)
Definition ErrTokenExpired := "token is expired".
Definition ErrTokenNotValidYet := "token is not valid yet".
Definition ErrTokenInvalidAudience := "token has invalid audience".
Definition ErrTokenInvalidIssuer := "token has invalid issuer".
Definition ErrTokenSignatureInvalid := "token signature is invalid".
Definition ErrTokenMalformed := "token is malformed".
Definition ErrTokenUnverifiable := "token is unverifiable".

Definition classify (err : error) : string :=
  if errors_Is err ErrTokenExpired then reasonExpired
  else if errors_Is err ErrTokenNotValidYet then reasonNotYetValid
  else if errors_Is err ErrTokenInvalidAudience then reasonBadAudience
  else if errors_Is err ErrTokenInvalidIssuer then reasonBadIssuer
  else if errors_Is err ErrTokenSignatureInvalid then reasonBadSignature
  else if errors_Is err ErrTokenMalformed || errors_Is err ErrTokenUnverifiable then reasonMalformedToken
  else reasonInvalidClaims.
End jwks.

(** * Lemmas *)

Section jwks_lemmas.
Context {C : Crypto} {X : X509} {N : NetURL} {U : Unicode} {F : Floats} {J : JWT} {W : Network}.
Implicit Types r : Registry.

(** [kf] was built for a source with this fingerprint. *)
Definition built_for (fp : string) (kf : keyfn) : Prop :=
  ∃ src n url client n', fingerprint src = fp ∧ build_keyfn n src = (Ok (kf, url, client), n').

(** The registry between operations, [S] being addresses taken off the map
    whose refreshers are still to be stopped. *)
Record reg_inv (S : list nat) (r : Registry) : Prop := {
  ri_map : ∀ name a, rg_resolvers r !! name = Some a →
    ∃ res, rg_heap r !! a = Some res ∧ rs_name res = name ∧ rs_cancelled res = false;
  ri_heap : ∀ a res, rg_heap r !! a = Some res → a < rg_next r;
  ri_run : ∀ a, running r a → (∃ name, rg_resolvers r !! name = Some a) ∨ a ∈ S;
  ri_built : ∀ a res kf, rg_heap r !! a = Some res → rs_kf res = Some kf →
    built_for (rs_fingerprint res) kf
}.

Lemma reg_inv_new : reg_inv [] NewRegistry.
Proof.
  split; cbn; try (intros *; rewrite lookup_empty; done).
  intros a (res & H & _). cbn in H. by rewrite lookup_empty in H.
Qed.

Lemma add_placeholder_inv S r nf : reg_inv S r → reg_inv S (add_placeholder r nf).
Proof.
  intros [Hm Hh Hr Hb]. unfold add_placeholder. destruct (rg_resolvers r !! nf.1) eqn:E; [done|].
  assert (Hfresh : rg_heap r !! rg_next r = None).
  { destruct (rg_heap r !! rg_next r) eqn:En; [|done]. apply Hh in En. lia. }
  split; cbn.
  - intros name a [[<- <-]|[Hn Ha]]%lookup_insert_Some.
    + exists (new_resolver nf.1 nf.2). by rewrite lookup_insert_eq.
    + destruct (Hm name a Ha) as (res & ? & ? & ?). exists res. split; [|done].
      rewrite lookup_insert_ne; [done|]. intros <-. congruence.
  - intros a res [[<- _]|[_ H]]%lookup_insert_Some; [lia|]. apply Hh in H. lia.
  - intros a (res & Ha & Hk & Hc). cbn in Ha. apply lookup_insert_Some in Ha as [[<- <-]|[Hn Ha]].
    + cbn in Hk. by destruct Hk.
    + destruct (Hr a) as [[name Hname]|?]; [by exists res| |by right].
      left. exists name. rewrite lookup_insert_ne; [done|]. intros <-. congruence.
  - intros a res kf [[<- <-]|[_ H]]%lookup_insert_Some; [done|]. by eapply Hb.
Qed.

Lemma add_placeholders_inv S l r : reg_inv S r → reg_inv S (foldl add_placeholder r l).
Proof. revert r. induction l as [|x l IH]; intros r H; [done|]. cbn. by apply IH, add_placeholder_inv. Qed.

Lemma close_resolver_idem res : close_resolver (close_resolver res) = close_resolver res.
Proof. unfold close_resolver. cbn. f_equal. by destruct (rs_cancelled res), (bool_decide _). Qed.

Lemma close_all_lookup l h a :
  close_all l h !! a = (if decide (a ∈ l) then close_resolver <$> h !! a else h !! a).
Proof.
  unfold close_all. revert h. induction l as [|b l IH]; intros h; [done|]. cbn. rewrite IH.
  destruct (decide (a = b)) as [->|Hn].
  - rewrite lookup_alter_eq, (decide_True (P := b ∈ b :: l)) by set_solver.
    destruct (decide (b ∈ l)); [|done]. destruct (h !! b); cbn; [by rewrite close_resolver_idem|done].
  - rewrite lookup_alter_ne by done. repeat case_decide; set_solver.
Qed.

Lemma close_all_inv l S r :
  reg_inv (l ++ S) r → (∀ a name, a ∈ l → rg_resolvers r !! name ≠ Some a) →
  reg_inv S (mkRegistry (rg_local r) (rg_denied r) (rg_seen r) (rg_resolvers r)
    (close_all l (rg_heap r)) (rg_next r) (rg_fetches r)).
Proof.
  intros [Hm Hh Hr Hb] Hs. split; cbn.
  - intros name a Ha. destruct (Hm name a Ha) as (res & ? & ? & ?). exists res.
    rewrite close_all_lookup, decide_False; [done|]. intros Hin. exact (Hs a name Hin Ha).
  - intros a res H. rewrite close_all_lookup in H.
    destruct (rg_heap r !! a) as [res'|] eqn:E; [by eapply Hh|]. by case_decide.
  - intros a (res & Ha & Hk & Hc). cbn in Ha. rewrite close_all_lookup in Ha.
    case_decide as Hin.
    + destruct (rg_heap r !! a) as [res'|]; [|done]. cbn in Ha. simplify_eq. cbn in Hk, Hc.
      apply orb_false_iff in Hc as [_ Hc]. by bool_hyps.
    + destruct (Hr a) as [?|[?|?]%elem_of_app]; [by exists res|by left|done|by right].
  - intros a res kf H Hk. rewrite close_all_lookup in H. case_decide; [|by eapply Hb].
    destruct (rg_heap r !! a) as [res'|] eqn:E; [|done]. cbn in H. simplify_eq. cbn in *. by eapply Hb.
Qed.

Lemma add_placeholder_map r nf name a :
  rg_resolvers r !! name = Some a → rg_resolvers (add_placeholder r nf) !! name = Some a.
Proof.
  intros H. unfold add_placeholder. destruct (rg_resolvers r !! nf.1) eqn:E; [done|]. cbn.
  rewrite lookup_insert_ne; [done|]. intros <-. congruence.
Qed.
Lemma add_placeholder_new r nf name a :
  (∀ a res, rg_heap r !! a = Some res → a < rg_next r) →
  rg_resolvers (add_placeholder r nf) !! name = Some a → rg_resolvers r !! name = None →
  rg_next r ≤ a.
Proof.
  intros Hh H Hn. unfold add_placeholder in H. destruct (rg_resolvers r !! nf.1) eqn:E; [congruence|].
  cbn in H. apply lookup_insert_Some in H as [[_ <-]|[_ H]]; [done|congruence].
Qed.

(** The placeholders of [Reconcile]: a name that was mapped keeps its resolver;
    a missing name that is wanted gets a fresh one with the wanted
    fingerprint; nothing else appears. *)
Lemma add_placeholders_spec S l r name :
  NoDup (l.*1) → reg_inv S r →
  let r' := foldl add_placeholder r l in
  match rg_resolvers r !! name with
  | Some a => rg_resolvers r' !! name = Some a ∧ rg_heap r' !! a = rg_heap r !! a
  | None =>
      match (list_to_map l : gmap string string) !! name with
      | Some fp => ∃ a, rg_resolvers r' !! name = Some a ∧ rg_next r ≤ a ∧
                     rg_heap r' !! a = Some (new_resolver name fp)
      | None => rg_resolvers r' !! name = None
      end
  end.
Proof.
  cbn. revert r. induction l as [|[n fp] l IH]; intros r Hnd Hinv; cbn.
  { rewrite lookup_empty. by destruct (rg_resolvers r !! name). }
  inversion Hnd as [|?? Hn Hnd']; subst.
  pose proof (add_placeholder_inv S r (n, fp) Hinv) as Hinv1.
  specialize (IH (add_placeholder r (n, fp)) Hnd' Hinv1).
  destruct (decide (n = name)) as [->|Hne].
  - rewrite lookup_insert_eq. unfold add_placeholder in IH |- *. cbn in *.
    destruct (rg_resolvers r !! name) as [a|] eqn:E.
    + rewrite E in IH. exact IH.
    + cbn in IH. rewrite lookup_insert_eq in IH. destruct IH as [H1 H2].
      exists (rg_next r). rewrite H1, H2, lookup_insert_eq. by split_and!.
  - rewrite lookup_insert_ne by done.
    unfold add_placeholder in IH |- *. cbn in *.
    destruct (rg_resolvers r !! n) as [b|] eqn:En; [exact IH|]. cbn in IH.
    rewrite lookup_insert_ne in IH by done.
    destruct (rg_resolvers r !! name) as [a|] eqn:E.
    + destruct IH as [H1 H2]. split; [done|]. rewrite H2, lookup_insert_ne; [done|].
      intros <-. destruct Hinv as [Hm Hh _ _]. destruct (Hm _ _ E) as (res & Hr & _).
      apply Hh in Hr. lia.
    + destruct (list_to_map l !! name) as [f|]; [|done]. destruct IH as (a & ? & ? & ?).
      exists a. split_and!; [done|lia|done].
Qed.
End jwks_lemmas.

Section jwks_ops.
Context {C : Crypto} {X : X509} {N : NetURL} {U : Unicode} {F : Floats} {J : JWT} {W : Network}.
Implicit Types r : Registry.

(** The entries of the map [Reconcile] takes off, and the registry without them. *)
Definition stale_of (want : gmap string string) r : list nat :=
  (map_to_list (filter (λ na, keep_entry want (rg_heap r) na = false) (rg_resolvers r))).*2.
Definition kept_registry (want : gmap string string) r : Registry :=
  mkRegistry (rg_local r) (rg_denied r) (rg_seen r)
    (filter (λ na, keep_entry want (rg_heap r) na = true) (rg_resolvers r))
    (rg_heap r) (rg_next r) (rg_fetches r).

Lemma stale_of_spec want r a :
  a ∈ stale_of want r ↔ ∃ name, rg_resolvers r !! name = Some a ∧ keep_entry want (rg_heap r) (name, a) = false.
Proof.
  unfold stale_of. rewrite list_elem_of_fmap. split.
  - intros ([n a'] & -> & Hin%elem_of_map_to_list). apply map_lookup_filter_Some in Hin. eauto.
  - intros (n & Hn & Hk). exists (n, a). split; [done|].
    apply elem_of_map_to_list, map_lookup_filter_Some. done.
Qed.

Lemma kept_inv S want r : reg_inv S r → reg_inv (stale_of want r ++ S) (kept_registry want r).
Proof.
  intros [Hm Hh Hr Hb]. split; cbn; try done.
  - intros name a [Ha _]%map_lookup_filter_Some. by apply Hm.
  - intros a Hrun. destruct (Hr a) as [[name Ha]|?]; [exact Hrun| |set_solver].
    destruct (keep_entry want (rg_heap r) (name, a)) eqn:E.
    + left. exists name. by apply map_lookup_filter_Some.
    + right. apply elem_of_app. left. apply stale_of_spec. eauto.
Qed.

(** Two names never share a resolver. *)
Lemma reg_inv_inj S r n n' a :
  reg_inv S r → rg_resolvers r !! n = Some a → rg_resolvers r !! n' = Some a → n = n'.
Proof.
  intros [Hm _ _ _] H1 H2. destruct (Hm _ _ H1) as (? & ? & <- & _).
  destruct (Hm _ _ H2) as (? & ? & <- & _). congruence.
Qed.

Lemma Reconcile_unfold ptr auth r :
  rg_seen r ≠ Some ptr →
  Reconcile ptr auth r =
  let r1 := foldl add_placeholder (kept_registry (desired auth) r) (map_to_list (desired auth)) in
  mkRegistry (rg_local r1) (rg_denied r1) (Some ptr) (rg_resolvers r1)
    (close_all (stale_of (desired auth) r) (rg_heap r1)) (rg_next r1) (rg_fetches r1).
Proof. intros Hn. unfold Reconcile. by rewrite bool_decide_false. Qed.

(** After the placeholders are added, a name has the resolver it kept, or a
    fresh one. *)
Lemma Reconcile_names S auth r name :
  reg_inv S r →
  let r1 := foldl add_placeholder (kept_registry (desired auth) r) (map_to_list (desired auth)) in
  match desired auth !! name with
  | Some fp => ∃ a, rg_resolvers r1 !! name = Some a ∧ fp_at (rg_heap r1) a = Some fp ∧
      a ∉ stale_of (desired auth) r ∧
      (∀ b, rg_resolvers r !! name = Some b → fp_at (rg_heap r) b = Some fp →
         a = b ∧ rg_heap r1 !! a = rg_heap r !! b)
  | None => rg_resolvers r1 !! name = None
  end.
Proof.
  intros Hinv. cbn. set (want := desired auth).
  pose proof (add_placeholders_spec _ (map_to_list want) _ name (NoDup_fst_map_to_list want)
    (kept_inv S want r Hinv)) as Hspec. cbn in Hspec. rewrite list_to_map_to_list in Hspec.
  assert (Hnotstale : ∀ a, rg_resolvers r !! name = Some a → keep_entry want (rg_heap r) (name, a) = true →
    a ∉ stale_of want r).
  { intros a Ha Hk (n & Hn & Hk')%stale_of_spec. rewrite (reg_inv_inj _ _ _ _ _ Hinv Hn Ha) in Hk'. congruence. }
  destruct (rg_resolvers (kept_registry want r) !! name) as [a|] eqn:E; cbn in E; rewrite E in Hspec.
  - apply map_lookup_filter_Some in E as [Ha Hk]. unfold keep_entry in Hk. cbn in Hk.
    destruct Hspec as [H1 H2]. destruct (want !! name) as [fp|] eqn:Ew; [|done]. bool_hyps.
    exists a. unfold fp_at in *. rewrite H2. split; [done|split; [done|split]].
    + apply Hnotstale; [done|]. unfold keep_entry. cbn. rewrite Ew. by apply bool_decide_eq_true.
    + intros b Hb _. simplify_eq. done.
  - destruct (want !! name) as [fp|] eqn:Ew; [|done].
    destruct Hspec as (a & H1 & H2 & H3). exists a. unfold fp_at. rewrite H3.
    split; [done|split; [done|split]].
    + intros (n & Hn & _)%stale_of_spec. destruct Hinv as [Hm Hh _ _].
      destruct (Hm _ _ Hn) as (res & Hres & _). apply Hh in Hres. cbn in H2. lia.
    + intros b Hb Hfp. exfalso. assert (rg_resolvers (kept_registry want r) !! name = Some b) as E'.
      { apply map_lookup_filter_Some. split; [done|]. unfold keep_entry. cbn. rewrite Ew.
        by apply bool_decide_eq_true. }
      cbn in E'. congruence.
Qed.

Lemma Reconcile_inv ptr auth r : reg_inv [] r → reg_inv [] (Reconcile ptr auth r).
Proof.
  intros Hinv. destruct (decide (rg_seen r = Some ptr)) as [E|E].
  { unfold Reconcile. by rewrite bool_decide_true. }
  rewrite Reconcile_unfold by done. cbn.
  set (r1 := foldl add_placeholder _ _).
  assert (H1 : reg_inv (stale_of (desired auth) r ++ []) r1) by (apply add_placeholders_inv, kept_inv, Hinv).
  assert (Hs : ∀ a name, a ∈ stale_of (desired auth) r → rg_resolvers r1 !! name ≠ Some a).
  { intros a name Ha Hmap. pose proof (Reconcile_names [] auth r name Hinv) as Hn. cbn in Hn. fold r1 in Hn.
    destruct (desired auth !! name) as [fp|]; [|congruence].
    destruct Hn as (b & Hb & _ & Hns & _). by simplify_eq. }
  destruct (close_all_inv _ _ _ H1 Hs). by split.
Qed.

Lemma Keyfunc_lookup_inv src r a r' :
  reg_inv [] r → Keyfunc_lookup src r = (a, r') →
  reg_inv [] r' ∧ rg_resolvers r' !! j_Name src = Some a ∧ fp_at (rg_heap r') a = Some (fingerprint src) ∧
  rg_fetches r' = rg_fetches r.
Proof.
  intros Hinv H. unfold Keyfunc_lookup in H.
  destruct (rg_resolvers r !! j_Name src) as [b|] eqn:E.
  - case_bool_decide as Hfp; simplify_eq; [done|].
    destruct Hinv as [Hm Hh Hr Hb]. destruct (Hm _ _ E) as (resb & Hresb & Hnb & Hcb).
    assert (Hlt : b < rg_next r) by (by eapply Hh).
    set (h := <[rg_next r := new_resolver (j_Name src) (fingerprint src)]> (rg_heap r)).
    split; [|split; [cbn; by rewrite lookup_insert_eq|split; [|done]]].
    2:{ cbn. unfold fp_at, h. rewrite lookup_alter_ne, lookup_insert_eq by lia. done. }
    refine (close_all_inv [b] [] (mkRegistry (rg_local r) (rg_denied r) None
      (<[j_Name src:=rg_next r]> (rg_resolvers r)) h (S (rg_next r)) (rg_fetches r)) _ _); cbn.
    + split; cbn.
      * intros name a [[<- <-]|[Hn Ha]]%lookup_insert_Some.
        -- exists (new_resolver (j_Name src) (fingerprint src)). subst h. by rewrite lookup_insert_eq.
        -- destruct (Hm name a Ha) as (res & Hres & ? & ?). exists res. split; [|done]. subst h.
           rewrite lookup_insert_ne; [done|]. intros <-. apply Hh in Hres. lia.
      * intros a res [[<- _]|[_ H]]%lookup_insert_Some; [lia|]. apply Hh in H. lia.
      * intros a (res & Ha & Hk & Hc). cbn in Ha. subst h. apply lookup_insert_Some in Ha as [[<- <-]|[Hn Ha]].
        { cbn in Hk. by destruct Hk. }
        destruct (Hr a) as [[name Hname]|?]; [by exists res| |set_solver].
        destruct (decide (name = j_Name src)) as [->|Hne]; [right; simplify_eq; set_solver|].
        left. exists name. by rewrite lookup_insert_ne.
      * intros a res kf [[<- <-]|[_ H]]%lookup_insert_Some; [done|]. by eapply Hb.
    + intros a name Ha%list_elem_of_singleton Hmap. subst a.
      apply lookup_insert_Some in Hmap as [[_ ?]|[Hn Hmap]]; [lia|].
      destruct (Hm _ _ Hmap) as (? & ? & <- & _). congruence.
  - pose proof (add_placeholder_inv [] r (j_Name src, fingerprint src) Hinv) as Hi.
    unfold add_placeholder in Hi. cbn in Hi. rewrite E in Hi. simplify_eq.
    split; [destruct Hi; by split|]. cbn. unfold fp_at. by rewrite !lookup_insert_eq.
Qed.
End jwks_ops.

Section jwks_build.
Context {C : Crypto} {X : X509} {N : NetURL} {U : Unicode} {F : Floats} {J : JWT} {W : Network}.
Implicit Types r : Registry.

(** Replacing a resolver by one of the same name and fingerprint. *)
Lemma set_resolver_inv S r a res res' n :
  reg_inv S r → (rs_kf res' = None ∨ (∃ name, rg_resolvers r !! name = Some a) ∨ a ∈ S) → rg_heap r !! a = Some res →
  rs_name res' = rs_name res → rs_cancelled res' = rs_cancelled res →
  (∀ kf, rs_kf res' = Some kf → built_for (rs_fingerprint res') kf) →
  reg_inv S (set_resolver a res' n r).
Proof.
  intros Hinv Ha Hres Hname Hcan Hbuilt. destruct Hinv as [Hm Hh Hr Hb]. split; cbn.
  - intros name b Hb'. destruct (Hm name b Hb') as (res0 & H0 & Hn & Hc).
    destruct (decide (a = b)) as [->|Hne].
    + simplify_eq. exists res'. rewrite lookup_insert_eq. naive_solver congruence.
    + exists res0. by rewrite lookup_insert_ne.
  - intros b res0 [[<- _]|[_ H]]%lookup_insert_Some; by eapply Hh.
  - intros b (res0 & H0 & Hk & Hc). cbn in H0. apply lookup_insert_Some in H0 as [[<- <-]|[Hne H0]].
    + destruct Ha as [Ha|Ha]; [rewrite Ha in Hk; by destruct Hk|done].
    + apply Hr. by exists res0.
  - intros b res0 kf [[<- <-]|[_ H]]%lookup_insert_Some; [by auto|by eapply Hb].
Qed.
(** The build, on a resolver that is mapped or in [S], or one that fails. *)
Lemma Keyfunc_build_inv S now src a r rs res r' :
  reg_inv S r → (is_ok res = true → (∃ name, rg_resolvers r !! name = Some a) ∨ a ∈ S) →
  rg_heap r !! a = Some rs → rs_fingerprint rs = fingerprint src →
  Keyfunc_build now src a r = (res, r') → reg_inv S r'.
Proof.
  intros Hi Ha Ers Hfp H. unfold Keyfunc_build in H. rewrite Ers in H.
  destruct (rs_kf rs) as [kf|]; [by simplify_eq|].
  destruct (now <? rs_nextTry rs)%Z; [by simplify_eq|].
  destruct (build_keyfn (rg_fetches r) src) as [[[[kf url] client]|e] n] eqn:Eb; simplify_eq;
    (eapply set_resolver_inv; [done|first [by left|right; by apply Ha]|done..|]); [|done].
  cbn. intros kf' [= <-]. exists src, (rg_fetches r), url, client, n. by split.
Qed.

Lemma Keyfunc_inv now src r res r' :
  reg_inv [] r → Keyfunc_ now src r = (res, r') → reg_inv [] r'.
Proof.
  intros Hinv H. unfold Keyfunc_ in H. destruct (j_Local src); [by simplify_eq|].
  destruct (Keyfunc_lookup src r) as [a r1] eqn:El.
  pose proof (Keyfunc_lookup_inv _ _ _ _ Hinv El) as (Hi & Ha & Hfp & _).
  unfold fp_at in Hfp. destruct (rg_heap r1 !! a) as [rs|] eqn:Ers; [|done]. cbn in Hfp. injection Hfp as Hfp.
  eapply Keyfunc_build_inv; eauto.
Qed.

(** Looking up a source twice finds the resolver the first look-up left. *)
Lemma Keyfunc_lookup_same src src' r a :
  j_Name src' = j_Name src → fingerprint src' = fingerprint src →
  rg_resolvers r !! j_Name src = Some a → fp_at (rg_heap r) a = Some (fingerprint src) →
  Keyfunc_lookup src' r = (a, r).
Proof.
  intros Hn Hf Ha Hfp. unfold Keyfunc_lookup. rewrite Hn, Ha, Hf, Hfp. by rewrite bool_decide_true.
Qed.

(** The state a [Keyfunc] call leaves for its source. *)
Lemma Keyfunc_result now src r res r' :
  reg_inv [] r → j_Local src = false → Keyfunc_ now src r = (res, r') →
  ∃ a rs, rg_resolvers r' !! j_Name src = Some a ∧ rg_heap r' !! a = Some rs ∧
    rs_fingerprint rs = fingerprint src ∧
    match res with
    | Ok kf => rs_kf rs = Some kf
    | Err e => rs_kf rs = None ∧ rs_lastErr rs = e ∧ (now < rs_nextTry rs)%Z ∧
        (rg_fetches r' ≠ rg_fetches r → rs_nextTry rs = (now + defaultResolverRetry)%Z)
    end.
Proof.
  intros Hinv Hloc H. unfold Keyfunc_ in H. rewrite Hloc in H.
  destruct (Keyfunc_lookup src r) as [a r1] eqn:El.
  pose proof (Keyfunc_lookup_inv _ _ _ _ Hinv El) as (Hi & Ha & Hfp & Hfetch).
  unfold Keyfunc_build in H. unfold fp_at in Hfp.
  destruct (rg_heap r1 !! a) as [rs|] eqn:Ers; [|done]. cbn in Hfp. injection Hfp as Hfp.
  destruct (rs_kf rs) as [kf|] eqn:Ek; [simplify_eq; by exists a, rs|].
  destruct (now <? rs_nextTry rs)%Z eqn:Et.
  { simplify_eq. exists a, rs. split_and!; try done. lia. }
  destruct (build_keyfn (rg_fetches r1) src) as [[[[kf url] client]|e] n] eqn:Eb; simplify_eq; cbn;
    eexists a, _; rewrite lookup_insert_eq; split_and!; try done. cbn. unfold defaultResolverRetry, second. lia.
Qed.

Lemma Keyfunc_again now src src' r a rs :
  j_Local src' = false → j_Name src' = j_Name src → fingerprint src' = fingerprint src →
  rg_resolvers r !! j_Name src = Some a → rg_heap r !! a = Some rs → rs_fingerprint rs = fingerprint src →
  Keyfunc_ now src' r = Keyfunc_build now src' a r.
Proof.
  intros Hloc Hn Hf Ha Hrs Hfp. unfold Keyfunc_. rewrite Hloc.
  rewrite (Keyfunc_lookup_same src src' r a); [done..|]. unfold fp_at. rewrite Hrs. cbn. by rewrite Hfp.
Qed.

(** The registry after any sequence of reconciliations and key requests. *)
Inductive reg_reachable : Registry → Prop :=
| reach_new : reg_reachable NewRegistry
| reach_local kf d r : reg_reachable r → reg_reachable (SetLocalSource kf d r)
| reach_reconcile ptr auth r : reg_reachable r → reg_reachable (Reconcile ptr auth r)
| reach_keyfunc now src res r r' :
    reg_reachable r → Keyfunc_ now src r = (res, r') → reg_reachable r'.

Lemma reachable_inv r : reg_reachable r → reg_inv [] r.
Proof.
  induction 1; [apply reg_inv_new| |by apply Reconcile_inv|by eapply Keyfunc_inv].
  destruct IHreg_reachable. by split.
Qed.
End jwks_build.

(** * Properties *)

(** Reconciliation is exact and leaks nothing. Against a configuration not
    seen yet, the resolvers afterwards are those of its enabled, non-local
    sources with the fingerprints it gives them; one that already matched is the
    same object, untouched; and in every state reached by reconciling and
    requesting keys, the refreshers running are those of resolvers in the map. *)
Theorem Reconcile_exact {C : Crypto} {X : X509} {N : NetURL} {U : Unicode} {F : Floats} {J : JWT} {W : Network}
    ptr auth (r : Registry) (Hr : reg_reachable r) (Hnew : rg_seen r ≠ Some ptr) :
  let r' := Reconcile ptr auth r in
  rg_seen r' = Some ptr ∧
  (∀ name, rg_resolvers r' !! name ≫= fp_at (rg_heap r') = desired auth !! name) ∧
  (∀ name a, rg_resolvers r !! name = Some a → fp_at (rg_heap r) a = desired auth !! name →
     rg_resolvers r' !! name = Some a ∧ rg_heap r' !! a = rg_heap r !! a) ∧
  (∀ a, running r' a → ∃ name, rg_resolvers r' !! name = Some a) ∧
  (∀ a, running r a → ∃ name, rg_resolvers r !! name = Some a).
Proof.
  cbn. pose proof (reachable_inv _ Hr) as Hinv.
  assert (Hrun : ∀ r0, reg_inv [] r0 → ∀ a, running r0 a → ∃ name, rg_resolvers r0 !! name = Some a).
  { intros r0 [_ _ H0 _] a Ha. destruct (H0 a Ha) as [?|?]; [done|set_solver]. }
  split; [by rewrite Reconcile_unfold|].
  split; [|split; [|split; [apply Hrun; by apply Reconcile_inv|by apply Hrun]]].
  - intros name. rewrite Reconcile_unfold by done. cbn.
    pose proof (Reconcile_names [] auth r name Hinv) as Hn. cbn in Hn.
    destruct (desired auth !! name) as [fp|]; [|by rewrite Hn].
    destruct Hn as (a & -> & Hfp & Hns & _). cbn. unfold fp_at. by rewrite close_all_lookup, decide_False.
  - intros name a Ha Hfp. rewrite Reconcile_unfold by done. cbn.
    pose proof (Reconcile_names [] auth r name Hinv) as Hn. cbn in Hn.
    destruct (desired auth !! name) as [fp|].
    + destruct Hn as (a' & Ha' & _ & Hns & Hsame). destruct (Hsame a Ha Hfp) as [-> Hheap].
      split; [done|]. by rewrite close_all_lookup, decide_False.
    + destruct Hinv as [Hm _ _ _]. destruct (Hm _ _ Ha) as (res & Hres & _).
      unfold fp_at in Hfp. by rewrite Hres in Hfp.
Qed.

(** Keys are built at most once and failures are remembered. After a
    successful [Keyfunc] every later one for a source with that name and
    fingerprint returns the same keys and fetches nothing; after a failed fetch,
    so does every later one within the 30 second retry window, with the same
    error. What is returned was built for that fingerprint. *)
Theorem Keyfunc_cached {C : Crypto} {X : X509} {N : NetURL} {U : Unicode} {F : Floats} {J : JWT} {W : Network}
    now src (r : Registry) res r'
    (Hr : reg_reachable r) (Hloc : j_Local src = false) (Hk : Keyfunc_ now src r = (res, r')) :
  (∀ kf, res = Ok kf → built_for (fingerprint src) kf) ∧
  ∀ now' src', j_Local src' = false → j_Name src' = j_Name src → fingerprint src' = fingerprint src →
    (is_ok res = true ∨ rg_fetches r' ≠ rg_fetches r ∧ (now ≤ now' < now + defaultResolverRetry)%Z) →
    Keyfunc_ now' src' r' = (res, r').
Proof.
  pose proof (reachable_inv _ Hr) as Hinv. pose proof (Keyfunc_inv _ _ _ _ _ Hinv Hk) as [_ _ _ Hb].
  destruct (Keyfunc_result _ _ _ _ _ Hinv Hloc Hk) as (a & rs & Ha & Hrs & Hfp & Hres). split.
  - intros kf ->. rewrite <- Hfp. by eapply Hb.
  - intros now' src' Hl Hn Hf Hwhen. rewrite (Keyfunc_again now' src src' r' a rs) by done.
    unfold Keyfunc_build. rewrite Hrs. destruct res as [kf|e].
    + by rewrite Hres.
    + destruct Hwhen as [?|[Hfetch Hwin]]; [done|].
      destruct Hres as (-> & -> & _ & Hnt). rewrite (Hnt Hfetch).
      by rewrite (proj2 (Z.ltb_lt _ _)) by lia.
Qed.

(** ** Concrete library values for the witnesses *)

(** A token is "issuer|subject"; keys are the URL they came from. *)
Definition demo_jwtlib : @JWT demo_crypto demo_floats :=
  @Build_JWT demo_crypto demo_floats string
    (λ _ url _ _, Ok url)
    (λ raw, let '(iss, _, ok) := Cut raw "|" in if ok then Ok iss else Err (ENew "token is malformed"))
    (λ p raw _, let '(iss, sub, ok) := Cut raw "|" in
       if ok && (iss =? ps_Issuer p)
       then Ok {["sub" := @AString demo_floats sub; "iss" := @AString demo_floats iss]}
       else Err (EWrap "" [] [ENew "token has invalid issuer"]))
    (λ z, Itoa z).
Definition demo_network : @Network demo_crypto :=
  @Build_Network demo_crypto (λ n _ url,
    if n =? 0 then Err (ENew "connection refused")
    else Ok (200%Z, Ok (mkDiscoveryDoc "https://idp" "https://idp/keys" "https://idp/a" "https://idp/t" ""))).
Definition demo_source : JWTSource := JWTSource_applyDefaults demo_jwt.
Definition demo_Keyfunc (now : Z) (src : JWTSource) (r : @Registry demo_crypto demo_floats demo_jwtlib) :=
  @Keyfunc_ demo_crypto demo_x509 demo_neturl demo_floats demo_jwtlib demo_network now src r.

Lemma Reconcile_exact_witness :
  let r' := @Reconcile demo_crypto demo_floats demo_jwtlib 1 (mkInboundAuth [demo_source] None None None) NewRegistry in
  (rg_resolvers r' !! "https://idp" ≫= fp_at (rg_heap r')) = Some (@fingerprint demo_crypto demo_floats demo_jwtlib demo_source).
Proof.
  destruct (@Reconcile_exact demo_crypto demo_x509 demo_neturl ascii_unicode demo_floats demo_jwtlib demo_network 1
    (mkInboundAuth [demo_source] None None None) NewRegistry reach_new) as (_ & H & _).
  { discriminate. }
  cbn zeta. rewrite (H "https://idp"). vm_compute. reflexivity.
Defined.

Lemma Keyfunc_cached_witness :
  let r1 := (demo_Keyfunc 100 demo_source NewRegistry).2 in
  is_ok (demo_Keyfunc 100 demo_source NewRegistry).1 = false ∧
  demo_Keyfunc 200 demo_source r1 = demo_Keyfunc 100 demo_source NewRegistry.
Proof.
  split; [vm_compute; reflexivity|].
  destruct (@Keyfunc_cached demo_crypto demo_x509 demo_neturl ascii_unicode demo_floats demo_jwtlib demo_network 100
    demo_source NewRegistry (demo_Keyfunc 100 demo_source NewRegistry).1
    (demo_Keyfunc 100 demo_source NewRegistry).2 reach_new) as [_ H].
  - reflexivity.
  - destruct (demo_Keyfunc 100 demo_source NewRegistry) eqn:E; exact E.
  - unfold demo_Keyfunc at 1. rewrite (H 200%Z demo_source).
    + destruct (demo_Keyfunc 100 demo_source NewRegistry); reflexivity.
    + reflexivity.
    + reflexivity.
    + reflexivity.
    + right. split; [vm_compute; discriminate|vm_compute; split; congruence].
Defined.

(** Interleaved with a reconciliation that drops its source, one [Keyfunc] call
    builds its resolver after the eviction closed it: the refresher it starts is
    referenced by nothing and runs until the process ends. *)
Lemma evicted_build_leaks :
  let '(a, r1) := @Keyfunc_lookup demo_crypto demo_floats demo_jwtlib demo_source NewRegistry in
  let r2 := Reconcile 2 (mkInboundAuth [] None None None) r1 in
  let r3 := (@Keyfunc_build demo_crypto demo_x509 demo_neturl demo_floats demo_jwtlib demo_network
               (31 * second) demo_source a
               (mkRegistry (rg_local r2) (rg_denied r2) (rg_seen r2) (rg_resolvers r2) (rg_heap r2) (rg_next r2) 1)).2 in
  running r3 a ∧ rg_resolvers r3 = ∅.
Proof.
  split.
  - eexists. split; [reflexivity|]. split; [eexists; reflexivity|reflexivity].
  - reflexivity.
Qed.

(** The fingerprint leaves the issuer out, although the discovery document is
    checked against it when the keys are built: changing a named source's issuer
    keeps keys built from a document that was checked against the old one. *)
Lemma fingerprint_ignores_issuer `{Crypto} `{Floats} `{JWT} (iss : string) (j : JWTSource) :
  fingerprint (mkJWTSource (j_Name j) (j_Disabled j) iss (j_Audiences j) (j_Credentials j) (j_JWKSURL j)
    (j_OIDCDiscoveryURL j) (j_CACert j) (j_Algorithms j) (j_JWKSCacheTTL j) (j_ClockSkew j) (j_Login j) (j_Local j))
  = fingerprint j.
Proof. done. Qed.
