(* ===== verification/JwksConcurrent.v ===== *)
(** The key registry under concurrent requests ([internal/authn/jwks.go]).

    [Reconcile] and [Keyfunc] take [r.mu], and then, without it, close the resolvers they
    took off the map and build one under its own mutex.  Each of these is one step here,
    of any goroutine; [Jwks] runs the steps of one call back to back.  A step closes a
    resolver some time after it was taken off, so the runs include those of the code,
    where the goroutine that took it off closes it next.  Fetches are numbered in the
    order of the builds. *)
From S2P Require Import Prelude GoStrings ConfigTypes GoHTTP Acl ConfigAuth Credentials Basic Jwks.

Section steps.
Context {C : Crypto} {X : X509} {N : NetURL} {U : Unicode} {F : Floats} {J : JWT} {W : Network}.
Implicit Types (r : Registry) (src : JWTSource).

(** The part of [Reconcile] under [r.mu]: also the resolvers it takes off the map. *)
Definition reconcile_locked (ptr : nat) (auth : InboundAuthConfig) r : list nat * Registry :=
  let want := desired auth in
  let r' := foldl add_placeholder (kept_registry want r) (map_to_list want) in
  (stale_of want r,
   mkRegistry (rg_local r') (rg_denied r') (Some ptr) (rg_resolvers r') (rg_heap r') (rg_next r') (rg_fetches r')).
Definition reconcile_map (ptr : nat) (auth : InboundAuthConfig) r : list nat * Registry :=
  if rg_seen r =? Some ptr then ([], r) else reconcile_locked ptr auth r.
(** Mapping a name to a fresh resolver, which invalidates [seen]. *)
Definition fresh_registry src r : Registry :=
  mkRegistry (rg_local r) (rg_denied r) None (<[j_Name src := rg_next r]> (rg_resolvers r))
    (<[rg_next r := new_resolver (j_Name src) (fingerprint src)]> (rg_heap r)) (S (rg_next r)) (rg_fetches r).
(** The part of [Keyfunc] under [r.mu]: the address, and the resolver it replaces. *)
Definition lookup_map src r : nat * option nat * Registry :=
  match rg_resolvers r !! j_Name src with
  | Some a => if bool_decide (fp_at (rg_heap r) a = Some (fingerprint src)) then (a, None, r)
              else (rg_next r, Some a, fresh_registry src r)
  | None => (rg_next r, None, fresh_registry src r)
  end.
(** [stale.close()] *)
Definition close_stale (l : list nat) r : Registry :=
  mkRegistry (rg_local r) (rg_denied r) (rg_seen r) (rg_resolvers r) (close_all l (rg_heap r)) (rg_next r) (rg_fetches r).

(** A call between its look-up and its build. *)
Record kcall := mkKCall { kc_src : JWTSource; kc_addr : nat }.
Record kstate := mkKState {
  ks_reg : Registry;
  ks_stale : list nat;        (* off the map, to be closed *)
  ks_calls : list kcall;
  ks_closed : bool            (* [Close] cancelled the context of every resolver *)
}.
Definition kstart (local : option (keyfn * (string → bool))) : kstate :=
  mkKState (match local with Some (kf, denied) => SetLocalSource kf denied NewRegistry | None => NewRegistry end) [] [] false.
(** [Close] *)
Definition Registry_Close (s : kstate) : kstate := mkKState (ks_reg s) (ks_stale s) (ks_calls s) true.
Inductive kevent :=
| KReconcile (ptr : nat) (auth : InboundAuthConfig)
| KLookup (src : JWTSource)
| KClose (a : nat)
| KBuild (c : kcall) (now : Z) (res : result keyfn)
| KShutdown.
Inductive kstep (s : kstate) : kevent → kstate → Prop :=
| k_reconcile ptr auth stale r : reconcile_map ptr auth (ks_reg s) = (stale, r) →
    kstep s (KReconcile ptr auth) (mkKState r (stale ++ ks_stale s) (ks_calls s) (ks_closed s))
| k_lookup src a old r : j_Local src = false → lookup_map src (ks_reg s) = (a, old, r) →
    kstep s (KLookup src) (mkKState r (option_list old ++ ks_stale s) (mkKCall src a :: ks_calls s) (ks_closed s))
| k_close a before after : ks_stale s = before ++ a :: after →
    kstep s (KClose a) (mkKState (close_stale [a] (ks_reg s)) (before ++ after) (ks_calls s) (ks_closed s))
| k_build c before after now res r : ks_calls s = before ++ c :: after →
    Keyfunc_build now (kc_src c) (kc_addr c) (ks_reg s) = (res, r) →
    kstep s (KBuild c now res) (mkKState r (ks_stale s) (before ++ after) (ks_closed s))
| k_shutdown : kstep s KShutdown (Registry_Close s).
Inductive kruns (s : kstate) : list kevent → kstate → Prop :=
| kruns_nil : kruns s [] s
| kruns_snoc tr s1 e s2 : kruns s tr s1 → kstep s1 e s2 → kruns s (tr ++ [e]) s2.

(** The resolvers whose refresher runs. *)
Definition refreshing (s : kstate) (a : nat) : Prop := running (ks_reg s) a ∧ ks_closed s = false.

(** * The calls of [Jwks] are these steps, back to back *)

Lemma Reconcile_steps ptr auth r :
  Reconcile ptr auth r = close_stale (reconcile_map ptr auth r).1 (reconcile_map ptr auth r).2.
Proof.
  destruct (decide (rg_seen r = Some ptr)) as [E|E].
  - unfold Reconcile, reconcile_map. rewrite !bool_decide_true by done. by destruct r.
  - rewrite Reconcile_unfold by done. unfold reconcile_map. by rewrite bool_decide_false.
Qed.
Lemma Keyfunc_steps now src r : j_Local src = false →
  Keyfunc_ now src r = let '(a, old, r1) := lookup_map src r in Keyfunc_build now src a (close_stale (option_list old) r1).
Proof.
  intros E. unfold Keyfunc_. rewrite E. unfold Keyfunc_lookup, lookup_map.
  destruct (rg_resolvers r !! j_Name src); [case_bool_decide|]; [by destruct r|done|done].
Qed.
End steps.

(** * The invariant *)

Section lemmas.
Context {C : Crypto} {X : X509} {N : NetURL} {U : Unicode} {F : Floats} {J : JWT} {W : Network}.
Implicit Types (r : Registry) (src : JWTSource).

Lemma reg_inv_mono S S' r : (∀ a, a ∈ S → a ∈ S') → reg_inv S r → reg_inv S' r.
Proof. intros H [Hm Hh Hr Hb]. split; [done..| |done]. intros a [?|?]%Hr; [by left|right; auto]. Qed.

(** A resolver keeps its fingerprint, and its keys once it has them. *)
Definition heap_ext (h h' : gmap nat resolver) : Prop := ∀ a rs, h !! a = Some rs →
  ∃ rs', h' !! a = Some rs' ∧ rs_fingerprint rs' = rs_fingerprint rs ∧ ∀ kf, rs_kf rs = Some kf → rs_kf rs' = Some kf.
Lemma heap_ext_refl h : heap_ext h h.
Proof. intros a rs H. by exists rs. Qed.
Lemma heap_ext_trans h1 h2 h3 : heap_ext h1 h2 → heap_ext h2 h3 → heap_ext h1 h3.
Proof.
  intros H1 H2 a rs (rs1 & (rs2 & H & E2 & K2)%H2 & E1 & K1)%H1. exists rs2. split_and!; [done|congruence|auto].
Qed.
Lemma heap_ext_insert h a rs : h !! a = None → heap_ext h (<[a := rs]> h).
Proof. intros H b rb Hb. exists rb. by rewrite lookup_insert_ne by congruence. Qed.
Lemma heap_ext_close l h : heap_ext h (close_all l h).
Proof. intros a rs H. rewrite close_all_lookup, H. case_decide; by eexists. Qed.

(** ** What every step keeps, whatever other calls are at *)

Record reg_sound r : Prop := {
  sd_bound : ∀ a res, rg_heap r !! a = Some res → a < rg_next r;
  sd_built : ∀ a res kf, rg_heap r !! a = Some res → rs_kf res = Some kf → built_for (rs_fingerprint res) kf
}.
Lemma reg_inv_sound S r : reg_inv S r → reg_sound r.
Proof. intros [_ Hh _ Hb]. by split. Qed.
Record reg_grows r r' : Prop := {
  gr_sound : reg_sound r → reg_sound r';
  gr_heap : reg_sound r → heap_ext (rg_heap r) (rg_heap r')
}.
#[export] Instance reg_grows_preorder : PreOrder reg_grows.
Proof.
  split; [split; [done|intros _; apply heap_ext_refl]|]. intros r1 r2 r3 [H1 H2] [H3 H4]. split; [auto|].
  intros H. eapply heap_ext_trans; auto.
Qed.
(** A step that adds a resolver that is not built. *)
Lemma new_grows r r' rs : rg_heap r' = <[rg_next r := rs]> (rg_heap r) → rs_kf rs = None → rg_next r < rg_next r' → reg_grows r r'.
Proof.
  intros Hh Hk Hn. split.
  - intros [Hb Hf]. split; rewrite Hh.
    + intros a res [[<- _]|[_ H%Hb]]%lookup_insert_Some; lia.
    + intros a res kf [[_ <-]|[_ H]]%lookup_insert_Some; [congruence|by eapply Hf].
  - intros [Hb _]. rewrite Hh. apply heap_ext_insert. destruct (rg_heap r !! rg_next r) eqn:E; [|done]. apply Hb in E. lia.
Qed.
Lemma add_placeholder_grows r nf : reg_grows r (add_placeholder r nf).
Proof. unfold add_placeholder. destruct (rg_resolvers r !! nf.1); [done|]. eapply new_grows; [done|done|cbn; lia]. Qed.
Lemma add_placeholders_grows l r : reg_grows r (foldl add_placeholder r l).
Proof. revert r. induction l as [|nf l IH]; intros r; [done|]. cbn. etrans; [apply add_placeholder_grows|apply IH]. Qed.
(** A step that leaves the resolvers as they are. *)
Lemma same_grows r r' : rg_heap r' = rg_heap r → rg_next r' = rg_next r → reg_grows r r'.
Proof.
  intros Hh Hn. split; [|intros _; rewrite Hh; apply heap_ext_refl]. intros [H1 H2]. split; by rewrite Hh, ?Hn.
Qed.
Lemma reconcile_locked_grows ptr auth r : reg_grows r (reconcile_locked ptr auth r).2.
Proof.
  trans (kept_registry (desired auth) r); [by apply same_grows|].
  etrans; [apply (add_placeholders_grows (map_to_list (desired auth)))|]. by apply same_grows.
Qed.
Lemma fresh_grows src r : reg_grows r (fresh_registry src r).
Proof. eapply new_grows; [done|done|cbn; lia]. Qed.
Lemma close_grows l r : reg_grows r (close_stale l r).
Proof.
  split; [|intros _; apply heap_ext_close]. intros [Hb Hf]. split; cbn.
  - intros a res H. rewrite close_all_lookup in H. destruct (rg_heap r !! a) eqn:E; [by eapply Hb|]. by case_decide.
  - intros a res kf H Hk. rewrite close_all_lookup in H. case_decide; [|by eapply Hf].
    destruct (rg_heap r !! a) as [rs|] eqn:E; [|done]. cbn in H. simplify_eq. by eapply (Hf a rs).
Qed.
(** The address that a look-up gives is of a resolver for the source. *)
Definition resolver_for (src : JWTSource) (a : nat) (h : gmap nat resolver) : Prop := fp_at h a = Some (fingerprint src).
Lemma resolver_for_ext src a h h' : heap_ext h h' → resolver_for src a h → resolver_for src a h'.
Proof.
  unfold resolver_for, fp_at. intros H. destruct (h !! a) as [rs|] eqn:E; [|done]. intros [= <-].
  destruct (H a rs E) as (rs' & -> & Hfp & _). cbn. by rewrite Hfp.
Qed.
Lemma lookup_grows src r a old r' : lookup_map src r = (a, old, r') → reg_grows r r' ∧ resolver_for src a (rg_heap r').
Proof.
  assert (Hf : reg_grows r (fresh_registry src r) ∧ resolver_for src (rg_next r) (rg_heap (fresh_registry src r))).
  { split; [apply fresh_grows|]. unfold resolver_for, fp_at. cbn. by rewrite lookup_insert_eq. }
  unfold lookup_map. destruct (rg_resolvers r !! j_Name src); [case_bool_decide|]; intros [= <- _ <-]; done.
Qed.
Lemma add_placeholder_ext S r nf : reg_inv S r → heap_ext (rg_heap r) (rg_heap (add_placeholder r nf)).
Proof. intros H%reg_inv_sound. by apply add_placeholder_grows. Qed.
Lemma add_placeholders_ext S l r : reg_inv S r → heap_ext (rg_heap r) (rg_heap (foldl add_placeholder r l)).
Proof. intros H%reg_inv_sound. by apply add_placeholders_grows. Qed.
(** A placeholder is on the map. *)
Lemma add_placeholders_where l r a : is_Some (rg_heap (foldl add_placeholder r l) !! a) →
  is_Some (rg_heap r !! a) ∨ ∃ name, rg_resolvers (foldl add_placeholder r l) !! name = Some a.
Proof.
  revert r. induction l as [|nf l IH]; intros r Ha; [by left|]. cbn in *. apply IH in Ha as [Ha|Ha]; [|by right].
  unfold add_placeholder in Ha. destruct (rg_resolvers r !! nf.1) eqn:E; [by left|]. cbn in Ha.
  destruct Ha as [rs [[<- _]|[_ Ha]]%lookup_insert_Some]; [|by left]. right. exists nf.1.
  assert (Hkeep : ∀ l r0, rg_resolvers r0 !! nf.1 = Some (rg_next r) → rg_resolvers (foldl add_placeholder r0 l) !! nf.1 = Some (rg_next r)).
  { clear. induction l as [|x l IH]; intros r0 H; [done|]. cbn. by apply IH, add_placeholder_map. }
  apply Hkeep. unfold add_placeholder. rewrite E. cbn. by rewrite lookup_insert_eq.
Qed.
(** The map after the placeholders: what was kept, or fresh. *)
Lemma placed S want r name a : reg_inv S r →
  let r' := foldl add_placeholder (kept_registry want r) (map_to_list want) in
  rg_resolvers r' !! name = Some a →
  rg_resolvers r !! name = Some a ∧ keep_entry want (rg_heap r) (name, a) = true ∨ rg_next r ≤ a.
Proof.
  intros Hi r' Ha. pose proof (add_placeholders_spec _ (map_to_list want) _ name (NoDup_fst_map_to_list want) (kept_inv _ want _ Hi)) as H.
  cbn zeta in H. fold r' in H. rewrite Ha in H. destruct (rg_resolvers (kept_registry want r) !! name) as [b|] eqn:E.
  - destruct H as [[= ->] _]. left. cbn in E. by apply map_lookup_filter_Some in E.
  - destruct (list_to_map _ !! name) as [fp|]; [|done]. destruct H as (b & [= ->] & Hn & _). by right.
Qed.
Lemma kept_placed S want r name a : reg_inv S r → rg_resolvers r !! name = Some a →
  a ∈ stale_of want r ∨ rg_resolvers (foldl add_placeholder (kept_registry want r) (map_to_list want)) !! name = Some a.
Proof.
  intros Hi Ha. destruct (keep_entry want (rg_heap r) (name, a)) eqn:E; [right|left; apply stale_of_spec; eauto].
  pose proof (add_placeholders_spec _ (map_to_list want) _ name (NoDup_fst_map_to_list want) (kept_inv _ want _ Hi)) as H.
  assert (Hk : rg_resolvers (kept_registry want r) !! name = Some a) by by apply map_lookup_filter_Some.
  rewrite Hk in H. apply H.
Qed.

Lemma Keyfunc_build_ext now src a r res r' : Keyfunc_build now src a r = (res, r') →
  heap_ext (rg_heap r) (rg_heap r') ∧ rg_resolvers r' = rg_resolvers r ∧ rg_seen r' = rg_seen r ∧
  (∀ b, is_Some (rg_heap r' !! b) → is_Some (rg_heap r !! b)) ∧
  ∀ kf rs, res = Ok kf → rg_heap r !! a = Some rs → ∃ rs', rg_heap r' !! a = Some rs' ∧ rs_fingerprint rs' = rs_fingerprint rs ∧ rs_kf rs' = Some kf.
Proof.
  unfold Keyfunc_build. destruct (rg_heap r !! a) as [rs|] eqn:E; [|intros [= <- <-]; split_and!; try done; apply heap_ext_refl].
  destruct (rs_kf rs) as [kf|] eqn:Ek; [|destruct (now <? rs_nextTry rs)%Z].
  1, 2: intros [= <- <-]; split_and!; try done; try apply heap_ext_refl; intros k rs0 Hk Hr; simplify_eq; by eexists.
  assert (Hset : ∀ rs' n, rs_fingerprint rs' = rs_fingerprint rs →
    heap_ext (rg_heap r) (rg_heap (set_resolver a rs' n r)) ∧
    ∀ b, is_Some (rg_heap (set_resolver a rs' n r) !! b) → is_Some (rg_heap r !! b)).
  { intros rs' n Hfp. split.
    - intros b rb Hb. cbn. destruct (decide (a = b)) as [<-|Hne].
      + simplify_eq. exists rs'. rewrite lookup_insert_eq. split_and!; [done..|]. congruence.
      + exists rb. by rewrite lookup_insert_ne.
    - intros b [rb Hb]. cbn in Hb. apply lookup_insert_Some in Hb as [[<- _]|[_ Hb]]; by eauto. }
  destruct (build_keyfn (rg_fetches r) src) as [[[[kf url] client]|e] n]; intros [= <- <-].
  - edestruct Hset as [H1 H2]; [|split_and!; [exact H1|done|done|exact H2|]]; [done|].
    intros k rs0 [= <-] Hr. simplify_eq. cbn. eexists. by rewrite lookup_insert_eq.
  - edestruct Hset as [H1 H2]; [|split_and!; [exact H1|done|done|exact H2|done]]. done.
Qed.

(** A build on a resolver for the source keeps to its fingerprint. *)
Lemma build_grows now src a r res r' : resolver_for src a (rg_heap r) → Keyfunc_build now src a r = (res, r') →
  reg_grows r r' ∧ (reg_sound r → ∀ kf, res = Ok kf → built_for (fingerprint src) kf).
Proof.
  unfold resolver_for, fp_at. intros Hfp H. pose proof (Keyfunc_build_ext _ _ _ _ _ _ H) as (Hext & _ & _ & _ & Hok).
  destruct (rg_heap r !! a) as [rs|] eqn:E; [|done]. injection Hfp as Hfp.
  assert (Hsound : reg_sound r → reg_sound r').
  { intros [Hb Hf]. unfold Keyfunc_build in H. rewrite E in H. destruct (rs_kf rs) as [kf|] eqn:Ek; [by simplify_eq|].
    case_if_in H; [by simplify_eq|]. destruct (build_keyfn (rg_fetches r) src) as [[[[kf url] client]|e] n] eqn:Eb; simplify_eq.
    - split; cbn.
      + intros b rb [[<- _]|[_ Hr]]%lookup_insert_Some; by eapply Hb.
      + intros b rb kf' [[<- <-]|[_ Hr]]%lookup_insert_Some; cbn; [|by eapply Hf]. intros [= <-]. rewrite Hfp.
        by exists src, (rg_fetches r), url, client, n.
    - split; cbn.
      + intros b rb [[<- _]|[_ Hr]]%lookup_insert_Some; by eapply Hb.
      + intros b rb kf' [[<- <-]|[_ Hr]]%lookup_insert_Some; cbn; [done|by eapply Hf]. }
  split; [by split|]. intros Hs kf ->. destruct (Hok kf rs eq_refl eq_refl) as (rs' & Hr & Hf & Hk).
  rewrite <- Hfp, <- Hf. by eapply (sd_built _ (Hsound Hs)).
Qed.
Lemma Keyfunc_grows now src r res r' : Keyfunc_ now src r = (res, r') → reg_grows r r'.
Proof.
  destruct (j_Local src) eqn:El.
  { unfold Keyfunc_. rewrite El. by intros [= _ <-]. }
  rewrite Keyfunc_steps by done. destruct (lookup_map src r) as [[a old] r1] eqn:Ea. intros H.
  apply lookup_grows in Ea as [H1 H2]. etrans; [exact H1|]. pose proof (close_grows (option_list old) r1) as H3.
  etrans; [exact H3|]. eapply build_grows; [|exact H]. eapply resolver_for_ext; [apply heap_ext_close|done].
Qed.

(** A build that came after its resolver was closed. *)
Definition leaked (tr : list kevent) (a : nat) : Prop :=
  ∃ t1 c now kf t2, tr = t1 ++ KBuild c now (Ok kf) :: t2 ∧ kc_addr c = a ∧ KClose a ∈ t1.
Lemma leaked_app tr tr' a : leaked tr a → leaked (tr ++ tr') a.
Proof. intros (t1 & c & now & kf & t2 & -> & H). exists t1, c, now, kf, (t2 ++ tr'). by rewrite <- app_assoc. Qed.

(** What the configuration published under [p] wants. *)
Variable cfgs : nat → InboundAuthConfig.
Definition up_to_date (auth : InboundAuthConfig) r : Prop := ∀ name, rg_resolvers r !! name ≫= fp_at (rg_heap r) = desired auth !! name.
Definition addressed (tr : list kevent) : Prop := ∀ ptr auth, KReconcile ptr auth ∈ tr → auth = cfgs ptr.

Record kinv (tr : list kevent) (s : kstate) : Prop := {
  ki_reg : ∃ lk, Forall (leaked tr) lk ∧ reg_inv (ks_stale s ++ lk) (ks_reg s);
  ki_off : ∀ a name, a ∈ ks_stale s → rg_resolvers (ks_reg s) !! name ≠ Some a;
  ki_stale : ∀ a, a ∈ ks_stale s → is_Some (rg_heap (ks_reg s) !! a);
  ki_calls : ∀ c, c ∈ ks_calls s → ∃ rs, rg_heap (ks_reg s) !! kc_addr c = Some rs ∧ rs_fingerprint rs = fingerprint (kc_src c);
  ki_where : ∀ a, is_Some (rg_heap (ks_reg s) !! a) →
    (∃ name, rg_resolvers (ks_reg s) !! name = Some a) ∨ a ∈ ks_stale s ∨ KClose a ∈ tr;
  ki_answers : ∀ c now kf, KBuild c now (Ok kf) ∈ tr →
    ∃ rs, rg_heap (ks_reg s) !! kc_addr c = Some rs ∧ rs_fingerprint rs = fingerprint (kc_src c) ∧ rs_kf rs = Some kf;
  ki_seen : ∀ p, rg_seen (ks_reg s) = Some p → up_to_date (cfgs p) (ks_reg s)
}.

(** Names resolve to the same fingerprints after a step that keeps the map. *)
Lemma exact_ext S auth r r' : reg_inv S r → rg_resolvers r' = rg_resolvers r → heap_ext (rg_heap r) (rg_heap r') →
  up_to_date auth r → up_to_date auth r'.
Proof.
  intros Hi Hmap Hext He name. rewrite Hmap, <- He. destruct (rg_resolvers r !! name) as [a|] eqn:E; [|done]. cbn.
  destruct (ri_map _ _ Hi _ _ E) as (rs & Hrs & _). destruct (Hext a rs Hrs) as (rs' & Hrs' & Hfp & _).
  unfold fp_at. rewrite Hrs, Hrs'. cbn. congruence.
Qed.
Lemma old_answers (tr : list kevent) h h' : heap_ext h h' →
  (∀ c now kf, KBuild c now (Ok kf) ∈ tr → ∃ rs, h !! kc_addr c = Some rs ∧ rs_fingerprint rs = fingerprint (kc_src c) ∧ rs_kf rs = Some kf) →
  ∀ c now kf, KBuild c now (Ok kf) ∈ tr → ∃ rs, h' !! kc_addr c = Some rs ∧ rs_fingerprint rs = fingerprint (kc_src c) ∧ rs_kf rs = Some kf.
Proof.
  intros Hext H c now kf (rs & Hrs & Hfp & Hk)%H. destruct (Hext _ _ Hrs) as (rs' & ? & ? & ?). exists rs'. split_and!; [done|congruence|auto].
Qed.
Lemma old_calls (calls : list kcall) h h' : heap_ext h h' →
  (∀ c, c ∈ calls → ∃ rs, h !! kc_addr c = Some rs ∧ rs_fingerprint rs = fingerprint (kc_src c)) →
  ∀ c, c ∈ calls → ∃ rs, h' !! kc_addr c = Some rs ∧ rs_fingerprint rs = fingerprint (kc_src c).
Proof.
  intros Hext H c (rs & Hrs & Hfp)%H. destruct (Hext _ _ Hrs) as (rs' & ? & ? & ?). exists rs'. split; [done|congruence].
Qed.
Lemma heap_ext_some h h' a : heap_ext h h' → is_Some (h !! a) → is_Some (h' !! a).
Proof. intros H [rs (rs' & ? & _)%H]. eauto. Qed.
End lemmas.

Section steps_ok.
Context {C : Crypto} {X : X509} {N : NetURL} {U : Unicode} {F : Floats} {J : JWT} {W : Network}.
Variable cfgs : nat → InboundAuthConfig.
Notation kinv := (kinv cfgs).

Lemma kinv_start local : kinv [] (kstart local).
Proof.
  assert (H : rg_resolvers (ks_reg (kstart local)) = ∅ ∧ rg_heap (ks_reg (kstart local)) = ∅ ∧ rg_seen (ks_reg (kstart local)) = None).
  { by destruct local as [[kf d]|]. }
  destruct H as (Hm & Hh & Hs). split.
  - exists []. split; [constructor|]. destruct local as [[kf d]|]; [|apply reg_inv_new]. destruct reg_inv_new. by split.
  - intros a name Ha. by apply elem_of_nil in Ha.
  - intros a Ha. by apply elem_of_nil in Ha.
  - intros a Ha. by apply elem_of_nil in Ha.
  - intros a [rs Hr]. rewrite Hh in Hr. by rewrite lookup_empty in Hr.
  - intros c now kf Hc. by apply elem_of_nil in Hc.
  - intros p Hp. congruence.
Qed.

(** An event that leaves the registry as it is. *)
Lemma kinv_stutter tr e s calls closed : kinv tr s → (∀ c now kf, e ≠ KBuild c now (Ok kf)) →
  (∀ c, c ∈ calls → ∃ rs, rg_heap (ks_reg s) !! kc_addr c = Some rs ∧ rs_fingerprint rs = fingerprint (kc_src c)) →
  kinv (tr ++ [e]) (mkKState (ks_reg s) (ks_stale s) calls closed).
Proof.
  intros [[lk [Hlk Hi]] Hoff Hst Hcalls Hwhere Hans Hseen] He Hnew. split; cbn; try done.
  - exists lk. split; [|done]. eapply Forall_impl; [done|]. intros a. apply leaked_app.
  - intros a Ha. destruct (Hwhere a Ha) as [?|[?|?]]; [by left|right; by left|right; right; apply elem_of_app; by left].
  - intros c now kf [Hc|Hc%list_elem_of_singleton]%elem_of_app; [by eapply Hans|]. by destruct (He c now kf).
Qed.

(** The addresses on the map and the heap after [Reconcile]'s part under the lock. *)
Lemma reconcile_map_kinv tr s ptr auth stale r : kinv tr s → auth = cfgs ptr → reconcile_map ptr auth (ks_reg s) = (stale, r) →
  kinv (tr ++ [KReconcile ptr auth]) (mkKState r (stale ++ ks_stale s) (ks_calls s) (ks_closed s)) ∧ up_to_date auth r.
Proof.
  intros Hk -> H. unfold reconcile_map, reconcile_locked in H. case_bool_decide as E.
  { injection H as <- <-. split; [|by apply (ki_seen _ _ _ Hk)]. apply (kinv_stutter tr _ s (ks_calls s)); [done..|apply (ki_calls _ _ _ Hk)]. }
  destruct Hk as [[lk [Hlk Hi]] Hoff Hst Hcalls Hwhere Hans Hseen].
  set (want := desired (cfgs ptr)) in *. set (r1 := foldl add_placeholder (kept_registry want (ks_reg s)) (map_to_list want)) in *.
  injection H as <- <-.
  pose proof (kept_inv _ want _ Hi) as Hk. pose proof (add_placeholders_inv _ (map_to_list want) _ Hk) as Hi1. fold r1 in Hi1.
  pose proof (add_placeholders_ext _ (map_to_list want) _ Hk : heap_ext (rg_heap (ks_reg s)) (rg_heap r1)) as Hext.
  pose proof (λ name, Reconcile_names _ (cfgs ptr) _ name Hi) as Hn. cbn zeta in Hn. fold want in Hn. fold r1 in Hn.
  assert (Hex : up_to_date (cfgs ptr) r1).
  { intros name. specialize (Hn name). fold want. destruct (want !! name) as [fp|]; [|by rewrite Hn].
    by destruct Hn as (a & -> & Hfp & _). }
  split; [|exact Hex]. split; cbn.
  - exists lk. split; [eapply Forall_impl; [done|]; intros a; apply leaked_app|]. rewrite <- app_assoc. destruct Hi1. by split.
  - intros a name Ha Hmap. apply (placed _ _ _ _ _ Hi) in Hmap as [[Hmap Hkeep]|Hfresh].
    + apply elem_of_app in Ha as [(n & Hn' & Hno)%stale_of_spec|Ha]; [|by eapply Hoff].
      rewrite (reg_inv_inj _ _ _ _ _ Hi Hn' Hmap) in Hno. congruence.
    + assert (Hsome : is_Some (rg_heap (ks_reg s) !! a)).
      { apply elem_of_app in Ha as [(n & Hn' & _)%stale_of_spec|Ha]; [|by apply Hst].
        destruct (ri_map _ _ Hi _ _ Hn') as (rs & -> & _). done. }
      destruct Hsome as [rs Hrs%(ri_heap _ _ Hi)]. lia.
  - intros a [Ha|Ha]%elem_of_app; [|by eapply heap_ext_some, Hst]. apply stale_of_spec in Ha as (name & Ha & _).
    destruct (ri_map _ _ Hi _ _ Ha) as (rs & Hrs & _). eapply heap_ext_some; [done|]. by rewrite Hrs.
  - by eapply old_calls.
  - intros a [Ha|Ha]%add_placeholders_where; [|by left].
    destruct (Hwhere a Ha) as [[name Hname]|[?|?]]; [|right; left; apply elem_of_app; by right|right; right; apply elem_of_app; by left].
    destruct (kept_placed _ want _ _ _ Hi Hname) as [?|?]; [right; left; apply elem_of_app; by left|left; by exists name].
  - intros c now kf [Hc|Hc%list_elem_of_singleton]%elem_of_app; [|done]. by eapply (old_answers tr).
  - intros p [= <-]. exact Hex.
Qed.

Lemma fresh_none S r : reg_inv S r → rg_heap r !! rg_next r = None.
Proof. intros [_ Hh _ _]. destruct (rg_heap r !! rg_next r) eqn:E; [|done]. apply Hh in E. lia. Qed.
Lemma fresh_inv S src r : reg_inv S r → reg_inv (option_list (rg_resolvers r !! j_Name src) ++ S) (fresh_registry src r).
Proof.
  intros Hi. pose proof (fresh_none _ _ Hi) as Hfresh. destruct Hi as [Hm Hh Hr Hb]. split; cbn.
  - intros name a [[<- <-]|[Hn Ha]]%lookup_insert_Some.
    + exists (new_resolver (j_Name src) (fingerprint src)). by rewrite lookup_insert_eq.
    + destruct (Hm name a Ha) as (res & Hres & ? & ?). exists res. split; [|done]. rewrite lookup_insert_ne; [done|congruence].
  - intros a res [[<- _]|[_ H]]%lookup_insert_Some; [lia|]. apply Hh in H. lia.
  - intros a (res & Ha & Hk & Hc). cbn in Ha. apply lookup_insert_Some in Ha as [[<- <-]|[Hn Ha]]; [by destruct Hk|].
    destruct (Hr a) as [[name Hname]|?]; [by exists res| |right; apply elem_of_app; by right].
    destruct (decide (name = j_Name src)) as [->|Hne].
    + right. rewrite Hname. by left.
    + left. exists name. by rewrite lookup_insert_ne.
  - intros a res kf [[<- <-]|[_ H]]%lookup_insert_Some; [done|]. by eapply Hb.
Qed.
Lemma fresh_kinv tr s src : kinv tr s →
  kinv (tr ++ [KLookup src]) (mkKState (fresh_registry src (ks_reg s))
    (option_list (rg_resolvers (ks_reg s) !! j_Name src) ++ ks_stale s) (mkKCall src (rg_next (ks_reg s)) :: ks_calls s) (ks_closed s)).
Proof.
  intros [[lk [Hlk Hi]] Hoff Hst Hcalls Hwhere Hans Hseen]. set (r := ks_reg s) in *. pose proof (fresh_none _ _ Hi) as Hfresh.
  assert (Hext : heap_ext (rg_heap r) (rg_heap (fresh_registry src r))) by by apply heap_ext_insert.
  split; cbn.
  - exists lk. split; [eapply Forall_impl; [done|]; intros a; apply leaked_app|]. rewrite <- app_assoc. by apply fresh_inv.
  - intros a name Ha [[<- <-]|[Hn Hmap]]%lookup_insert_Some.
    + assert (Hsome : is_Some (rg_heap r !! rg_next r)); [|rewrite Hfresh in Hsome; by destruct Hsome].
      apply elem_of_app in Ha as [Ha|Ha]; [|by apply Hst]. destruct (rg_resolvers r !! j_Name src) as [b|] eqn:E; [|by apply elem_of_nil in Ha].
      apply list_elem_of_singleton in Ha as ->. destruct (ri_map _ _ Hi _ _ E) as (rs & -> & _). done.
    + apply elem_of_app in Ha as [Ha|Ha]; [|by eapply Hoff]. destruct (rg_resolvers r !! j_Name src) as [b|] eqn:E; [|by apply elem_of_nil in Ha].
      apply list_elem_of_singleton in Ha as ->. apply Hn. exact (reg_inv_inj _ _ _ _ _ Hi E Hmap).
  - intros a [Ha|Ha]%elem_of_app; [|by eapply heap_ext_some, Hst].
    destruct (rg_resolvers r !! j_Name src) as [b|] eqn:E; [|by apply elem_of_nil in Ha]. apply list_elem_of_singleton in Ha as ->.
    destruct (ri_map _ _ Hi _ _ E) as (rs & Hrs & _). eapply heap_ext_some; [done|]. by rewrite Hrs.
  - intros c [->|Hc]%elem_of_cons; [|by eapply old_calls]. cbn. rewrite lookup_insert_eq. by eexists.
  - intros a [rs [[<- _]|[Hn Ha]]%lookup_insert_Some]; [left; exists (j_Name src); cbn; by rewrite lookup_insert_eq|].
    destruct (Hwhere a) as [[name Hname]|[?|?]]; [by eexists| |right; left; apply elem_of_app; by right|right; right; apply elem_of_app; by left].
    destruct (decide (name = j_Name src)) as [->|Hne].
    + right. left. rewrite Hname. by left.
    + left. exists name. cbn. by rewrite lookup_insert_ne.
  - intros c now kf [Hc|Hc%list_elem_of_singleton]%elem_of_app; [|done]. by eapply (old_answers tr).
  - intros p Hp. done.
Qed.

Lemma lookup_kinv tr s src a old r : kinv tr s → lookup_map src (ks_reg s) = (a, old, r) →
  kinv (tr ++ [KLookup src]) (mkKState r (option_list old ++ ks_stale s) (mkKCall src a :: ks_calls s) (ks_closed s)).
Proof.
  intros Hk H. unfold lookup_map in H. pose proof (fresh_kinv tr s src Hk) as Hf.
  destruct (rg_resolvers (ks_reg s) !! j_Name src) as [b|] eqn:Eb; [case_bool_decide as Efp|]; injection H as <- <- <-; [|done..].
  apply (kinv_stutter tr _ s); [done..|]. intros c [->|Hc]%elem_of_cons; [|by apply (ki_calls _ _ _ Hk)].
  unfold fp_at in Efp. cbn. destruct (rg_heap _ !! b) as [rs|]; [|done]. injection Efp as Efp. by exists rs.
Qed.
Lemma close_kinv tr s a before after : kinv tr s → ks_stale s = before ++ a :: after →
  kinv (tr ++ [KClose a]) (mkKState (close_stale [a] (ks_reg s)) (before ++ after) (ks_calls s) (ks_closed s)).
Proof.
  intros [[lk [Hlk Hi]] Hoff Hst Hcalls Hwhere Hans Hseen] Est. rewrite Est in *.
  assert (Hin : a ∈ before ++ a :: after) by (apply elem_of_app; right; by left).
  assert (Hsub : ∀ x, x ∈ before ++ after → x ∈ before ++ a :: after) by (intros x; rewrite !elem_of_app, elem_of_cons; tauto).
  assert (Hext : heap_ext (rg_heap (ks_reg s)) (close_all [a] (rg_heap (ks_reg s)))) by apply heap_ext_close.
  assert (Hi' : reg_inv ((before ++ after) ++ lk) (close_stale [a] (ks_reg s))).
  { apply (close_all_inv [a]); [|intros x name ->%list_elem_of_singleton; by apply Hoff].
    eapply reg_inv_mono; [|exact Hi]. intros x. rewrite !elem_of_app, elem_of_cons. cbn. rewrite list_elem_of_singleton. tauto. }
  split; cbn -[close_all].
  - exists lk. split; [|done]. eapply Forall_impl; [done|]. intros b. apply leaked_app.
  - intros b name Hb. by apply Hoff, Hsub.
  - intros b Hb. eapply heap_ext_some; [done|]. by apply Hst, Hsub.
  - by eapply old_calls.
  - intros b Hb. assert (Hb0 : is_Some (rg_heap (ks_reg s) !! b)).
    { destruct Hb as [rb Hb]. rewrite close_all_lookup in Hb. destruct (rg_heap (ks_reg s) !! b); [done|]. by case_decide. }
    destruct (Hwhere b Hb0) as [?|[Hb1|?]]; [by left| |right; right; apply elem_of_app; by left].
    destruct (decide (b = a)) as [->|Hne]; [right; right; apply elem_of_app; right; by left|]. right. left.
    revert Hb1. rewrite !elem_of_app, elem_of_cons. tauto.
  - intros c now kf [Hc|Hc%list_elem_of_singleton]%elem_of_app; [|done]. by eapply (old_answers tr).
  - intros p Hp. eapply exact_ext; [exact Hi|done|exact Hext|by apply Hseen].
Qed.
Lemma build_kinv tr s c before after now res r : kinv tr s → ks_calls s = before ++ c :: after →
  Keyfunc_build now (kc_src c) (kc_addr c) (ks_reg s) = (res, r) →
  kinv (tr ++ [KBuild c now res]) (mkKState r (ks_stale s) (before ++ after) (ks_closed s)).
Proof.
  intros Hk Ec H.
  pose proof (Keyfunc_build_ext _ _ _ _ _ _ H) as (Hext & Hmap & Hseen' & Hdom & Hok).
  destruct Hk as [[lk [Hlk Hi]] Hoff Hst Hcalls Hwhere Hans Hseen].
  destruct (Hcalls c) as (rs & Hrs & Hfp); [rewrite Ec; apply elem_of_app; right; by left|].
  assert (Hreg : ∃ lk, Forall (leaked (tr ++ [KBuild c now res])) lk ∧ reg_inv (ks_stale s ++ lk) r).
  { assert (Hlk' : Forall (leaked (tr ++ [KBuild c now res])) lk) by (eapply Forall_impl; [done|]; intros b; apply leaked_app).
    destruct res as [kf|err].
    + destruct (Hwhere (kc_addr c)) as [Hm|[Hm|Hm]]; [by rewrite Hrs|..].
      1: exists lk; split; [done|]; eapply Keyfunc_build_inv; [done|intros _; by left|done..|exact H].
      1: exists lk; split; [done|]; eapply Keyfunc_build_inv; [done|intros _; right; apply elem_of_app; by left|done..|exact H].
      exists (kc_addr c :: lk). split; [constructor; [by exists tr, c, now, kf, []|done]|].
      eapply (Keyfunc_build_inv _ _ _ _ (ks_reg s)); [|intros _; right; apply elem_of_app; right; by left|done..|exact H].
      eapply reg_inv_mono; [|exact Hi]. intros x. rewrite !elem_of_app, elem_of_cons. tauto.
    + exists lk. split; [done|]. by eapply (Keyfunc_build_inv _ now _ _ _ _ (Err err)). }
  split; cbn; [done|intros a name; rewrite Hmap; apply Hoff|intros a Ha; by eapply heap_ext_some, Hst|..].
  - eapply old_calls; [done|]. intros c' Hc'. apply Hcalls. rewrite Ec. revert Hc'. rewrite !elem_of_app, elem_of_cons. tauto.
  - intros a [?|[?|?]]%Hdom%Hwhere; [left; by rewrite Hmap|right; by left|right; right; apply elem_of_app; by left].
  - intros c' now' kf [Hc|Hc%list_elem_of_singleton]%elem_of_app; [by eapply (old_answers tr)|]. injection Hc as -> -> <-.
    destruct (Hok kf rs eq_refl Hrs) as (rs' & ? & ? & ?). exists rs'. split_and!; [done|congruence|done].
  - intros p Hp. rewrite Hseen' in Hp. eapply exact_ext; [exact Hi|done|exact Hext|by apply Hseen].
Qed.
Lemma kstep_kinv tr s e s' : addressed cfgs (tr ++ [e]) → kinv tr s → kstep s e s' → kinv (tr ++ [e]) s'.
Proof.
  intros Haddr Hk Hs. destruct Hs as [ptr auth stale r H|src a old r Hloc H|a before after Est|c before after now res r Ec H|].
  - eapply reconcile_map_kinv; [done| |done]. apply (Haddr ptr), elem_of_app. right. by left.
  - by apply lookup_kinv.
  - by apply close_kinv.
  - by apply build_kinv.
  - apply (kinv_stutter tr _ s); [done..|apply (ki_calls _ _ _ Hk)].
Qed.
Lemma kruns_kinv local tr s : addressed cfgs tr → kruns (kstart local) tr s → kinv tr s.
Proof.
  intros Haddr. induction 1 as [|tr s1 e s2 Hr IH Hs]; [apply kinv_start|]. eapply kstep_kinv; [done| |done]. apply IH.
  intros ptr auth Hin. apply (Haddr ptr). apply elem_of_app. by left.
Qed.
Lemma kruns_last s0 tr e s : kruns s0 (tr ++ [e]) s → ∃ s1, kruns s0 tr s1 ∧ kstep s1 e s.
Proof. inversion 1 as [|tr' s1 e' s2 Hr Hs E]; [by destruct tr|]. apply app_inj_tail in E as [-> ->]. eauto. Qed.
Lemma kruns_closed s0 tr s : kruns s0 tr s → KShutdown ∈ tr → ks_closed s = true.
Proof.
  induction 1 as [|tr s1 e s2 Hr IH Hs]; [by intros ?%elem_of_nil|]. intros [Hin|Hin%list_elem_of_singleton]%elem_of_app.
  - destruct Hs; cbn; by auto.
  - subst e. by inversion Hs.
Qed.
End steps_ok.

(** * Properties *)

(** C21: keys under concurrency. However reconciliations and requests for keys
    interleave, with each configuration reconciled under its own address: after a
    reconciliation, the fast path included, the resolvers are those its configuration
    wants, whatever requests that still hold an older one put on the map in between. The
    keys a request is given were built for a source of its own fingerprint, and two
    requests that found the same resolver are given the same keys. A refresher runs only
    for a resolver on the map, for one about to be closed, or for one that a request
    built after it was closed; and none runs once [Close] was called. *)
Theorem Keyfunc_concurrent {C : Crypto} {X : X509} {N : NetURL} {U : Unicode} {F : Floats} {J : JWT} {W : Network}
    local cfgs tr (s : kstate) (Haddr : addressed cfgs tr) (Hrun : kruns (kstart local) tr s) :
  (∀ tr1 ptr auth, tr = tr1 ++ [KReconcile ptr auth] → up_to_date auth (ks_reg s)) ∧
  (∀ c now kf, KBuild c now (Ok kf) ∈ tr → built_for (fingerprint (kc_src c)) kf ∧
     ∀ c' now' kf', KBuild c' now' (Ok kf') ∈ tr → kc_addr c' = kc_addr c → kf' = kf) ∧
  (∀ a, refreshing s a → (∃ name, rg_resolvers (ks_reg s) !! name = Some a) ∨ a ∈ ks_stale s ∨ leaked tr a) ∧
  (KShutdown ∈ tr → ∀ a, ¬ refreshing s a).
Proof.
  pose proof (kruns_kinv cfgs local tr s Haddr Hrun) as Hk. split_and!.
  - intros tr1 ptr auth ->. apply kruns_last in Hrun as (s1 & Hr1 & Hs).
    assert (Ha1 : addressed cfgs tr1) by (intros p a Hin; apply (Haddr p), elem_of_app; by left).
    inversion Hs as [? ? stale r Hm| | | |]; subst.
    apply (reconcile_map_kinv cfgs tr1 s1 ptr auth stale r); [by eapply kruns_kinv| |done].
    apply (Haddr ptr), elem_of_app. right. by left.
  - intros c now kf Hc. destruct (ki_answers _ _ _ Hk _ _ _ Hc) as (rs & Hrs & Hfp & Hkf). split.
    + destruct (ki_reg _ _ _ Hk) as (lk & _ & Hi). rewrite <- Hfp. by eapply (ri_built _ _ Hi).
    + intros c' now' kf' Hc' E. destruct (ki_answers _ _ _ Hk _ _ _ Hc') as (rs' & Hrs' & _ & Hkf'). congruence.
  - intros a [Ha _]. destruct (ki_reg _ _ _ Hk) as (lk & Hlk & Hi).
    destruct (ri_run _ _ Hi a Ha) as [?|[?|Hin]%elem_of_app]; [by left|right; by left|]. right; right. rewrite Forall_forall in Hlk. by apply Hlk.
  - intros Hin a [_ Hc]. rewrite (kruns_closed _ _ _ Hrun Hin) in Hc. done.
Qed.

(** ** A concrete run *)

Section demo.
Context {C : Crypto} {X : X509} {N : NetURL} {U : Unicode} {F : Floats} {J : JWT} {W : Network}.

Definition do_lookup (src : JWTSource) (s : kstate) : kstate :=
  let '(a, old, r) := lookup_map src (ks_reg s) in
  mkKState r (option_list old ++ ks_stale s) (mkKCall src a :: ks_calls s) (ks_closed s).
Definition do_reconcile (ptr : nat) (auth : InboundAuthConfig) (s : kstate) : kstate :=
  let '(stale, r) := reconcile_map ptr auth (ks_reg s) in mkKState r (stale ++ ks_stale s) (ks_calls s) (ks_closed s).
Definition do_build (c : kcall) (now : Z) (s : kstate) : result keyfn * kstate :=
  let '(res, r) := Keyfunc_build now (kc_src c) (kc_addr c) (ks_reg s) in
  (res, mkKState r (ks_stale s) (tail (ks_calls s)) (ks_closed s)).
Lemma do_lookup_step src s : j_Local src = false → kstep s (KLookup src) (do_lookup src s).
Proof. intros H. unfold do_lookup. destruct (lookup_map src (ks_reg s)) as [[a old] r] eqn:E. by constructor. Qed.
Lemma do_reconcile_step ptr auth s : kstep s (KReconcile ptr auth) (do_reconcile ptr auth s).
Proof. unfold do_reconcile. destruct (reconcile_map ptr auth (ks_reg s)) as [stale r] eqn:E. by constructor. Qed.
Lemma do_build_step c now s : head (ks_calls s) = Some c → kstep s (KBuild c now (do_build c now s).1) (do_build c now s).2.
Proof.
  unfold do_build. destruct (Keyfunc_build _ _ _ _) as [res r] eqn:E. destruct (ks_calls s) as [|c' calls] eqn:Ec; [done|].
  intros [= ->]. by apply (k_build s c [] calls).
Qed.
End demo.

#[local] Existing Instances demo_crypto demo_x509 demo_neturl ascii_unicode demo_floats demo_jwtlib demo_network.

(** A first fetch fails; while the next request builds the resolver, a reconciliation
    drops its source and closes it. *)
Definition demo_none : InboundAuthConfig := mkInboundAuth [] None None None.
Definition demo_call : kcall := mkKCall demo_source 0.
Definition demo_k1 := (do_build demo_call 0 (do_lookup demo_source (kstart None))).2.
Definition demo_k2 := do_reconcile 2 demo_none (do_lookup demo_source demo_k1).
Definition demo_k3 := mkKState (close_stale [0] (ks_reg demo_k2)) [] (ks_calls demo_k2) false.
Definition demo_k4 := (do_build demo_call (31 * second) demo_k3).2.
Definition demo_ktrace : list kevent :=
  [KLookup demo_source; KBuild demo_call 0 (do_build demo_call 0 (do_lookup demo_source (kstart None))).1; KLookup demo_source;
   KReconcile 2 demo_none; KClose 0; KBuild demo_call (31 * second) (Ok "https://idp/keys")].
Lemma demo_kruns : kruns (kstart None) demo_ktrace demo_k4.
Proof.
  change demo_ktrace with (((((([] ++ [KLookup demo_source]) ++
    [KBuild demo_call 0 (do_build demo_call 0 (do_lookup demo_source (kstart None))).1]) ++ [KLookup demo_source]) ++
    [KReconcile 2 demo_none]) ++ [KClose 0]) ++ [KBuild demo_call (31 * second) (Ok "https://idp/keys")]).
  apply kruns_snoc with demo_k3.
  2: { assert (E : (do_build demo_call (31 * second) demo_k3).1 = Ok "https://idp/keys") by (vm_compute; reflexivity).
       rewrite <- E. by apply do_build_step. }
  apply kruns_snoc with demo_k2; [|by apply (k_close demo_k2 0 [] [])].
  apply kruns_snoc with (do_lookup demo_source demo_k1); [|apply do_reconcile_step].
  apply kruns_snoc with demo_k1; [|by apply do_lookup_step].
  apply kruns_snoc with (do_lookup demo_source (kstart None)); [|by apply do_build_step].
  apply kruns_snoc with (kstart None); [constructor|by apply do_lookup_step].
Qed.
Lemma demo_addressed : addressed (λ _, demo_none) demo_ktrace.
Proof. intros ptr auth H. unfold demo_ktrace in H. rewrite !elem_of_cons, elem_of_nil in H. naive_solver. Qed.
Lemma demo_leaks : refreshing demo_k4 0 ∧ rg_resolvers (ks_reg demo_k4) = ∅ ∧ ks_stale demo_k4 = [].
Proof. split; [|by split]. split; [|done]. eexists. split; [reflexivity|]. split; [by eexists|done]. Qed.
Lemma only_leaked s a (P : Prop) : rg_resolvers (ks_reg s) = ∅ → ks_stale s = [] →
  (∃ name, rg_resolvers (ks_reg s) !! name = Some a) ∨ a ∈ ks_stale s ∨ P → P.
Proof. intros Hm Hs [[name Hn]|[Hn|Hn]]; [by rewrite Hm, lookup_empty in Hn|rewrite Hs in Hn; by apply elem_of_nil in Hn|done]. Qed.
Lemma Keyfunc_concurrent_witness :
  built_for (fingerprint demo_source) "https://idp/keys" ∧ leaked demo_ktrace 0 ∧ up_to_date demo_none (ks_reg demo_k2).
Proof.
  destruct (Keyfunc_concurrent None (λ _, demo_none) demo_ktrace demo_k4 demo_addressed demo_kruns) as (_ & H1 & H2 & _).
  split_and!.
  - apply (H1 demo_call (31 * second)%Z "https://idp/keys"). unfold demo_ktrace. do 5 right. left.
  - destruct demo_leaks as (Ha & Hm & Hs). exact (only_leaked demo_k4 0 _ Hm Hs (H2 0 Ha)).
  - intros name. reflexivity.
Defined.
