(* ===== verification/Session.v ===== *)
(** The cookies of a browser session and where a browser may be sent:
    [takeCookies] and [TakeRefreshCookies] of [internal/authn/login_refresh.go],
    the login cookie and [sanitizeReturnTo] of [login.go], the sign-in methods of
    [login_picker.go], and [http.Redirect].

    The HTML of the picker and of a redirect is not represented: a page is its
    status, headers and the list of its links. The embedded font is a parameter. *)
From S2P Require Import Prelude GoStrings ConfigTypes GoURL GoHTTP ConfigAuth Credentials.

(** * Taking cookies off a request (login_refresh.go) *)

Section take.
(** Cookie name to key. *)
Variable names : gmap string string.

(** One part of a Cookie line: taken under its key, or kept. *)
Definition take_part (acc : gmap string string * bool * list string) (part : string)
  : gmap string string * bool * list string :=
  let '(taken, changed, kept) := acc in
  let part := TrimSpace part in
  let '(name, value, _) := Cut part "=" in
  match names !! name with
  | Some src => (<[src := Trim value dquote]> taken, true, kept)
  | None => (taken, changed, kept ++ [part])
  end.
Definition take_line (acc : gmap string string * bool * list string) (line : string)
  : gmap string string * bool * list string :=
  let '(taken, changed, kept) := acc in
  let '(taken, changed, line_kept) := foldl take_part (taken, changed, []) (Split line ";") in
  (taken, changed, match line_kept with [] => kept | l => kept ++ [Join l "; "] end).

Definition takeCookies (r : Request) : gmap string string * Request :=
  if Header_Get (r_Header r) "Cookie" =? "" then (∅, r)
  else
    let '(taken, changed, kept) := foldl take_line (∅, false, []) (Header_Values (r_Header r) "Cookie") in
    (taken,
     if changed then
       with_Header (foldl (λ h k, Header_Add "Cookie" k h) (Header_Del "Cookie" (r_Header r)) kept) r
     else r).
End take.

(** The refresh cookies of the enabled logins, to their sources. *)
Definition refresh_names (auth : InboundAuthConfig) : gmap string string :=
  foldl (λ m j, match j_Login j with
                | Some l => if LoginEnabled j && l_Refresh l then <[RefreshCookieName l := j_Name j]> m else m
                | None => m
                end) ∅ (a_JWT auth).
Definition TakeRefreshCookies (r : Request) (auth : InboundAuthConfig) : gmap string string * Request :=
  let names := refresh_names auth in
  if names =? ∅ then (∅, r) else takeCookies names r.

(** * Login cookies (login.go) *)

Section cookies.
Context {U : Unicode}.

Definition loginSecure (l : JWTLogin) : bool := HasPrefix (ToLower (l_SPBaseURL l)) "https://".
Definition loginCookie (l : JWTLogin) (name value : string) (maxAge : Z) : Cookie :=
  mkCookie name value "/" maxAge true (loginSecure l).
End cookies.

(** * Same-origin return addresses (login.go) *)

Section return_to.
Context {N : NetURL}.

Definition sanitizeReturnTo (raw : string) : string :=
  if (raw =? "") || negb (HasPrefix raw "/") || HasPrefix raw "//" ||
     ContainsAny raw (String "\" (String (char 13) newline)) then "/"
  else
    match Parse raw with
    | Err _ => "/"
    | Ok u =>
        if (u_Scheme u !=? "") || (u_Host u !=? "") then "/"
        else if u_Path u =? LogoutPath then "/"
        else if under_login (u_Path u) then "/"
        else RequestURI u
    end.

(** The directory part of [path.Split]. *)
Definition path_dir (p : string) : string :=
  match LastIndexByte p "/" with Some i => s_take (S i) p | None => "" end.

(** The Location [http.Redirect] sends for [url]: a URL with neither scheme nor
    host is made absolute and cleaned, any other is sent as it is. *)
Definition redirect_location (r : Request) (url : string) : string :=
  match Parse url with
  | Ok u =>
      if (u_Scheme u =? "") && (u_Host u =? "") then
        let oldpath := if r_Path r =? "" then "/" else r_Path r in
        let url := if HasPrefix url "/" then url else path_dir oldpath +:+ url in
        let '(p, q, found) := Cut url "?" in
        let query := if found then "?" +:+ q else "" in
        let trailing := HasSuffix p "/" in
        let p := path_Clean p in
        let p := if trailing && negb (HasSuffix p "/") then p +:+ "/" else p in
        p +:+ query
      else url
  | Err _ => url
  end.
Definition Redirect (r : Request) (url : string) (code : Z) (w : Response) : Response :=
  WriteHeader code (w_Set "Location" (redirect_location r url) w).
End return_to.

(** * Sign-in methods (login_picker.go) *)

Definition loginMethodCookie := "tap_login_method".
Definition loginFontPath := LoginPathPrefix +:+ "/font.woff2".

Record loginMethod := mkMethod { lm_kind : string; lm_source : string; lm_label : string }.

Definition b64url_char (z : Z) : ascii :=
  if (z <? 26)%Z then char (z + 65) else if (z <? 52)%Z then char (z + 71)
  else if (z <? 62)%Z then char (z - 4) else if (z =? 62)%Z then "-"%char else "_"%char.
(** [base64.RawURLEncoding.EncodeToString] *)
Fixpoint b64url_encode (s : string) : string :=
  match s with
  | "" => ""
  | String a "" =>
      String (b64url_char (byte a / 4)) (String (b64url_char (byte a mod 4 * 16)) "")
  | String a (String b "") =>
      String (b64url_char (byte a / 4)) (String (b64url_char (byte a mod 4 * 16 + byte b / 16))
        (String (b64url_char (byte b mod 16 * 4)) ""))
  | String a (String b (String c rest)) =>
      String (b64url_char (byte a / 4)) (String (b64url_char (byte a mod 4 * 16 + byte b / 16))
        (String (b64url_char (byte b mod 16 * 4 + byte c / 64))
          (String (b64url_char (byte c mod 64)) (b64url_encode rest))))
  end.

Section picker.
Context {N : NetURL} {U : Unicode}.

Definition cookieValue (m : loginMethod) : string :=
  if lm_kind m =? "jwt" then "jwt:" +:+ b64url_encode (lm_source m) else lm_kind m.
Definition href (m : loginMethod) (returnTo : string) : string :=
  let q : Values := {["return_to" := [returnTo]]} in
  let q := if lm_kind m =? "jwt" then Values_Set "source" (lm_source m) q else q in
  LoginPathPrefix +:+ "/" +:+ lm_kind m +:+ "?" +:+ Values_Encode q.
Definition loginLabel (j : JWTSource) : string :=
  match j_Login j with
  | Some l => if l_Label l !=? "" then l_Label l else j_Name j
  | None => j_Name j
  end.
Definition loginMethods (auth : InboundAuthConfig) : list loginMethod :=
  ((λ j, mkMethod "jwt" (j_Name j) ("Sign in with " +:+ loginLabel j)) <$> LoginSources auth) ++
  (if SAMLEnabled auth then [mkMethod "saml" "" "Sign in with SAML"] else []) ++
  (if BasicEnabled auth then [mkMethod "basic" "" "Sign in with username and password"] else []).
Definition chosenMethod (r : Request) (methods : list loginMethod) : option loginMethod :=
  match Cookie_ r loginMethodCookie with
  | None => None
  | Some v => find (λ m, cookieValue m =? v) methods
  end.
Definition browserNav (r : Request) : bool :=
  ((r_Method r =? "GET") || (r_Method r =? "HEAD")) &&
  Contains (Header_Get (r_Header r) "Accept") "text/html".

(** [tls]: was the request received over TLS? *)
Definition request_secure (tls : bool) (r : Request) : bool :=
  tls || EqualFold (Header_Get (r_Header r) "X-Forwarded-Proto") "https".
Definition setMethodCookie (tls : bool) (r : Request) (m : loginMethod) (w : Response) : Response :=
  SetCookie (mkCookie loginMethodCookie (cookieValue m) "/" 0 true (request_secure tls r)) w.

(** A picker page: its links are kept in the body, one per line. *)
Definition servePickerPage (w : Response) (status : Z) (links : list string) : Response :=
  Write (Join links newline) (WriteHeader status
    (w_Set "Cache-Control" "no-store" (w_Set "Content-Type" "text/html; charset=utf-8" w))).
Definition servePicker (w : Response) (methods : list loginMethod) (returnTo : string) : Response :=
  servePickerPage w 200 ((λ m, href m returnTo) <$> methods).
Definition redirectToPicker (w : Response) (r : Request) : Response :=
  Redirect r (LoginPathPrefix +:+ "?" +:+ Values_Encode {["return_to" := [RequestURI (r_URL r)]]}) 302 w.
Definition isLoginRoute (path : string) : bool := under_login path.
Definition isLogoutRoute (path : string) : bool := path =? LogoutPath.
Definition jwtLoginSource (auth : InboundAuthConfig) (name : string) : option JWTSource :=
  find (λ j, j_Name j =? name) (LoginSources auth).
Definition serveBasicChallengePage (w : Response) (r : Request) (realm : string) : Response :=
  recordRejection reasonNoCredential
    (servePickerPage (w_Add "WWW-Authenticate" (basicChallenge realm) w) 401
       [LoginPathPrefix +:+ "?" +:+ Values_Encode {["return_to" := [RequestURI (r_URL r)]]}]).
End picker.

(** * Lemmas *)

(** ** Cookies *)

Section take_lemmas.
Variable names : gmap string string.

Definition part_name (part : string) : string := (Cut part "=").1.1.
Definition part_value (part : string) : string := (Cut part "=").1.2.
Definition is_taken (part : string) : bool := bool_decide (is_Some (names !! part_name part)).
(** The trimmed parts of a Cookie line. *)
Definition parts_of (line : string) : list string := TrimSpace <$> Split line ";".
Definition kept_parts (line : string) : list string :=
  List.filter (λ p, negb (is_taken p)) (parts_of line).
Definition kept_line (line : string) : option string :=
  match kept_parts line with [] => None | l => Some (Join l "; ") end.
Definition take_one (m : gmap string string) (part : string) : gmap string string :=
  match names !! part_name part with
  | Some src => <[src := Trim (part_value part) dquote]> m
  | None => m
  end.

Lemma take_part_eq t c k part :
  take_part names (t, c, k) part =
  (take_one t (TrimSpace part), c || is_taken (TrimSpace part),
   if is_taken (TrimSpace part) then k else k ++ [TrimSpace part]).
Proof.
  unfold take_part, take_one, is_taken, part_name, part_value.
  destruct (Cut (TrimSpace part) "=") as [[n v] f]; cbn.
  destruct (names !! n) as [src|]; cbn.
  - rewrite bool_decide_true by eauto. by rewrite orb_true_r.
  - rewrite bool_decide_false by (by intros [? ?]). by rewrite orb_false_r.
Qed.

Lemma take_parts_eq l t c k :
  foldl (take_part names) (t, c, k) l =
  (foldl take_one t (TrimSpace <$> l), c || existsb is_taken (TrimSpace <$> l),
   k ++ List.filter (λ p, negb (is_taken p)) (TrimSpace <$> l)).
Proof.
  revert t c k. induction l as [|p l IH]; intros t c k.
  - cbn. by rewrite orb_false_r, app_nil_r.
  - cbn [foldl]. rewrite take_part_eq, IH. cbn. rewrite orb_assoc.
    destruct (is_taken (TrimSpace p)); cbn; [done|]. by rewrite <- app_assoc.
Qed.

Lemma take_line_eq t c k line :
  take_line names (t, c, k) line =
  (foldl take_one t (parts_of line), c || existsb is_taken (parts_of line), k ++ option_list (kept_line line)).
Proof.
  unfold take_line, kept_line. rewrite take_parts_eq. cbn. fold (parts_of line).
  unfold kept_parts. destruct (List.filter _ (parts_of line)); cbn; [by rewrite app_nil_r|done].
Qed.

Lemma take_lines_eq ls t c k :
  foldl (take_line names) (t, c, k) ls =
  (foldl take_one t (ls ≫= parts_of), c || existsb is_taken (ls ≫= parts_of), k ++ omap kept_line ls).
Proof.
  revert t c k. induction ls as [|l ls IH]; intros t c k.
  - cbn. by rewrite orb_false_r, app_nil_r.
  - cbn [foldl]. rewrite take_line_eq, IH. cbn. rewrite foldl_app, existsb_app, orb_assoc.
    f_equal. rewrite <- app_assoc. f_equal. by destruct (kept_line l).
Qed.

Lemma foldl_Header_Add ks h key :
  Header_Values (foldl (λ h k, Header_Add key k h) h ks) key = Header_Values h key ++ ks.
Proof.
  revert h. induction ks as [|k ks IH]; intros h; cbn; [by rewrite app_nil_r|].
  by rewrite IH, Header_Values_Add, <- app_assoc.
Qed.

Lemma Header_Add_others ks (h h' : Header) :
  delete "Cookie" h = delete "Cookie" h' →
  delete "Cookie" (foldl (λ h k, Header_Add "Cookie" k h) h ks) = delete "Cookie" h'.
Proof.
  revert h. induction ks as [|k ks IH]; intros h Hh; cbn [foldl]; [done|].
  apply IH. unfold Header_Add. change (CanonicalHeaderKey "Cookie") with "Cookie".
  by rewrite delete_insert_eq.
Qed.
Lemma take_lines_others ks (h : Header) :
  delete "Cookie" (foldl (λ h k, Header_Add "Cookie" k h) (Header_Del "Cookie" h) ks) = delete "Cookie" h.
Proof.
  apply Header_Add_others. unfold Header_Del. change (CanonicalHeaderKey "Cookie") with "Cookie".
  by rewrite delete_delete_eq.
Qed.
End take_lemmas.

(** ** Escaped paths *)

Lemma s_in_cons a c s :
  a ∈ String.list_ascii_of_string (String c s) ↔ a = c ∨ a ∈ String.list_ascii_of_string s.
Proof. cbn. apply elem_of_cons. Qed.

Lemma validEncoded_cons c s m :
  validEncoded (String c s) m = (one_of "!$&'()*+,;=:@[]%" c || negb (shouldEscape c m)) && validEncoded s m.
Proof. done. Qed.

Lemma upperhex_valid z m : (0 ≤ z < 16)%Z → one_of "!$&'()*+,;=:@[]%" (upperhex z) || negb (shouldEscape (upperhex z) m) = true.
Proof.
  intros Hz. destruct z as [|p|p]; [by destruct m| |lia].
  do 4 (destruct p as [p|p|]; [| |by destruct m]); lia.
Qed.

Lemma validEncoded_escape s : validEncoded (escape s encodePath) encodePath = true.
Proof.
  induction s as [|c s IH]; [done|]. cbn [escape]. destruct (shouldEscape c encodePath) eqn:E.
  - rewrite !validEncoded_cons, IH. pose proof (byte_bound c).
    rewrite !upperhex_valid.
    + done.
    + by apply Z.mod_pos_bound.
    + split; [apply Z.div_pos; lia|apply Z.div_lt_upper_bound; lia].
  - by rewrite validEncoded_cons, IH, E, orb_true_r.
Qed.

(** A validly encoded path holds no "#", no "?" and no control byte. *)
Lemma validEncoded_char s c :
  validEncoded s encodePath = true → c ∈ String.list_ascii_of_string s →
  one_of "!$&'()*+,;=:@[]%" c || negb (shouldEscape c encodePath) = true.
Proof. unfold validEncoded. intros H Hc. rewrite forallb_bool in H. by apply H. Qed.

Lemma shouldEscape_ctl c : (byte c < 32)%Z ∨ byte c = 127%Z →
  one_of "!$&'()*+,;=:@[]%" c || negb (shouldEscape c encodePath) = false.
Proof.
  intros H. destruct c as [[] [] [] [] [] [] [] []]; try reflexivity; exfalso;
    destruct H as [H|H]; vm_compute in H; discriminate H.
Qed.

Lemma validEncoded_free s :
  validEncoded s encodePath = true → sep_free "#" s ∧ sep_free "?" s ∧ has_ctl s = false.
Proof.
  intros H. split; [|split].
  - intros Hc. apply (validEncoded_char _ _ H) in Hc. by vm_compute in Hc.
  - intros Hc. apply (validEncoded_char _ _ H) in Hc. by vm_compute in Hc.
  - apply existsb_false. intros c Hc. apply (validEncoded_char _ _ H) in Hc.
    destruct ((byte c <? 32)%Z || (byte c =? 127)%Z) eqn:E; [|done].
    rewrite shouldEscape_ctl in Hc; [done|]. lia.
Qed.

Lemma Cut_free s c : sep_free c s → Cut s c = (s, "", false).
Proof.
  induction s as [|d s IH]; intros H; [done|]. apply sep_free_cons in H as [? ?]. cbn.
  rewrite bool_decide_false by done. by rewrite IH.
Qed.
Lemma Cut_app s c t : sep_free c s → Cut (s +:+ String c t) c = (s, t, true).
Proof.
  induction s as [|d s IH]; intros H.
  - rewrite app_nil_l'. cbn. by rewrite bool_decide_true.
  - apply sep_free_cons in H as [? ?]. rewrite app_cons. cbn.
    rewrite bool_decide_false by done. by rewrite IH.
Qed.

(** The escaped path of a parsed rooted path: well encoded, and it decodes to
    the path. *)
Lemma EscapedPath_spec u :
  u_Path u ≠ "*" →
  validEncoded (EscapedPath u) encodePath = true ∧ unescape (EscapedPath u) encodePath = Ok (u_Path u) ∧
  (EscapedPath u = u_RawPath u ∨ EscapedPath u = escape (u_Path u) encodePath).
Proof.
  intros Hstar. unfold EscapedPath. rewrite (bool_decide_false (u_Path u = "*")) by done.
  pose proof (validEncoded_escape (u_Path u)). pose proof (unescape_escape (u_Path u) encodePath).
  destruct ((u_RawPath u !=? "") && validEncoded (u_RawPath u) encodePath) eqn:E; [|by auto].
  apply andb_true_iff in E as [_ Ev]. destruct (unescape (u_RawPath u) encodePath) eqn:Eu; [|by auto].
  case_bool_decide; [subst; by auto|by auto].
Qed.

Lemma sep_free_app_iff c s t : sep_free c (s +:+ t) ↔ sep_free c s ∧ sep_free c t.
Proof. apply sep_free_app. Qed.

Lemma has_ctl_app s t : has_ctl (s +:+ t) = has_ctl s || has_ctl t.
Proof.
  unfold has_ctl. induction s as [|c s IH]; [done|]. rewrite app_cons. cbn. by rewrite IH, !orb_assoc.
Qed.
Lemma has_ctl_cons c s : has_ctl (String c s) = (byte c <? 32)%Z || (byte c =? 127)%Z || has_ctl s.
Proof. done. Qed.

(** What parsing a rooted path gives. *)
Lemma parse_rooted_ok raw u :
  parse_rooted raw = Ok u →
  ∃ p q, u_Scheme u = "" ∧ u_Host u = "" ∧ u_Opaque u = "" ∧ u_RawQuery u = q ∧
    unescape p encodePath = Ok (u_Path u) ∧
    u_RawPath u = (if p =? escape (u_Path u) encodePath then "" else p) ∧
    (HasPrefix raw "/" = true → HasPrefix p "/" = true) ∧
    (∃ rest, raw = p +:+ rest) ∧ sep_free "#" q ∧ has_ctl q = false ∧
    (u_ForceQuery u = true → q = "").
Proof.
  unfold parse_rooted. pose proof (Cut_spec raw "#") as Hcut.
  destruct (Cut raw "#") as [[v frag] f1]. destruct (has_ctl v) eqn:Ectl; [done|].
  pose proof (Cut_spec v "?") as Hcut2. destruct (Cut v "?") as [[p q] f2].
  intros H. apply rbind_ok in H as (path & Hp & H). apply rbind_ok in H as (fr & _ & H). simplify_eq. cbn.
  exists p, q.
  assert (Hv : ∃ rest, raw = v +:+ rest ∧ (rest = "" ∨ rest = String "#" frag)).
  { destruct f1; [destruct Hcut as [-> _]; eauto|]. destruct Hcut as (-> & _). exists "".
    rewrite s_app_nil_r. auto. }
  assert (Hfree : sep_free "#" v) by (destruct f1; destruct Hcut as (?&?); naive_solver).
  assert (Hpv : ∃ rest, v = p +:+ rest ∧ (rest = "" ∧ q = "" ∨ rest = String "?" q)).
  { destruct f2; [destruct Hcut2 as [-> _]; eauto|]. destruct Hcut2 as (-> & -> & _).
    exists "". rewrite s_app_nil_r. auto. }
  destruct Hpv as (rest & -> & Hrest). destruct Hv as (rest' & -> & Hrest').
  split_and!; try done.
  - intros Hpre. destruct p as [|c p].
    + exfalso. rewrite app_nil_l' in Hpre.
      by destruct Hrest as [[-> _]| ->], Hrest' as [-> | ->].
    + rewrite !app_cons in Hpre. cbn in *. apply andb_true_iff in Hpre as [-> _]. by rewrite HasPrefix_nil.
  - rewrite s_app_assoc. eauto.
  - apply sep_free_app in Hfree as [_ Hf]. destruct Hrest as [[_ ->]| ->]; [apply sep_free_nil|].
    by apply sep_free_cons in Hf as [_ ?].
  - rewrite has_ctl_app in Ectl. apply orb_false_iff in Ectl as [_ Hq].
    destruct Hrest as [[_ ->]| ->]; [done|]. rewrite has_ctl_cons in Hq. by apply orb_false_iff in Hq as [_ ?].
  - intros Hf. apply andb_true_iff in Hf as [_ Hq]. by bool_hyps.
Qed.

Lemma HasPrefix_cons c s p : HasPrefix (String c s) (String c p) = HasPrefix s p.
Proof. cbn. by rewrite bool_decide_true. Qed.
Lemma HasPrefix_cons_slash s : HasPrefix s "/" = true ↔ ∃ t, s = String "/" t.
Proof.
  rewrite HasPrefix_spec. split; intros (t & ->); exists t; by rewrite ?app_cons, ?app_nil_l'.
Qed.

(** The tail of a request URI after its path. *)
Definition uri_tail (u : URL) : string :=
  if u_ForceQuery u || (u_RawQuery u !=? "") then String "?" (u_RawQuery u) else "".

Lemma RequestURI_tail u : u_Opaque u = "" → EscapedPath u ≠ "" → RequestURI u = EscapedPath u +:+ uri_tail u.
Proof.
  intros H1 H2. unfold RequestURI, uri_tail. rewrite (bool_decide_true (u_Opaque u = "")) by done.
  cbn zeta. rewrite (bool_decide_false (EscapedPath u = "")) by done.
  destruct (_ || _); [done|]. by rewrite s_app_nil_r.
Qed.
Lemma EscapedPath_nil u : u_RawPath u = "" → u_Path u ≠ "*" → EscapedPath u = escape (u_Path u) encodePath.
Proof. intros H1 H2. unfold EscapedPath. by rewrite H1, (bool_decide_false (u_Path u = "*")). Qed.
Lemma EscapedPath_raw u :
  u_RawPath u ≠ "" → validEncoded (u_RawPath u) encodePath = true →
  unescape (u_RawPath u) encodePath = Ok (u_Path u) → EscapedPath u = u_RawPath u.
Proof.
  intros H1 H2 H3. unfold EscapedPath. rewrite H2, H3, (bool_decide_false (u_RawPath u = "")) by done.
  cbn. by rewrite bool_decide_true.
Qed.

Lemma unescape_slash p s : unescape (String "/" p) encodePath = Ok s → ∃ t, s = String "/" t ∧ unescape p encodePath = Ok t.
Proof.
  cbn. rewrite bool_decide_false by done. intros H. apply rbind_ok in H as (t & Ht & H).
  injection H as <-. eauto.
Qed.
Lemma escape_slash s : escape (String "/" s) encodePath = String "/" (escape s encodePath).
Proof. done. Qed.

(** The path of a parsed rooted URL and its escaped form are rooted. *)
Lemma rooted_paths raw u :
  HasPrefix raw "/" = true → parse_rooted raw = Ok u →
  ∃ t e, u_Path u = String "/" t ∧ EscapedPath u = String "/" e ∧
    RequestURI u = String "/" e +:+ uri_tail u ∧
    ((∃ rest, raw = String "/" e +:+ rest) ∨ e = escape t encodePath).
Proof.
  intros Hr Hp. destruct (parse_rooted_ok _ _ Hp) as (p & q & _ & _ & Hopq & _ & Hun & Hrp & Hpre & (rest & Hraw) & _).
  apply Hpre, HasPrefix_cons_slash in Hr as (p' & ->).
  destruct (unescape_slash _ _ Hun) as (t & Ht & _).
  assert (Hstar : u_Path u ≠ "*") by (rewrite Ht; done).
  assert (Hep : (∃ e, EscapedPath u = String "/" e ∧ ((∃ rest, raw = String "/" e +:+ rest) ∨ e = escape t encodePath))).
  { destruct (EscapedPath_spec u Hstar) as (_ & Hune & [He|He]).
    - rewrite Hrp in He. case_bool_decide as Hb.
      + rewrite He, Ht in Hune. done.
      + exists p'. split; [done|]. left. by exists rest.
    - rewrite Ht, escape_slash in He. exists (escape t encodePath). auto. }
  destruct Hep as (e & He & Hor). exists t, e. split_and!; try done.
  by rewrite RequestURI_tail, He by (rewrite ?He; done).
Qed.

(** A request URI parses back to itself. *)
Lemma parse_RequestURI raw u :
  HasPrefix raw "/" = true → parse_rooted raw = Ok u →
  ∃ u2, parse_rooted (RequestURI u) = Ok u2 ∧ RequestURI u2 = RequestURI u.
Proof.
  intros Hr Hp. destruct (rooted_paths _ _ Hr Hp) as (t & e & Ht & He & Huri & _).
  destruct (parse_rooted_ok _ _ Hp) as (p & q & _ & _ & _ & Hq & _ & _ & _ & _ & Hqf & Hqc & Hforce).
  assert (Hstar : u_Path u ≠ "*") by (rewrite Ht; done).
  destruct (EscapedPath_spec u Hstar) as (Hval & Hune & _).
  destruct (validEncoded_free _ Hval) as (Hf1 & Hf2 & Hc).
  set (ep := EscapedPath u) in *. rewrite <- He in Huri.
  assert (Htail : sep_free "#" (uri_tail u) ∧ has_ctl (uri_tail u) = false).
  { unfold uri_tail. case_if; [|by split; [apply sep_free_nil|]]. rewrite Hq. split.
    - by apply sep_free_cons.
    - rewrite has_ctl_cons, Hqc. done. }
  destruct Htail as [Htf Htc].
  set (rp := if ep =? escape (u_Path u) encodePath then "" else ep).
  set (u2 := mkURL "" "" None "" (u_Path u) rp ((u_ForceQuery u || (u_RawQuery u !=? "")) && (u_RawQuery u =? ""))
               (if u_ForceQuery u || (u_RawQuery u !=? "") then u_RawQuery u else "") "").
  assert (Hparse : parse_rooted (RequestURI u) = Ok u2).
  { unfold parse_rooted. rewrite Huri, (Cut_free _ "#") by (by apply sep_free_app).
    rewrite has_ctl_app, Hc, Htc. cbn [orb].
    unfold uri_tail, u2. destruct (u_ForceQuery u || (u_RawQuery u !=? "")) eqn:Ef.
    - rewrite Cut_app by done. rewrite Hune. done.
    - rewrite s_app_nil_r, Cut_free by done. rewrite Hune. done. }
  exists u2. split; [done|].
  assert (Hep2 : EscapedPath u2 = ep).
  { subst u2 rp. case_bool_decide as Hb.
    - rewrite EscapedPath_nil by done. done.
    - rewrite EscapedPath_raw; [done| |done|done]. cbn. by rewrite He. }
  rewrite RequestURI_tail, Hep2, Huri by (rewrite ?Hep2, ?He; done). f_equal. unfold uri_tail, u2.
  cbn [u_ForceQuery u_RawQuery].
  destruct (u_ForceQuery u || (u_RawQuery u !=? "")) eqn:Ef; cbn [andb orb negb]; [|done].
  by destruct (bool_decide (u_RawQuery u = "")).
Qed.

(** A decoded slash was written as a slash or as "%2F". *)
Lemma unescape_leading_slash p t :
  unescape p encodePath = Ok (String "/" t) →
  ∃ r, p = "/" +:+ r ∨ p = "%2F" +:+ r ∨ p = "%2f" +:+ r.
Proof.
  destruct p as [|c p]; [done|]. cbn. case_bool_decide as Hc.
  - subst. destruct p as [|h [|l p]]; [done..|].
    destruct (unhex h) as [x|] eqn:Eh; [|done]. destruct (unhex l) as [y|] eqn:El; [|done].
    intros H. apply rbind_ok in H as (s & _ & H). injection H as H _. exists p. right.
    destruct h as [[] [] [] [] [] [] [] []]; vm_compute in Eh; try discriminate Eh; injection Eh as <-;
      destruct l as [[] [] [] [] [] [] [] []]; vm_compute in El; try discriminate El; injection El as <-;
      vm_compute in H; try discriminate H; first [by left|by right].
  - intros H. apply rbind_ok in H as (s & _ & H). injection H as -> _. exists p. by left.
Qed.

Lemma sanitize_cases `{NetURL} raw :
  sanitizeReturnTo raw = "/" ∨
  ∃ u, HasPrefix raw "/" = true ∧ HasPrefix raw "//" = false ∧ parse_rooted raw = Ok u ∧
    sanitizeReturnTo raw = RequestURI u.
Proof.
  unfold sanitizeReturnTo.
  destruct ((raw =? "") || _ || _ || _) eqn:E; [by left|]. bool_hyps.
  unfold Parse, rooted_single. match goal with H1 : HasPrefix raw "/" = _, H2 : HasPrefix raw "//" = _ |- _ => rewrite H1, H2 end.
  cbn. destruct (parse_rooted raw) as [u|] eqn:Ep; [|by left].
  repeat (case_if; [by left|]). right. by exists u.
Qed.

(** ** An address whose second slash is encoded *)

Definition plain_host (h : string) : Prop :=
  Forall (λ c, is_alpha (byte c) || is_digit (byte c) || one_of "-." c = true) (String.list_ascii_of_string h).

Lemma plain_char_ok c :
  is_alpha (byte c) || is_digit (byte c) || one_of "-." c = true →
  shouldEscape c encodePath = false ∧ c ≠ "%"%char ∧ c ≠ "#"%char ∧ c ≠ "?"%char ∧ c ≠ "/"%char ∧ c ≠ "\"%char ∧
  (byte c <? 32)%Z || (byte c =? 127)%Z = false ∧ c ≠ char 13 ∧ c ≠ char 10.
Proof.
  intros H. destruct c as [[] [] [] [] [] [] [] []]; vm_compute in H; try discriminate H; by split_and!; vm_compute.
Qed.
Lemma plain_host_cons c h : plain_host (String c h) →
  (is_alpha (byte c) || is_digit (byte c) || one_of "-." c = true) ∧ plain_host h.
Proof. intros H. by inversion H. Qed.

Lemma plain_escape h t : plain_host h → escape (h +:+ t) encodePath = h +:+ escape t encodePath.
Proof.
  induction h as [|c h IH]; intros Hp; [done|]. apply plain_host_cons in Hp as [(Hc & _)%plain_char_ok Hp].
  rewrite !app_cons. cbn. by rewrite Hc, IH.
Qed.
Lemma plain_unescape h t u : plain_host h → unescape t encodePath = Ok u → unescape (h +:+ t) encodePath = Ok (h +:+ u).
Proof.
  induction h as [|c h IH]; intros Hp Ht; [done|]. apply plain_host_cons in Hp as [(_ & Hc & _)%plain_char_ok Hp].
  rewrite !app_cons. cbn. rewrite bool_decide_false by done. by rewrite IH.
Qed.
Lemma plain_free h c : plain_host h → c ∈ ["#"%char; "?"%char] → sep_free c h.
Proof.
  intros Hp Hc. induction h as [|d h IH]; [apply sep_free_nil|].
  apply plain_host_cons in Hp as [(_ & _ & ? & ? & _)%plain_char_ok Hp].
  apply sep_free_cons. split; [set_solver|auto].
Qed.
Lemma plain_ctl h : plain_host h → has_ctl h = false.
Proof.
  induction h as [|c h IH]; intros Hp; [done|].
  apply plain_host_cons in Hp as [(_ & _ & _ & _ & _ & _ & Hc & _)%plain_char_ok Hp]. by rewrite has_ctl_cons, Hc, IH.
Qed.
Lemma ContainsAny_app s t chars : ContainsAny (s +:+ t) chars = ContainsAny s chars || ContainsAny t chars.
Proof.
  unfold ContainsAny. induction s as [|c s IH]; [done|]. rewrite app_cons. cbn. by rewrite IH, orb_assoc.
Qed.
Lemma plain_any h : plain_host h → ContainsAny h (String "\" (String (char 13) newline)) = false.
Proof.
  induction h as [|c h IH]; intros Hp; [done|].
  apply plain_host_cons in Hp as [(_ & _ & _ & _ & _ & H1 & _ & H2 & H3)%plain_char_ok Hp].
  change (ContainsAny (String c h) (String "\" (String (char 13) newline)))
    with (((c =? "\"%char) || ((c =? char 13) || ((c =? char 10) || false))) ||
          ContainsAny h (String "\" (String (char 13) newline))).
  rewrite (IH Hp), !bool_decide_false by done. done.
Qed.

(** The address the request wrote, and what it becomes. *)
Definition sneaky (host : string) : string := "/%2F" +:+ host +:+ "/" +:+ dq.
Definition sneaked (host : string) : string := "//" +:+ host +:+ "/%22".

Lemma parse_sneaky host :
  plain_host host → parse_rooted (sneaky host) =
    Ok (mkURL "" "" None "" ("//" +:+ host +:+ "/" +:+ dq) (sneaky host) false "" "").
Proof.
  intros Hp. unfold parse_rooted.
  assert (Hf : ∀ c, c ∈ ["#"%char; "?"%char] → sep_free c (sneaky host)).
  { intros c Hc. unfold sneaky. apply sep_free_app. split; [unfold sep_free; vm_compute; set_solver|].
    apply sep_free_app. split; [by apply plain_free|]. unfold sep_free; vm_compute; set_solver. }
  rewrite !Cut_free by (apply Hf; set_solver).
  assert (Hctl : has_ctl (sneaky host) = false).
  { unfold sneaky. rewrite !has_ctl_app, (plain_ctl host) by done. reflexivity. }
  rewrite Hctl.
  assert (Hun : unescape (sneaky host) encodePath = Ok ("//" +:+ host +:+ "/" +:+ dq)).
  { unfold sneaky. rewrite !app_cons, !app_nil_l'.
    assert (Hh : unescape (host +:+ String "/" dq) encodePath = Ok (host +:+ String "/" dq)) by (by apply plain_unescape).
    cbn. rewrite bool_decide_false by done. rewrite bool_decide_true by done. rewrite Hh. reflexivity. }
  rewrite Hun. cbn [rbind]. rewrite bool_decide_false; [done|].
  intros H. apply (f_equal (λ s, String.get 1 s)) in H.
  change ("//" +:+ host +:+ "/" +:+ dq) with (String "/" (String "/" (host +:+ "/" +:+ dq))) in H.
  rewrite !escape_slash in H. done.
Qed.

Lemma sanitize_sneaky `{NetURL} host : plain_host host → sanitizeReturnTo (sneaky host) = sneaked host.
Proof.
  intros Hp. unfold sanitizeReturnTo.
  assert (Hany : ContainsAny (sneaky host) (String "\" (String (char 13) newline)) = false).
  { unfold sneaky. rewrite !ContainsAny_app, (plain_any host) by done. reflexivity. }
  rewrite Hany. unfold Parse. change (rooted_single (sneaky host)) with true. cbn [orb negb].
  change (sneaky host =? "") with false. change (HasPrefix (sneaky host) "/") with true.
  change (HasPrefix (sneaky host) "//") with false. cbn [orb negb]. rewrite parse_sneaky by done.
  cbn [u_Scheme u_Host u_Path]. rewrite (bool_decide_true ("" = "")) by done. cbn [negb orb].
  rewrite bool_decide_false by done.
  change (under_login _) with false. unfold RequestURI. cbn [u_Opaque u_ForceQuery u_RawQuery].
  rewrite !(bool_decide_true ("" = "")) by done. cbn [negb orb].
  unfold EscapedPath. cbn [u_Path u_RawPath].
  assert (Hv : validEncoded (sneaky host) encodePath = false).
  { unfold sneaky, validEncoded. apply not_true_iff_false. rewrite forallb_bool. intros Hall.
    enough (H0 : one_of "!$&'()*+,;=:@[]%" dquote || negb (shouldEscape dquote encodePath) = true) by (by vm_compute in H0).
    apply Hall. rewrite !s_in_app. right. right. right. vm_compute. set_solver. }
  rewrite Hv, andb_false_r. rewrite (bool_decide_false (_ = "*")) by done.
  change ("//" +:+ host +:+ "/" +:+ dq) with (String "/" (String "/" (host +:+ "/" +:+ dq))).
  rewrite !escape_slash, plain_escape by done. done.
Qed.

(** * Properties *)

(** A return address sanitised twice, as the OIDC callback does with the
    one [Start] stored, is always a path of this origin: it begins with one
    slash, and the second pass either keeps the first result or falls back to
    "/". After a single pass it may begin with two slashes, but only when the
    request wrote the second one as "%2F". *)
Theorem sanitizeReturnTo_twice `{NetURL} raw :
  let once := sanitizeReturnTo raw in
  HasPrefix once "/" = true ∧
  (HasPrefix once "//" = true → ∃ rest, raw = "/%2F" +:+ rest ∨ raw = "/%2f" +:+ rest) ∧
  (sanitizeReturnTo once = once ∨ sanitizeReturnTo once = "/") ∧
  HasPrefix (sanitizeReturnTo once) "/" = true ∧ HasPrefix (sanitizeReturnTo once) "//" = false.
Proof.
  cbn. destruct (sanitize_cases raw) as [->|(u & Hr & Hr2 & Hp & ->)].
  { change (sanitizeReturnTo "/") with "/". split_and!; [done|done|by left|done|done]. }
  destruct (rooted_paths _ _ Hr Hp) as (t & e & Ht & He & Huri & Hor).
  assert (H1 : HasPrefix (RequestURI u) "/" = true) by (rewrite Huri; apply HasPrefix_cons_slash; eauto).
  split; [done|split].
  - intros H2. rewrite Huri, app_cons, HasPrefix_cons in H2. apply HasPrefix_cons_slash in H2 as (x & H2).
    assert (He' : ∃ e', e = String "/" e').
    { destruct e as [|c e']; [|rewrite app_cons in H2; injection H2 as -> _; eauto].
      rewrite app_nil_l' in H2. unfold uri_tail in H2. by case_if_in H2. }
    destruct He' as (e' & ->). destruct Hor as [(rest & Hraw)|Hesc].
    { exfalso. rewrite Hraw, !app_cons, !HasPrefix_cons in Hr2. by rewrite HasPrefix_nil in Hr2. }
    destruct t as [|c t]; [done|]. cbn in Hesc.
    destruct (shouldEscape c encodePath); [done|]. injection Hesc as <- _.
    destruct (parse_rooted_ok _ _ Hp) as (p & q & _ & _ & _ & _ & Hun & _ & Hpre & (rest & ->) & _).
    apply Hpre, HasPrefix_cons_slash in Hr as (p' & ->).
    destruct (unescape_slash _ _ Hun) as (t0 & Ht0 & Hun'). rewrite Ht in Ht0. injection Ht0 as <-.
    apply unescape_leading_slash in Hun' as (r & [-> |[-> | ->]]).
    + exfalso. rewrite !app_cons, !HasPrefix_cons in Hr2.
      by rewrite HasPrefix_nil in Hr2.
    + exists (r +:+ rest). left. rewrite !app_cons, !app_nil_l'. done.
    + exists (r +:+ rest). right. rewrite !app_cons, !app_nil_l'. done.
  - destruct (parse_RequestURI _ _ Hr Hp) as (u2 & Hp2 & Hu2).
    destruct (sanitize_cases (RequestURI u)) as [->|(u' & Hr' & Hr2' & Hp' & Hs)].
    + rewrite ?Hs'. split_and!; auto.
    + rewrite Hp2 in Hp'. simplify_eq. rewrite Hs, Hu2. split_and!; [by left|done|done].
Qed.

(** Taking cookies off a request. Unless the first Cookie line is empty
    (then nothing is taken), the result maps each named source to the unquoted
    value of the last part carrying its cookie's name; if anything was taken the
    Cookie lines become the remaining trimmed parts of each line, lines left empty
    dropped, and otherwise the request is untouched; no remaining part carries a
    taken name; and no other header, nor anything else of the request, changes. *)
Theorem takeCookies_spec (names : gmap string string) (r : Request) :
  let lines := Header_Values (r_Header r) "Cookie" in
  let parts := lines ≫= parts_of in
  let '(taken, r') := takeCookies names r in
  let lines' := Header_Values (r_Header r') "Cookie" in
  r' = with_Header (r_Header r') r ∧
  delete "Cookie" (r_Header r') = delete "Cookie" (r_Header r) ∧
  if Header_Get (r_Header r) "Cookie" =? "" then taken = ∅ ∧ r' = r
  else
    taken = foldl (take_one names) ∅ parts ∧
    lines' = (if existsb (is_taken names) parts then omap (kept_line names) lines else lines) ∧
    Forall (λ line, ∃ ps, Forall (λ p, names !! part_name p = None) ps ∧
      (line = Join ps "; " ∨ parts_of line = ps)) lines'.
Proof.
  cbn zeta. unfold takeCookies. case_bool_decide as He.
  { split; [by destruct r|done]. }
  rewrite take_lines_eq, app_nil_l. cbn [orb].
  set (lines := Header_Values (r_Header r) "Cookie").
  assert (Hnot : ∀ p, is_taken names p = false → names !! part_name p = None).
  { intros p Hp. unfold is_taken in Hp. apply bool_decide_eq_false in Hp. by apply eq_None_not_Some. }
  destruct (existsb (is_taken names) (lines ≫= parts_of)) eqn:Et; cbn [r_Header with_Header].
  - rewrite foldl_Header_Add, Header_Values_Del.
    split; [done|split; [apply take_lines_others|split; [done|split; [done|]]]].
    apply Forall_forall. intros line (l0 & _ & Hk)%list_elem_of_omap. unfold kept_line in Hk.
    destruct (kept_parts names l0) as [|p ps] eqn:Ek; [done|]. injection Hk as <-.
    exists (p :: ps). split; [|by left]. rewrite <- Ek. apply Forall_forall. intros q Hq.
    apply list_elem_of_In, filter_In in Hq as [_ Hq]. apply negb_true_iff in Hq. auto.
  - split; [by destruct r|split; [done|split; [done|split; [done|]]]].
    apply Forall_forall. intros line Hl. exists (parts_of line). split; [|by right].
    apply Forall_forall. intros p Hp. apply Hnot. rewrite existsb_false in Et. apply Et.
    apply list_elem_of_bind. eauto.
Qed.

(** The name of a cookie is compared before it is trimmed, although
    net/http trims it when the backend reads the header: a refresh cookie written
    with a space before its "=" is not taken, and is still read as that cookie
    from the request passed on. The same holds when the first Cookie line is
    empty and the cookie is on a later one. *)
Theorem takeCookies_misses (names : gmap string string) (r : Request) (lines : list string) :
  lines = ["tap_id_token_refresh =v"] ∨ lines = [""; "tap_id_token_refresh=v"] →
  (∀ n, is_Some (names !! n) → n = "tap_id_token_refresh") →
  Header_Values (r_Header r) "Cookie" = lines →
  takeCookies names r = (∅, r) ∧ Cookie_ r "tap_id_token_refresh" = Some "v".
Proof.
  intros Hl Hn Hv. split.
  - unfold takeCookies, Header_Get. rewrite Hv. destruct Hl as [-> | ->]; [|done]. cbn [head default].
    rewrite bool_decide_false by done. rewrite take_lines_eq.
    assert (Hp : parts_of "tap_id_token_refresh =v" = ["tap_id_token_refresh =v"]) by (vm_compute; reflexivity).
    assert (Hno : names !! part_name "tap_id_token_refresh =v" = None).
    { apply eq_None_not_Some. intros H%Hn. vm_compute in H. discriminate H. }
    cbn [mbind list_bind]. rewrite Hp. cbn [app foldl existsb]. unfold take_one, is_taken. rewrite Hno.
    rewrite (bool_decide_false (is_Some None)) by (by intros [? ?]). done.
  - unfold Cookie_, readCookies. rewrite Hv. destruct Hl as [-> | ->]; vm_compute; reflexivity.
Qed.
Lemma takeCookies_misses_witness :
  let r := mkRequest "GET" empty_URL {["Cookie" := ["tap_id_token_refresh =v"]]} "" (mkContext None None) in
  takeCookies {["tap_id_token_refresh" := "idp"]} r = (∅, r).
Proof.
  cbn zeta. apply (takeCookies_misses _ _ ["tap_id_token_refresh =v"]).
  - by left.
  - intros n [x H]. by apply lookup_singleton_Some in H as [<- _].
  - vm_compute. reflexivity.
Defined.
