(* ===== verification/Login.v ===== *)
(** OIDC browser login: [internal/authn/login.go] (the login registry, its
    discovery cache, [Start] and [Callback]), [login_refresh.go] (redeeming
    refresh tokens, [Refresh], [DropStaleLogin]) and [logout.go].

    The registry holds the key registry it verifies ID tokens with (the same one
    the middleware uses, so there is one copy of it, here).  A handler reads one
    instant, [now].  The [n]-th exchange with a provider is given by [LoginNet];
    package oauth2 is the class [OAuth2].  Random bytes are arguments.  The state cookie
    is written and read as encoding/json does, by [GoJSON].  [redeem] runs a whole
    redemption; the section [single_flight] interleaves the atomic parts of any
    number of concurrent ones. Log output is not represented. *)
From S2P Require Import Prelude GoStrings ConfigTypes GoURL GoJSON GoHTTP Acl ConfigAuth Credentials Basic Jwks Session.

Definition loginStateCookie := "tap_login_state".
Definition loginStateTTL : Z := 10 * minute.
Definition loginStateKeyLen : nat := 12.
Definition loginEndpointsTTL : Z := 1 * hour.
Definition loginRetry : Z := 30 * second.
Definition maxCookieValueLen : nat := 3900.
Definition refreshGrace : Z := 30 * second.

Record loginState := mkLoginState {
  st_Source : string; st_State : string; st_Nonce : string; st_Verifier : string; st_ReturnTo : string
}.
(** [json.Marshal] and [json.Unmarshal] of it, by its tags. *)
Definition loginState_json (st : loginState) : json :=
  JObject [("s", jstring (st_Source st)); ("st", jstring (st_State st)); ("n", jstring (st_Nonce st));
           ("v", jstring (st_Verifier st)); ("r", jstring (st_ReturnTo st))].
Definition json_Marshal (st : loginState) : string := Marshal (loginState_json st).
Definition loginState_field `{Unicode} (st : loginState) (key : string) (x : json) : result loginState :=
  let '(mkLoginState s st_ n v r) := st in
  if EqualFold key "s" then let* s := Decode_string s x in Ok (mkLoginState s st_ n v r)
  else if EqualFold key "st" then let* st_ := Decode_string st_ x in Ok (mkLoginState s st_ n v r)
  else if EqualFold key "n" then let* n := Decode_string n x in Ok (mkLoginState s st_ n v r)
  else if EqualFold key "v" then let* v := Decode_string v x in Ok (mkLoginState s st_ n v r)
  else if EqualFold key "r" then let* r := Decode_string r x in Ok (mkLoginState s st_ n v r)
  else Ok st.
Definition json_Unmarshal `{Unicode} (raw : string) : option loginState :=
  match Unmarshal (Decode_struct loginState_field (mkLoginState "" "" "" "" "")) raw with
  | Ok st => Some st
  | Err _ => None
  end.
#[global] Arguments json_Marshal : simpl never.
#[global] Arguments json_Unmarshal : simpl never.

(** ** base64.RawURLEncoding *)

Definition b64url_val (c : ascii) : option Z :=
  let b := byte c in
  if is_upper b then Some (b - 65)%Z
  else if is_lower b then Some (b - 71)%Z
  else if is_digit b then Some (b + 4)%Z
  else if (b =? 45)%Z then Some 62%Z
  else if (b =? 95)%Z then Some 63%Z
  else None.
Fixpoint b64url_quanta (s : string) : option string :=
  match s with
  | "" => Some ""
  | String a "" => None
  | String a (String b "") =>
      match b64url_val a, b64url_val b with
      | Some x, Some y => Some (String (char (x * 4 + y / 16)) "")
      | _, _ => None
      end
  | String a (String b (String c "")) =>
      match b64url_val a, b64url_val b, b64url_val c with
      | Some x, Some y, Some z =>
          Some (String (char (x * 4 + y / 16)) (String (char (y mod 16 * 16 + z / 4)) ""))
      | _, _, _ => None
      end
  | String a (String b (String c (String d rest))) =>
      match b64url_val a, b64url_val b, b64url_val c, b64url_val d with
      | Some x, Some y, Some z, Some u =>
          (λ t, String (char (x * 4 + y / 16)) (String (char (y mod 16 * 16 + z / 4))
             (String (char (z mod 4 * 64 + u)) t))) <$> b64url_quanta rest
      | _, _, _, _ => None
      end
  end.
(** [base64.RawURLEncoding.DecodeString] *)
Definition b64url_decode (s : string) : option string := b64url_quanta (strip_newlines s).

(** ** The discovery cache *)

Section endpoints.
Context {C : Crypto}.

(** The provider as the login registry's clients see it. *)
Record loginEndpoints := mkEndpoints {
  le_authURL : string; le_tokenURL : string; le_endSessionURL : string;
  le_client : option CertPool; le_expires : Z
}.
Record loginSlot := mkSlot {
  sl_fp : string; sl_good : option loginEndpoints; sl_failErr : option error; sl_nextTry : Z
}.
Definition empty_slot : loginSlot := mkSlot "" None None 0.

(** oauth2.Config *)
Inductive authStyle := AuthStyleInParams | AuthStyleInHeader.
Record oauthCfg := mkOAuthCfg {
  ocf_ClientID : string; ocf_ClientSecret : string; ocf_AuthURL : string; ocf_TokenURL : string;
  ocf_AuthStyle : authStyle; ocf_RedirectURL : string; ocf_Scopes : list string
}.
(** A token response: its id_token ("" when it has none) and refresh token. *)
Record oauthToken := mkToken_ { tk_IDToken : string; tk_RefreshToken : string }.
(** A refresh the token endpoint answered with an error status, or that
    failed otherwise. *)
Inductive refreshResponse :=
| RefreshOk (t : oauthToken)
| RefreshRetrieveError (status : Z) (code : string)
| RefreshError (e : error).
End endpoints.

Class LoginNet `{Crypto} : Type := {
  get_login_doc : nat → option CertPool → string → result (Z * result discoveryDoc);
  Exchange : nat → option CertPool → oauthCfg → string → string → result oauthToken;
  TokenSource_Token : nat → option CertPool → oauthCfg → string → refreshResponse
}.
(** [AuthCodeURL cfg state verifier nonce], and [MapClaims.GetExpirationTime]
    as nanoseconds. *)
Class OAuth2 `{Floats} : Type := {
  AuthCodeURL : oauthCfg → string → string → string → string;
  GetExpirationTime : gmap string any → result (option Z)
}.

(** The hexadecimal SHA-256 of a string. *)
Class Sha256 : Type := { sha256_hex : string → string }.

Section login.
Context {C : Crypto} {X : X509} {N : NetURL} {U : Unicode} {F : Floats} {J : JWT} {W : Network}
  {L : LoginNet} {O : OAuth2} {D : Sha256}.

Record refreshOutcome := mkOutcome { ro_idToken : string; ro_refreshToken : string; ro_maxAge : Z }.
(** A refresh call: in flight, or finished successfully at some time (failed
    ones are removed). *)
Inductive refreshCall := InFlight | Finished (out : refreshOutcome) (at_ : Z).

Record LoginRegistry := mkLogin {
  lg_jwt : Registry; lg_slots : gmap string loginSlot;
  lg_calls : gmap string refreshCall; lg_net : nat   (* exchanges with providers so far *)
}.
Definition NewLoginRegistry (jwt : Registry) : LoginRegistry := mkLogin jwt ∅ ∅ 0.
Definition with_jwt (j : Registry) (l : LoginRegistry) : LoginRegistry :=
  mkLogin j (lg_slots l) (lg_calls l) (lg_net l).
Definition with_slot (name : string) (s : loginSlot) (l : LoginRegistry) : LoginRegistry :=
  mkLogin (lg_jwt l) (<[name := s]> (lg_slots l)) (lg_calls l) (lg_net l).
Definition with_calls (c : gmap string refreshCall) (l : LoginRegistry) : LoginRegistry :=
  mkLogin (lg_jwt l) (lg_slots l) c (lg_net l).
Definition count_net (l : LoginRegistry) : LoginRegistry :=
  mkLogin (lg_jwt l) (lg_slots l) (lg_calls l) (Datatypes.S (lg_net l)).

Definition loginFingerprint (src : JWTSource) : string :=
  j_Issuer src +:+ nul +:+ j_OIDCDiscoveryURL src +:+ nul +:+ j_CACert src.

(** [fetchEndpoints]: the discovery document of exchange [n]. *)
Definition login_discovery (n : nat) (client : option CertPool) (src : JWTSource) : result discoveryDoc :=
  fetchDiscovery (W := {| get_doc := get_login_doc |}) n client (j_OIDCDiscoveryURL src) (j_Issuer src).
Definition fetchEndpoints (now : Z) (n : nat) (src : JWTSource) : result loginEndpoints :=
  let* client := (if j_CACert src !=? "" then
                    rmap Some (rwrap "build ca_cert trust roots: %w" [] (ParseCACertPool (j_CACert src)))
                  else Ok None) in
  let* doc := rwrap "resolve oidc discovery: %w" [] (login_discovery n client src) in
  check* rwrap "discovery document %s: %w" ["authorization_endpoint"] (validateAbsoluteHTTPURL (dd_AuthorizationEndpoint doc)) in
  check* rwrap "discovery document %s: %w" ["token_endpoint"] (validateAbsoluteHTTPURL (dd_TokenEndpoint doc)) in
  let endSession := dd_EndSessionEndpoint doc in
  let endSession := if is_ok (validateAbsoluteHTTPURL endSession) then endSession else "" in
  Ok (mkEndpoints (dd_AuthorizationEndpoint doc) (dd_TokenEndpoint doc) endSession client (now + loginEndpointsTTL)%Z).

Definition endpoints (now : Z) (src : JWTSource) (l : LoginRegistry) : result loginEndpoints * LoginRegistry :=
  let fp := loginFingerprint src in
  let slot := default empty_slot (lg_slots l !! j_Name src) in
  let slot := if sl_fp slot !=? fp then mkSlot fp None None 0 else slot in
  let l := with_slot (j_Name src) slot l in
  let fetch (_ : unit) :=
    match fetchEndpoints now (lg_net l) src with
    | Err e =>
        let l := with_slot (j_Name src) (mkSlot fp (sl_good slot) (Some e) (now + loginRetry)%Z) (count_net l) in
        (match sl_good slot with Some g => Ok g | None => Err e end, l)
    | Ok g => (Ok g, with_slot (j_Name src) (mkSlot fp (Some g) None (sl_nextTry slot)) (count_net l))
    end in
  match sl_good slot with
  | Some g =>
      if (now <? le_expires g)%Z then (Ok g, l)
      else match sl_failErr slot with
           | Some _ => if (now <? sl_nextTry slot)%Z then (Ok g, l) else fetch tt
           | None => fetch tt
           end
  | None =>
      match sl_failErr slot with
      | Some e => if (now <? sl_nextTry slot)%Z then (Err e, l) else fetch tt
      | None => fetch tt
      end
  end.

Definition oauthConfig (src : JWTSource) (lg : JWTLogin) (e : loginEndpoints) : oauthCfg :=
  let style := if (l_ClientSecret lg !=? "") && (l_TokenAuthMethod lg =? TokenAuthBasic)
               then AuthStyleInHeader else AuthStyleInParams in
  mkOAuthCfg (l_ClientID lg) (l_ClientSecret lg) (le_authURL e) (le_tokenURL e) style
    (TrimRight (l_SPBaseURL lg) "/" +:+ l_CallbackPath lg) (l_Scopes lg).

Definition loginStateCookieName (state : string) : string :=
  loginStateCookie +:+ "_" +:+ s_take loginStateKeyLen state.

(** [fail]: a terse plain-text error. *)
Definition login_fail (w : Response) (status : Z) (msg : string) : Response :=
  Write msg (WriteHeader status (w_Set "Content-Type" "text/plain; charset=utf-8" w)).

(** The bytes of two random tokens, as [rand.Read] fills them in, and a PKCE verifier. *)
Record Randoms := mkRandoms { rn_state : result string; rn_nonce : result string; rn_verifier : string }.
Definition randomToken (read : result string) : result string := let* b := read in Ok (b64url_encode b).

Definition Start (now : Z) (rn : Randoms) (w : Response) (r : Request) (src : JWTSource) (lg : JWTLogin)
    (returnTo : string) (l : LoginRegistry) : Response * LoginRegistry :=
  let '(ep, l) := endpoints now src l in
  match ep with
  | Err _ => (rejectUnavailable w reasonLoginUnavailable loginRetry, l)
  | Ok e =>
      match randomToken (rn_state rn), randomToken (rn_nonce rn) with
      | Ok state, Ok nonce =>
          let raw := json_Marshal (mkLoginState (j_Name src) state nonce (rn_verifier rn) (sanitizeReturnTo returnTo)) in
          let w := SetCookie (loginCookie lg (loginStateCookieName state) (b64url_encode raw) (seconds loginStateTTL)) w in
          let authURL := AuthCodeURL (oauthConfig src lg e) state (rn_verifier rn) nonce in
          let w := w_Set "Cache-Control" "no-store" w in
          (Redirect r authURL 302 w, l)
      | _, _ => (login_fail w 500 "login failed", l)
      end
  end.

Definition errKeysUnavailable := ENew "signing keys unavailable".

Definition verifyIDToken (now : Z) (src : JWTSource) (raw : string) (l : LoginRegistry)
  : result (gmap string any * Z) * LoginRegistry :=
  let '(kf, j) := Keyfunc_ now src (lg_jwt l) in
  let l := with_jwt j l in
  (match kf with
   | Err e => Err (EWrap "%w: %w" [] [errKeysUnavailable; e])
   | Ok kf =>
       match verify raw src kf with
       | Err e => Err (ErrorfA "id token: %s" [classify e])
       | Ok claims =>
           match GetExpirationTime claims with
           | Err _ | Ok None => Err (ENew "id token has no exp")
           | Ok (Some exp) =>
               let maxAge := seconds (exp - now) in
               fail_if (maxAge <=? 0)%Z with ENew "id token already expired" in
               fail_if maxCookieValueLen <? String.length raw with Errorf "id token is %d bytes, too large for a cookie" in
               Ok (claims, maxAge)
           end
       end
   end, l).

Definition setSession (w : Response) (lg : JWTLogin) (idToken : string) (maxAge : Z) (refreshToken : string) : Response :=
  let w := SetCookie (loginCookie lg (l_CookieName lg) idToken maxAge) w in
  if negb (l_Refresh lg) then w
  else if refreshToken =? "" then w
  else if maxCookieValueLen <? String.length refreshToken then w
  else SetCookie (loginCookie lg (RefreshCookieName lg) refreshToken (seconds (l_RefreshMaxAge lg))) w.

(** The checks of [Callback] up to the exchange: the stored state and the code,
    or the status and message of the refusal. *)
Definition callback_state (src : JWTSource) (q : Values) (cookie : string) : loginState * string + Z * string :=
  match b64url_decode cookie ≫= json_Unmarshal with
  | None => inr (400%Z, "login session invalid, try again")
  | Some st =>
      if st_Source st !=? j_Name src then inr (400%Z, "login session invalid, try again")
      else if (Values_Get q "state" !=? st_State st) || (st_State st =? "") then
        inr (400%Z, "login session invalid, try again")
      else if Values_Get q "error" !=? "" then inr (403%Z, "login was not completed")
      else if Values_Get q "code" =? "" then inr (400%Z, "login failed")
      else inl (st, Values_Get q "code")
  end.
(** From the exchange on. *)
Definition callback_exchange (now : Z) (w : Response) (r : Request) (src : JWTSource) (lg : JWTLogin)
    (st : loginState) (code : string) (l : LoginRegistry) : Response * LoginRegistry :=
  let '(ep, l) := endpoints now src l in
  match ep with
  | Err _ => (rejectUnavailable w reasonLoginUnavailable loginRetry, l)
  | Ok e =>
      let tok := Exchange (lg_net l) (le_client e) (oauthConfig src lg e) code (st_Verifier st) in
      let l := count_net l in
      match tok with
      | Err _ => (login_fail w 502 "login failed", l)
      | Ok tok =>
          let rawID := tk_IDToken tok in
          if rawID =? "" then (login_fail w 502 "login failed", l)
          else
            let '(res, l) := verifyIDToken now src rawID l in
            match res with
            | Err e =>
                if errors_Is e "signing keys unavailable"
                then (rejectUnavailable w reasonKeysUnavailable loginRetry, l)
                else (login_fail w 403 "login failed", l)
            | Ok (claims, maxAge) =>
                let n := match claims !! "nonce" with Some (AString s) => s | _ => "" end in
                if n !=? st_Nonce st then (login_fail w 403 "login failed", l)
                else
                  let w := setSession w lg rawID maxAge (tk_RefreshToken tok) in
                  (Redirect r (sanitizeReturnTo (st_ReturnTo st)) 302 w, l)
            end
      end
  end.
Definition Callback (now : Z) (w : Response) (r : Request) (src : JWTSource) (lg : JWTLogin)
    (l : LoginRegistry) : Response * LoginRegistry :=
  let w := w_Set "Cache-Control" "no-store" w in
  let q := URL_Query (r_URL r) in
  let stateParam := Values_Get q "state" in
  if String.length stateParam <? loginStateKeyLen then
    (login_fail w 400 "login session invalid, try again", l)
  else
    let cookieName := loginStateCookieName stateParam in
    match Cookie_ r cookieName with
    | None => (login_fail w 400 "login session expired, try again", l)
    | Some c =>
        let w := SetCookie (loginCookie lg cookieName "" (-1)) w in
        match callback_state src q c with
        | inr (status, msg) => (login_fail w status msg, l)
        | inl (st, code) => callback_exchange now w r src lg st code l
        end
    end.

(** * login_refresh.go *)

Definition errRefreshRejected := ENew "refresh token rejected".

Definition refresh_key (src : JWTSource) (refreshToken : string) : string :=
  sha256_hex (j_Name src +:+ nul +:+ refreshToken).

Definition doRefresh (now : Z) (src : JWTSource) (lg : JWTLogin) (refreshToken : string) (l : LoginRegistry)
  : result refreshOutcome * LoginRegistry :=
  let '(ep, l) := endpoints now src l in
  match ep with
  | Err e => (Err e, l)
  | Ok e =>
      let tok := TokenSource_Token (lg_net l) (le_client e) (oauthConfig src lg e) refreshToken in
      let l := count_net l in
      match tok with
      | RefreshRetrieveError status code =>
          (if (status =? 400)%Z || (status =? 401)%Z
           then Err (EWrap "%w: %s" [code] [errRefreshRejected])
           else Err (Wrapf "refresh: %w" [] (ErrorfA "oauth2: cannot fetch token: %s" [code])), l)
      | RefreshError e => (Err (Wrapf "refresh: %w" [] e), l)
      | RefreshOk tok =>
          let rawID := tk_IDToken tok in
          if rawID =? "" then (Err (EWrap "%w: token response has no id_token" [] [errRefreshRejected]), l)
          else
            let '(res, l) := verifyIDToken now src rawID l in
            match res with
            | Err e =>
                (Err (if errors_Is e "signing keys unavailable" then e
                      else EWrap "%w: %w" [] [errRefreshRejected; e]), l)
            | Ok (_, maxAge) =>
                let next := if tk_RefreshToken tok =? "" then refreshToken else tk_RefreshToken tok in
                (Ok (mkOutcome rawID next maxAge), l)
            end
      end
  end.

(** Is this call's result to be shared with a caller at [now]? *)
Definition call_live (now : Z) (c : refreshCall) : bool :=
  match c with InFlight => true | Finished _ at_ => (now - at_ <=? refreshGrace)%Z end.

(** [waited]: what waiting for a call in flight brought, the leader's result or
    the request's own end. *)
Definition redeem (now : Z) (waited : result refreshOutcome) (src : JWTSource) (lg : JWTLogin)
    (refreshToken : string) (l : LoginRegistry) : result refreshOutcome * LoginRegistry :=
  let k := refresh_key src refreshToken in
  let lead (_ : unit) :=
    let '(out, l) := doRefresh now src lg refreshToken l in
    match out with
    | Err e => (Err e, with_calls (delete k (lg_calls l)) l)
    | Ok o => (Ok o, with_calls (<[k := Finished o now]> (lg_calls l)) l)
    end in
  match lg_calls l !! k with
  | Some c =>
      if call_live now c then
        match c with InFlight => (waited, l) | Finished o _ => (Ok o, l) end
      else lead tt
  | None => lead tt
  end.

Fixpoint refresh_loop (now : Z) (waited : result refreshOutcome) (w : Response) (r : Request)
    (srcs : list JWTSource) (tokens : gmap string string) (l : LoginRegistry)
  : bool * Response * Request * LoginRegistry :=
  match srcs with
  | [] => (false, w, r, l)
  | src :: srcs =>
      let rt := default "" (tokens !! j_Name src) in
      match j_Login src with
      | Some lg =>
          if (rt =? "") || negb (LoginEnabled src) || negb (l_Refresh lg)
          then refresh_loop now waited w r srcs tokens l
          else
            let '(out, l) := redeem now waited src lg rt l in
            match out with
            | Ok o =>
                (false, setSession w lg (ro_idToken o) (ro_maxAge o) (ro_refreshToken o),
                 AddCookie (l_CookieName lg) (ro_idToken o) r, l)
            | Err e =>
                if errors_Is e "refresh token rejected" then
                  refresh_loop now waited (SetCookie (loginCookie lg (RefreshCookieName lg) "" (-1)) w) r srcs tokens l
                else (true, rejectUnavailable w reasonLoginUnavailable loginRetry, r, l)
            end
      | None => refresh_loop now waited w r srcs tokens l
      end
  end.
Definition Refresh (now : Z) (waited : result refreshOutcome) (w : Response) (r : Request)
    (auth : InboundAuthConfig) (tokens : gmap string string) (l : LoginRegistry)
  : bool * Response * Request * LoginRegistry :=
  if tokens =? ∅ then (false, w, r, l)
  else match extractToken r auth with
       | Some _ => (false, w, r, l)
       | None => refresh_loop now waited w r (a_JWT auth) tokens l
       end.

Definition DropStaleLogin (w : Response) (r : Request) (auth : InboundAuthConfig) : Response * Request :=
  match extractTokenFrom r auth with
  | Some (_, Some src) =>
      match j_Login src with
      | Some lg =>
          let '(_, r) := takeCookies {[l_CookieName lg := j_Name src]} r in
          (SetCookie (loginCookie lg (l_CookieName lg) "" (-1)) w, r)
      | None => (w, r)
      end
  | _ => (w, r)
  end.

(** * logout.go *)

Definition endSessionURL (now : Z) (src : JWTSource) (lg : JWTLogin) (idToken : string) (l : LoginRegistry)
  : option string * LoginRegistry :=
  let '(ep, l) := endpoints now src l in
  (match ep with
   | Err _ => None
   | Ok e =>
       if le_endSessionURL e =? "" then None
       else match Parse (le_endSessionURL e) with
            | Err _ => None
            | Ok u =>
                let q := Values_Set "id_token_hint" idToken (URL_Query u) in
                let q := if l_PostLogoutRedirectURI lg !=? ""
                         then Values_Set "post_logout_redirect_uri" (l_PostLogoutRedirectURI lg) q else q in
                Some (url_String (mkURL (u_Scheme u) (u_Opaque u) (u_User u) (u_Host u) (u_Path u)
                  (u_RawPath u) (u_ForceQuery u) (Values_Encode q) (u_Fragment u)))
            end
   end, l).

(** The loop over the sources: the first with [end_session] that carried a
    token, and the cookies cleared. *)
Definition logout_source (r : Request) (acc : option (JWTSource * JWTLogin * string) * Response) (src : JWTSource)
  : option (JWTSource * JWTLogin * string) * Response :=
  let '(es, w) := acc in
  match j_Login src with
  | Some lg =>
      if LoginEnabled src then
        let es := match Cookie_ r (l_CookieName lg), es with
                  | Some v, None => if (v !=? "") && l_EndSession lg then Some (src, lg, v) else None
                  | _, _ => es
                  end in
        (es, SetCookie (loginCookie lg (RefreshCookieName lg) "" (-1))
               (SetCookie (loginCookie lg (l_CookieName lg) "" (-1)) w))
      else (es, w)
  | None => (es, w)
  end.
Definition saml_session_clear (s : SAMLSource) : Cookie :=
  mkCookie (s_SessionCookie s) "" "/" (-1) true (HasPrefix (ToLower (s_SPBaseURL s)) "https://").

Definition serveLogout (now : Z) (tls : bool) (w : Response) (r : Request) (auth : InboundAuthConfig)
    (l : LoginRegistry) : Response * LoginRegistry :=
  if (r_Method r !=? "GET") && (r_Method r !=? "HEAD") && (r_Method r !=? "POST") then
    (http_Error "method not allowed" 405 (w_Set "Allow" "GET, HEAD, POST" w), l)
  else
    let returnTo := sanitizeReturnTo (Values_Get (URL_Query (r_URL r)) "return_to") in
    let '(es, w) := foldl (logout_source r) (None, w) (a_JWT auth) in
    let w := match a_SAML auth with
             | Some s => if SAMLEnabled auth then SetCookie (saml_session_clear s) w else w
             | None => w
             end in
    let w := SetCookie (mkCookie loginMethodCookie "" "/" (-1) true (request_secure tls r)) w in
    let w := w_Set "Cache-Control" "no-store" w in
    let '(target, l) :=
      match es with
      | Some (src, lg, idToken) =>
          let '(u, l) := endSessionURL now src lg idToken l in (default returnTo u, l)
      | None => (returnTo, l)
      end in
    (Redirect r target 302 w, l).
End login.

(** * Concurrent redemptions *)

(** The calls of [redeem] share their objects by reference: the map holds the
    newest call of each key, and waiters hold the call they joined.  One atomic
    step is what a request does under [refreshMu], or the passing of time. *)
Section single_flight.
Record flightCall := mkFlight { fc_key : string; fc_done : option (result refreshOutcome * Z) }.
Record flights := mkFlights {
  fl_now : Z; fl_map : gmap string nat; fl_heap : gmap nat flightCall; fl_next : nat;
  fl_wait : list (string * nat)      (* callers waiting, with the key they want *)
}.
Definition no_flights (now : Z) : flights := mkFlights now ∅ ∅ 0 [].

Definition flight_live (now : Z) (c : flightCall) : bool :=
  match fc_done c with None => true | Some (_, t) => (now - t <=? refreshGrace)%Z end.
Definition entry (s : flights) (k : string) : option flightCall :=
  fl_map s !! k ≫= λ a, fl_heap s !! a.

Inductive flight_event :=
| Began (k : string) (a : nat)                               (* a redemption starts *)
| Ended (a : nat) (out : result refreshOutcome)
| Got (k : string) (out : result refreshOutcome).            (* a waiter is answered *)

Inductive flight_step : flights → option flight_event → flights → Prop :=
| F_tick s t : (fl_now s ≤ t)%Z →
    flight_step s None (mkFlights t (fl_map s) (fl_heap s) (fl_next s) (fl_wait s))
| F_lead s k :
    (∀ c, entry s k = Some c → flight_live (fl_now s) c = false) →
    flight_step s (Some (Began k (fl_next s)))
      (mkFlights (fl_now s) (<[k := fl_next s]> (fl_map s)) (<[fl_next s := mkFlight k None]> (fl_heap s))
         (Datatypes.S (fl_next s)) (fl_wait s))
| F_join s k a c :
    fl_map s !! k = Some a → fl_heap s !! a = Some c → flight_live (fl_now s) c = true →
    flight_step s None (mkFlights (fl_now s) (fl_map s) (fl_heap s) (fl_next s) ((k, a) :: fl_wait s))
| F_finish s a c out :
    fl_heap s !! a = Some c → fc_done c = None →
    flight_step s (Some (Ended a out))
      (mkFlights (fl_now s) (if is_ok out then fl_map s else delete (fc_key c) (fl_map s))
         (<[a := mkFlight (fc_key c) (Some (out, fl_now s))]> (fl_heap s)) (fl_next s) (fl_wait s))
| F_timer s a c o t :
    fl_heap s !! a = Some c → fc_done c = Some (Ok o, t) → (t + refreshGrace ≤ fl_now s)%Z →
    flight_step s None
      (mkFlights (fl_now s) (if fl_map s !! fc_key c =? Some a then delete (fc_key c) (fl_map s) else fl_map s)
         (fl_heap s) (fl_next s) (fl_wait s))
| F_got s k a c out t ws1 ws2 :
    fl_wait s = ws1 ++ (k, a) :: ws2 → fl_heap s !! a = Some c → fc_done c = Some (out, t) →
    flight_step s (Some (Got k out)) (mkFlights (fl_now s) (fl_map s) (fl_heap s) (fl_next s) (ws1 ++ ws2))
| F_gone s k a ws1 ws2 :
    fl_wait s = ws1 ++ (k, a) :: ws2 →
    flight_step s None (mkFlights (fl_now s) (fl_map s) (fl_heap s) (fl_next s) (ws1 ++ ws2)).

Inductive flight_steps : flights → list flight_event → flights → Prop :=
| FS_nil s : flight_steps s [] s
| FS_step s e s1 l s2 : flight_step s e s1 → flight_steps s1 l s2 →
    flight_steps s (option_list e ++ l) s2.

(** The registry's map as [redeem] reads it. *)
Definition call_view (c : flightCall) : option refreshCall :=
  match fc_done c with
  | None => Some InFlight
  | Some (Ok o, t) => Some (Finished o t)
  | Some (Err _, _) => None
  end.
Definition flights_view (s : flights) : gmap string refreshCall :=
  omap (λ a, fl_heap s !! a ≫= call_view) (fl_map s).
End single_flight.

(** * Lemmas *)

Lemma b64url_val_char z : (0 ≤ z < 64)%Z → b64url_val (b64url_char z) = Some z.
Proof.
  intros Hz. destruct z as [|p|p]; [done| |lia].
  do 6 (destruct p as [p|p|]; [| |reflexivity]); lia.
Qed.

Lemma b64url_char_line z : (0 ≤ z < 64)%Z →
  (byte (b64url_char z) =? 10)%Z || (byte (b64url_char z) =? 13)%Z = false.
Proof.
  intros Hz. destruct z as [|p|p]; [done| |lia].
  do 6 (destruct p as [p|p|]; [| |reflexivity]); lia.
Qed.
Lemma strip_b64 z s : (0 ≤ z < 64)%Z →
  strip_newlines (String (b64url_char z) s) = String (b64url_char z) (strip_newlines s).
Proof. intros Hz. cbn. by rewrite b64url_char_line. Qed.

(** The bytes recovered from 6-bit groups, and the ranges of the groups. *)
Ltac b64_arith :=
  repeat match goal with a : ascii |- _ =>
    lazymatch goal with _ : (0 ≤ byte a < 256)%Z |- _ => fail | _ => pose proof (byte_bound a) end end;
  Z.to_euclidean_division_equations; lia.
Lemma b64_byte (a : ascii) z : z = byte a → char z = a.
Proof. intros ->. apply char_byte. Qed.

Lemma string_ind3 (P : string → Prop) :
  P "" → (∀ a, P (String a "")) → (∀ a b, P (String a (String b ""))) →
  (∀ a b c s, P s → P (String a (String b (String c s)))) → ∀ s, P s.
Proof.
  intros H0 H1 H2 H3. fix IH 1. intros [|a [|b [|c s]]]; [done|apply H1|apply H2|apply H3, IH].
Qed.

Lemma b64url_quanta_encode s :
  strip_newlines (b64url_encode s) = b64url_encode s ∧ b64url_quanta (b64url_encode s) = Some s.
Proof.
  induction s as [|a|a b|a b c s [IH1 IH2]] using string_ind3; [done| | |]; cbn [b64url_encode];
    (split; [rewrite !strip_b64 by b64_arith; by rewrite ?IH1|]);
    cbn [b64url_quanta]; rewrite !b64url_val_char by b64_arith; rewrite ?IH2; cbn [fmap option_fmap option_map];
    repeat f_equal; apply b64_byte; b64_arith.
Qed.
Lemma b64url_decode_encode s : b64url_decode (b64url_encode s) = Some s.
Proof. unfold b64url_decode. destruct (b64url_quanta_encode s) as [-> ->]. done. Qed.

Lemma b64url_encode_length s : String.length s ≤ String.length (b64url_encode s).
Proof. induction s as [|a|a b|a b c s IH] using string_ind3; cbn [b64url_encode String.length]; lia. Qed.
Lemma b64url_char_ascii z : (0 ≤ z < 64)%Z → (byte (b64url_char z) < 128)%Z.
Proof. intros Hz. destruct z as [|p|p]; [done| |lia]. do 6 (destruct p as [p|p|]; [| |reflexivity]); lia. Qed.
Lemma b64url_valid s : valid_utf8 (b64url_encode s).
Proof.
  apply valid_ascii. induction s as [|a|a b|a b c s IH] using string_ind3; cbn [b64url_encode String.list_ascii_of_string];
    repeat (apply Forall_cons; split; [apply b64url_char_ascii; b64_arith|]); [constructor..|done].
Qed.

(** ** The login state *)

(** The fields are found by their names. *)
Lemma loginState_fields `{Unicode} s st_ n v r x :
  let f := loginState_field (mkLoginState s st_ n v r) in
  f "s" (jstring x) = Ok (mkLoginState (to_valid x) st_ n v r) ∧ f "st" (jstring x) = Ok (mkLoginState s (to_valid x) n v r) ∧
  f "n" (jstring x) = Ok (mkLoginState s st_ (to_valid x) v r) ∧ f "v" (jstring x) = Ok (mkLoginState s st_ n (to_valid x) r) ∧
  f "r" (jstring x) = Ok (mkLoginState s st_ n v (to_valid x)).
Proof. cbn zeta. rewrite <- unquote_quote. by split_and!. Qed.
(** encoding/json reads back what it wrote, invalid UTF-8 replaced. *)
Lemma json_roundtrip `{Unicode} st : json_Unmarshal (json_Marshal st) =
  Some (mkLoginState (to_valid (st_Source st)) (to_valid (st_State st)) (to_valid (st_Nonce st)) (to_valid (st_Verifier st))
    (to_valid (st_ReturnTo st))).
Proof.
  unfold json_Unmarshal, json_Marshal, Unmarshal, loginState_json. rewrite Marshal_parse.
  2: { repeat constructor; try (intros r; reflexivity); apply wf_quote_lit. }
  rewrite escape_object. cbn [list_fmap fmap fst snd]. rewrite !escape_jstring.
  do 5 (rewrite Decode_struct_cons;
    match goal with |- context [unquote (html_escape ?k)] => change (unquote (html_escape k)) with k end;
    match goal with |- context [loginState_field (mkLoginState ?s ?a ?n ?v ?r) _ (jstring ?x)] =>
      destruct (loginState_fields s a n v r x) as (H1 & H2 & H3 & H4 & H5) end;
    first [rewrite H1|rewrite H2|rewrite H3|rewrite H4|rewrite H5]; clear H1 H2 H3 H4 H5; cbn [rbind]).
  done.
Qed.

Section login_lemmas.
Context {C : Crypto} {X : X509} {N : NetURL} {U : Unicode} {F : Floats} {J : JWT} {W : Network}
  {L : LoginNet} {O : OAuth2} {D : Sha256}.
Implicit Types l : LoginRegistry.

(** ** The discovery cache *)

(** [e] came from a fetch for this fingerprint. *)
Definition fetched_for (fp : string) (e : loginEndpoints) : Prop :=
  ∃ src n now, loginFingerprint src = fp ∧ fetchEndpoints now n src = Ok e.
Definition slot_ok (s : loginSlot) : Prop := ∀ g, sl_good s = Some g → fetched_for (sl_fp s) g.
Definition slots_ok l : Prop := ∀ name s, lg_slots l !! name = Some s → slot_ok s.

Lemma slots_ok_new j : slots_ok (NewLoginRegistry j).
Proof. intros name s H. cbn in H. by rewrite lookup_empty in H. Qed.
Lemma slots_ok_with name s l : slots_ok l → slot_ok s → slots_ok (with_slot name s l).
Proof. intros Hl Hs n s' H. cbn in H. apply lookup_insert_Some in H as [[<- <-]|[_ H]]; [done|]. by eapply Hl. Qed.
Lemma slots_ok_same l l' : lg_slots l' = lg_slots l → slots_ok l → slots_ok l'.
Proof. unfold slots_ok. by intros ->. Qed.
Lemma slots_ok_default l name : slots_ok l → slot_ok (default empty_slot (lg_slots l !! name)).
Proof.
  intros Hl. destruct (lg_slots l !! name) as [s|] eqn:E; cbn; [by eapply Hl|]. by intros g Hg.
Qed.

(** What a call of [endpoints] leaves in the slot: it answers from the slot,
    and the slot answers the same for a while. *)
Record answered (now : Z) (src : JWTSource) (res : result loginEndpoints) (s : loginSlot) : Prop := {
  an_fp : sl_fp s = loginFingerprint src;
  an_good : ∀ g, res = Ok g ↔ sl_good s = Some g;
  an_err : ∀ e, res = Err e → sl_failErr s = Some e ∧ (now < sl_nextTry s)%Z;
  an_live : ∀ g, res = Ok g → (now < le_expires g)%Z ∨ is_Some (sl_failErr s) ∧ (now < sl_nextTry s)%Z
}.

Lemma fetchEndpoints_expires now n src e :
  fetchEndpoints now n src = Ok e → le_expires e = (now + loginEndpointsTTL)%Z.
Proof. unfold fetchEndpoints. intros H. run_checks H. done. Qed.

(** The registry after the call, [s] being the slot it left. *)
Record slot_left (now : Z) (src : JWTSource) l (res : result loginEndpoints) (l' : LoginRegistry) (s : loginSlot) : Prop := {
  le_slots : lg_slots l' = <[j_Name src := s]> (lg_slots l);
  le_ok : slot_ok s;
  le_answered : answered now src res s;
  le_jwt : lg_jwt l' = lg_jwt l;
  le_calls : lg_calls l' = lg_calls l;
  le_net : lg_net l' = lg_net l ∨ lg_net l' = Datatypes.S (lg_net l) ∧
    ((sl_nextTry s = (now + loginRetry)%Z ∧ is_Some (sl_failErr s)) ∨
     ∃ g, res = Ok g ∧ le_expires g = (now + loginEndpointsTTL)%Z)
}.

Lemma slot_left_hit now src l res slot :
  slot_ok slot → answered now src res slot → slot_left now src l res (with_slot (j_Name src) slot l) slot.
Proof. intros Hok Ha. split; try done. by left. Qed.

(** After a fetch; [g] is what the slot held. *)
Lemma slot_left_fetch now src l slot res l' :
  slot_ok slot → sl_fp slot = loginFingerprint src →
  (match fetchEndpoints now (lg_net l) src with
   | Err e => (match sl_good slot with Some g => Ok g | None => Err e end,
       with_slot (j_Name src) (mkSlot (loginFingerprint src) (sl_good slot) (Some e) (now + loginRetry)%Z)
         (count_net (with_slot (j_Name src) slot l)))
   | Ok g => (Ok g, with_slot (j_Name src) (mkSlot (loginFingerprint src) (Some g) None (sl_nextTry slot))
         (count_net (with_slot (j_Name src) slot l)))
   end = (res, l')) →
  ∃ s, slot_left now src l res l' s.
Proof.
  intros Hok Hfp H. destruct (fetchEndpoints now _ src) as [g|e] eqn:Ef; simplify_eq; eexists.
  - pose proof (fetchEndpoints_expires _ _ _ _ Ef) as He.
    split; [cbn; by rewrite insert_insert_eq| | |done|done|].
    + intros g' [= <-]. by exists src, (lg_net l), now.
    + split; cbn; [done|naive_solver|done|]. intros g' [= <-]. left. rewrite He.
      unfold loginEndpointsTTL, hour, minute, second. lia.
    + right. split; [done|]. right. by exists g.
  - split; [cbn; by rewrite insert_insert_eq| | |done|done|].
    + intros g' Hg. cbn in *. rewrite <- Hfp. by apply Hok.
    + destruct (sl_good slot) as [g|]; split; cbn; try naive_solver.
      * intros g' [= <-]. right. split; [eauto|unfold loginRetry, second; lia].
      * intros e' [= <-]. split; [done|unfold loginRetry, second; lia].
    + right. split; [done|]. left. split; [done|eauto].
Qed.

Lemma endpoints_cases now src l res l' :
  slots_ok l → endpoints now src l = (res, l') → ∃ s, slot_left now src l res l' s.
Proof.
  intros Hl H. unfold endpoints in H.
  set (slot := if sl_fp _ !=? _ then _ else _) in H.
  assert (Hslot : slot_ok slot ∧ sl_fp slot = loginFingerprint src).
  { subst slot. case_bool_decide as E; cbn [negb]; [|done]. split; [by apply slots_ok_default|done]. }
  destruct Hslot as [Hok Hfp]. clearbody slot.
  pose proof (slot_left_fetch now src l slot res l' Hok Hfp) as Hf.
  destruct (sl_good slot) as [g|] eqn:Eg.
  - destruct (now <? le_expires g)%Z eqn:Ex.
    + simplify_eq. eexists. apply slot_left_hit; [done|]. split; [done|naive_solver|done|].
      intros g' [= <-]. left. lia.
    + destruct (sl_failErr slot) as [e|] eqn:Ee; [|by apply Hf].
      destruct (now <? sl_nextTry slot)%Z eqn:En; [|by apply Hf]. simplify_eq. eexists.
      apply slot_left_hit; [done|]. split; [done|naive_solver|done|].
      intros g' [= <-]. right. rewrite Ee. split; [eauto|lia].
  - destruct (sl_failErr slot) as [e|] eqn:Ee; [|by apply Hf].
    destruct (now <? sl_nextTry slot)%Z eqn:En; [|by apply Hf]. simplify_eq. eexists.
    apply slot_left_hit; [done|]. split; [done|naive_solver| |done].
    intros e' [= <-]. split; [done|lia].
Qed.

Lemma endpoints_ok now src l res l' : slots_ok l → endpoints now src l = (res, l') → slots_ok l'.
Proof.
  intros Hl H. destruct (endpoints_cases _ _ _ _ _ Hl H) as (s & [Hs Hok _ _ _ _]).
  intros n s' Hn. rewrite Hs in Hn. apply lookup_insert_Some in Hn as [[<- <-]|[_ Hn]]; [done|]. by eapply Hl.
Qed.

(** A later call for the same fingerprint, from the slot the first one left. *)
Lemma endpoints_again now now' src src' l res l' s :
  j_Name src' = j_Name src → loginFingerprint src' = loginFingerprint src →
  slot_left now src l res l' s →
  (∀ g, res = Ok g → is_ok (endpoints now' src' l').1 = true) ∧
  ((∀ g, res = Ok g → (now' < le_expires g)%Z ∨ is_Some (sl_failErr s) ∧ (now' < sl_nextTry s)%Z) →
   (∀ e, res = Err e → (now' < sl_nextTry s)%Z) →
   endpoints now' src' l' = (res, l')).
Proof.
  intros Hn Hf [Hs Hok [Hfp Hgood Herr _] _ _ _].
  assert (Hw : with_slot (j_Name src) s l' = l').
  { unfold with_slot. destruct l'; cbn in *. f_equal. rewrite Hs. by rewrite insert_insert_eq. }
  unfold endpoints. rewrite Hn, Hf, Hs, lookup_insert_eq. cbn [default id].
  rewrite (bool_decide_true (sl_fp s = _)) by done. cbn [negb id]. rewrite Hw. split.
  - intros g Hg. apply Hgood in Hg. rewrite Hg. repeat case_match; done.
  - intros Hlive Hdead. destruct res as [g|e].
    + pose proof (proj1 (Hgood g) eq_refl) as ->. destruct (Hlive g eq_refl) as [Hx|[[e He] Hx]].
      * by rewrite (proj2 (Z.ltb_lt _ _) Hx).
      * rewrite He, (proj2 (Z.ltb_lt _ _) Hx). by destruct (now' <? le_expires g)%Z.
    + destruct (Herr e eq_refl) as [He _]. destruct (sl_good s) as [g|] eqn:Eg.
      { by pose proof (proj2 (Hgood g) eq_refl). }
      by rewrite He, (proj2 (Z.ltb_lt _ _) (Hdead e eq_refl)).
Qed.

(** ** ID tokens and sessions *)

Lemma endpoints_jwt now src l res l' :
  endpoints now src l = (res, l') → lg_jwt l' = lg_jwt l ∧ lg_calls l' = lg_calls l.
Proof.
  intros H. unfold endpoints in H. set (slot := if sl_fp _ !=? _ then _ else _) in H.
  clearbody slot. repeat case_match; by simplify_eq.
Qed.

(** An ID token usable as a session at [now]: it verifies under the source's
    policy with its keys, says when it expires, and fits a cookie. *)
Record session_token (now : Z) (src : JWTSource) (jwt : Registry) (raw : string)
    (claims : gmap string any) (maxAge : Z) : Prop := {
  stk_verified : ∃ kf, (Keyfunc_ now src jwt).1 = Ok kf ∧ verify raw src kf = Ok claims;
  stk_expires : ∃ exp, GetExpirationTime claims = Ok (Some exp) ∧ maxAge = seconds (exp - now) ∧ (0 < maxAge)%Z;
  stk_size : String.length raw ≤ maxCookieValueLen
}.
Lemma verifyIDToken_ok now src raw l claims maxAge l' :
  verifyIDToken now src raw l = (Ok (claims, maxAge), l') →
  session_token now src (lg_jwt l) raw claims maxAge ∧ lg_slots l' = lg_slots l ∧ lg_calls l' = lg_calls l.
Proof.
  unfold verifyIDToken. destruct (Keyfunc_ now src (lg_jwt l)) as [kf j] eqn:Ek. intros H.
  injection H as H <-. split; [|done]. destruct kf as [kf|]; [|done].
  destruct (verify raw src kf) as [cl|] eqn:Ev; [|done].
  destruct (GetExpirationTime cl) as [[exp|]|] eqn:Ex; [|done..]. run_checks H.
  split; [exists kf; by rewrite Ek|exists exp; split_and!; [done|done|lia]|]. by apply Nat.ltb_ge.
Qed.

Lemma login_fail_status w s msg : w_status w = None → w_status (login_fail w s msg) = Some s.
Proof. intros Hw. unfold login_fail. apply Write_sent, WriteHeader_fresh. by autorewrite with resp. Qed.
Lemma login_fail_cookies w s msg : w_cookies (login_fail w s msg) = w_cookies w.
Proof. unfold login_fail. by autorewrite with resp. Qed.
Lemma rejectUnavailable_cookies w why d : w_cookies (rejectUnavailable w why d) = w_cookies w.
Proof. unfold rejectUnavailable. cbn [w_cookies recordRejection]. by autorewrite with resp. Qed.

Definition refresh_cookies (lg : JWTLogin) (rt : string) : list Cookie :=
  if l_Refresh lg && (rt !=? "") && (String.length rt <=? maxCookieValueLen)
  then [loginCookie lg (RefreshCookieName lg) rt (seconds (l_RefreshMaxAge lg))] else [].
Lemma setSession_spec w lg v a rt :
  w_status w = None →
  w_status (setSession w lg v a rt) = None ∧ w_header (setSession w lg v a rt) = w_header w ∧
  w_cookies (setSession w lg v a rt) = w_cookies w ++ loginCookie lg (l_CookieName lg) v a :: refresh_cookies lg rt.
Proof.
  intros Hw. unfold setSession, refresh_cookies.
  destruct (l_Refresh lg); cbn [negb andb]; [|by autorewrite with resp].
  case_bool_decide; cbn [negb andb]; [by autorewrite with resp|].
  rewrite Nat.leb_antisym. destruct (_ <? _); cbn [negb]; autorewrite with resp; [done|].
  by rewrite <- app_assoc.
Qed.
Lemma Redirect_spec r url code w :
  w_status w = None →
  w_status (Redirect r url code w) = Some code ∧ w_cookies (Redirect r url code w) = w_cookies w ∧
  Header_Get (w_header (Redirect r url code w)) "Location" = redirect_location r url.
Proof.
  intros Hw. unfold Redirect. autorewrite with resp. split_and!; [done|done|].
  unfold Header_Get. by rewrite Header_Values_Set.
Qed.

Definition nonce_of (claims : gmap string any) : string :=
  match claims !! "nonce" with Some (AString s) => s | _ => "" end.

(** The exchange with the provider succeeded and gave this token. *)
Definition exchanged (src : JWTSource) (lg : JWTLogin) (code verifier : string) (tok : oauthToken) : Prop :=
  ∃ n e, Exchange n (le_client e) (oauthConfig src lg e) code verifier = Ok tok.

Definition login_done (now : Z) (w : Response) (r : Request) (src : JWTSource) (lg : JWTLogin)
    (jwt : Registry) (st : loginState) (code : string) (w' : Response) : Prop :=
  ∃ tok claims maxAge,
    exchanged src lg code (st_Verifier st) tok ∧ tk_IDToken tok ≠ "" ∧
    session_token now src jwt (tk_IDToken tok) claims maxAge ∧ nonce_of claims = st_Nonce st ∧
    w_status w' = Some 302%Z ∧
    w_cookies w' = w_cookies w ++ loginCookie lg (l_CookieName lg) (tk_IDToken tok) maxAge :: refresh_cookies lg (tk_RefreshToken tok) ∧
    Header_Get (w_header w') "Location" = redirect_location r (sanitizeReturnTo (st_ReturnTo st)).

Lemma callback_exchange_spec now w r src lg st code l w' l' :
  w_status w = None → callback_exchange now w r src lg st code l = (w', l') →
  w_status w' ∈ [Some 403%Z; Some 502%Z; Some 503%Z] ∧ w_cookies w' = w_cookies w ∨
  login_done now w r src lg (lg_jwt l) st code w'.
Proof.
  intros Hw H. unfold callback_exchange in H. destruct (endpoints now src l) as [ep l1] eqn:Ee.
  apply endpoints_jwt in Ee as [Hj _].
  assert (Hfail : ∀ s msg, s ∈ [403%Z; 502%Z] →
    w_status (login_fail w s msg) ∈ [Some 403%Z; Some 502%Z; Some 503%Z] ∧ w_cookies (login_fail w s msg) = w_cookies w).
  { intros s msg Hs. rewrite login_fail_status, login_fail_cookies by done. set_solver. }
  assert (Hun : ∀ why, w_status (rejectUnavailable w why loginRetry) ∈ [Some 403%Z; Some 502%Z; Some 503%Z] ∧
    w_cookies (rejectUnavailable w why loginRetry) = w_cookies w).
  { intros why. rewrite rejectUnavailable_status, rejectUnavailable_cookies by done. set_solver. }
  destruct ep as [e|]; [|simplify_eq; left; apply Hun].
  destruct (Exchange (lg_net l1) (le_client e) (oauthConfig src lg e) code (st_Verifier st)) as [tok|] eqn:Ex;
    [|simplify_eq; left; apply Hfail; set_solver].
  case_if_in H; bool_hyps; [left; apply Hfail; set_solver|].
  destruct (verifyIDToken now src (tk_IDToken tok) (count_net l1)) as [res l2] eqn:Ev.
  destruct res as [[claims maxAge]|err].
  2:{ case_if_in H; simplify_eq; left; [apply Hun|apply Hfail; set_solver]. }
  fold (nonce_of claims) in H. case_if_in H; bool_hyps; [left; apply Hfail; set_solver|]. right.
  apply verifyIDToken_ok in Ev as [Hst _]. cbn in Hst. rewrite Hj in Hst.
  pose proof (setSession_spec w lg (tk_IDToken tok) maxAge (tk_RefreshToken tok) Hw) as (Hs & _ & Hc).
  pose proof (Redirect_spec r (sanitizeReturnTo (st_ReturnTo st)) 302 _ Hs) as (Hr & Hrc & Hrl).
  exists tok, claims, maxAge. split_and!; try done.
  - by exists (lg_net l1), e.
  - by rewrite Hrc.
Qed.
End login_lemmas.

Section flight_lemmas.
Record flights_ok (s : flights) : Prop := {
  fo_map : ∀ k a, fl_map s !! k = Some a →
    ∃ c, fl_heap s !! a = Some c ∧ fc_key c = k ∧ is_Some (call_view c);
  fo_open : ∀ a c, fl_heap s !! a = Some c → fc_done c = None → fl_map s !! fc_key c = Some a;
  fo_done : ∀ a c o t, fl_heap s !! a = Some c → fc_done c = Some (Ok o, t) →
    (t ≤ fl_now s)%Z ∧ (fl_map s !! fc_key c = Some a ∨ (t + refreshGrace ≤ fl_now s)%Z);
  fo_next : ∀ a c, fl_heap s !! a = Some c → a < fl_next s;
  fo_wait : ∀ k a, (k, a) ∈ fl_wait s → ∃ c, fl_heap s !! a = Some c ∧ fc_key c = k
}.

Lemma flights_ok_new now : flights_ok (no_flights now).
Proof. split; cbn; try (intros *; rewrite lookup_empty; done). set_solver. Qed.

(** A key whose newest call is not live has no call in flight, and its
    successful calls are out of their grace. *)
Lemma not_live s k a c :
  flights_ok s → (∀ c, entry s k = Some c → flight_live (fl_now s) c = false) →
  fl_heap s !! a = Some c → fc_key c = k →
  ∃ out t, fc_done c = Some (out, t) ∧ (is_ok out = true → (t + refreshGrace ≤ fl_now s)%Z).
Proof.
  intros [_ Ho Hd _ _] Hl Ha <-.
  assert (Hm : fl_map s !! fc_key c = Some a → flight_live (fl_now s) c = false).
  { intros Hm. apply Hl. unfold entry. by rewrite Hm. }
  destruct (fc_done c) as [[[o|e] t]|] eqn:Ed.
  - exists (Ok o), t. split; [done|]. intros _. destruct (Hd _ _ _ _ Ha Ed) as [_ [Hmap|?]]; [|done].
    specialize (Hm Hmap). unfold flight_live in Hm. rewrite Ed in Hm. lia.
  - by exists (Err e), t.
  - specialize (Hm (Ho _ _ Ha Ed)). unfold flight_live in Hm. by rewrite Ed in Hm.
Qed.

Lemma flights_ok_lead s k :
  flights_ok s → (∀ c, entry s k = Some c → flight_live (fl_now s) c = false) →
  flights_ok (mkFlights (fl_now s) (<[k := fl_next s]> (fl_map s)) (<[fl_next s := mkFlight k None]> (fl_heap s))
    (Datatypes.S (fl_next s)) (fl_wait s)).
Proof.
  intros Hok Hl. pose proof (not_live s k) as Hnl. destruct Hok as [Hm Ho Hd Hn Hw].
  assert (Hfresh : ∀ a c, fl_heap s !! a = Some c → fl_next s ≠ a) by (intros a c Ha%Hn; lia).
  split; cbn.
  - intros k' a [[<- <-]|[Hne Hk]]%lookup_insert_Some.
    + exists (mkFlight k None). rewrite lookup_insert_eq. cbn. eauto.
    + destruct (Hm _ _ Hk) as (c & Hc & ?). exists c. rewrite lookup_insert_ne by eauto. done.
  - intros a c [[<- <-]|[Hne Ha]]%lookup_insert_Some Hc; [by rewrite lookup_insert_eq|].
    rewrite lookup_insert_ne; [by eapply Ho|]. intros ->.
    destruct (Hnl a c) as (? & ? & ? & _); [by split|done..|congruence].
  - intros a c o t [[<- <-]|[Hne Ha]]%lookup_insert_Some Hc; [done|].
    destruct (Hd _ _ _ _ Ha Hc) as [? Hor]. split; [done|].
    destruct (decide (k = fc_key c)) as [->|?]; [|rewrite lookup_insert_ne by done; done].
    right. destruct (Hnl a c) as (? & ? & Heq & Hx); [by split|done..|]. rewrite Hc in Heq.
    injection Heq as <- <-. by apply Hx.
  - intros a c [[<- _]|[_ Ha%Hn]]%lookup_insert_Some; lia.
  - intros k' a (c & Hc & ?)%Hw. exists c. by rewrite lookup_insert_ne by eauto.
Qed.

Lemma flights_ok_finish s a c out :
  flights_ok s → fl_heap s !! a = Some c → fc_done c = None →
  flights_ok (mkFlights (fl_now s) (if is_ok out then fl_map s else delete (fc_key c) (fl_map s))
    (<[a := mkFlight (fc_key c) (Some (out, fl_now s))]> (fl_heap s)) (fl_next s) (fl_wait s)).
Proof.
  intros [Hm Ho Hd Hn Hw] Ha Hopen.
  assert (Hin : ∀ k b, (if is_ok out then fl_map s else delete (fc_key c) (fl_map s)) !! k = Some b →
    fl_map s !! k = Some b ∧ (is_ok out = true ∨ k ≠ fc_key c)).
  { intros k b H. destruct (is_ok out); [by auto|]. apply lookup_delete_Some in H as [? ?]. auto. }
  assert (Hkeep : ∀ k b, fl_map s !! k = Some b → b ≠ a ∨ is_ok out = true →
    (if is_ok out then fl_map s else delete (fc_key c) (fl_map s)) !! k = Some b).
  { intros k b Hk Hor. destruct (is_ok out) eqn:Eo; [done|]. destruct Hor as [Hba|]; [|done].
    apply lookup_delete_Some. split; [|done]. intros <-. rewrite (Ho _ _ Ha Hopen) in Hk. congruence. }
  split; cbn.
  - intros k b [Hk Hor]%Hin. destruct (decide (b = a)) as [->|Hne].
    + rewrite lookup_insert_eq. eexists. split; [done|]. cbn.
      destruct (Hm _ _ Hk) as (c' & Hc' & <- & _). rewrite Ha in Hc'. injection Hc' as <-.
      split; [done|]. destruct Hor as [Hok|?]; [|done]. destruct out; [|done]. unfold call_view. cbn. eauto.
    + rewrite lookup_insert_ne by done. by apply Hm.
  - intros b c' [[<- <-]|[Hne Hb]]%lookup_insert_Some Hc; [done|].
    apply Hkeep; [by eapply Ho|by left].
  - intros b c' o t [[<- <-]|[Hne Hb]]%lookup_insert_Some Hc; cbn in *.
    + injection Hc as -> <-. split; [lia|]. left. cbn. by eapply Ho.
    + destruct (Hd _ _ _ _ Hb Hc) as [? [?|?]]; [|by auto]. split; [done|]. left. apply Hkeep; auto.
  - intros b c' [[<- _]|[_ Hb]]%lookup_insert_Some; by eapply Hn.
  - intros k b (c' & Hc & Hk)%Hw. destruct (decide (a = b)) as [->|?].
    + rewrite lookup_insert_eq. eexists. split; [done|]. cbn. congruence.
    + exists c'. by rewrite lookup_insert_ne.
Qed.

Lemma flights_ok_step s e s' : flight_step s e s' → flights_ok s → flights_ok s'.
Proof.
  intros Hstep Hok. destruct Hstep as [s t Ht|s k Hl|s k a c Hk Ha Hl|s a c out Ha Hc|s a c o t Ha Hc Ht
    |s k a c out t ws1 ws2 Hws Ha Hc|s k a ws1 ws2 Hws].
  - destruct Hok as [Hm Ho Hd Hn Hw]. split; cbn; try done. intros a c o t' Ha Hc.
    destruct (Hd _ _ _ _ Ha Hc) as [? Hor].
    split; [lia|]. destruct Hor; [by left|right; lia].
  - by apply flights_ok_lead.
  - destruct Hok as [Hm Ho Hd Hn Hw]. split; cbn; try done.
    intros k' a' [[= -> ->]|?]%elem_of_cons; [|by apply Hw]. destruct (Hm _ _ Hk) as (c' & ? & ? & _). eauto.
  - by apply flights_ok_finish.
  - destruct Hok as [Hm Ho Hd Hn Hw]. case_bool_decide as Hmap; [|by split].
    split; cbn; try done.
    + intros k b [_ Hk]%lookup_delete_Some. by apply Hm.
    + intros b c' Hb Hc'. apply lookup_delete_Some. split; [|by eapply Ho].
      intros Heq. pose proof (Ho _ _ Hb Hc') as Hb'. rewrite <- Heq in Hb'. congruence.
    + intros b c' o' t' Hb Hc'. destruct (Hd _ _ _ _ Hb Hc') as [? [Hmb|?]]; [|by auto]. split; [done|].
      destruct (decide (fc_key c = fc_key c')) as [Heq|?].
      * right. rewrite <- Heq, Hmap in Hmb. injection Hmb as <-. rewrite Ha in Hb. simplify_eq. done.
      * left. by rewrite lookup_delete_ne.
  - destruct Hok as [Hm Ho Hd Hn Hw]. split; cbn; try done. intros k' a' Hin. apply Hw. rewrite Hws. set_solver.
  - destruct Hok as [Hm Ho Hd Hn Hw]. split; cbn; try done. intros k' a' Hin. apply Hw. rewrite Hws. set_solver.
Qed.
Lemma flights_ok_steps s l s' : flight_steps s l s' → flights_ok s → flights_ok s'.
Proof. induction 1; [done|]. eauto using flights_ok_step. Qed.

Lemma view_lookup s k : flights_view s !! k = entry s k ≫= call_view.
Proof. unfold flights_view, entry. rewrite lookup_omap. by destruct (fl_map s !! k). Qed.
Lemma view_live s k c r : flights_ok s → entry s k = Some c → call_view c = Some r →
  flight_live (fl_now s) c = call_live (fl_now s) r.
Proof. intros _ _. unfold call_view, flight_live. destruct (fc_done c) as [[[o|] t]|]; naive_solver. Qed.
End flight_lemmas.

Section redeem_lemmas.
Context {C : Crypto} {X : X509} {N : NetURL} {U : Unicode} {F : Floats} {J : JWT} {W : Network}
  {L : LoginNet} {O : OAuth2} {D : Sha256}.

Lemma verifyIDToken_calls now src raw l res l' :
  verifyIDToken now src raw l = (res, l') → lg_calls l' = lg_calls l.
Proof. unfold verifyIDToken. destruct (Keyfunc_ now src (lg_jwt l)). by intros [= _ <-]. Qed.
Lemma doRefresh_calls now src lg rt l res l' : doRefresh now src lg rt l = (res, l') → lg_calls l' = lg_calls l.
Proof.
  intros H. unfold doRefresh in H. destruct (endpoints now src l) as [ep l1] eqn:Ee.
  apply endpoints_jwt in Ee as [_ Hc]. destruct ep as [e|]; [|by simplify_eq].
  destruct (TokenSource_Token _ _ _ _) as [tok| |]; [|by simplify_eq..]. case_if_in H; [by simplify_eq|].
  destruct (verifyIDToken now src (tk_IDToken tok) (count_net l1)) as [v l2] eqn:Ev.
  apply verifyIDToken_calls in Ev. destruct v as [[? ?]|]; simplify_eq; by rewrite Ev.
Qed.

(** The states of the flights a leader passes through. *)
Definition fl_began (k : string) (s : flights) : flights :=
  mkFlights (fl_now s) (<[k := fl_next s]> (fl_map s)) (<[fl_next s := mkFlight k None]> (fl_heap s))
    (Datatypes.S (fl_next s)) (fl_wait s).
Definition fl_ended (k : string) (out : result refreshOutcome) (s : flights) : flights :=
  let s1 := fl_began k s in
  mkFlights (fl_now s) (if is_ok out then fl_map s1 else delete k (fl_map s1))
    (<[fl_next s := mkFlight k (Some (out, fl_now s))]> (fl_heap s1)) (fl_next s1) (fl_wait s1).

Definition fl_joined (k : string) (a : nat) (s : flights) : flights :=
  mkFlights (fl_now s) (fl_map s) (fl_heap s) (fl_next s) ((k, a) :: fl_wait s).
(** [c], at [a], is the newest call of [k]. *)
Definition call_of (s : flights) (k : string) (a : nat) (c : flightCall) : Prop := fl_map s !! k = Some a ∧ fl_heap s !! a = Some c.
Lemma call_of_entry s k a c : call_of s k a c → entry s k = Some c.
Proof. intros [Ha Hc]. unfold entry. by rewrite Ha. Qed.
Lemma entry_call s k c : entry s k = Some c → ∃ a, call_of s k a c.
Proof. unfold entry, call_of. destruct (fl_map s !! k) as [a|]; [|done]. intros H. by exists a. Qed.
Lemma join_steps s k a c : call_of s k a c → flight_live (fl_now s) c = true → flight_steps s [] (fl_joined k a s).
Proof. intros [Ha Hc] Hl. eapply (FS_step _ None _ []); [by eapply F_join|apply FS_nil]. Qed.
(** Joining a call that is done is being answered at once. *)
Lemma got_steps s k a c out t : call_of s k a c → flight_live (fl_now s) c = true → fc_done c = Some (out, t) →
  flight_steps s [Got k out] s.
Proof.
  intros Hc Hl Hd. eapply (FS_step _ None _ [_]); [destruct Hc as [Ha Hc]; by eapply F_join|].
  eapply (FS_step _ (Some _) _ []); [by eapply (F_got _ k a c out t [] (fl_wait s)); [|destruct Hc|]|]. destruct s; apply FS_nil.
Qed.
Lemma lead_steps k out s :
  (∀ c, entry s k = Some c → flight_live (fl_now s) c = false) →
  flight_steps s [Began k (fl_next s); Ended (fl_next s) out] (fl_ended k out s).
Proof.
  intros Hl. eapply (FS_step _ (Some _) _ [_]); [by apply F_lead|].
  eapply (FS_step _ (Some _) _ []); [|apply FS_nil].
  apply (F_finish (fl_began k s) (fl_next s) (mkFlight k None) out); [|done]. cbn. by rewrite lookup_insert_eq.
Qed.
Lemma view_ended k out s :
  flights_ok s →
  flights_view (fl_ended k out s) =
    match out with Ok o => <[k := Finished o (fl_now s)]> (flights_view s) | Err _ => delete k (flights_view s) end.
Proof.
  intros [Hm _ _ Hn _]. apply map_eq. intros k'.
  assert (Hother : k ≠ k' → flights_view (fl_ended k out s) !! k' = flights_view s !! k').
  { intros Hne. rewrite !view_lookup. unfold entry, fl_ended, fl_began. cbn [fl_map fl_heap].
    assert (Hmap : (if is_ok out then <[k:=fl_next s]> (fl_map s) else delete k (<[k:=fl_next s]> (fl_map s))) !! k' = fl_map s !! k').
    { destruct (is_ok out); [by rewrite lookup_insert_ne|]. by rewrite lookup_delete_ne, lookup_insert_ne. }
    rewrite Hmap. destruct (fl_map s !! k') as [a|] eqn:Ea; [|done]. cbn.
    destruct (Hm _ _ Ea) as (c & Hc & _). pose proof (Hn _ _ Hc).
    by rewrite !lookup_insert_ne by lia. }
  destruct (decide (k = k')) as [<-|Hne].
  - rewrite view_lookup. unfold entry, fl_ended, fl_began. cbn [fl_map fl_heap]. destruct out as [o|e]; cbn [is_ok].
    + by rewrite !lookup_insert_eq; cbn; rewrite lookup_insert_eq.
    + by rewrite !lookup_delete_eq.
  - rewrite Hother by done. destruct out; [by rewrite lookup_insert_ne|by rewrite lookup_delete_ne].
Qed.
Lemma entry_view s k c : flights_ok s → entry s k = Some c → ∃ v, call_view c = Some v.
Proof.
  intros [Hm _ _ _ _] (a & Ha & Hc)%entry_call. destruct (Hm _ _ Ha) as (c' & Hc' & _ & [v Hv]). exists v. congruence.
Qed.
(** Leading, when no call is live. *)
Lemma lead_ended now src lg rt l s res l' : let k := refresh_key src rt in
  flights_ok s → fl_now s = now → flights_view s = lg_calls l →
  (∀ a c, call_of s k a c → ∃ o t, fc_done c = Some (o, t) ∧ (refreshGrace < now - t)%Z) →
  (let '(out, l) := doRefresh now src lg rt l in
   match out with
   | Err e => (Err e, with_calls (delete k (lg_calls l)) l)
   | Ok o => (Ok o, with_calls (<[k := Finished o now]> (lg_calls l)) l)
   end) = (res, l') →
  ∀ P1 P2, ∃ events s', flight_steps s events s' ∧ flights_view s' = lg_calls l' ∧
    (P1 events s' ∨ P2 events s' ∨
     ((∀ a c, call_of s k a c → ∃ o t, fc_done c = Some (o, t) ∧ (refreshGrace < now - t)%Z) ∧
        ∃ l1, events = [Began k (fl_next s); Ended (fl_next s) res] ∧ doRefresh now src lg rt l = (res, l1))).
Proof.
  cbn zeta. set (k := refresh_key src rt). intros Hok Hnow Hview Hold H P1 P2.
  destruct (doRefresh now src lg rt l) as [out l1] eqn:Ed. pose proof (doRefresh_calls _ _ _ _ _ _ _ Ed) as Hc.
  exists [Began k (fl_next s); Ended (fl_next s) out], (fl_ended k out s).
  assert (Hl : ∀ c, entry s k = Some c → flight_live (fl_now s) c = false).
  { intros c (a & Ha)%entry_call. destruct (Hold a c Ha) as (o & t & Hd & Ht). unfold flight_live. rewrite Hd, Hnow. lia. }
  split; [by apply lead_steps|]. rewrite view_ended, Hview, Hnow by done.
  destruct out; simplify_eq; cbn; rewrite Hc; (split; [done|]); right; right; (split; [done|]); by eexists.
Qed.
End redeem_lemmas.

Section logout_lemmas.
Context {C : Crypto} {N : NetURL} {U : Unicode}.

(** The cookies [serveLogout] clears for one source. *)
Definition source_clears (src : JWTSource) : list Cookie :=
  match j_Login src with
  | Some lg => if LoginEnabled src then [loginCookie lg (l_CookieName lg) "" (-1);
                                         loginCookie lg (RefreshCookieName lg) "" (-1)] else []
  | None => []
  end.
(** Does the source's session end at the provider too? *)
Definition ends_session (r : Request) (src : JWTSource) : bool :=
  match j_Login src with
  | Some lg => LoginEnabled src && l_EndSession lg &&
      match Cookie_ r (l_CookieName lg) with Some v => v !=? "" | None => false end
  | None => false
  end.

Lemma logout_sources r srcs es w :
  w_status w = None →
  let '(es', w') := foldl (logout_source r) (es, w) srcs in
  w_status w' = None ∧ w_header w' = w_header w ∧ w_cookies w' = w_cookies w ++ flat_map source_clears srcs ∧
  match es with
  | Some _ => es' = es
  | None => (λ x, x.1.1) <$> es' = find (ends_session r) srcs
  end.
Proof.
  revert es w. induction srcs as [|src srcs IH]; intros es w Hw; cbn [foldl flat_map find].
  - split_and!; [done|done|by rewrite app_nil_r|by destruct es].
  - unfold logout_source at 2, source_clears at 1, ends_session at 1.
    destruct (j_Login src) as [lg|] eqn:Elg; [|by apply IH].
    destruct (LoginEnabled src); [|by apply IH]. cbn [andb].
    set (w1 := SetCookie _ (SetCookie _ w)).
    assert (Hw1 : w_status w1 = None ∧ w_header w1 = w_header w ∧ w_cookies w1 = w_cookies w ++
      [loginCookie lg (l_CookieName lg) "" (-1); loginCookie lg (RefreshCookieName lg) "" (-1)]).
    { subst w1. autorewrite with resp. by rewrite <- app_assoc. }
    destruct Hw1 as (Hs1 & Hh1 & Hc1).
    match goal with |- context [foldl _ (?x, w1) _] => specialize (IH x w1 Hs1); set (es1 := x) in * end.
    destruct (foldl (logout_source r) (es1, w1) srcs) as [es' w'].
    destruct IH as (-> & -> & -> & Hes). rewrite Hc1, <- app_assoc. split_and!; try done.
    subst es1. destruct (Cookie_ r (l_CookieName lg)) as [v|]; cbn [andb].
    + destruct es as [x|]; [done|]. rewrite (andb_comm (v !=? "")) in Hes.
      destruct (l_EndSession lg && _); [by rewrite Hes|done].
    + rewrite andb_false_r. by destruct es.
Qed.
End logout_lemmas.

(** * Properties *)

(** C18: a login callback either refuses, changing no cookie but the state
    cookie of the request, which it clears, or establishes a session; and it
    establishes one only when the [state] parameter (of at least 12 bytes) is the
    one the browser's own state cookie holds, that cookie was made for this
    source, the provider reported no error, the code was exchanged with the PKCE
    verifier in the cookie, and the ID token the exchange returned verifies under
    the source's policy with its keys, carries the cookie's nonce, is not expired
    and fits a cookie. The session cookie is then that ID token, living as long
    as it does, and the browser is sent to the stored return address, sanitised. *)
Theorem Callback_spec {C : Crypto} {X : X509} {N : NetURL} {U : Unicode} {F : Floats} {J : JWT} {W : Network}
    {L : LoginNet} {O : OAuth2}
    now w r src lg l w' l' (Hw : w_status w = None) (Hc : Callback now w r src lg l = (w', l')) :
  let q := URL_Query (r_URL r) in
  let state := Values_Get q "state" in
  let clear := loginCookie lg (loginStateCookieName state) "" (-1) in
  (w_status w' ∈ [Some 400%Z; Some 403%Z; Some 502%Z; Some 503%Z] ∧
   (w_cookies w' = w_cookies w ∨ w_cookies w' = w_cookies w ++ [clear])) ∨
  ∃ cookie st w1,
    Cookie_ r (loginStateCookieName state) = Some cookie ∧
    b64url_decode cookie ≫= json_Unmarshal = Some st ∧
    st_State st = state ∧ 12 ≤ String.length state ∧ st_Source st = j_Name src ∧
    Values_Get q "error" = "" ∧ Values_Get q "code" ≠ "" ∧
    w_cookies w1 = w_cookies w ++ [clear] ∧
    login_done now w1 r src lg (lg_jwt l) st (Values_Get q "code") w'.
Proof.
  cbn zeta. unfold Callback in Hc. set (q := URL_Query (r_URL r)) in *. set (state := Values_Get q "state") in *.
  case_if_in Hc.
  { simplify_eq. left. rewrite login_fail_status, login_fail_cookies; autorewrite with resp; set_solver. }
  destruct (Cookie_ r (loginStateCookieName state)) as [c|] eqn:Eck.
  2:{ simplify_eq. left. rewrite login_fail_status, login_fail_cookies; autorewrite with resp; set_solver. }
  set (w1 := SetCookie _ _) in Hc.
  assert (Hw1 : w_status w1 = None ∧ w_cookies w1 = w_cookies w ++ [loginCookie lg (loginStateCookieName state) "" (-1)]).
  { subst w1. by autorewrite with resp. }
  destruct Hw1 as [Hs1 Hck1]. unfold callback_state in Hc.
  destruct (b64url_decode c ≫= json_Unmarshal) as [st|] eqn:Est.
  2:{ simplify_eq. left. rewrite login_fail_status, login_fail_cookies, Hck1 by done. set_solver. }
  repeat (case_if_in Hc; [simplify_eq; left; rewrite login_fail_status, login_fail_cookies, Hck1 by done; set_solver|]).
  bool_hyps. destruct (callback_exchange_spec _ _ _ _ _ _ _ _ _ _ Hs1 Hc) as [[Hst Hck]|Hd].
  - left. rewrite Hck, Hck1. split; [set_solver|by right].
  - right. exists c, st, w1. split_and!; try done. unfold loginStateKeyLen in *. by apply Nat.ltb_ge.
Qed.

(** C37: [Start] and [Callback] fit together: the state cookie one sets is read
    back by the other as the very login it began, so a callback carrying that
    cookie, that state, a code and no error goes on to the exchange with the
    verifier and nonce of that login, and to the return address sanitised when
    it began, in which encoding/json has replaced what is not UTF-8. The source's name
    and the verifier are text. *)
Theorem Start_Callback {C : Crypto} {X : X509} {N : NetURL} {U : Unicode} {F : Floats} {J : JWT} {W : Network}
    {L : LoginNet} {O : OAuth2}
    now rn w r src lg returnTo l w1 l1 bs bn e now' w2 r' l2
    (Hname : valid_utf8 (j_Name src)) (Hver : valid_utf8 (rn_verifier rn))
    (Hw : w_status w = None) (Hck : w_cookies w = [])
    (Hst : rn_state rn = Ok bs) (Hlen : String.length bs = 32) (Hnonce : rn_nonce rn = Ok bn)
    (Hep : (endpoints now src l).1 = Ok e)
    (Hs : Start now rn w r src lg returnTo l = (w1, l1))
    (Hcookie : Cookie_ r' (loginStateCookieName (b64url_encode bs)) =
       ck_Value <$> find (λ c, ck_Name c =? loginStateCookieName (b64url_encode bs)) (w_cookies w1))
    (Hq : Values_Get (URL_Query (r_URL r')) "state" = b64url_encode bs)
    (Herr : Values_Get (URL_Query (r_URL r')) "error" = "")
    (Hcode : Values_Get (URL_Query (r_URL r')) "code" ≠ "") :
  let state := b64url_encode bs in let nonce := b64url_encode bn in
  w_status w1 = Some 302%Z ∧
  Header_Get (w_header w1) "Location" =
    redirect_location r (AuthCodeURL (oauthConfig src lg e) state (rn_verifier rn) nonce) ∧
  Callback now' w2 r' src lg l2 =
    callback_exchange now' (SetCookie (loginCookie lg (loginStateCookieName state) "" (-1)) (w_Set "Cache-Control" "no-store" w2))
      r' src lg (mkLoginState (j_Name src) state nonce (rn_verifier rn) (to_valid (sanitizeReturnTo returnTo)))
      (Values_Get (URL_Query (r_URL r')) "code") l2.
Proof.
  cbn zeta. unfold Start in Hs. destruct (endpoints now src l) as [ep l0] eqn:Ee. cbn in Hep. subst ep.
  rewrite Hst, Hnonce in Hs. cbn [randomToken rbind] in Hs. apply (f_equal fst) in Hs as Hw1. cbn [fst] in Hw1. clear Hs.
  pose proof (b64url_encode_length bs) as Hle. rewrite Hlen in Hle.
  pose proof (b64url_valid bs) as Hvs. pose proof (b64url_valid bn) as Hvn. clear Hst Hnonce.
  set (state := b64url_encode bs) in *. set (nonce := b64url_encode bn) in *. clearbody state nonce.
  set (st := mkLoginState _ _ _ _ _) in Hw1. set (ck := loginCookie lg _ (b64url_encode _) _) in *.
  set (w0 := w_Set _ _ (SetCookie ck w)) in *.
  assert (Hw0 : w_status w0 = None) by (subst w0; by autorewrite with resp).
  pose proof (Redirect_spec r (AuthCodeURL (oauthConfig src lg e) state (rn_verifier rn) nonce) 302 w0 Hw0)
    as (Hr & Hrc & Hrl). rewrite Hw1 in Hr, Hrc, Hrl. split_and!; [done|done|].
  assert (Hc0 : w_cookies w1 = [ck]) by (rewrite Hrc; subst w0; autorewrite with resp; by rewrite Hck).
  rewrite Hc0 in Hcookie. cbn in Hcookie. rewrite bool_decide_true in Hcookie by done. cbn in Hcookie.
  unfold Callback. rewrite Hq, Hcookie.
  rewrite (proj2 (Nat.ltb_ge _ _)) by (unfold loginStateKeyLen; lia). unfold callback_state.
  rewrite b64url_decode_encode. cbn [mbind option_bind]. rewrite json_roundtrip.
  cbn [st_Source st_State st_Nonce st_Verifier st_ReturnTo st]. rewrite Hname, Hver, Hvs, Hvn.
  rewrite Hq, (bool_decide_true (j_Name src = j_Name src)), (bool_decide_true (state = state)) by done.
  rewrite (bool_decide_false (state = "")) by (by intros ->; cbn in Hle; lia). cbn [negb orb].
  rewrite Herr. rewrite (bool_decide_true ("" = "")) by done. cbn [negb].
  by rewrite (bool_decide_false (Values_Get _ "code" = "")).
Qed.

(** The discovery cache. Whatever it answers came from a discovery fetch
    for the source's own issuer, URL and roots; once it has endpoints for them it
    never fails again; and a fetch, successful or not, is not repeated in the
    30 seconds that follow it, the same answer being given without one. *)
Theorem endpoints_spec {C : Crypto} {X : X509} {N : NetURL} {F : Floats} {J : JWT} {L : LoginNet}
    now src (l : LoginRegistry) res l' (Hl : slots_ok l) (He : endpoints now src l = (res, l')) :
  slots_ok l' ∧ lg_jwt l' = lg_jwt l ∧ lg_calls l' = lg_calls l ∧
  (∀ e, res = Ok e → fetched_for (loginFingerprint src) e) ∧
  ∀ now' src', j_Name src' = j_Name src → loginFingerprint src' = loginFingerprint src →
    (is_ok res = true → is_ok (endpoints now' src' l').1 = true) ∧
    (lg_net l' ≠ lg_net l → (now' < now + loginRetry)%Z → endpoints now' src' l' = (res, l')).
Proof.
  destruct (endpoints_cases _ _ _ _ _ Hl He) as (s & Hs). pose proof (endpoints_jwt _ _ _ _ _ He) as [Hj Hc].
  split; [by eapply endpoints_ok|split; [done|split; [done|split]]].
  - intros e ->. destruct Hs as [_ Hok [Hfp Hg _ _] _ _ _]. rewrite <- Hfp. by apply Hok, Hg.
  - intros now' src' Hn Hf. destruct (endpoints_again now now' src src' l res l' s Hn Hf Hs) as [H1 H2]. split.
    + intros (g & ->)%is_ok_true. by eapply H1.
    + intros Hne Hlt. apply H2; destruct Hs as [_ _ [_ Hg He' _] _ _ [?|[_ [[Ht Hf']|(g & -> & Hx)]]]]; try done.
      * intros g ->. right. split; [done|]. by rewrite Ht.
      * intros g' [= <-]. left. rewrite Hx. unfold loginEndpointsTTL, loginRetry, hour, minute, second in *. lia.
      * intros e ->. by rewrite Ht.
Qed.

(** C20: a refresh token is redeemed once. However requests interleave, no two
    redemptions of the same token are in flight at once; a redemption begins only
    when the earlier ones of that token have ended, and, if they succeeded, at
    least the 30 second grace ago; and every waiter is answered by a redemption of
    the token it presented. *)
Theorem refresh_single_flight t0 trace (s : flights) (Hs : flight_steps (no_flights t0) trace s) :
  (∀ a b ca cb, fl_heap s !! a = Some ca → fl_heap s !! b = Some cb →
     fc_done ca = None → fc_done cb = None → fc_key ca = fc_key cb → a = b) ∧
  (∀ k n s', flight_step s (Some (Began k n)) s' → ∀ a c, fl_heap s !! a = Some c → fc_key c = k →
     ∃ out t, fc_done c = Some (out, t) ∧ (is_ok out = true → (t + refreshGrace ≤ fl_now s)%Z)) ∧
  (∀ k out s', flight_step s (Some (Got k out)) s' →
     ∃ a c t, fl_heap s !! a = Some c ∧ fc_key c = k ∧ fc_done c = Some (out, t)).
Proof.
  pose proof (flights_ok_steps _ _ _ Hs (flights_ok_new t0)) as Hok. split; [|split].
  - intros a b ca cb Ha Hb Hca Hcb Hk. destruct Hok as [_ Ho _ _ _].
    pose proof (Ho _ _ Ha Hca) as H1. pose proof (Ho _ _ Hb Hcb) as H2. rewrite Hk in H1. congruence.
  - intros k n s' Hstep a c Ha Hk. inversion Hstep; subst. by eapply not_live.
  - intros k out s' Hstep. inversion Hstep as [| | | | |? ? a c ? t ? ? Hws Ha Hc| ]; subst.
    destruct Hok as [_ _ _ _ Hw]. destruct (Hw k a) as (c' & Hc' & Hk); [rewrite Hws; set_solver|].
    rewrite Ha in Hc'. injection Hc' as <-. eauto 10.
Qed.

(** C19: [redeem] refines that protocol. Run against a registry whose calls are
    those of a reachable state: when a redemption of its token is in flight it joins that
    one, changing nothing else, and returns what waiting for it brought; when one has
    succeeded and its grace is not over, it returns that one's outcome, changing nothing;
    and only when there is neither does it begin one, redeem the token, and leave the
    calls the protocol prescribes: the outcome for its grace, or, on failure, none. *)
Theorem redeem_refines {C : Crypto} {X : X509} {N : NetURL} {U : Unicode} {F : Floats} {J : JWT} {W : Network}
    {L : LoginNet} {O : OAuth2} {D : Sha256}
    t0 trace s now waited src lg rt l res l'
    (Hs : flight_steps (no_flights t0) trace s) (Hnow : fl_now s = now) (Hview : flights_view s = lg_calls l)
    (Hr : redeem now waited src lg rt l = (res, l')) :
  let k := refresh_key src rt in
  ∃ events s', flight_steps s events s' ∧ flights_view s' = lg_calls l' ∧
    ((∃ a c, call_of s k a c ∧ fc_done c = None ∧ events = [] ∧ s' = fl_joined k a s ∧ res = waited ∧ l' = l) ∨
     (∃ a c t, call_of s k a c ∧ fc_done c = Some (res, t) ∧ is_ok res = true ∧ (now - t ≤ refreshGrace)%Z ∧
        events = [Got k res] ∧ s' = s ∧ l' = l) ∨
     ((∀ a c, call_of s k a c → ∃ o t, fc_done c = Some (o, t) ∧ (refreshGrace < now - t)%Z) ∧
        ∃ l1, events = [Began k (fl_next s); Ended (fl_next s) res] ∧ doRefresh now src lg rt l = (res, l1))).
Proof.
  cbn zeta. pose proof (flights_ok_steps _ _ _ Hs (flights_ok_new t0)) as Hok. set (k := refresh_key src rt) in *.
  unfold redeem in Hr. fold k in Hr. cbn zeta in Hr. pose proof (view_lookup s k) as Hk. rewrite Hview in Hk.
  destruct (entry s k) as [c|] eqn:Ee; cbn in Hk.
  2: { rewrite Hk in Hr. eapply lead_ended; [done..| |exact Hr]. intros a c Hc%call_of_entry. fold k in Hc. by rewrite Ee in Hc. }
  destruct (entry_call _ _ _ Ee) as [a Hc]. destruct (entry_view s k c Hok Ee) as [v Hv]. rewrite Hv in Hk. rewrite Hk in Hr.
  pose proof (view_live s k c v Hok Ee Hv) as Hlive. rewrite Hnow in Hlive.
  destruct (call_live now v) eqn:El; rewrite <- Hnow in Hlive.
  - unfold call_view in Hv. destruct (fc_done c) as [[[o|e] t]|] eqn:Ed; simplify_eq.
    + exists [Got k (Ok o)], s. split; [by eapply got_steps|split; [done|]]. right; left. exists a, c, t.
      split_and!; try done. cbn in El. lia.
    + exists [], (fl_joined k a s). split; [by eapply join_steps|split; [done|]]. left. by exists a, c.
  - assert (Hold : ∀ a c, call_of s k a c → ∃ o t, fc_done c = Some (o, t) ∧ (refreshGrace < now - t)%Z).
    { intros a' c' Hc'%call_of_entry. rewrite Ee in Hc'. injection Hc' as <-. unfold flight_live in Hlive.
      destruct (fc_done c) as [[o t]|]; [|done]. exists o, t. split; [done|]. rewrite Hnow in Hlive. lia. }
    eapply lead_ended; [done..|exact Hold|exact Hr].
Qed.

(** A logout (GET, HEAD or POST) clears, whatever the request carried, the
    ID token and refresh cookies of every enabled login source, the SAML session
    cookie when SAML is enabled, and the remembered sign-in method, each once,
    and redirects: to the end-session address of the first source with
    [end_session] whose token the request carried, or else to the sanitised
    return address. Any other method changes no cookie and gets a 405. *)
Theorem serveLogout_spec {C : Crypto} {X : X509} {N : NetURL} {U : Unicode} {F : Floats} {J : JWT} {L : LoginNet}
    now tls w r auth (l : LoginRegistry) w' l' (Hw : w_status w = None)
    (Hs : serveLogout now tls w r auth l = (w', l')) :
  let allowed := (r_Method r =? "GET") || (r_Method r =? "HEAD") || (r_Method r =? "POST") in
  if allowed then
    w_status w' = Some 302%Z ∧
    w_cookies w' = w_cookies w ++ flat_map source_clears (a_JWT auth) ++
      (match a_SAML auth with Some s => if SAMLEnabled auth then [saml_session_clear s] else [] | None => [] end) ++
      [mkCookie loginMethodCookie "" "/" (-1) true (request_secure tls r)] ∧
    ∃ target, Header_Get (w_header w') "Location" = redirect_location r target ∧
      match find (ends_session r) (a_JWT auth) with
      | None => target = sanitizeReturnTo (Values_Get (URL_Query (r_URL r)) "return_to")
      | Some src => ∃ lg idToken, target = default (sanitizeReturnTo (Values_Get (URL_Query (r_URL r)) "return_to"))
                                            (endSessionURL now src lg idToken l).1
      end
  else w_status w' = Some 405%Z ∧ w_cookies w' = w_cookies w ∧ l' = l.
Proof.
  cbn zeta. unfold serveLogout in Hs.
  replace ((r_Method r !=? "GET") && (r_Method r !=? "HEAD") && (r_Method r !=? "POST"))
    with (negb ((r_Method r =? "GET") || (r_Method r =? "HEAD") || (r_Method r =? "POST"))) in Hs
    by (by repeat case_bool_decide).
  destruct ((r_Method r =? "GET") || _ || _); cbn [negb] in Hs.
  2:{ simplify_eq. rewrite http_Error_status by (by autorewrite with resp). unfold http_Error.
      by autorewrite with resp. }
  pose proof (logout_sources r (a_JWT auth) None w Hw) as Hl.
  destruct (foldl (logout_source r) (None, w) (a_JWT auth)) as [es w1]. destruct Hl as (Hs1 & _ & Hc1 & Hes).
  set (w2 := match a_SAML auth with Some _ => _ | None => _ end) in Hs.
  assert (Hw2 : w_status w2 = None ∧ w_cookies w2 = w_cookies w1 ++
    (match a_SAML auth with Some s => if SAMLEnabled auth then [saml_session_clear s] else [] | None => [] end)).
  { subst w2. destruct (a_SAML auth); [|by rewrite app_nil_r]. case_if; [by autorewrite with resp|by rewrite app_nil_r]. }
  destruct Hw2 as [Hs2 Hc2]. set (w3 := w_Set _ _ (SetCookie _ w2)) in Hs.
  assert (Hw3 : w_status w3 = None ∧ w_cookies w3 = w_cookies w2 ++ [mkCookie loginMethodCookie "" "/" (-1) true (request_secure tls r)]).
  { subst w3. by autorewrite with resp. }
  destruct Hw3 as [Hs3 Hc3].
  destruct (match es with Some _ => _ | None => _ end) as [target l1] eqn:Et. injection Hs as <- <-.
  pose proof (Redirect_spec r target 302 w3 Hs3) as (Hr & Hrc & Hrl). split_and!; [done| |].
  - by rewrite Hrc, Hc3, Hc2, Hc1, <- !app_assoc.
  - exists target. split; [done|]. rewrite <- Hes. destruct es as [[[src lg] idt]|]; cbn; [|by simplify_eq].
    exists lg, idt. destruct (endSessionURL now src lg idt l). by simplify_eq.
Qed.

(** A return address that reaches the browser after one pass of
    [sanitizeReturnTo] only is not always same-origin: for any plain host, a
    logout link whose [return_to] is "/%2F", the host, a slash and a double quote
    redirects to "//", the host and "/%22", which a browser reads as that host. *)
Theorem logout_open_redirect {C : Crypto} {X : X509} {N : NetURL} {U : Unicode} {F : Floats} {J : JWT} {L : LoginNet}
    now tls w r auth (l : LoginRegistry) host u (Hw : w_status w = None)
    (Hm : r_Method r = "GET") (Hhost : plain_host host)
    (Hq : Values_Get (URL_Query (r_URL r)) "return_to" = "/%2F" +:+ host +:+ "/" +:+ dq)
    (Hes : ∀ src, src ∈ a_JWT auth → ends_session r src = false)
    (Hparse : url_Parse ("//" +:+ host +:+ "/%22") = Ok u) (Hu : u_Host u ≠ "") :
  Header_Get (w_header (serveLogout now tls w r auth l).1) "Location" = "//" +:+ host +:+ "/%22".
Proof.
  unfold serveLogout. rewrite Hm. rewrite (bool_decide_true ("GET" = "GET")) by done. cbn [negb andb].
  pose proof (logout_sources r (a_JWT auth) None w Hw) as Hl.
  destruct (foldl (logout_source r) (None, w) (a_JWT auth)) as [es w1]. destruct Hl as (Hs1 & _ & _ & Hf).
  rewrite (proj2 (find_none_all _ _) Hes) in Hf. destruct es; [done|].
  set (w2 := match a_SAML auth with Some _ => _ | None => _ end).
  assert (Hw2 : w_status w2 = None).
  { subst w2. destruct (a_SAML auth); [|done]. case_if; [by autorewrite with resp|done]. }
  cbn [fst]. rewrite Hq. change ("/%2F" +:+ host +:+ "/" +:+ dq) with (sneaky host).
  rewrite sanitize_sneaky by done.
  match goal with |- context [Redirect r ?t 302 ?w3] =>
    assert (Hw3 : w_status w3 = None) by (by autorewrite with resp);
    pose proof (Redirect_spec r t 302 w3 Hw3) as (_ & _ & ->) end.
  unfold redirect_location, Parse. unfold rooted_single, sneaked.
  rewrite HasPrefix_app, andb_false_r. rewrite Hparse.
  by rewrite (bool_decide_false (u_Host u = "")), andb_false_r.
Qed.

(** ** Concrete library values for the witnesses *)

(** A token is "issuer|subject|nonce" and expires at 3600 s. *)
Definition demo_token_lib : @JWT demo_crypto demo_floats :=
  @Build_JWT demo_crypto demo_floats string
    (λ _ url _ _, Ok url)
    (λ raw, Ok (default "" (head (Split raw "|"))))
    (λ p raw _, match Split raw "|" with
       | [iss; sub; nonce] =>
           if iss =? ps_Issuer p
           then Ok {["sub" := @AString demo_floats sub; "nonce" := @AString demo_floats nonce; "iss" := @AString demo_floats iss]}
           else Err (EWrap "" [] [ENew "token has invalid issuer"])
       | _ => Err (ENew "token is malformed")
       end)
    (λ z, Itoa z).
Definition demo_doc : discoveryDoc :=
  mkDiscoveryDoc "https://idp" "https://idp/keys" "https://idp/a" "https://idp/t" "https://idp/end".
(** The provider answers every exchange with a token for alice, nonce "n". *)
Definition demo_loginnet : @LoginNet demo_crypto :=
  @Build_LoginNet demo_crypto (λ _ _ _, Ok (200%Z, Ok demo_doc))
    (λ _ _ _ _ _, Ok (mkToken_ "https://idp|alice|n" "rt1"))
    (λ _ _ _ rt, if rt =? "rt1" then RefreshOk (mkToken_ "https://idp|alice|" "rt2")
                 else RefreshRetrieveError 400 "invalid_grant").
Definition demo_oauth2 : @OAuth2 demo_floats :=
  @Build_OAuth2 demo_floats (λ cfg state verifier nonce, ocf_AuthURL cfg +:+ "?state=" +:+ state)
    (λ _, Ok (Some (3600 * second)%Z)).
Definition demo_sha : Sha256 := {| sha256_hex s := s |}.
#[local] Existing Instances demo_crypto demo_x509 demo_neturl ascii_unicode demo_floats demo_token_lib
  demo_network demo_loginnet demo_oauth2 demo_sha.

Definition demo_lg : JWTLogin := JWTLogin_applyDefaults demo_login.
(** A registry whose first key fetch, the one that fails, is behind it. *)
Definition demo_login_reg : LoginRegistry :=
  NewLoginRegistry (mkRegistry None None None ∅ ∅ 0 1).
Definition demo_state_cookie : string :=
  b64url_encode (json_Marshal (mkLoginState "https://idp" "0123456789abcdef" "n" "v" "/home")).
Definition demo_get (path query : string) (cookie : string) : Request :=
  mkRequest "GET" (mkURL "" "" None "" path "" false query "") {["Cookie" := [cookie]]} "" (mkContext None None).
Definition demo_callback : Request :=
  demo_get "/_tap/oidc/callback" "state=0123456789abcdef&code=c"
    ("tap_login_state_0123456789ab=" +:+ demo_state_cookie).

(** The browser of the witness is logged in, and sent to where it was going. *)
Lemma Callback_spec_witness :
  let w' := (Callback 0 new_response demo_callback demo_source demo_lg demo_login_reg).1 in
  w_status w' = Some 302%Z ∧ Header_Get (w_header w') "Location" = "/home" ∧
  (w_status w' ∈ [Some 400%Z; Some 403%Z; Some 502%Z; Some 503%Z] ∨
   ∃ st w1, st_Nonce st = "n" ∧
     login_done 0 w1 demo_callback demo_source demo_lg (lg_jwt demo_login_reg) st "c" w').
Proof.
  cbn zeta. split; [vm_compute; reflexivity|]. split; [vm_compute; reflexivity|].
  destruct (Callback_spec 0 new_response demo_callback demo_source demo_lg demo_login_reg
    (Callback 0 new_response demo_callback demo_source demo_lg demo_login_reg).1
    (Callback 0 new_response demo_callback demo_source demo_lg demo_login_reg).2 eq_refl
    (surjective_pairing _)) as [[H _]|(c & st & w1 & H1 & H2 & _ & _ & _ & _ & _ & _ & H)].
  - left. exact H.
  - right. exists st, w1. split; [|exact H].
    assert (Hc : Cookie_ demo_callback (loginStateCookieName (Values_Get (URL_Query (r_URL demo_callback)) "state")) =
      Some demo_state_cookie) by (vm_compute; reflexivity).
    rewrite Hc in H1. injection H1 as <-. vm_compute in H2. injection H2 as <-. reflexivity.
Defined.

Definition demo_bytes : string := "0123456789abcdefghijklmnopqrstuv".
Definition demo_randoms : Randoms := mkRandoms (Ok demo_bytes) (Ok demo_bytes) "v".
Definition demo_start : Response * LoginRegistry :=
  Start 0 demo_randoms new_response (demo_get "/x" "" "") demo_source demo_lg "/home" demo_login_reg.
(** The browser comes back from the provider with the cookie it was given. *)
Definition demo_return : Request :=
  demo_get "/_tap/oidc/callback" ("state=" +:+ b64url_encode demo_bytes +:+ "&code=c")
    (Join ((λ c, ck_Name c +:+ "=" +:+ ck_Value c) <$> w_cookies demo_start.1) "; ").
Lemma Start_Callback_witness :
  w_status demo_start.1 = Some 302%Z ∧
  Callback 1 new_response demo_return demo_source demo_lg demo_login_reg =
  callback_exchange 1 (SetCookie (loginCookie demo_lg (loginStateCookieName (b64url_encode demo_bytes)) "" (-1))
      (w_Set "Cache-Control" "no-store" new_response)) demo_return demo_source demo_lg
    (mkLoginState (j_Name demo_source) (b64url_encode demo_bytes) (b64url_encode demo_bytes) "v" "/home") "c" demo_login_reg.
Proof.
  destruct (Start_Callback 0 demo_randoms new_response (demo_get "/x" "" "") demo_source demo_lg "/home" demo_login_reg
    demo_start.1 demo_start.2 demo_bytes demo_bytes (mkEndpoints "https://idp/a" "https://idp/t" "https://idp/end" None (3600 * second)%Z)
    1 new_response demo_return demo_login_reg) as (H1 & _ & H2).
  1-8: vm_compute; reflexivity.
  { apply surjective_pairing. }
  1-3: vm_compute; reflexivity.
  { vm_compute. discriminate. }
  split; [exact H1|].
  assert (Hr : to_valid (sanitizeReturnTo "/home") = "/home") by (vm_compute; reflexivity).
  assert (Hc : Values_Get (URL_Query (r_URL demo_return)) "code" = "c") by (vm_compute; reflexivity).
  rewrite Hr, Hc in H2. exact H2.
Defined.

Lemma endpoints_spec_witness :
  lg_net demo_login_reg = 0 ∧
  endpoints 5 demo_source (endpoints 0 demo_source demo_login_reg).2 = endpoints 0 demo_source demo_login_reg.
Proof.
  split; [reflexivity|].
  destruct (endpoints_spec 0 demo_source demo_login_reg (endpoints 0 demo_source demo_login_reg).1
    (endpoints 0 demo_source demo_login_reg).2 (slots_ok_new _) (surjective_pairing _)) as (_ & _ & _ & _ & H).
  destruct (H 5%Z demo_source eq_refl eq_refl) as [_ H2]. rewrite H2.
  - symmetry. apply surjective_pairing.
  - vm_compute. discriminate.
  - vm_compute. reflexivity.
Defined.

(** Two requests present "rt"; one leads, the other waits for it. *)
Definition demo_flight : flights :=
  mkFlights 0 (<["k" := 0]> ∅) (<[0 := mkFlight "k" None]> ∅) 1 [("k", 0)].
Lemma demo_flight_steps : flight_steps (no_flights 0) [Began "k" 0] demo_flight.
Proof.
  set (s1 := mkFlights 0 (<["k" := 0]> ∅) (<[0 := mkFlight "k" None]> ∅) 1 []).
  apply (FS_step (no_flights 0) (Some (Began "k" 0)) s1 [] demo_flight).
  - exact (F_lead (no_flights 0) "k" (λ c H, ltac:(discriminate H))).
  - apply (FS_step s1 None demo_flight [] demo_flight); [|apply FS_nil].
    exact (F_join s1 "k" 0 (mkFlight "k" None) eq_refl eq_refl eq_refl).
Qed.
Lemma refresh_single_flight_witness :
  (∀ out s', flight_step demo_flight (Some (Got "k" out)) s' → ∃ a c t, fl_heap demo_flight !! a = Some c ∧
     fc_key c = "k" ∧ fc_done c = Some (out, t)) ∧ fl_wait demo_flight = [("k", 0)].
Proof.
  split; [|reflexivity]. destruct (refresh_single_flight 0 _ demo_flight demo_flight_steps) as (_ & _ & H).
  intros out s'. apply H.
Defined.

Lemma redeem_refines_witness :
  let res := redeem 0 (Err (ENew "canceled")) demo_source demo_lg "rt1" demo_login_reg in
  res.1 = Ok (mkOutcome "https://idp|alice|" "rt2" 3600) ∧
  ∃ events s', flight_steps (no_flights 0) events s' ∧ flights_view s' = lg_calls res.2.
Proof.
  split; [vm_compute; reflexivity|].
  destruct (redeem_refines 0 [] (no_flights 0) 0 (Err (ENew "canceled")) demo_source demo_lg "rt1" demo_login_reg
    (redeem 0 (Err (ENew "canceled")) demo_source demo_lg "rt1" demo_login_reg).1
    (redeem 0 (Err (ENew "canceled")) demo_source demo_lg "rt1" demo_login_reg).2
    (FS_nil _) eq_refl eq_refl (surjective_pairing _)) as (ev & s' & H1 & H2 & _).
  exists ev, s'. split; [exact H1|exact H2].
Defined.

Lemma serveLogout_spec_witness :
  w_cookies (serveLogout 0 true new_response (demo_get "/_tap/logout" "" "tap_id_token=x")
    (mkInboundAuth [demo_source] None None None) demo_login_reg).1 =
  [loginCookie demo_lg "tap_id_token" "" (-1); loginCookie demo_lg "tap_id_token_refresh" "" (-1);
   mkCookie "tap_login_method" "" "/" (-1) true true].
Proof.
  destruct (serveLogout_spec 0 true new_response (demo_get "/_tap/logout" "" "tap_id_token=x")
    (mkInboundAuth [demo_source] None None None) demo_login_reg _ _ eq_refl (surjective_pairing _)) as (_ & H & _).
  rewrite H. vm_compute. reflexivity.
Defined.

(** A URL parser that reads the host of a scheme-relative reference. *)
Definition demo_relative : NetURL :=
  {| url_Parse raw := Ok (mkURL "" "" None (Cut (s_drop 2 raw) "/").1.1 "" "" false "" "");
     url_ParseRequestURI := demo_parse_url; url_String := u_Path |}.
Lemma logout_open_redirect_witness :
  Header_Get (w_header (serveLogout (N := demo_relative) 0 true new_response
    (demo_get "/_tap/logout" "return_to=%2F%252Fevil.com%2F%22" "") (mkInboundAuth [demo_source] None None None)
    demo_login_reg).1) "Location" = "//evil.com/%22".
Proof.
  apply (logout_open_redirect (N := demo_relative) 0 true new_response _ _ demo_login_reg "evil.com"
    (mkURL "" "" None "evil.com" "" "" false "" "")); try reflexivity.
  - repeat constructor.
  - intros src Hsrc. apply list_elem_of_singleton in Hsrc as ->. vm_compute. reflexivity.
  - discriminate.
Defined.
