(* ===== verification/Saml.v ===== *)
(** Browser sign-in with SAML: the provider registry ([internal/authn/saml.go]),
    IdP metadata ([saml_metadata.go]), session and tracker cookies
    ([saml_session.go]), the assertion consumer and [enforceSAML]
    ([saml_middleware.go]).

    crewjam/saml is the class [SAMLSP]: what a built provider says about a request
    and how it answers one.  A provider ([Provider]) is what [buildSAMLProvider]
    configures it with.  Instants are non-negative nanoseconds; an operation reads
    one, except that the registry's lock makes each operation atomic.  Metadata
    fetches are numbered as in [Jwks]. The size cap on a metadata body is not
    represented: a body is what was read of it. *)
From S2P Require Import Prelude GoStrings ConfigTypes GoURL GoJSON GoHTTP Acl ConfigAuth Credentials Basic Jwks.

Definition defaultSAMLRetry : Z := 30 * second.
Definition samlMinMetadataRefresh : Z := minute.
Definition samlFailedRefreshBackoff : Z := 5 * minute.
Definition samlSessionSigningKeyMinLen : nat := 32.

(** * Metadata (saml_metadata.go) *)

Record KeyDescriptor := mkKeyDescriptor { kd_Use : string; kd_Certs : list string }.
Record IDPSSODescriptor := mkIDPSSO { idp_Keys : list KeyDescriptor; idp_SSO : list string }.
Record EntityDescriptor := mkEntity { en_EntityID : string; en_IDPs : list IDPSSODescriptor }.

(** An assertion as the code reads one. *)
Record Assertion := mkAssertion {
  as_NameID : option string;                              (* Subject.NameID.Value *)
  as_AttributeStatements : list (list (string * string * list string));  (* FriendlyName, Name, Values *)
  as_AuthnStatements : list string;                       (* SessionIndex *)
  as_AudienceRestrictions : option (list string)          (* None: no Conditions *)
}.

Class SAMLMetadata `{Crypto} : Type := {
  get_metadata : nat → option CertPool → string → result (Z * result string);
  ParseMetadata : string → result EntityDescriptor;
  NotAfter : Certificate → Z
}.

Section metadata.
Context {C : Crypto} {X : X509} {M : SAMLMetadata}.

Definition is_signing (kd : KeyDescriptor) : bool := (kd_Use kd =? "") || (kd_Use kd =? "signing").

Definition validateIDPMetadataShape (entity : EntityDescriptor) : result unit :=
  match en_IDPs entity with
  | [] => Err (Errorf "no IDPSSODescriptor present")
  | idps =>
      let hasSigningKey := existsb (λ idp, existsb is_signing (idp_Keys idp)) idps in
      let hasSSOService := existsb (λ idp, 0 <? length (idp_SSO idp)) idps in
      fail_if negb hasSigningKey with Errorf "no signing KeyDescriptor present" in
      fail_if negb hasSSOService with Errorf "no SingleSignOnService present" in
      Ok tt
  end.

Definition fetchIDPMetadata (n : nat) (client : option CertPool) (metadataURL wantIssuer : string)
  : result EntityDescriptor :=
  let* resp := rwrap "fetch idp metadata: %w" [] (get_metadata n client metadataURL) in
  let '(status, body) := resp in
  fail_if negb (status =? 200)%Z with Errorf "idp metadata: unexpected status %d" in
  let* data := rwrap "read idp metadata: %w" [] body in
  let* entity := rwrap "parse idp metadata: %w" [] (ParseMetadata data) in
  fail_if en_EntityID entity !=? wantIssuer
    with ErrorfA "idp metadata entityID %q does not match configured issuer %q" [en_EntityID entity; wantIssuer] in
  check* rwrap "idp metadata: %w" [] (validateIDPMetadataShape entity) in
  Ok entity.

(** The running minima of [idpSigningCertExpiryAt]: over the certificates still
    valid, and over all. *)
Definition earlier (acc : option Z) (t : Z) : option Z :=
  match acc with
  | None => Some t
  | Some e => if (t <? e)%Z then Some t else Some e
  end.
Definition cert_step (now : Z) (acc : option Z * option Z) (data : string) : option Z * option Z :=
  let '(validEarliest, anyEarliest) := acc in
  match b64_decode (strip_space data) with
  | None => acc
  | Some der =>
      match ParseCertificate der with
      | Err _ => acc
      | Ok cert =>
          (if (now <? NotAfter cert)%Z then earlier validEarliest (NotAfter cert) else validEarliest,
           earlier anyEarliest (NotAfter cert))
      end
  end.
Definition idpSigningCertExpiryAt (entity : EntityDescriptor) (now : Z) : option Z :=
  let '(validEarliest, anyEarliest) :=
    foldl (λ acc idp, foldl (λ acc kd,
        if (kd_Use kd !=? "") && (kd_Use kd !=? "signing") then acc
        else foldl (cert_step now) acc (kd_Certs kd)) acc (idp_Keys idp))
      (None, None) (en_IDPs entity) in
  match validEarliest with Some e => Some e | None => anyEarliest end.

Definition samlRefreshAt (now ttl : Z) (certExpiry : option Z) : Z :=
  let at_ := (now + ttl)%Z in
  match certExpiry with
  | None => at_
  | Some e =>
      if negb (e <? at_)%Z then at_
      else
        let floor := (now + samlMinMetadataRefresh)%Z in
        if (e <? floor)%Z then if (at_ <? floor)%Z then at_ else floor
        else e
  end.
End metadata.

(** * Cookies (saml_session.go) *)

Record RegisteredClaims := mkRegistered {
  rc_Audience : list string; rc_Issuer : string; rc_Subject : string;
  rc_IssuedAt : Z; rc_NotBefore : Z; rc_ExpiresAt : Z
}.
Record samlSessionClaims := mkSessionClaims {
  sc_Registered : RegisteredClaims; sc_Attributes : gmap string (list string); sc_SAMLSession : bool
}.
(** samlsp.TrackedRequest: its index and the fields of its JSON form. *)
Record TrackedRequest := mkTracked { tr_Index : string; tr_SAMLRequestID : string; tr_URI : string }.
Record samlTrackedRequestClaims := mkTrackedClaims {
  tc_Registered : RegisteredClaims; tc_Request : TrackedRequest; tc_SAMLAuthnRequest : bool
}.
(** The policy of golang-jwt's parser for both. *)
Record hs_policy := mkHSPolicy { hp_alg : string; hp_issuer : string; hp_audience : string; hp_now : Z }.
(** HS256 signing, and parsing under a policy into either struct: a struct is
    read off the JSON payload, whatever it was signed as. *)
Class HS256 : Type := {
  SignedString_session : samlSessionClaims → string → string;
  SignedString_tracked : samlTrackedRequestClaims → string → string;
  Parse_session : hs_policy → string → string → result samlSessionClaims;
  Parse_tracked : hs_policy → string → string → result samlTrackedRequestClaims
}.

Record samlCodec := mkCodec { cd_secret : string; cd_audience : string; cd_issuer : string; cd_maxAge : Z }.
Definition samlSessionAlg := "HS256".
Definition samlSessionIndexAttr := "SessionIndex".

(** [jwt.NewNumericDate]: an instant to the second, the [jwt.TimePrecision] there is. *)
Definition NewNumericDate (t : Z) : Z := (t / second * second)%Z.

Section codec.
Context {HS : HS256}.

Definition codec_registered (now : Z) (c : samlCodec) (subject : string) : RegisteredClaims :=
  mkRegistered [cd_audience c] (cd_issuer c) subject (NewNumericDate now) (NewNumericDate now) (NewNumericDate (now + cd_maxAge c)).
Definition codec_policy (now : Z) (c : samlCodec) : hs_policy :=
  mkHSPolicy samlSessionAlg (cd_issuer c) (cd_audience c) now.

Definition append_attr (name v : string) (m : gmap string (list string)) : gmap string (list string) :=
  <[name := default [] (m !! name) ++ [v]]> m.
Definition add_attribute (m : gmap string (list string)) (attr : string * string * list string) :=
  let '(friendly, name, values) := attr in
  let name := if friendly =? "" then name else friendly in
  foldl (λ m v, append_attr name v m) m values.
Definition session_attributes (a : Assertion) : gmap string (list string) :=
  let m := foldl (foldl add_attribute) ∅ (as_AttributeStatements a) in
  foldl (λ m i, append_attr samlSessionIndexAttr i m) m (as_AuthnStatements a).
(** [samlSessionCodec.New] *)
Definition codec_New (now : Z) (c : samlCodec) (a : Assertion) : samlSessionClaims :=
  mkSessionClaims (codec_registered now c (default "" (as_NameID a))) (session_attributes a) true.
Definition session_Encode (c : samlCodec) (s : samlSessionClaims) : string := SignedString_session s (cd_secret c).
Definition session_Decode (now : Z) (c : samlCodec) (signed : string) : result samlSessionClaims :=
  let* claims := Parse_session (codec_policy now c) (cd_secret c) signed in
  fail_if negb (sc_SAMLSession claims) with ENew "saml: token is not a session" in
  Ok claims.
Definition tracked_Encode (now : Z) (c : samlCodec) (v : TrackedRequest) : string :=
  SignedString_tracked (mkTrackedClaims (codec_registered now c (tr_Index v)) v true) (cd_secret c).
Definition tracked_Decode (now : Z) (c : samlCodec) (signed : string) : result TrackedRequest :=
  let* claims := Parse_tracked (codec_policy now c) (cd_secret c) signed in
  fail_if negb (tc_SAMLAuthnRequest claims) with ENew "saml: token is not a tracked request" in
  Ok (mkTracked (rc_Subject (tc_Registered claims)) (tr_SAMLRequestID (tc_Request claims)) (tr_URI (tc_Request claims))).
End codec.

(** * The registry (saml.go) *)

Section provider.
Context {C : Crypto} {X : X509} {N : NetURL} {F : Floats} {J : JWT} {En : Env} {M : SAMLMetadata}.

(** What a samlsp.Middleware is configured with. *)
Record Provider := mkProvider {
  pv_EntityID : string; pv_AcsURL : URL; pv_Metadata : EntityDescriptor;
  pv_Key : option (RSAPrivateKey * Certificate);
  pv_Audiences : option (list string);        (* the audience hook, when installed *)
  pv_SessionCookie : string; pv_SessionMaxAge : Z; pv_Secure : bool; pv_Codec : samlCodec;
  pv_TrackerSameSiteNone : bool
}.

Definition validateSAMLAudienceRestriction (a : Assertion) (spEntityID : string) (extra : list string) : result unit :=
  match as_AudienceRestrictions a with
  | None | Some [] => Ok tt
  | Some ars =>
      if existsb (λ ar, (ar =? spEntityID) || existsb (λ x, ar =? x) extra) ars then Ok tt
      else Err (ErrorfA "assertion audience restriction does not contain %q or any configured audience" [spEntityID])
  end.

Definition with_path (p : string) (u : URL) : URL :=
  mkURL (u_Scheme u) (u_Opaque u) (u_User u) (u_Host u) p (u_RawPath u) (u_ForceQuery u) (u_RawQuery u) (u_Fragment u).

Definition saml_sp_keys (src : SAMLSource) : result (option (RSAPrivateKey * Certificate)) :=
  if s_SPKeyEnv src =? "" then Ok None
  else
    match LookupEnv (s_SPKeyEnv src) with
    | None => Err (ErrorfA "sp_key_env: environment variable %q is not set" [s_SPKeyEnv src])
    | Some keyPEM =>
        let* key := rwrap "sp_key_env: environment variable %q: %w" [s_SPKeyEnv src] (ParseSPPrivateKey keyPEM) in
        let* cert := rwrap "sp_cert: %w" [] (ParseSPCertificate (s_SPCert src)) in
        Ok (Some (key, cert))
    end.
(** [saml.MaxIssueDelay] is not under src: the tracker's lifetime is left out. *)
Definition buildSAMLProvider (src : SAMLSource) (md : EntityDescriptor) : result Provider :=
  let* spBase := rwrap "parse sp_base_url: %w" [] (url_Parse (s_SPBaseURL src)) in
  match LookupEnv (s_SessionSigningKeyEnv src) with
  | None => Err (ErrorfA "session_signing_key_env: environment variable %q is not set" [s_SessionSigningKeyEnv src])
  | Some secret =>
      fail_if String.length secret <? samlSessionSigningKeyMinLen
        with ErrorfA "session_signing_key_env: environment variable %q must be at least %d bytes, got %d" [s_SessionSigningKeyEnv src] in
      let* keys := saml_sp_keys src in
      let https := u_Scheme spBase =? "https" in
      Ok (mkProvider (s_SPEntityID src) (with_path (s_ACSPath src) spBase) md keys
            (match s_Audiences src with [] => None | l => Some l end)
            (s_SessionCookie src) (s_SessionDuration src) https
            (mkCodec secret (s_SPEntityID src) (s_SPEntityID src) (s_SessionDuration src)) https)
  end.

Record SAMLRegistry := mkSAMLRegistry {
  sr_seen : option nat; sr_fingerprint : string; sr_provider : option Provider;
  sr_refreshAt : Z; sr_fetchedAt : Z; sr_certExpiry : option Z;
  sr_lastErr : error; sr_nextTry : Z;
  sr_fetches : nat;                   (* metadata fetches so far *)
  sr_closed : bool                    (* the context of every fetch is cancelled *)
}.
Definition NewSAMLRegistry : SAMLRegistry := mkSAMLRegistry None "" None 0 0 None (ENew "") 0 0 false.
Definition SAML_Close (r : SAMLRegistry) : SAMLRegistry :=
  mkSAMLRegistry (sr_seen r) (sr_fingerprint r) (sr_provider r) (sr_refreshAt r) (sr_fetchedAt r) (sr_certExpiry r)
    (sr_lastErr r) (sr_nextTry r) (sr_fetches r) true.

Definition samlFingerprint (s : SAMLSource) : string :=
  Join [s_Issuer s; Join (s_Audiences s) ","; s_IDPMetadataURL s; Duration_String (s_IDPMetadataCacheTTL s);
        s_SPBaseURL s; s_SPEntityID s; s_ACSPath s; s_SessionCookie s; s_SessionSigningKeyEnv s;
        Duration_String (s_SessionDuration s); s_SPKeyEnv s; s_SPCert s; s_CACert s] nul.

(** The registry with no provider, for a new fingerprint. *)
Definition saml_reset (fp : string) (r : SAMLRegistry) : SAMLRegistry :=
  mkSAMLRegistry (sr_seen r) fp None (sr_refreshAt r) (sr_fetchedAt r) (sr_certExpiry r) (ENew "") 0 (sr_fetches r) (sr_closed r).

Definition SAML_Reconcile (ptr : nat) (auth : InboundAuthConfig) (r : SAMLRegistry) : SAMLRegistry :=
  if sr_seen r =? Some ptr then r
  else
    let fp := match a_SAML auth with
              | Some s => if SAMLEnabled auth then samlFingerprint s else ""
              | None => "" end in
    let r := if fp !=? sr_fingerprint r then saml_reset fp r else r in
    mkSAMLRegistry (Some ptr) (sr_fingerprint r) (sr_provider r) (sr_refreshAt r) (sr_fetchedAt r)
      (sr_certExpiry r) (sr_lastErr r) (sr_nextTry r) (sr_fetches r) (sr_closed r).

Definition fetchAndBuild (closed : bool) (now : Z) (n : nat) (src : SAMLSource) : result (Provider * option Z) :=
  let* client := (if s_CACert src !=? "" then
                    rmap Some (rwrap "build ca_cert trust roots: %w" [] (ParseCACertPool (s_CACert src)))
                  else Ok None) in
  let* entity := rwrap "fetch idp metadata: %w" [] 
    (if closed then Err (Wrapf "fetch idp metadata: %w" [] (ENew "context canceled"))
     else fetchIDPMetadata n client (s_IDPMetadataURL src) (s_Issuer src)) in
  let* provider := rwrap "build saml provider: %w" [] (buildSAMLProvider src entity) in
  Ok (provider, idpSigningCertExpiryAt entity now).

(** After a fetch at [now]: [got], or keeping what is there. *)
Definition saml_built (now : Z) (src : SAMLSource) (p : Provider) (expiry : option Z) (e : error) (r : SAMLRegistry) : SAMLRegistry :=
  mkSAMLRegistry (sr_seen r) (sr_fingerprint r) (Some p)
    (samlRefreshAt now (s_IDPMetadataCacheTTL src) expiry) now expiry e (sr_nextTry r) (S (sr_fetches r)) (sr_closed r).

Definition Provider_ (now : Z) (src : SAMLSource) (r : SAMLRegistry) : result Provider * SAMLRegistry :=
  let fp := samlFingerprint src in
  let r := if fp !=? sr_fingerprint r then saml_reset fp r else r in
  match sr_provider r with
  | Some p =>
      if (now <? sr_refreshAt r)%Z then (Ok p, r)
      else
        match fetchAndBuild (sr_closed r) now (sr_fetches r) src with
        | Err _ =>
            (Ok p, mkSAMLRegistry (sr_seen r) (sr_fingerprint r) (Some p)
               (now + Z.min (s_IDPMetadataCacheTTL src) samlFailedRefreshBackoff)%Z now (sr_certExpiry r)
               (sr_lastErr r) (sr_nextTry r) (S (sr_fetches r)) (sr_closed r))
        | Ok (p', expiry) => (Ok p', saml_built now src p' expiry (sr_lastErr r) r)
        end
  | None =>
      if (now <? sr_nextTry r)%Z then (Err (sr_lastErr r), r)
      else
        match fetchAndBuild (sr_closed r) now (sr_fetches r) src with
        | Err e =>
            (Err e, mkSAMLRegistry (sr_seen r) (sr_fingerprint r) None (sr_refreshAt r) now (sr_certExpiry r)
               e (now + defaultSAMLRetry)%Z (S (sr_fetches r)) (sr_closed r))
        | Ok (p, expiry) => (Ok p, saml_built now src p expiry (ENew "") r)
        end
  end.

Definition RefreshNow (now : Z) (src : SAMLSource) (r : SAMLRegistry) : option Provider * SAMLRegistry :=
  if (samlFingerprint src !=? sr_fingerprint r) || bool_decide (sr_provider r = None) then (None, r)
  else if (now <? sr_fetchedAt r + samlMinMetadataRefresh)%Z then (None, r)
  else
    match fetchAndBuild (sr_closed r) now (sr_fetches r) src with
    | Err _ =>
        (None, mkSAMLRegistry (sr_seen r) (sr_fingerprint r) (sr_provider r) (sr_refreshAt r) now
           (sr_certExpiry r) (sr_lastErr r) (sr_nextTry r) (S (sr_fetches r)) (sr_closed r))
    | Ok (p, expiry) => (Some p, saml_built now src p expiry (sr_lastErr r) r)
    end.
End provider.

(** * Serving (saml_middleware.go) *)

(** A response held back. *)
Record bufferedResponse := mkBuffered {
  bf_status : Z; bf_header : Header; bf_cookies : list Cookie; bf_body : string
}.
(** What a provider says about a request: its session, if its cookie holds a
    valid one; [RequireAccount]: that session, or the response it writes itself;
    and its answer to a callback. *)
Class SAMLSP `{Crypto} : Type := {
  GetSession : Z → Provider → Request → option SamlSession;
  RequireAccount : Z → Provider → Request → SamlSession + (Response → Response);
  ServeACS : Z → Provider → Request → bufferedResponse
}.
Definition maxACSBodyBytes : Z := 10485760.

Section serving.
Context {C : Crypto} {X : X509} {N : NetURL} {F : Floats} {J : JWT} {En : Env} {M : SAMLMetadata} {SP : SAMLSP}.

Definition writeTo (b : bufferedResponse) (w : Response) : Response :=
  let w := w_map_header (λ h, bf_header b ∪ h) w in
  let w := match bf_cookies b with
           | [] => w
           | cs => foldl (λ w c, SetCookie c w) (mkResponse (w_status w) (w_header w) [] (w_body w) (w_rejections w)) cs
           end in
  Write (bf_body b) (WriteHeader (bf_status b) w).

Definition samlOnError (w : Response) : Response :=
  Write "forbidden" (WriteHeader 403 (w_Set "Content-Type" "text/plain; charset=utf-8" w)).

Definition serveACSRetrying (now : Z) (src : SAMLSource) (mw : Provider) (w : Response) (r : Request)
    (reg : SAMLRegistry) : Response * SAMLRegistry :=
  if (maxACSBodyBytes <? Z.of_nat (String.length (r_Body r)))%Z then (samlOnError w, reg)
  else
    let result := ServeACS now mw r in
    if (bf_status result =? 403)%Z then
      let '(fresh, reg) := RefreshNow now src reg in
      (writeTo (match fresh with Some m => ServeACS now m r | None => result end) w, reg)
    else (writeTo result w, reg).

(** [enforceSAML mw next]: [next]'s request, with the session in its context,
    or the response written instead. *)
Definition enforceSAML (now : Z) (mw : Provider) (w : Response) (r : Request) : Request + Response :=
  match RequireAccount now mw r with
  | inl s => inl (with_ctx (mkContext (Some s) (ctx_scope (r_ctx r))) r)
  | inr answer => inr (answer w)
  end.
End serving.

(** * Lemmas *)

Section saml_lemmas.
Context {C : Crypto} {X : X509} {N : NetURL} {F : Floats} {J : JWT} {En : Env} {M : SAMLMetadata}.

Lemma samlRefreshAt_range now ttl e :
  (0 ≤ ttl → now + Z.min ttl samlMinMetadataRefresh ≤ samlRefreshAt now ttl e ≤ now + ttl)%Z.
Proof.
  intros Ht. unfold samlRefreshAt. assert (0 < samlMinMetadataRefresh)%Z by done.
  destruct e as [e|]; [|lia].
  destruct (e <? now + ttl)%Z eqn:E1; cbn [negb]; [|lia].
  destruct (e <? now + samlMinMetadataRefresh)%Z eqn:E2; [|lia].
  destruct (now + ttl <? now + samlMinMetadataRefresh)%Z eqn:E3; lia.
Qed.

(** ** The earliest certificate *)

(** [e] is the least element of [l] satisfying [p]; [None] when there is none. *)
Definition least (p : Z → bool) (l : list Z) (e : option Z) : Prop :=
  match e with
  | Some t => t ∈ l ∧ p t = true ∧ ∀ u, u ∈ l → p u = true → (t ≤ u)%Z
  | None => ∀ u, u ∈ l → p u = false
  end.
Lemma earlier_least p l e t :
  least p l e → p t = true → least p (l ++ [t]) (earlier e t).
Proof.
  unfold least, earlier. destruct e as [e|].
  - intros (He & Hpe & Hmin) Hp. destruct (t <? e)%Z eqn:E.
    + split_and!; [set_solver|done|]. intros u [Hu| ->%list_elem_of_singleton]%elem_of_app Hpu; [|lia].
      specialize (Hmin u Hu Hpu). lia.
    + split_and!; [set_solver|done|]. intros u [Hu| ->%list_elem_of_singleton]%elem_of_app Hpu; [by apply Hmin|lia].
  - intros Hnone Hp. split_and!; [set_solver|done|].
    intros u [Hu| ->%list_elem_of_singleton]%elem_of_app Hpu; [|lia]. by rewrite Hnone in Hpu.
Qed.
Lemma least_skip p l e t : least p l e → p t = false → least p (l ++ [t]) e.
Proof.
  unfold least. destruct e as [e|].
  - intros (He & Hpe & Hmin) Hp. split_and!; [set_solver|done|].
    intros u [Hu| ->%list_elem_of_singleton]%elem_of_app Hpu; [by apply Hmin|congruence].
  - intros Hn Hp u [Hu| ->%list_elem_of_singleton]%elem_of_app; [by apply Hn|done].
Qed.

(** The expiry times of the certificates that parse. *)
Definition cert_expiry (data : string) : option Z :=
  match b64_decode (strip_space data) with
  | None => None
  | Some der => match ParseCertificate der with Ok cert => Some (NotAfter cert) | Err _ => None end
  end.
Definition signing_expiries (entity : EntityDescriptor) : list Z :=
  flat_map (λ idp, flat_map (λ kd, if is_signing kd then omap cert_expiry (kd_Certs kd) else []) (idp_Keys idp))
    (en_IDPs entity).

Definition expiry_inv (now : Z) (l : list Z) (acc : option Z * option Z) : Prop :=
  least (λ t, (now <? t)%Z) l acc.1 ∧ least (λ _, true) l acc.2.
Lemma cert_step_inv now l acc data :
  expiry_inv now l acc → expiry_inv now (l ++ option_list (cert_expiry data)) (cert_step now acc data).
Proof.
  intros Hinv. unfold cert_step, cert_expiry. destruct acc as [v a].
  destruct (b64_decode (strip_space data)) as [der|]; [|by rewrite app_nil_r].
  destruct (ParseCertificate der) as [cert|]; [|by rewrite app_nil_r].
  destruct Hinv as [Hv Ha]. split; cbn [fst snd option_list].
  - destruct (now <? NotAfter cert)%Z eqn:E; [by apply earlier_least|by apply least_skip].
  - by apply earlier_least.
Qed.

(** Folding a step over a list whose elements each contribute some times. *)
Lemma fold_inv {A} (step : option Z * option Z → A → option Z * option Z) (times : A → list Z) now xs :
  (∀ l acc x, expiry_inv now l acc → expiry_inv now (l ++ times x) (step acc x)) →
  ∀ l acc, expiry_inv now l acc → expiry_inv now (l ++ flat_map times xs) (foldl step acc xs).
Proof.
  intros Hstep. induction xs as [|x xs IH]; intros l acc Hinv; cbn; [by rewrite app_nil_r|].
  rewrite app_assoc. apply IH. by apply Hstep.
Qed.
Lemma omap_flat {A B} (f : A → option B) xs : omap f xs = flat_map (λ x, option_list (f x)) xs.
Proof. induction xs as [|x xs IH]; [done|]. cbn. rewrite <- IH. by destruct (f x). Qed.

Lemma expiries_inv now entity :
  expiry_inv now (signing_expiries entity)
    (foldl (λ acc idp, foldl (λ acc kd,
        if (kd_Use kd !=? "") && (kd_Use kd !=? "signing") then acc
        else foldl (cert_step now) acc (kd_Certs kd)) acc (idp_Keys idp))
      (None, None) (en_IDPs entity)).
Proof.
  assert (H0 : expiry_inv now [] (None, None)) by (split; intros u Hu; by apply elem_of_nil in Hu).
  rewrite <- (app_nil_l (signing_expiries entity)). unfold signing_expiries.
  apply fold_inv; [|done]. intros l acc idp Hl. apply fold_inv; [|done].
  clear. intros l acc kd Hl. unfold is_signing.
  destruct (kd_Use kd =? ""), (kd_Use kd =? "signing"); cbn [negb andb orb]; try by rewrite app_nil_r.
  all: rewrite omap_flat; apply fold_inv; [intros; by apply cert_step_inv|done].
Qed.

(** ** The registry *)

Definition built_for_saml (fp : string) (p : Provider) : Prop :=
  ∃ src n now e, samlFingerprint src = fp ∧ fetchAndBuild false now n src = Ok (p, e).
Lemma fetchAndBuild_open closed now n src x : fetchAndBuild closed now n src = Ok x → fetchAndBuild false now n src = Ok x.
Proof.
  destruct closed; [|done]. intros (client & _ & H)%rbind_ok. by apply rbind_ok in H as (entity & He & _).
Qed.
Definition saml_ok (r : SAMLRegistry) : Prop :=
  ∀ p, sr_provider r = Some p → built_for_saml (sr_fingerprint r) p.

Lemma saml_ok_new : saml_ok NewSAMLRegistry.
Proof. by intros p H. Qed.
Lemma saml_ok_reset fp r : saml_ok (saml_reset fp r).
Proof. by intros p H. Qed.
Lemma saml_ok_Reconcile ptr auth r : saml_ok r → saml_ok (SAML_Reconcile ptr auth r).
Proof.
  intros Hr. unfold SAML_Reconcile. case_bool_decide; [done|].
  destruct (_ !=? _); intros p Hp; cbn in *; [done|by apply Hr].
Qed.
End saml_lemmas.

Section saml_provider.
Context {C : Crypto} {X : X509} {N : NetURL} {F : Floats} {J : JWT} {En : Env} {M : SAMLMetadata}.

(** How long an answer stands after the fetch that gave it. *)
Definition saml_window (src : SAMLSource) : Z := Z.min (s_IDPMetadataCacheTTL src) defaultSAMLRetry.

(** A registry brought to the fingerprint of [src]. *)
Definition saml_at (fp : string) (r : SAMLRegistry) : SAMLRegistry :=
  if fp !=? sr_fingerprint r then saml_reset fp r else r.
Lemma saml_at_fp fp r : sr_fingerprint (saml_at fp r) = fp ∧ sr_fetches (saml_at fp r) = sr_fetches r.
Proof. unfold saml_at. case_bool_decide; cbn; auto. Qed.
Lemma saml_at_ok fp r : saml_ok r → saml_ok (saml_at fp r).
Proof. intros H. unfold saml_at. destruct (_ !=? _); [apply saml_ok_reset|done]. Qed.
Lemma saml_at_same fp r : sr_fingerprint r = fp → saml_at fp r = r.
Proof. intros <-. unfold saml_at. by rewrite bool_decide_true. Qed.

(** The registry after [Provider] answered. *)
Record saml_answered (now : Z) (src : SAMLSource) (r : SAMLRegistry) (res : result Provider) (r' : SAMLRegistry) : Prop := {
  sa_fp : sr_fingerprint r' = samlFingerprint src;
  sa_ok : saml_ok r';
  sa_res : match res with
           | Ok p => sr_provider r' = Some p
           | Err e => sr_provider r' = None ∧ sr_lastErr r' = e ∧ (now < sr_nextTry r')%Z
           end;
  sa_fetch : sr_fetches r' = sr_fetches r ∨
    sr_fetches r' = S (sr_fetches r) ∧ sr_fetchedAt r' = now ∧
    match res with
    | Ok _ => (now + Z.min (s_IDPMetadataCacheTTL src) samlMinMetadataRefresh ≤ sr_refreshAt r')%Z
    | Err _ => sr_nextTry r' = (now + defaultSAMLRetry)%Z
    end
}.

Lemma Provider_answered now src r res r' :
  (0 ≤ s_IDPMetadataCacheTTL src)%Z → saml_ok r → Provider_ now src r = (res, r') → saml_answered now src r res r'.
Proof.
  intros Httl Hr H. unfold Provider_ in H. fold (saml_at (samlFingerprint src) r) in H.
  pose proof (saml_at_fp (samlFingerprint src) r) as [Hfp Hn]. pose proof (saml_at_ok (samlFingerprint src) r Hr) as Hok.
  revert Hfp Hn Hok H. generalize (saml_at (samlFingerprint src) r). intros r0 Hfp Hn Hok H.
  assert (Hbuilt : ∀ p expiry e, fetchAndBuild (sr_closed r0) now (sr_fetches r0) src = Ok (p, expiry) →
    saml_answered now src r (Ok p) (saml_built now src p expiry e r0)).
  { intros p expiry e Hf. pose proof (samlRefreshAt_range now _ expiry Httl).
    split; cbn; [done| |done|right; split_and!; [by rewrite Hn|done|lia]].
    intros p' [= <-]. cbn. rewrite Hfp. exists src, (sr_fetches r0), now, expiry. split; [done|by eapply fetchAndBuild_open]. }
  destruct (sr_provider r0) as [p|] eqn:Ep.
  - destruct (now <? sr_refreshAt r0)%Z; [simplify_eq; by split; [..|left]|].
    destruct (fetchAndBuild (sr_closed r0) now (sr_fetches r0) src) as [[p' expiry]|e] eqn:Ef; simplify_eq; [by apply Hbuilt|].
    split; cbn; [done|intros p' [= <-]; cbn; by apply Hok|done|right; split_and!; [by rewrite Hn|done|]].
    unfold samlFailedRefreshBackoff, samlMinMetadataRefresh. assert (0 < minute)%Z by done. lia.
  - destruct (now <? sr_nextTry r0)%Z eqn:Et; [simplify_eq; split; [done..| |by left]; split_and!; [done|done|lia]|].
    destruct (fetchAndBuild (sr_closed r0) now (sr_fetches r0) src) as [[p' expiry]|e] eqn:Ef; simplify_eq; [by apply Hbuilt|].
    split; cbn; [done|by intros p' H| |right; split_and!; [by rewrite Hn|done|done]].
    split_and!; [done|done|]. unfold defaultSAMLRetry, second. lia.
Qed.

Lemma Provider_same now src r :
  sr_fingerprint r = samlFingerprint src →
  (∀ p, sr_provider r = Some p → is_ok (Provider_ now src r).1 = true ∧
     ((now < sr_refreshAt r)%Z → Provider_ now src r = (Ok p, r))) ∧
  (sr_provider r = None → (now < sr_nextTry r)%Z → Provider_ now src r = (Err (sr_lastErr r), r)).
Proof.
  intros Hfp. unfold Provider_. fold (saml_at (samlFingerprint src) r). rewrite saml_at_same by done. split.
  - intros p ->. split.
    + destruct (now <? sr_refreshAt r)%Z; [done|]. by destruct (fetchAndBuild _ _ _ _) as [[? ?]|].
    + intros Hlt. by rewrite (proj2 (Z.ltb_lt _ _) Hlt).
  - intros -> Hlt. by rewrite (proj2 (Z.ltb_lt _ _) Hlt).
Qed.
End saml_provider.

(** ** What golang-jwt is relied on for *)

Definition date_limit : Z := (2 ^ 53 * second)%Z.
(** An instant that a NumericDate holds: whole seconds, exact as a float64. *)
Definition dated (t : Z) : Prop := NewNumericDate t = t ∧ (0 ≤ t < date_limit)%Z.
Definition registered_text (r : RegisteredClaims) : Prop :=
  Forall valid_utf8 (rc_Issuer r :: rc_Audience r) ∧ Forall dated [rc_IssuedAt r; rc_NotBefore r; rc_ExpiresAt r].
Definition attributes_text (m : gmap string (list string)) : Prop := map_Forall (λ k vs, valid_utf8 k ∧ Forall valid_utf8 vs) m.
Definition accepts (pol : hs_policy) (r : RegisteredClaims) : Prop :=
  hp_alg pol = samlSessionAlg ∧ hp_issuer pol = rc_Issuer r ∧ hp_audience pol ≠ "" ∧ hp_audience pol ∈ rc_Audience r ∧
  (rc_NotBefore r ≤ hp_now pol < rc_ExpiresAt r)%Z.
(** What was signed is accepted under a policy it meets and not once it has expired; it
    is read back as encoding/json reads what it writes, and a marker whose key is absent is
    false. *)
Record hs_laws {HS : HS256} : Prop := {
  law_session pol cl s : registered_text (sc_Registered cl) → valid_utf8 (rc_Subject (sc_Registered cl)) →
    attributes_text (sc_Attributes cl) → accepts pol (sc_Registered cl) → Parse_session pol s (SignedString_session cl s) = Ok cl;
  law_tracked pol cl s : registered_text (tc_Registered cl) → accepts pol (tc_Registered cl) →
    ∃ cl', Parse_tracked pol s (SignedString_tracked cl s) = Ok cl' ∧
      rc_Subject (tc_Registered cl') = to_valid (rc_Subject (tc_Registered cl)) ∧ tc_SAMLAuthnRequest cl' = tc_SAMLAuthnRequest cl ∧
      tr_SAMLRequestID (tc_Request cl') = to_valid (tr_SAMLRequestID (tc_Request cl)) ∧
      tr_URI (tc_Request cl') = to_valid (tr_URI (tc_Request cl));
  law_expired pol cl s : registered_text (sc_Registered cl) → (rc_ExpiresAt (sc_Registered cl) ≤ hp_now pol)%Z →
    is_ok (Parse_session pol s (SignedString_session cl s)) = false;
  law_session_marker pol cl s cl' : Parse_session pol s (SignedString_tracked cl s) = Ok cl' → sc_SAMLSession cl' = false;
  law_tracked_marker pol cl s cl' : Parse_tracked pol s (SignedString_session cl s) = Ok cl' → tc_SAMLAuthnRequest cl' = false
}.

Lemma NewNumericDate_range t : (t - second < NewNumericDate t ≤ t)%Z.
Proof. unfold NewNumericDate. assert (0 < second)%Z by done. Z.to_euclidean_division_equations. nia. Qed.
Lemma NewNumericDate_dated t : (0 ≤ t < date_limit)%Z → dated (NewNumericDate t).
Proof.
  intros Ht. assert (Hs : (0 < second)%Z) by done. split.
  - unfold NewNumericDate. by rewrite Z.div_mul by lia.
  - pose proof (NewNumericDate_range t). unfold NewNumericDate. split; [|unfold NewNumericDate in *; lia].
    apply Z.mul_nonneg_nonneg; [apply Z.div_pos; lia|lia].
Qed.
Lemma codec_registered_text now c subject : valid_utf8 (cd_audience c) ∧ valid_utf8 (cd_issuer c) →
  (0 ≤ now)%Z → (0 ≤ cd_maxAge c)%Z → (now + cd_maxAge c < date_limit)%Z → registered_text (codec_registered now c subject).
Proof.
  intros [Ha Hi] H1 H2 H3. split; [by repeat constructor|]. cbn. repeat constructor; apply NewNumericDate_dated; lia.
Qed.
Lemma codec_accepts now now' c subject : cd_audience c ≠ "" → (now ≤ now' < NewNumericDate (now + cd_maxAge c))%Z →
  accepts (codec_policy now' c) (codec_registered now c subject).
Proof.
  intros Ha Hn. pose proof (NewNumericDate_range now). unfold accepts. cbn.
  split; [done|]. split; [done|]. split; [done|]. split; [by apply list_elem_of_singleton|lia].
Qed.

(** * Properties *)

(** C34: the SAML provider registry. The provider [Provider] returns was built
    from metadata fetched for a source of the same [samlFingerprint], which is all the
    settings it is built from, joined; once there is one for
    them it never fails again (a failed refresh serves the old one); and after a
    fetch, the answer stands without another for 30 seconds (or the metadata
    TTL, if shorter). After any fetch [RefreshNow] makes none for a minute, and
    whatever it does a provider is never lost. *)
Theorem Provider_spec {C : Crypto} {X : X509} {N : NetURL} {F : Floats} {J : JWT} {En : Env} {M : SAMLMetadata}
    now src (r : SAMLRegistry) res r'
    (Httl : (0 ≤ s_IDPMetadataCacheTTL src)%Z) (Hr : saml_ok r) (Hp : Provider_ now src r = (res, r')) :
  saml_ok r' ∧
  (∀ p, res = Ok p → built_for_saml (samlFingerprint src) p ∧ sr_provider r' = Some p) ∧
  ∀ now' src', samlFingerprint src' = samlFingerprint src →
    (is_ok res = true → is_ok (Provider_ now' src' r').1 = true) ∧
    (sr_fetches r' ≠ sr_fetches r → (now' < now + saml_window src)%Z → Provider_ now' src' r' = (res, r')) ∧
    (sr_fetches r' ≠ sr_fetches r → (now' < now + minute)%Z → RefreshNow now' src' r' = (None, r')) ∧
    (is_ok res = true → is_Some (sr_provider (RefreshNow now' src' r').2)).
Proof.
  destruct (Provider_answered _ _ _ _ _ Httl Hr Hp) as [Hfp Hok Hres Hf]. split; [done|split].
  { intros p ->. split; [|done]. rewrite <- Hfp. by apply Hok. }
  intros now' src' Hs. rewrite <- Hs in Hfp. destruct (Provider_same now' src' r' Hfp) as [H1 H2].
  assert (Hret : (0 < minute)%Z ∧ (0 < defaultSAMLRetry < minute)%Z) by done. split_and!.
  - intros (p & ->)%is_ok_true. by apply (H1 p).
  - intros Hne Hlt. unfold saml_window in Hlt. destruct Hf as [?|(_ & _ & Hw)]; [done|].
    destruct res as [p|e].
    + apply (H1 p Hres). unfold samlMinMetadataRefresh in Hw. lia.
    + destruct Hres as (Hn & <- & _). apply H2; [done|]. lia.
  - intros Hne Hlt. destruct Hf as [?|(_ & Hat & _)]; [done|]. unfold RefreshNow.
    destruct ((_ !=? _) || _); [done|]. unfold samlMinMetadataRefresh. rewrite Hat.
    by rewrite (proj2 (Z.ltb_lt _ _) Hlt).
  - intros (p & ->)%is_ok_true. unfold RefreshNow. rewrite Hres.
    destruct ((_ !=? _) || _); [cbn; eauto|]. destruct (_ <? _)%Z; [cbn; eauto|].
    destruct (fetchAndBuild _ _ _ _) as [[? ?]|]; cbn; eauto.
Qed.

(** When metadata fetched at [now] is next due: never after the TTL, never
    sooner than a minute (or the TTL, if shorter); exactly at the earliest expiry
    of a still valid signing certificate when that lies between the two; and that
    expiry is the least among the certificates, signing or unrestricted, that
    parse and have not expired, or, when all have, among all of them. *)
Theorem samlRefresh_spec {C : Crypto} {X : X509} {M : SAMLMetadata} (entity : EntityDescriptor) now ttl
    (Httl : (0 ≤ ttl)%Z) :
  let e := idpSigningCertExpiryAt entity now in
  let at_ := samlRefreshAt now ttl e in
  (now + Z.min ttl minute ≤ at_ ≤ now + ttl)%Z ∧
  (∀ t, e = Some t → (now + minute ≤ t ≤ now + ttl)%Z → at_ = t) ∧
  match e with
  | Some t => t ∈ signing_expiries entity ∧ (∀ u, u ∈ signing_expiries entity → (now < u)%Z → (now < t ≤ u)%Z) ∧
      ((t ≤ now)%Z → ∀ u, u ∈ signing_expiries entity → (t ≤ u)%Z)
  | None => signing_expiries entity = []
  end.
Proof.
  cbn zeta. split; [by apply samlRefreshAt_range|]. split.
  { intros t -> Ht. unfold samlRefreshAt, samlMinMetadataRefresh.
    destruct (t <? now + ttl)%Z eqn:E1; cbn [negb]; [|lia]. by rewrite (proj2 (Z.ltb_ge _ _)) by lia. }
  unfold idpSigningCertExpiryAt. pose proof (expiries_inv now entity) as Hinv.
  destruct (foldl _ (None, None) (en_IDPs entity)) as [v a]. destruct Hinv as [Hv Ha]. cbn in Hv, Ha.
  destruct v as [t|].
  - destruct Hv as (Ht & Hlt & Hmin). split_and!; [done|intros u Hu Hnu; split; [lia|apply Hmin; [done|lia]]|].
    intros Hle. lia.
  - assert (Hexp : ∀ u, u ∈ signing_expiries entity → (u ≤ now)%Z) by (intros u Hu%Hv; lia).
    destruct a as [t|].
    + destruct Ha as (Ht & _ & Hmin). split_and!; [done| |intros _ u Hu; by apply Hmin].
      intros u Hu Hnu. specialize (Hexp u Hu). lia.
    + destruct (signing_expiries entity) as [|u l]; [done|]. by specialize (Ha u (list_elem_of_here u l)).
Qed.

(** C35: the session cookie holds what the assertion said, for the session's
    lifetime and no other kind of token. golang-jwt keeps whole seconds, so it expires
    at its lifetime from when it was made, less what that is past the second: until
    then decoding an encoded session gives the very claims [New] read off the
    assertion, and from then on nothing; a tracker cookie signed with the same secret is
    never accepted as a session, nor a session as a tracker cookie; within its own
    lifetime a tracked request is read back, index included, what is not UTF-8 in it
    replaced. For an audience that is not empty, and settings and an assertion that are
    valid UTF-8; golang-jwt is assumed to do as [hs_laws] has it. *)
Theorem saml_cookies_spec {HS : HS256} (c : samlCodec) age now now' (a : Assertion) (v : TrackedRequest)
    (Hlaws : hs_laws) (Hc : valid_utf8 (cd_audience c) ∧ valid_utf8 (cd_issuer c)) (Hne : cd_audience c ≠ "")
    (Ha : valid_utf8 (default "" (as_NameID a)) ∧ attributes_text (session_attributes a))
    (Hage : (0 ≤ cd_maxAge c ∧ 0 ≤ age)%Z) (Hnow : (0 ≤ now ≤ now')%Z)
    (Hrange : (now + cd_maxAge c < date_limit ∧ now + age < date_limit)%Z) :
  let ct := mkCodec (cd_secret c) (cd_audience c) (cd_issuer c) age in
  let session := session_Encode c (codec_New now c a) in
  let tracked := tracked_Encode now ct v in
  (now + cd_maxAge c - second < NewNumericDate (now + cd_maxAge c) ≤ now + cd_maxAge c)%Z ∧
  ((now' < NewNumericDate (now + cd_maxAge c))%Z → session_Decode now' c session = Ok (codec_New now c a)) ∧
  ((NewNumericDate (now + cd_maxAge c) ≤ now')%Z → is_ok (session_Decode now' c session) = false) ∧
  ((now' < NewNumericDate (now + age))%Z →
     tracked_Decode now' ct tracked = Ok (mkTracked (to_valid (tr_Index v)) (to_valid (tr_SAMLRequestID v)) (to_valid (tr_URI v)))) ∧
  is_ok (session_Decode now' c tracked) = false ∧
  is_ok (tracked_Decode now' ct session) = false.
Proof.
  cbn zeta. unfold session_Decode, session_Encode, tracked_Decode, tracked_Encode.
  assert (Hreg : ∀ subject, registered_text (codec_registered now c subject)) by (intros; apply codec_registered_text; [done|lia..]).
  assert (Hpol : ∀ subject, (now' < NewNumericDate (now + cd_maxAge c))%Z → accepts (codec_policy now' c) (codec_registered now c subject))
    by (intros; apply codec_accepts; [done|lia]).
  split; [by apply NewNumericDate_range|]. split; [|split; [|split; [|split]]].
  - intros Hlt. rewrite (law_session Hlaws); [done|apply Hreg|apply Ha|apply Ha|by apply Hpol].
  - intros Hle. pose proof (law_expired Hlaws (codec_policy now' c) (codec_New now c a) (cd_secret c) (Hreg _) Hle) as H.
    by destruct (Parse_session _ _ _).
  - intros Hlt. set (ct := mkCodec _ _ _ age).
    destruct (law_tracked Hlaws (codec_policy now' ct) (mkTrackedClaims (codec_registered now ct (tr_Index v)) v true) (cd_secret ct))
      as (cl' & -> & Hsub & Hm & Hid & Huri); [apply codec_registered_text; [done|cbn; lia..]|apply codec_accepts; [done|cbn in *; lia]|].
    cbn in *. rewrite Hm. cbn. by rewrite Hsub, Hid, Huri.
  - destruct (Parse_session _ _ _) as [cl|] eqn:E; [|done]. apply (law_session_marker Hlaws) in E. cbn. by rewrite E.
  - destruct (Parse_tracked _ _ _) as [cl|] eqn:E; [|done]. apply (law_tracked_marker Hlaws) in E. cbn. by rewrite E.
Qed.

(** ** Concrete library values for the witnesses *)

(** Metadata is "entity|certificate", the certificate base64 of "expires at 90 s". *)
Definition demo_entity : EntityDescriptor :=
  mkEntity "https://saml" [mkIDPSSO [mkKeyDescriptor "signing" ["OTA="]] ["https://saml/sso"]].
Definition demo_metadata : @SAMLMetadata demo_crypto :=
  @Build_SAMLMetadata demo_crypto (λ n _ _, if n =? 0 then Err (ENew "timeout") else Ok (200%Z, Ok "md"))
    (λ _, Ok demo_entity) (λ cert, if bool_decide (cert = "90") then (90 * second)%Z else 0%Z).
#[local] Existing Instances demo_crypto demo_x509 demo_neturl demo_floats demo_jwtlib demo_env demo_metadata.

Definition demo_saml_source : SAMLSource :=
  mkSAMLSource "saml" false "https://saml" [] "https://saml/m" hour "https://p" "sp" "/saml/acs" "saml_session" "K"
    (12 * hour) "" "" "".
(** A registry past its first fetch, the one that fails. *)
Definition demo_saml_registry : SAMLRegistry := mkSAMLRegistry None "" None 0 0 None (ENew "") 0 1 false.

Lemma Provider_spec_witness :
  is_ok (Provider_ 0 demo_saml_source demo_saml_registry).1 = true ∧
  Provider_ (20 * second) demo_saml_source (Provider_ 0 demo_saml_source demo_saml_registry).2 =
    Provider_ 0 demo_saml_source demo_saml_registry ∧
  is_ok (Provider_ 0 demo_saml_source NewSAMLRegistry).1 = false.
Proof.
  split; [vm_compute; reflexivity|]. split; [|vm_compute; reflexivity].
  destruct (Provider_spec 0 demo_saml_source demo_saml_registry (Provider_ 0 demo_saml_source demo_saml_registry).1
    (Provider_ 0 demo_saml_source demo_saml_registry).2) as (_ & _ & H).
  - vm_compute. discriminate.
  - intros p Hp. discriminate Hp.
  - apply surjective_pairing.
  - destruct (H (20 * second)%Z demo_saml_source eq_refl) as (_ & H2 & _). rewrite H2.
    + symmetry. apply surjective_pairing.
    + vm_compute. discriminate.
    + vm_compute. reflexivity.
Defined.

Lemma samlRefresh_spec_witness :
  samlRefreshAt 0 hour (idpSigningCertExpiryAt demo_entity 0) = (90 * second)%Z ∧
  (0 + Z.min hour minute ≤ samlRefreshAt 0 hour (idpSigningCertExpiryAt demo_entity 0) ≤ 0 + hour)%Z.
Proof.
  split; [vm_compute; reflexivity|].
  apply (samlRefresh_spec demo_entity 0 hour). vm_compute. discriminate.
Defined.

(** A cookie is the secret and the claims it was signed over, as the [bits] of
    their code. *)
Abbreviation reg_tuple := (list string * string * string * Z * Z * Z)%type.
Definition reg_out (r : RegisteredClaims) : reg_tuple :=
  (rc_Audience r, rc_Issuer r, rc_Subject r, rc_IssuedAt r, rc_NotBefore r, rc_ExpiresAt r).
Definition reg_in (t : reg_tuple) : RegisteredClaims :=
  let '(a, b, c, d, e, f) := t in mkRegistered a b c d e f.
Abbreviation payload := ((reg_tuple * gmap string (list string) * bool) + (reg_tuple * string * string * bool))%type.
Definition hs_sign (secret : string) (p : payload) : string := bits (encode (secret, p)).
Definition hs_read (raw : string) : option (string * payload) := decode (unbits raw).
Lemma hs_read_sign secret p : hs_read (hs_sign secret p) = Some (secret, p).
Proof. unfold hs_read, hs_sign. by rewrite unbits_bits, decode_encode. Qed.

Definition hs_accepts (pol : hs_policy) (secret secret' : string) (r : RegisteredClaims) : bool :=
  (secret =? secret') && (hp_alg pol =? samlSessionAlg) && (hp_issuer pol =? rc_Issuer r) &&
  bool_decide (hp_audience pol ∈ rc_Audience r) &&
  (rc_NotBefore r <=? hp_now pol)%Z && (hp_now pol <? rc_ExpiresAt r)%Z.
Definition demo_hs : HS256 := {|
  SignedString_session cl s := hs_sign s (inl (reg_out (sc_Registered cl), sc_Attributes cl, sc_SAMLSession cl));
  SignedString_tracked cl s := hs_sign s (inr (reg_out (tc_Registered cl), tr_SAMLRequestID (tc_Request cl),
                                                tr_URI (tc_Request cl), tc_SAMLAuthnRequest cl));
  Parse_session pol s raw := match hs_read raw with
    | Some (s', inl (r, at_, m)) => if hs_accepts pol s s' (reg_in r) then Ok (mkSessionClaims (reg_in r) at_ m) else Err (ENew "invalid")
    | Some (s', inr (r, _, _, _)) => if hs_accepts pol s s' (reg_in r) then Ok (mkSessionClaims (reg_in r) ∅ false) else Err (ENew "invalid")
    | None => Err (ENew "malformed")
    end;
  Parse_tracked pol s raw := match hs_read raw with
    | Some (s', inr (r, id, uri, m)) =>
        if hs_accepts pol s s' (reg_in r)
        then Ok (mkTrackedClaims (let r := reg_in r in mkRegistered (rc_Audience r) (rc_Issuer r) (to_valid (rc_Subject r))
                                    (rc_IssuedAt r) (rc_NotBefore r) (rc_ExpiresAt r))
                   (mkTracked "" (to_valid id) (to_valid uri)) m)
        else Err (ENew "invalid")
    | Some (s', inl (r, _, _)) =>
        if hs_accepts pol s s' (reg_in r) then Ok (mkTrackedClaims (reg_in r) (mkTracked "" "" "") false) else Err (ENew "invalid")
    | None => Err (ENew "malformed")
    end |}.
Lemma hs_accepts_ok pol s r : accepts pol r → hs_accepts pol s s (reg_in (reg_out r)) = true.
Proof.
  intros (H1 & H2 & _ & H3 & H4). destruct r. cbn in *. unfold hs_accepts. cbn.
  rewrite H1, H2, !bool_decide_true by done. cbn. lia.
Qed.
Lemma demo_hs_laws : @hs_laws demo_hs.
Proof.
  constructor; cbn [Parse_session Parse_tracked SignedString_session SignedString_tracked demo_hs].
  - intros pol [r at_ m] s _ _ _ H. rewrite hs_read_sign, hs_accepts_ok by done. by destruct r.
  - intros pol [r [i id uri] m] s _ H. rewrite hs_read_sign, hs_accepts_ok by done. eexists. split; [reflexivity|]. by destruct r.
  - intros pol [r at_ m] s _ Hle. rewrite hs_read_sign. destruct r. cbn in *. unfold hs_accepts. cbn [reg_in rc_NotBefore rc_ExpiresAt].
    rewrite (proj2 (Z.ltb_ge (hp_now pol) _)) by done. by rewrite andb_false_r.
  - intros pol cl s cl'. rewrite hs_read_sign. destruct (hs_accepts _ _ _ _); [|done]. by intros [= <-].
  - intros pol cl s cl'. rewrite hs_read_sign. destruct (hs_accepts _ _ _ _); [|done]. by intros [= <-].
Qed.

Definition demo_assertion : Assertion :=
  mkAssertion (Some "alice") [[("mail", "urn:oid:1", ["a@x"; "b@x"]); ("", "role", ["dev"])]] ["idx"] None.
Definition demo_codec : samlCodec := mkCodec "0123456789abcdef0123456789abcdef" "sp" "sp" hour.
(** Made half a second into a second, a session of an hour lasts half a second less. *)
Lemma saml_cookies_spec_witness :
  session_attributes demo_assertion !! "mail" = Some ["a@x"; "b@x"] ∧
  let session := session_Encode (HS := demo_hs) demo_codec (codec_New (second / 2) demo_codec demo_assertion) in
  session_Decode (HS := demo_hs) second demo_codec session = Ok (codec_New (second / 2) demo_codec demo_assertion) ∧
  is_ok (session_Decode (HS := demo_hs) hour demo_codec session) = false.
Proof.
  split; [vm_compute; reflexivity|]. cbn zeta.
  assert (Hc : valid_utf8 (cd_audience demo_codec) ∧ valid_utf8 (cd_issuer demo_codec)) by (vm_compute; split; reflexivity).
  assert (Hne : cd_audience demo_codec ≠ "") by (vm_compute; discriminate).
  assert (Ha : valid_utf8 (default "" (as_NameID demo_assertion)) ∧ attributes_text (session_attributes demo_assertion))
    by (apply (bool_decide_unpack _); vm_compute; exact I).
  assert (Hage : (0 ≤ cd_maxAge demo_codec ∧ 0 ≤ minute)%Z) by (vm_compute; split; discriminate).
  assert (Hr : (second / 2 + cd_maxAge demo_codec < date_limit ∧ second / 2 + minute < date_limit)%Z) by (vm_compute; split; reflexivity).
  split.
  - destruct (saml_cookies_spec (HS := demo_hs) demo_codec minute (second / 2) second demo_assertion (mkTracked "i" "id" "/")
      demo_hs_laws Hc Hne Ha Hage ltac:(vm_compute; split; discriminate) Hr) as (_ & H & _). apply H. vm_compute. reflexivity.
  - destruct (saml_cookies_spec (HS := demo_hs) demo_codec minute (second / 2) hour demo_assertion (mkTracked "i" "id" "/")
      demo_hs_laws Hc Hne Ha Hage ltac:(vm_compute; split; discriminate) Hr) as (_ & _ & H & _). apply H. vm_compute. discriminate.
Defined.
