(* ===== verification/OAuthServer.v ===== *)
(** The OAuth authorization server ([internal/oauth]): sealed values ([seal.go]),
    identities ([identity.go]), the stateless storage behind the provider library
    ([storage.go], [types.go]), client registration ([register.go]) and the
    server and its registry ([server.go], [keys.go]).

    The library (zitadel/oidc) drives [storage] and is the class [OP]; AES-GCM is
    [AEAD], the JSON forms of what is sealed [OAuthJSON].  The server keeps no
    table: login requests, codes, refresh tokens and client IDs are sealed values
    handed to clients, and every lookup opens one; the section [flow] is the
    transition system of what has been sealed.  Nonces are arguments, instants are
    nanoseconds, and [unix] is a time's Unix second. Log output is not
    represented. *)
From S2P Require Import Prelude GoStrings ConfigTypes GoURL GoHTTP Acl ConfigAuth ConfigMain Credentials Session Login.

(** [time.Unix] seconds of an instant, and back. *)
Definition unix (t : Z) : Z := (t / second)%Z.
Definition of_unix (s : Z) : Z := (s * second)%Z.

(** * seal.go *)

Definition kindPending := "pending".
Definition kindDone := "done".
Definition kindRefresh := "refresh".
Definition kindClient := "client".
Definition errBadToken := ENew "invalid token".
Definition nonceSize : nat := 12.

(** [gcm_seal key nonce plain ad] and its inverse. *)
Class AEAD : Type := {
  gcm_seal : string → string → string → string → string;
  gcm_open : string → string → string → string → option string
}.

Section seal.
Context {G : AEAD}.

(** The keys of the AEADs, the sealing one first. *)
Abbreviation sealer := (list string).

Definition aes_key_len (k : string) : bool :=
  let n := String.length k in (n =? 16)%nat || (n =? 24)%nat || (n =? 32)%nat.
Definition newSealer (keys : list string) : result sealer :=
  fail_if keys =? [] with Errorf "no sealing keys" in
  check* check_all (λ _ k, fail_if negb (aes_key_len k) with Errorf "sealing key %d: %w" in Ok tt) 0 keys in
  Ok keys.

Definition seal (s : sealer) (nonce : result string) (kind plain : string) : result string :=
  let* nonce := nonce in
  match s with
  | [] => Err (ENew "index out of range")
  | k :: _ => Ok (b64url_encode (nonce +:+ gcm_seal k nonce plain kind))
  end.

Fixpoint open_raw (s : sealer) (kind raw : string) : option string :=
  match s with
  | [] => None
  | k :: s =>
      if String.length raw <? nonceSize then open_raw s kind raw
      else match gcm_open k (s_take nonceSize raw) (s_drop nonceSize raw) kind with
           | Some plain => Some plain
           | None => open_raw s kind raw
           end
  end.
Definition open {A} (unjson : string → option A) (s : sealer) (kind token : string) : result A :=
  match b64url_decode token with
  | None => Err errBadToken
  | Some raw =>
      match open_raw s kind raw with
      | None => Err errBadToken
      | Some plain => match unjson plain with Some v => Ok v | None => Err errBadToken end
      end
  end.
End seal.
Abbreviation sealer := (list string).

(** * types.go *)

Definition pendingTTL : Z := 10 * minute.

Record reqData := mkReqData {
  rd_ClientID : string; rd_RedirectURI : string; rd_State : string; rd_Nonce : string;
  rd_Scopes : list string; rd_Challenge : string; rd_Method : string;
  rd_Sub : string; rd_Email : string; rd_Groups : list string; rd_Mode : string; rd_AuthTime : Z;
  rd_Exp : Z
}.
Record refreshData := mkRefreshData {
  rf_Sub : string; rf_Email : string; rf_Groups : list string; rf_Mode : string;
  rf_ClientID : string; rf_Scopes : list string; rf_AuthTime : Z; rf_Exp : Z
}.
Record clientData := mkClientData { cld_URIs : list string }.
Record authReq := mkAuthReq { ar_d : reqData; ar_id : string; ar_done : bool; ar_audience : string }.
Record refreshReq := mkRefreshReq { rr_d : refreshData; rr_audience : string }.
Record registrationRequest := mkRegistration {
  rq_RedirectURIs : list string; rq_ClientName : string; rq_TokenEndpointAuthMethod : string;
  rq_GrantTypes : list string; rq_ResponseTypes : list string
}.
Class OAuthJSON : Type := {
  json_req : reqData → string;          unjson_req : string → option reqData;
  json_refresh : refreshData → string;  unjson_refresh : string → option refreshData;
  json_client : clientData → string;    unjson_client : string → option clientData;
  unjson_registration : string → option registrationRequest;
  json_registered : string → Z → string → list string → string;
  json_error : string → string → string
}.

(** The authorization request as the library parsed it. *)
Record AuthRequest := mkAuthRequest {
  aq_ClientID : string; aq_RedirectURI : string; aq_State : string; aq_Nonce : string;
  aq_Scopes : list string; aq_CodeChallenge : string; aq_CodeChallengeMethod : string
}.
Definition CodeChallengeMethodS256 := "S256".

Section client.
Context {N : NetURL}.

Record client := mkClient { cl_cfg : OAuthClient; cl_issuer : string }.

Definition registered_matches (got : URL) (raw reg : string) : bool :=
  (reg =? raw) ||
  match url_Parse reg with
  | Err _ => false
  | Ok want =>
      (u_Scheme want =? "http") && IsLoopbackHost (Hostname want) &&
      (u_Scheme got =? u_Scheme want) && (Hostname got =? Hostname want) &&
      (u_Path got =? u_Path want) && (u_RawQuery got =? u_RawQuery want)
  end.
Definition allowsRedirect (c : client) (raw : string) : bool :=
  match url_Parse raw with
  | Err _ => false
  | Ok got =>
      if (u_Fragment got !=? "") || (u_User got !=? None) then false
      else existsb (registered_matches got raw) (oc_RedirectURIs (cl_cfg c))
  end.
Definition LoginURL (c : client) (id : string) : string := cl_issuer c +:+ "/login?id=" +:+ QueryEscape id.
End client.

(** * identity.go *)

Section identity.
Context {F : Floats}.

Record Identity := mkIdentity { id_Mode : string; id_Username : string; id_Claims : gmap string any }.

Definition is_string (v : any) : option string := match v with AString s => Some s | _ => None end.
Definition firstString (v : any) : string :=
  match v with
  | AString s => s
  | AStrs (s :: _) => s
  | AList l => default "" (head (omap is_string l))
  | _ => ""
  end.
Definition add_group (out : list string) (s : string) : list string :=
  let s := TrimSpace s in if s =? "" then out else out ++ [s].
Definition stringList (v : any) : list string :=
  match v with
  | AString s => add_group [] s
  | AStrs l => foldl add_group [] l
  | AList l => foldl (λ out e, match is_string e with Some s => add_group out s | None => out end) [] l
  | _ => []
  end.
Definition extract (id : Identity) (names : TokenClaims) : result (string * string * list string) :=
  let claim n := default ANil (id_Claims id !! n) in
  let sub := if id_Username id !=? "" then id_Username id else firstString (claim (tc_Subject names)) in
  fail_if sub =? "" with ErrorfA "login has no %q claim to use as the subject" [tc_Subject names] in
  Ok (sub, firstString (claim (tc_Email names)), stringList (claim (tc_Groups names))).
End identity.

(** * keys.go *)

Section keys.
Context {C : Crypto}.

Record keyManager := mkKeyManager { km_active : ParsedSigningKey; km_public : list ParsedSigningKey }.
Definition newKeyManager (parsed : list ParsedSigningKey) : result keyManager :=
  match parsed with
  | [] => Err (Errorf "no signing keys")
  | k :: _ => Ok (mkKeyManager k parsed)
  end.
(** The key of [byKID]: the last configured one of that name. *)
Definition km_keyfunc (m : keyManager) (kid : string) : result ECPrivateKey :=
  match find (λ k, pk_KID k =? kid) (rev (km_public m)) with
  | Some k => Ok (pk_Key k)
  | None => Err (ErrorfA "unknown signing key %q" [kid])
  end.
End keys.

(** * The provider library *)

(** The fields of the library's discovery document that the server sees to. *)
Record DiscoveryConfiguration := mkDiscovery {
  dc_Issuer : string; dc_AuthorizationEndpoint : string; dc_TokenEndpoint : string; dc_JwksURI : string;
  dc_RegistrationEndpoint : string;
  dc_IntrospectionEndpoint : string; dc_UserinfoEndpoint : string; dc_RevocationEndpoint : string;
  dc_EndSessionEndpoint : string; dc_DeviceAuthorizationEndpoint : string; dc_CheckSessionIframe : string;
  dc_RevocationAuth : list string * list string; dc_IntrospectionAuth : list string * list string;  (* methods, algorithms *)
  dc_UserinfoSigningAlgs : list string; dc_RequestObjectSigningAlgs : list string;
  dc_ScopesSupported : list string; dc_GrantTypesSupported : list string; dc_ResponseTypesSupported : list string;
  dc_ResponseModesSupported : list string; dc_TokenAuth : list string * list string; dc_CodeChallengeMethods : list string
}.
(** The protected resource's metadata (RFC 9728). *)
Record ResourceMetadata := mkResource {
  rm_resource : string; rm_authorization_servers : list string; rm_bearer_methods_supported : list string;
  rm_scopes_supported : list string
}.
(** What the library serves on its own routes, its own discovery document, its
    encryption of codes, and the JSON of the two documents. *)
Class OP `{Crypto} : Type := {
  op_ServeHTTP : string → Response → Request → Response;          (* by the issuer's path *)
  NewProvider : string → list string → result string;             (* issuer to authorization endpoint *)
  code_Encrypt : string → string → string;
  code_Decrypt : string → string → option string;
  CreateDiscoveryConfig : string → list string → DiscoveryConfiguration;   (* issuer, supported scopes *)
  json_discovery : DiscoveryConfiguration → result string;
  json_metadata : ResourceMetadata → result string;
  hmac_sha256 : string → string → string
}.

(** * storage.go *)

Definition errNotFound := ENew "not found".
Definition errExpired := ENew "expired".
Definition errDisabled := ENew "oauth server is not enabled".
Definition ErrInvalidRefreshToken := ENew "invalid_refresh_token".
Definition ErrInvalidRequestRedirectURI := ENew "invalid_request: the requested redirect_uri is not registered for this client".
Definition ErrInvalidRequest := ENew "invalid_request: PKCE is required".

Section storage.
Context {C : Crypto} {R : Regexp} {N : NetURL} {U : Unicode} {F : Floats} {G : AEAD} {JS : OAuthJSON} {Op : OP}.

Record storage := mkStorage {
  sg_sealer : sealer; sg_crypto : string; sg_keys : keyManager;
  sg_clients : gmap string client; sg_issuer : string
}.
(** [live]: the current configuration, [None] when there is none yet. *)
Definition settings (live : option Config) : result (OAuthServerConfig * TokenConfig) :=
  match live with
  | Some cfg =>
      match i_OAuthServer (c_Inbound cfg), ob_Token (c_Outbound cfg) with
      | Some o, Some t => if OAuthEnabled cfg then Ok (o, t) else Err errDisabled
      | _, _ => Err errDisabled
      end
  | None => Err errDisabled
  end.
Definition storage_denied (live : option Config) (sub : string) : bool :=
  match settings live with
  | Err _ => true
  | Ok (srv, _) => Denylist_Contains (o_Denylist srv) sub
  end.

Definition lookupClient (live : option Config) (s : storage) (id : string) : option client :=
  match sg_clients s !! id with
  | Some c => Some c
  | None =>
      match settings live with
      | Err _ => None
      | Ok (srv, _) =>
          if negb (dr_Enabled (o_DynamicRegistration srv)) then None
          else
            match open unjson_client (sg_sealer s) kindClient id with
            | Err _ => None
            | Ok d =>
                match List.filter (AllowsDynamicRedirect (o_DynamicRegistration srv)) (cld_URIs d) with
                | [] => None
                | allowed => Some (mkClient (mkOAuthClient id allowed) (sg_issuer s))
                end
            end
      end
  end.

Definition CreateAuthRequest (now : Z) (nonce : result string) (live : option Config) (s : storage)
    (r : AuthRequest) : result authReq :=
  let* st := settings live in
  let '(_, tok) := st in
  fail_if negb (match lookupClient live s (aq_ClientID r) with
                | Some c => allowsRedirect c (aq_RedirectURI r)
                | None => false
                end) with ErrInvalidRequestRedirectURI in
  fail_if (aq_CodeChallenge r =? "") || (aq_CodeChallengeMethod r !=? CodeChallengeMethodS256)
    with ErrInvalidRequest in
  let d := mkReqData (aq_ClientID r) (aq_RedirectURI r) (aq_State r) (aq_Nonce r) (aq_Scopes r)
             (aq_CodeChallenge r) (aq_CodeChallengeMethod r) "" "" [] "" 0 (unix (now + pendingTTL)) in
  let* id := seal (sg_sealer s) nonce kindPending (json_req d) in
  Ok (mkAuthReq d id false (t_Audience tok)).

Definition AuthRequestByID (now : Z) (live : option Config) (s : storage) (id : string) : result authReq :=
  let* st := settings live in
  let '(_, tok) := st in
  let* x := match open unjson_req (sg_sealer s) kindDone id with
            | Ok d => Ok (d, true)
            | Err _ => match open unjson_req (sg_sealer s) kindPending id with
                       | Ok d => Ok (d, false)
                       | Err _ => Err errNotFound
                       end
            end in
  let '(d, done) := x in
  fail_if (rd_Exp d <? unix now)%Z with errExpired in
  Ok (mkAuthReq d id done (t_Audience tok)).

Definition AuthRequestByCode (now : Z) (live : option Config) (s : storage) (code : string) : result authReq :=
  match code_Decrypt (sg_crypto s) code with
  | None => Err errNotFound
  | Some id =>
      let* req := AuthRequestByID now live s id in
      fail_if negb (ar_done req) with errNotFound in
      fail_if storage_denied live (rd_Sub (ar_d req)) with errNotFound in
      Ok req
  end.

(** A token request: a finished login, or a refresh token. *)
Inductive TokenRequest := TR_auth (r : authReq) | TR_refresh (r : refreshReq).

Definition CreateAccessToken (now : Z) (live : option Config) (tokenID : string) : result (string * Z) :=
  let* st := settings live in
  let '(_, tok) := st in
  Ok (tokenID, (now + t_AccessTokenTTL tok)%Z).
(** The sealed content of the refresh token a request is given. *)
Definition refresh_content (srv : OAuthServerConfig) (req : TokenRequest) : refreshData :=
  match req with
  | TR_auth r =>
      let d := ar_d r in
      mkRefreshData (rd_Sub d) (rd_Email d) (rd_Groups d) (rd_Mode d) (rd_ClientID d) (rd_Scopes d) (rd_AuthTime d)
        (unix (of_unix (rd_AuthTime d) + o_RefreshAbsoluteLifetime srv))
  | TR_refresh r => rr_d r
  end.
Definition CreateAccessAndRefreshTokens (now : Z) (nonce : result string) (live : option Config) (s : storage)
    (tokenID : string) (req : TokenRequest) : result (string * string * Z) :=
  let* st := settings live in
  let '(srv, tok) := st in
  let* refresh := seal (sg_sealer s) nonce kindRefresh (json_refresh (refresh_content srv req)) in
  Ok (tokenID, refresh, (now + t_AccessTokenTTL tok)%Z).

Definition TokenRequestByRefreshToken (now : Z) (live : option Config) (s : storage) (token : string) : result refreshReq :=
  let* st := settings live in
  let '(_, tok) := st in
  match open unjson_refresh (sg_sealer s) kindRefresh token with
  | Err _ => Err ErrInvalidRefreshToken
  | Ok d =>
      fail_if (rf_Exp d <? unix now)%Z || storage_denied live (rf_Sub d) with ErrInvalidRefreshToken in
      Ok (mkRefreshReq d (t_Audience tok))
  end.

(** The claims added to an access token. *)
Definition GetPrivateClaimsFromRequest (req : TokenRequest) : gmap string any :=
  let '(email, groups) := match req with
                          | TR_auth r => (rd_Email (ar_d r), rd_Groups (ar_d r))
                          | TR_refresh r => (rf_Email (rr_d r), rf_Groups (rr_d r))
                          end in
  let claims : gmap string any := if email !=? "" then {["email" := AString email]} else ∅ in
  <["groups" := AStrs groups]> claims.

(** * server.go *)

Record server := mkServer {
  sv_storage : storage; sv_callbackURL : string; sv_metadata : string; sv_discovery : string;
  sv_wellKnown : list (string * string); sv_fingerprint : string
}.
Record ORegistry := mkORegistry {
  og_seen : option nat; og_live : option Config; og_srv : option server
}.
Definition NewORegistry : ORegistry := mkORegistry None None None.

(** What [fingerprint] writes to its hash, part by part. *)
Definition fingerprint_parts (srv : OAuthServerConfig) (tok : TokenConfig) : list string :=
  [o_SPBaseURL srv; o_MCPURL srv; t_Audience tok] ++
  flat_map (λ k, ["sig"; sk_KID k; sk_PrivateKey k]) (t_SigningKeys tok) ++
  flat_map (λ k, ["seal"; k]) (o_SealingKeys srv) ++
  flat_map (λ c, "client" :: oc_ID c :: oc_RedirectURIs c) (o_Clients srv) ++
  ["register"; if dr_Enabled (o_DynamicRegistration srv) then "true" else "false"].
Definition write_part (p : string) : string := Itoa (Z.of_nat (String.length p)) +:+ ":" +:+ p +:+ "|".
Context {D : Sha256}.
Definition oauth_fingerprint (srv : OAuthServerConfig) (tok : TokenConfig) : string :=
  sha256_hex (concat_string (write_part <$> fingerprint_parts srv tok)).

Definition wellKnownPaths (mcpURL metadata discovery : string) : list (string * string) :=
  [("/.well-known/oauth-protected-resource", metadata);
   ("/.well-known/oauth-authorization-server" +:+ OAuthPathPrefix, discovery);
   ("/.well-known/openid-configuration" +:+ OAuthPathPrefix, discovery)] ++
  match url_Parse mcpURL with
  | Ok u => if (u_Path u !=? "") && (u_Path u !=? "/")
            then [("/.well-known/oauth-protected-resource" +:+ u_Path u, metadata)] else []
  | Err _ => []
  end.
Definition wellKnown (s : server) (path : string) : option string :=
  snd <$> find (λ x, x.1 =? path) (sv_wellKnown s).

Definition supportedScopes : list string := ["openid"; "profile"; "email"; "offline_access"; "groups"].

(** The library's document, cut down to what this server does. *)
Definition discovery_config (issuer : string) (registration : bool) : DiscoveryConfiguration :=
  let d := CreateDiscoveryConfig issuer supportedScopes in
  mkDiscovery (dc_Issuer d) (dc_AuthorizationEndpoint d) (dc_TokenEndpoint d) (dc_JwksURI d)
    (if registration then issuer +:+ "/register" else dc_RegistrationEndpoint d)
    "" "" "" "" "" "" ([], []) ([], []) [] [] (dc_ScopesSupported d)
    ["authorization_code"; "refresh_token"] ["code"] ["query"] (["none"], []) (dc_CodeChallengeMethods d).
Definition discoveryDocument (issuer : string) (registration : bool) : result string :=
  json_discovery (discovery_config issuer registration).
Definition resource_metadata (mcpURL issuer : string) : ResourceMetadata :=
  mkResource mcpURL [issuer] ["header"] supportedScopes.

Definition build (srv : OAuthServerConfig) (tok : TokenConfig) (fp : string) : result server :=
  let* keys := newKeyManager (t_keys tok) in
  let* sl := newSealer (o_sealing srv) in
  let cryptoKey := hmac_sha256 (default "" (head (o_sealing srv))) "tap-oauth authorization code" in
  let issuer := Issuer srv in
  let clients := foldl (λ m c, <[oc_ID c := mkClient c issuer]> m) ∅ (o_Clients srv) in
  let st := mkStorage sl cryptoKey keys clients issuer in
  let* authz := rwrap "build provider: %w" [] (NewProvider issuer supportedScopes) in
  let* discovery := discoveryDocument issuer (dr_Enabled (o_DynamicRegistration srv)) in
  let* metadata := json_metadata (resource_metadata (o_MCPURL srv) issuer) in
  Ok (mkServer st (authz +:+ "/callback") metadata discovery (wellKnownPaths (o_MCPURL srv) metadata discovery) fp).

Definition OAuth_Reconcile (ptr : nat) (cfg : Config) (r : ORegistry) : ORegistry :=
  if og_seen r =? Some ptr then r
  else
    match settings (Some cfg) with
    | Err _ => mkORegistry (Some ptr) (Some cfg) None
    | Ok (srv, tok) =>
        let fp := oauth_fingerprint srv tok in
        let same := match og_srv r with Some cur => sv_fingerprint cur =? fp | None => false end in
        if same then mkORegistry (Some ptr) (Some cfg) (og_srv r)
        else mkORegistry (Some ptr) (Some cfg)
               (match build srv tok fp with Ok s => Some s | Err _ => None end)
    end.

Definition Enabled_ (r : ORegistry) : bool := bool_decide (is_Some (og_srv r)).
Definition OAuth_Keyfunc (r : ORegistry) (kid : string) : result ECPrivateKey :=
  match og_srv r with
  | None => Err errDisabled
  | Some s => km_keyfunc (sg_keys (sv_storage s)) kid
  end.
Definition Denied (r : ORegistry) (sub : string) : bool := storage_denied (og_live r) sub.
Definition Serves (r : ORegistry) (path : string) : bool :=
  match og_srv r with
  | None => false
  | Some s => bool_decide (is_Some (wellKnown s path)) || underOAuthPrefix path
  end.
End storage.

(** * Serving (server.go, register.go) *)

(** [strings.ToValidUTF8(s, "")] and [truncate]. *)
Definition ToValidUTF8 (s : string) : string :=
  concat_string (snd <$> List.filter (λ x : Z * string, negb ((x.1 =? RuneError) && (String.length x.2 =? 1)%nat)) (runes s)).
Definition truncate (s : string) (n : nat) : string :=
  if String.length s <=? n then s else ToValidUTF8 (s_take n s).

Definition maxRegistrationBody : nat := 16384.
Definition maxClientNameLen : nat := 100.
Definition maxRedirectURILen : nat := 512.
Definition maxRegisteredURIs : nat := 10.

Definition http_NotFound (w : Response) : Response := http_Error "404 page not found" 404 w.

Definition serveDoc (w : Response) (req : Request) (doc : string) : Response :=
  let w := w_Set "Access-Control-Allow-Origin" "*" w in
  if r_Method req =? "OPTIONS" then
    let w := w_Set "Access-Control-Allow-Methods" "GET, HEAD, OPTIONS" w in
    let h := Header_Get (r_Header req) "Access-Control-Request-Headers" in
    let w := if h !=? "" then w_Set "Access-Control-Allow-Headers" h w else w in
    WriteHeader 204 (w_Set "Access-Control-Max-Age" "3600" w)
  else if (r_Method req =? "GET") || (r_Method req =? "HEAD") then
    let w := w_Set "Cache-Control" "public, max-age=300" (w_Set "Content-Type" "application/json" w) in
    if r_Method req =? "GET" then Write doc w else w
  else http_Error "method not allowed" 405 (w_Set "Allow" "GET, HEAD, OPTIONS" w).

Definition writeJSON (status : Z) (body : string) (w : Response) : Response :=
  Write body (WriteHeader status (w_Set "Cache-Control" "no-store" (w_Set "Content-Type" "application/json" w))).

Section serve.
Context {C : Crypto} {R : Regexp} {N : NetURL} {U : Unicode} {F : Floats} {G : AEAD} {JS : OAuthJSON} {Op : OP}.

(** What a registration request is refused for: the error code and text. *)
Definition registration_check (dr : DynamicRegistration) (rq : registrationRequest) : option (string * string) :=
  if (length (rq_RedirectURIs rq) =? 0)%nat || (maxRegisteredURIs <? length (rq_RedirectURIs rq)) then
    Some ("invalid_redirect_uri", "redirect_uris must list between 1 and 10 URIs")
  else if existsb (λ u, (maxRedirectURILen <? String.length u) || negb (AllowsDynamicRedirect dr u)) (rq_RedirectURIs rq) then
    Some ("invalid_redirect_uri", "redirect URI not allowed: it must be an http loopback URI or one the server permits")
  else if (rq_TokenEndpointAuthMethod rq !=? "") && (rq_TokenEndpointAuthMethod rq !=? "none") then
    Some ("invalid_client_metadata", "token_endpoint_auth_method must be none: only public clients with PKCE are supported")
  else if existsb (λ g, (g !=? "authorization_code") && (g !=? "refresh_token")) (rq_GrantTypes rq) then
    Some ("invalid_client_metadata", "grant_types may only be authorization_code and refresh_token")
  else if (0 <? length (rq_GrantTypes rq)) && negb (contains (rq_GrantTypes rq) "authorization_code") then
    Some ("invalid_client_metadata", "grant_types must include authorization_code")
  else if existsb (λ t, t !=? "code") (rq_ResponseTypes rq) then
    Some ("invalid_client_metadata", "response_types may only be code")
  else if (0 <? length (rq_ResponseTypes rq)) && negb (contains (rq_ResponseTypes rq) "code") then
    Some ("invalid_client_metadata", "response_types must include code")
  else None.

Definition serveRegister (now : Z) (nonce : result string) (w : Response) (req : Request)
    (r : ORegistry) (s : server) : Response :=
  match settings (og_live r) with
  | Err _ => http_NotFound w
  | Ok (srv, _) =>
      let dr := o_DynamicRegistration srv in
      if negb (dr_Enabled dr) then http_NotFound w
      else
        let w := w_Set "Access-Control-Allow-Origin" "*" w in
        if r_Method req =? "OPTIONS" then
          WriteHeader 204 (w_Set "Access-Control-Max-Age" "3600" (w_Set "Access-Control-Allow-Headers" "Content-Type"
            (w_Set "Access-Control-Allow-Methods" "POST, OPTIONS" w)))
        else if r_Method req !=? "POST" then http_Error "method not allowed" 405 (w_Set "Allow" "POST, OPTIONS" w)
        else
          let parsed := if maxRegistrationBody <? String.length (r_Body req) then None
                        else unjson_registration (r_Body req) in
          match parsed with
          | None => writeJSON 400 (json_error "invalid_client_metadata"
                      "the body must be a JSON object of client metadata, at most 16 KiB") w
          | Some rq =>
              match registration_check dr rq with
              | Some (code, msg) => writeJSON 400 (json_error code msg) w
              | None =>
                  let name := truncate (ToValidUTF8 (rq_ClientName rq)) maxClientNameLen in
                  match seal (sg_sealer (sv_storage s)) nonce kindClient (json_client (mkClientData (rq_RedirectURIs rq))) with
                  | Err _ => http_Error "internal error" 500 w
                  | Ok id => writeJSON 201 (json_registered id (unix now) name (rq_RedirectURIs rq)) w
                  end
              end
          end
  end.

Definition routes : list string := ["/authorize"; "/authorize/callback"; "/token"; "/jwks.json"].
Definition OAuth_ServeHTTP (now : Z) (nonce : result string) (w : Response) (req : Request) (r : ORegistry) : Response :=
  match og_srv r with
  | None => http_NotFound w
  | Some s =>
      match wellKnown s (r_Path req) with
      | Some doc => serveDoc w req doc
      | None =>
          let rel := TrimPrefix (r_Path req) OAuthPathPrefix in
          if rel =? "/protected-resource" then serveDoc w req (sv_metadata s)
          else if rel =? "/.well-known/openid-configuration" then serveDoc w req (sv_discovery s)
          else if rel =? "/register" then serveRegister now nonce w req r s
          else if contains routes rel then op_ServeHTTP rel w req
          else http_NotFound w
      end
  end.

(** [ServeLogin] up to the authentication: the pending request, or the answer
    given instead. *)
Definition ServeLogin_open (now : Z) (w : Response) (req : Request) (r : ORegistry)
  : Response * option (server * OAuthServerConfig * TokenConfig * reqData) :=
  match og_srv r, settings (og_live r) with
  | Some s, Ok (srv, tok) =>
      let w := w_Set "Referrer-Policy" "no-referrer" (w_Set "Cache-Control" "no-store" w) in
      if r_Method req !=? "GET" then
        (http_Error "method not allowed" 405 (w_Set "Allow" "GET" w), None)
      else
        match open unjson_req (sg_sealer (sv_storage s)) kindPending (Values_Get (URL_Query (r_URL req)) "id") with
        | Ok d =>
            if (rd_Exp d <? unix now)%Z
            then (http_Error "this login request is invalid or has expired; start again from your client" 400 w, None)
            else (w, Some (s, srv, tok, d))
        | Err _ => (http_Error "this login request is invalid or has expired; start again from your client" 400 w, None)
        end
  | _, _ => (http_NotFound w, None)
  end.
(** The finished login of an identity. *)
Definition done_data (now : Z) (srv : OAuthServerConfig) (d : reqData) (who : Identity)
    (sub email : string) (groups : list string) : reqData :=
  mkReqData (rd_ClientID d) (rd_RedirectURI d) (rd_State d) (rd_Nonce d) (rd_Scopes d) (rd_Challenge d) (rd_Method d)
    sub email groups (id_Mode who) (unix now) (unix (now + o_CodeTTL srv)).
(** What [ServeLogin] does with an authenticated identity. *)
Definition ServeLogin_done (now : Z) (nonce : result string) (w : Response) (req : Request) (r : ORegistry)
    (permit : string → string → list string → bool) (s : server) (srv : OAuthServerConfig) (tok : TokenConfig)
    (d : reqData) (who : Identity) : Response :=
  match extract who (t_Claims tok) with
  | Err _ => http_Error "forbidden" 403 w
  | Ok (sub, email, groups) =>
      if Denied r sub || negb (permit sub email groups) then
        http_Error "forbidden: this account may not use this service" 403 w
      else
        match seal (sg_sealer (sv_storage s)) nonce kindDone (json_req (done_data now srv d who sub email groups)) with
        | Err _ => http_Error "internal error" 500 w
        | Ok done => Redirect req (sv_callbackURL s +:+ "?id=" +:+ QueryEscape done) 302 w
        end
  end.
(** [authenticate] identifies the person, or answers the request itself. *)
Definition ServeLogin {St} (now : Z) (nonce : result string) (w : Response) (req : Request) (r : ORegistry)
    (authenticate : Response → Request → St → option Identity * Response * St)
    (permit : string → string → list string → bool) (st : St) : Response * St :=
  match ServeLogin_open now w req r with
  | (w, None) => (w, st)
  | (w, Some (s, srv, tok, d)) =>
      match authenticate w req st with
      | (None, w, st) => (w, st)
      | (Some who, w, st) => (ServeLogin_done now nonce w req r permit s srv tok d who, st)
      end
  end.
End serve.

(** * The flow *)

(** What the server has sealed and issued so far. *)
Record login_ := mkLogin_ {
  lo_Sub : string; lo_Email : string; lo_Groups : list string; lo_Mode : string;
  lo_ClientID : string; lo_RedirectURI : string; lo_Challenge : string; lo_at : Z
}.
Inductive sealed := SealedPending (d : reqData) | SealedDone (d : reqData) | SealedRefresh (d : refreshData).
(** An access token: whose, for which client, when, and whether by refreshing. *)
Record issued := mkIssued {
  is_Sub : string; is_Email : string; is_Groups : list string; is_Mode : string; is_ClientID : string;
  is_AuthTime : Z; is_at : Z; is_refreshed : bool
}.
Record world := mkWorld { wd_sealed : list sealed; wd_logins : list login_; wd_issued : list issued }.
Definition empty_world : world := mkWorld [] [] [].

Section flow.
Context {C : Crypto} {R : Regexp} {N : NetURL} {U : Unicode} {F : Floats} {G : AEAD} {JS : OAuthJSON} {Op : OP}.
(** The server's storage, and bounds on the configured lifetimes. *)
Variables (s : storage) (codeMax refreshMax : Z).

(** A presented token opens only as what the server sealed. *)
Definition unforged (wd : world) (tok : string) : Prop :=
  (∀ d, open unjson_req (sg_sealer s) kindPending tok = Ok d → SealedPending d ∈ wd_sealed wd) ∧
  (∀ d, open unjson_req (sg_sealer s) kindDone tok = Ok d → SealedDone d ∈ wd_sealed wd) ∧
  (∀ d, open unjson_refresh (sg_sealer s) kindRefresh tok = Ok d → SealedRefresh d ∈ wd_sealed wd).

Definition issue (req : TokenRequest) (now : Z) : issued :=
  match req with
  | TR_auth r => let d := ar_d r in
      mkIssued (rd_Sub d) (rd_Email d) (rd_Groups d) (rd_Mode d) (rd_ClientID d) (rd_AuthTime d) now false
  | TR_refresh r => let d := rr_d r in
      mkIssued (rf_Sub d) (rf_Email d) (rf_Groups d) (rf_Mode d) (rf_ClientID d) (rf_AuthTime d) now true
  end.
(** The library may narrow the scopes of a refresh. *)
Definition with_scopes (sc : list string) (r : refreshReq) : refreshReq :=
  let d := rr_d r in
  mkRefreshReq (mkRefreshData (rf_Sub d) (rf_Email d) (rf_Groups d) (rf_Mode d) (rf_ClientID d) sc (rf_AuthTime d) (rf_Exp d))
    (rr_audience r).

(** The configuration in force, its lifetimes within the bounds. *)
Definition in_force (live : option Config) (srv : OAuthServerConfig) (tok : TokenConfig) : Prop :=
  settings live = Ok (srv, tok) ∧ (0 ≤ o_CodeTTL srv ≤ codeMax)%Z ∧ (0 ≤ o_RefreshAbsoluteLifetime srv ≤ refreshMax)%Z.

Inductive flow_step : world → world → Prop :=
| O_request wd now nonce live aq r :
    CreateAuthRequest now nonce live s aq = Ok r →
    flow_step wd (mkWorld (SealedPending (ar_d r) :: wd_sealed wd) (wd_logins wd) (wd_issued wd))
| O_login wd now nonce reg sv w req permit srv tok d who sub email groups :
    og_srv reg = Some sv → sv_storage sv = s → in_force (og_live reg) srv tok → (0 ≤ now)%Z → w_status w = None →
    unforged wd (Values_Get (URL_Query (r_URL req)) "id") →
    (ServeLogin_open now w req reg).2 = Some (sv, srv, tok, d) →
    extract who (t_Claims tok) = Ok (sub, email, groups) →
    w_status (ServeLogin_done now nonce w req reg permit sv srv tok d who) = Some 302%Z →
    flow_step wd
      (mkWorld (SealedDone (done_data now srv d who sub email groups) :: wd_sealed wd)
         (mkLogin_ sub email groups (id_Mode who) (rd_ClientID d) (rd_RedirectURI d) (rd_Challenge d) now :: wd_logins wd)
         (wd_issued wd))
| O_code wd now nonce live srv tok code id r tokenID out :
    in_force live srv tok → code_Decrypt (sg_crypto s) code = Some id → unforged wd id →
    AuthRequestByCode now live s code = Ok r →
    CreateAccessAndRefreshTokens now nonce live s tokenID (TR_auth r) = Ok out →
    flow_step wd
      (mkWorld (SealedRefresh (refresh_content srv (TR_auth r)) :: wd_sealed wd) (wd_logins wd)
         (issue (TR_auth r) now :: wd_issued wd))
| O_refresh wd now nonce live srv tok token r sc tokenID out :
    in_force live srv tok → unforged wd token →
    TokenRequestByRefreshToken now live s token = Ok r →
    CreateAccessAndRefreshTokens now nonce live s tokenID (TR_refresh (with_scopes sc r)) = Ok out →
    flow_step wd
      (mkWorld (SealedRefresh (refresh_content srv (TR_refresh (with_scopes sc r))) :: wd_sealed wd) (wd_logins wd)
         (issue (TR_refresh (with_scopes sc r)) now :: wd_issued wd)).

Inductive flow_reachable : world → Prop :=
| OR_empty : flow_reachable empty_world
| OR_step wd wd' : flow_reachable wd → flow_step wd wd' → flow_reachable wd'.
End flow.

(** * Lemmas *)

(** AES-GCM as used: opening succeeds exactly on what sealing with the same key,
    nonce and additional data gives, and no ciphertext belongs to two keys, two
    plaintexts or two kinds of additional data. *)
Record ideal_gcm {G : AEAD} : Prop := {
  gcm_opens : ∀ k n c ad p, gcm_open k n c ad = Some p ↔ c = gcm_seal k n p ad;
  gcm_inj : ∀ n k p ad k' p' ad', gcm_seal k n p ad = gcm_seal k' n p' ad' → k = k' ∧ p = p' ∧ ad = ad'
}.

Section seal_lemmas.
Context {G : AEAD}.

Lemma open_raw_sealed (Hg : ideal_gcm) s k nonce kind kind' plain :
  String.length nonce = nonceSize →
  open_raw s kind' (nonce +:+ gcm_seal k nonce plain kind) =
    if bool_decide (kind = kind') && bool_decide (k ∈ s) then Some plain else None.
Proof.
  intros Hn. induction s as [|k' s IH]; cbn [open_raw].
  { by rewrite (bool_decide_false (k ∈ [])), andb_false_r by set_solver. }
  rewrite s_length_app, Hn, (proj2 (Nat.ltb_ge _ _)) by lia.
  rewrite <- Hn, s_take_app, s_drop_app.
  destruct (gcm_open k' nonce (gcm_seal k nonce plain kind) kind') as [p|] eqn:Eo.
  - apply Hg in Eo. apply Hg in Eo as (<- & <- & <-).
    by rewrite !bool_decide_true by set_solver.
  - rewrite IH. destruct (decide (kind = kind')) as [<-|?]; [|by rewrite bool_decide_false].
    rewrite bool_decide_true by done. cbn. destruct (decide (k = k')) as [<-|?].
    { assert (gcm_open k nonce (gcm_seal k nonce plain kind) kind = Some plain) by (by apply Hg). congruence. }
    apply (f_equal (λ b : bool, if b then Some plain else None)). apply bool_decide_ext. set_solver.
Qed.

Lemma open_sealed (Hg : ideal_gcm) {A} (unjson : string → option A) s s' k nonce kind kind' plain tok :
  String.length nonce = nonceSize → head s = Some k → seal s (Ok nonce) kind plain = Ok tok →
  open unjson s' kind' tok =
    if bool_decide (kind = kind') && bool_decide (k ∈ s')
    then match unjson plain with Some v => Ok v | None => Err errBadToken end
    else Err errBadToken.
Proof.
  intros Hn Hk Hs. destruct s as [|k0 s]; [done|]. injection Hk as ->. cbn in Hs. injection Hs as <-.
  unfold open. rewrite b64url_decode_encode, open_raw_sealed by done. by destruct (_ && _).
Qed.
End seal_lemmas.

Section flow_lemmas.
Context {C : Crypto} {R : Regexp} {N : NetURL} {U : Unicode} {F : Floats} {G : AEAD} {JS : OAuthJSON} {Op : OP}.
Variables (s : storage) (codeMax refreshMax : Z).

(** An authorization request the server accepts: a client of this server with
    that redirect URI, and PKCE with S256. *)
Definition sound_request (client_id redirect challenge : string) : Prop :=
  challenge ≠ "" ∧ ∃ live c, lookupClient live s client_id = Some c ∧ allowsRedirect c redirect = true.
Definition same_login (l : login_) (sub email : string) (groups : list string) (mode client_id : string) (auth : Z) : Prop :=
  lo_Sub l = sub ∧ lo_Email l = email ∧ lo_Groups l = groups ∧ lo_Mode l = mode ∧ lo_ClientID l = client_id ∧
  unix (lo_at l) = auth.

Record flow_ok (wd : world) : Prop := {
  fl_pending : ∀ d, SealedPending d ∈ wd_sealed wd → sound_request (rd_ClientID d) (rd_RedirectURI d) (rd_Challenge d);
  fl_logins : ∀ l, l ∈ wd_logins wd → sound_request (lo_ClientID l) (lo_RedirectURI l) (lo_Challenge l);
  fl_done : ∀ d, SealedDone d ∈ wd_sealed wd → ∃ l, l ∈ wd_logins wd ∧
    same_login l (rd_Sub d) (rd_Email d) (rd_Groups d) (rd_Mode d) (rd_ClientID d) (rd_AuthTime d) ∧
    (rd_Exp d ≤ unix (lo_at l + codeMax))%Z;
  fl_refresh : ∀ d, SealedRefresh d ∈ wd_sealed wd → ∃ l, l ∈ wd_logins wd ∧
    same_login l (rf_Sub d) (rf_Email d) (rf_Groups d) (rf_Mode d) (rf_ClientID d) (rf_AuthTime d) ∧
    (rf_Exp d ≤ unix (lo_at l + refreshMax))%Z;
  fl_issued : ∀ i, i ∈ wd_issued wd → ∃ l, l ∈ wd_logins wd ∧
    same_login l (is_Sub i) (is_Email i) (is_Groups i) (is_Mode i) (is_ClientID i) (is_AuthTime i) ∧
    (unix (is_at i) ≤ unix (lo_at l + (if is_refreshed i then refreshMax else codeMax)))%Z
}.
Lemma flow_ok_empty : flow_ok empty_world.
Proof. split; cbn; intros ? H; by apply elem_of_nil in H. Qed.

Lemma unix_mono a b : (a ≤ b)%Z → (unix a ≤ unix b)%Z.
Proof. intros H. unfold unix. apply Z.div_le_mono; [done|lia]. Qed.
Lemma of_unix_le t : (of_unix (unix t) ≤ t)%Z.
Proof. unfold of_unix, unix. rewrite Z.mul_comm. apply Z.mul_div_le. done. Qed.

Lemma CreateAuthRequest_ok now nonce live aq r :
  CreateAuthRequest now nonce live s aq = Ok r →
  sound_request (rd_ClientID (ar_d r)) (rd_RedirectURI (ar_d r)) (rd_Challenge (ar_d r)).
Proof.
  intros H. unfold CreateAuthRequest in H. apply rbind_ok in H as ([? ?] & _ & H). run_checks H. cbn.
  bool_hyps. destruct (lookupClient live s (aq_ClientID aq)) as [c|] eqn:El; [|done].
  split; [done|]. by exists live, c.
Qed.
Lemma AuthRequestByCode_ok now live code r :
  AuthRequestByCode now live s code = Ok r →
  ∃ id, code_Decrypt (sg_crypto s) code = Some id ∧ open unjson_req (sg_sealer s) kindDone id = Ok (ar_d r) ∧
    (unix now ≤ rd_Exp (ar_d r))%Z ∧ storage_denied live (rd_Sub (ar_d r)) = false.
Proof.
  unfold AuthRequestByCode. destruct (code_Decrypt (sg_crypto s) code) as [id|]; [|done]. intros H.
  apply rbind_ok in H as (r' & Hr & H). run_checks H. exists id. split; [done|].
  unfold AuthRequestByID in Hr. apply rbind_ok in Hr as ([? ?] & _ & Hr). apply rbind_ok in Hr as ([d done] & Hd & Hr).
  run_checks Hr. cbn in *. bool_hyps.
  destruct (open unjson_req (sg_sealer s) kindDone id) as [d'|]; [|by destruct (open _ _ kindPending id); simplify_eq].
  simplify_eq. split_and!; [done|lia|done].
Qed.
Lemma TokenRequestByRefreshToken_ok now live tok r :
  TokenRequestByRefreshToken now live s tok = Ok r →
  open unjson_refresh (sg_sealer s) kindRefresh tok = Ok (rr_d r) ∧ (unix now ≤ rf_Exp (rr_d r))%Z ∧
    storage_denied live (rf_Sub (rr_d r)) = false.
Proof.
  unfold TokenRequestByRefreshToken. intros H. apply rbind_ok in H as ([? ?] & _ & H).
  destruct (open _ _ kindRefresh tok) as [d|]; [|done]. run_checks H. bool_hyps. cbn. split_and!; [done|lia|done].
Qed.
Lemma ServeLogin_open_ok now w req reg sv srv tok d :
  (ServeLogin_open now w req reg).2 = Some (sv, srv, tok, d) →
  open unjson_req (sg_sealer (sv_storage sv)) kindPending (Values_Get (URL_Query (r_URL req)) "id") = Ok d ∧
  (unix now ≤ rd_Exp d)%Z ∧ r_Method req = "GET" ∧ settings (og_live reg) = Ok (srv, tok).
Proof.
  unfold ServeLogin_open. destruct (og_srv reg) as [sv'|]; [|done].
  destruct (settings (og_live reg)) as [[srv' tok']|]; [|done]. cbn zeta.
  case_bool_decide as Hm; cbn [negb]; [|done].
  destruct (open _ _ kindPending _) as [d'|] eqn:Eo; [|done]. case_if; [done|]. cbn. intros [= <- <- <- <-].
  split_and!; [done|lia|done|done].
Qed.
Lemma ServeLogin_done_ok now nonce w req reg permit sv srv tok d who sub email groups :
  w_status w = None → extract who (t_Claims tok) = Ok (sub, email, groups) →
  w_status (ServeLogin_done now nonce w req reg permit sv srv tok d who) = Some 302%Z →
  Denied reg sub = false ∧ permit sub email groups = true ∧
  ∃ tok, seal (sg_sealer (sv_storage sv)) nonce kindDone (json_req (done_data now srv d who sub email groups)) = Ok tok.
Proof.
  intros Hw He. unfold ServeLogin_done. rewrite He.
  destruct (Denied reg sub || negb (permit sub email groups)) eqn:E; [by rewrite http_Error_status|]. bool_hyps.
  destruct (seal _ _ _ _); [by eauto|by rewrite http_Error_status].
Qed.

Lemma keep_login (P : login_ → Prop) l0 (ls : list login_) : (∃ l, l ∈ ls ∧ P l) → ∃ l, l ∈ l0 :: ls ∧ P l.
Proof. intros (l & ? & ?). exists l. set_solver. Qed.

Lemma flow_ok_step wd wd' : flow_step s codeMax refreshMax wd wd' → flow_ok wd → flow_ok wd'.
Proof.
  intros Hstep Hok. pose proof Hok as [Hp Hl Hd Hr Hi].
  destruct Hstep as [wd now nonce live aq r Hc
    |wd now nonce reg sv w req permit srv tok d who sub email groups Hsv <- [_ [Hcode _]] Hnow Hw Hun Hopen Hex Hdone
    |wd now nonce live srv tok code id r tokenID out [Hset [_ Hlife]] Hdec Hun Hreq _
    |wd now nonce live srv tok token r sc tokenID out _ Hun Hreq _].
  - apply CreateAuthRequest_ok in Hc. split; cbn; [|done| | |done];
      intros d [?|?]%elem_of_cons; simplify_eq; auto.
  - apply ServeLogin_open_ok in Hopen as (Ho & _). destruct Hun as (Hun & _ & _). specialize (Hp _ (Hun _ Ho)).
    split; cbn.
    + intros d' [?|Hin]%elem_of_cons; [done|by apply (fl_pending _ Hok)].
    + intros l [->|?]%elem_of_cons; [done|by apply Hl].
    + intros d' [[= ->]|?]%elem_of_cons; [|by apply keep_login, Hd].
      eexists. split; [by apply list_elem_of_here|]. split; [done|]. cbn. apply unix_mono. lia.
    + intros d' [?|?]%elem_of_cons; [done|by apply keep_login, Hr].
    + intros i Hin. by apply keep_login, Hi.
  - apply AuthRequestByCode_ok in Hreq as (id' & Hdec' & Ho & Hexp & _). rewrite Hdec in Hdec'. injection Hdec' as <-.
    destruct Hun as (_ & Hun & _). specialize (Hd _ (Hun _ Ho)). destruct Hd as (l & Hin & Hsame & Hle).
    split; cbn; [intros d' [?|?]%elem_of_cons; [done|by apply Hp]|done| | |].
    + intros d' [?|Hd']%elem_of_cons; [done|]. by apply (fl_done _ Hok).
    + intros d' [[= ->]|?]%elem_of_cons; [|by apply Hr]. exists l. split; [done|]. split; [done|]. cbn.
      destruct Hsame as (_ & _ & _ & _ & _ & <-). apply unix_mono. pose proof (of_unix_le (lo_at l)). lia.
    + intros i [->|?]%elem_of_cons; [|by apply Hi]. exists l. split; [done|]. split; [done|]. cbn. lia.
  - apply TokenRequestByRefreshToken_ok in Hreq as (Ho & Hexp & _). destruct Hun as (_ & _ & Hun).
    destruct (Hr _ (Hun _ Ho)) as (l & Hin & Hsame & Hle).
    split; cbn; [intros d' [?|?]%elem_of_cons; [done|by apply Hp]|done| | |].
    + intros d' [?|Hd']%elem_of_cons; [done|]. by apply Hd.
    + intros d' [[= ->]|?]%elem_of_cons; [|by apply Hr]. exists l. done.
    + intros i [->|?]%elem_of_cons; [|by apply Hi]. exists l. split; [done|]. split; [done|]. cbn. lia.
Qed.
End flow_lemmas.

(** * Properties *)

(** C36: sealed values are what they were sealed as, to whoever holds the key,
    and nothing else: under an ideal AES-GCM, a value sealed as one kind opens
    with any sealer that still has the sealing key, at whatever position a
    rotation left it, and with no other; and never as another kind. *)
Theorem sealed_kinds {G : AEAD} {A} (unjson : string → option A) (s s' : list string) k nonce kind kind' plain tok
    (Hg : ideal_gcm) (Hn : String.length nonce = nonceSize) (Hk : head s = Some k)
    (Hs : seal s (Ok nonce) kind plain = Ok tok) :
  open unjson s' kind' tok =
    if bool_decide (kind = kind') && bool_decide (k ∈ s')
    then match unjson plain with Some v => Ok v | None => Err errBadToken end
    else Err errBadToken.
Proof. by apply (open_sealed Hg _ s s' k nonce kind kind' plain tok). Qed.


(** Registration. A client is registered (201) only for a POST whose body
    lists 1 to 10 redirect URIs, each at most 512 bytes and loopback http or
    permitted https; the client ID it is given then opens, on any replica with the
    sealing key, to exactly those of its URIs that the configuration in force
    permits, all of them when that has not changed, and to no client when none is
    permitted or registration is off. *)
Theorem serveRegister_spec {C : Crypto} {R : Regexp} {N : NetURL} {U : Unicode} {F : Floats} {G : AEAD} {JS : OAuthJSON} {Op : OP}
    now nonce w req (r : ORegistry) (sv : server) k
    (Hg : ideal_gcm) (Hjson : ∀ d, unjson_client (json_client d) = Some d)
    (Hn : String.length nonce = nonceSize) (Hk : head (sg_sealer (sv_storage sv)) = Some k)
    (Hw : w_status w = None) (H201 : w_status (serveRegister now (Ok nonce) w req r sv) = Some 201%Z) :
  r_Method req = "POST" ∧
  ∃ rq id srv tok, unjson_registration (r_Body req) = Some rq ∧ settings (og_live r) = Ok (srv, tok) ∧
    1 ≤ length (rq_RedirectURIs rq) ≤ 10 ∧
    (∀ u, u ∈ rq_RedirectURIs rq → String.length u ≤ 512 ∧ AllowsDynamicRedirect (o_DynamicRegistration srv) u = true) ∧
    seal (sg_sealer (sv_storage sv)) (Ok nonce) kindClient (json_client (mkClientData (rq_RedirectURIs rq))) = Ok id ∧
    ∀ live' srv' tok' (s' : storage), settings live' = Ok (srv', tok') → k ∈ sg_sealer s' → sg_clients s' !! id = None →
      lookupClient live' s' id =
        if dr_Enabled (o_DynamicRegistration srv') then
          match List.filter (AllowsDynamicRedirect (o_DynamicRegistration srv')) (rq_RedirectURIs rq) with
          | [] => None
          | allowed => Some (mkClient (mkOAuthClient id allowed) (sg_issuer s'))
          end
        else None.
Proof.
  unfold serveRegister, http_NotFound in H201. destruct (settings (og_live r)) as [[srv tok]|] eqn:Eset; [|by rewrite http_Error_status in H201].
  destruct (dr_Enabled (o_DynamicRegistration srv)) eqn:Een; cbn [negb] in H201; [|by rewrite http_Error_status in H201].
  set (w0 := w_Set _ _ w) in H201. assert (Hw0 : w_status w0 = None) by (subst w0; by autorewrite with resp).
  case_if_in H201; [by rewrite WriteHeader_fresh in H201 by (by autorewrite with resp)|].
  case_if_in H201; [by rewrite http_Error_status in H201 by (by autorewrite with resp)|]. bool_hyps.
  assert (Hwj : ∀ st b, w_status (writeJSON st b w0) = Some st).
  { intros st b. unfold writeJSON. apply Write_sent. apply WriteHeader_fresh. by autorewrite with resp. }
  destruct (if maxRegistrationBody <? _ then None else _) as [rq|] eqn:Erq; [|by rewrite Hwj in H201].
  destruct (registration_check (o_DynamicRegistration srv) rq) as [[? ?]|] eqn:Ech; [by rewrite Hwj in H201|].
  destruct (seal _ _ kindClient _) as [id|] eqn:Es; [|by rewrite http_Error_status in H201].
  split; [done|]. exists rq, id, srv, tok. unfold registration_check in Ech.
  case_if_in Erq; [done|]. split; [exact Erq|split; [done|]].
  repeat (case_if_in Ech; [done|]). bool_hyps.
  match goal with H : (maxRegisteredURIs <? _) = false |- _ => apply Nat.ltb_ge in H end.
  match goal with H : (length _ =? 0)%nat = false |- _ => apply Nat.eqb_neq in H end.
  unfold maxRegisteredURIs in *. split; [lia|split; [|split; [exact Es|]]].
  - intros u Hu. match goal with H : existsb _ (rq_RedirectURIs rq) = false |- _ =>
      rewrite existsb_false in H; specialize (H u Hu) end. bool_hyps.
    split; [by apply Nat.ltb_ge|done].
  - intros live' srv' tok' s' Hs' Hin Hcl. unfold lookupClient. rewrite Hcl, Hs'.
    destruct (dr_Enabled (o_DynamicRegistration srv')); cbn [negb]; [|done].
    rewrite (open_sealed Hg unjson_client _ (sg_sealer s') k nonce kindClient kindClient _ id Hn Hk Es).
    rewrite !bool_decide_true by done. cbn [andb]. by rewrite Hjson.
Qed.


(** * Concrete library values for the witnesses *)

(** A list of strings as their base64, separated by bars. *)
Definition pack (l : list string) : string := Join (b64url_encode <$> l) "|".
Definition unpack (s : string) : option (list string) := mapM b64url_decode (Split s "|").
Lemma b64url_free s : sep_free "|" (b64url_encode s).
Proof.
  assert (Hc : ∀ z, (0 ≤ z < 64)%Z → b64url_char z ≠ "|"%char).
  { intros z Hz. destruct z as [|p|p]; [done| |lia]. do 6 (destruct p as [p|p|]; [| |done]); lia. }
  induction s as [|a|a b|a b c s IH] using string_ind3; [apply sep_free_nil|..]; cbn [b64url_encode];
    repeat (apply sep_free_cons; split; [apply Hc; b64_arith|]); [apply sep_free_nil..|done].
Qed.
Lemma unpack_pack l : l ≠ [] → unpack (pack l) = Some l.
Proof.
  intros Hl. unfold unpack, pack. rewrite Split_Join.
  - apply mapM_Some, Forall2_fmap_l, Forall_Forall2_diag, Forall_true. intros x. apply b64url_decode_encode.
  - by destruct l.
  - apply Forall_fmap, Forall_true. intros x. apply b64url_free.
Qed.

(** A ciphertext shows what it was made of. *)
Definition demo_gcm : AEAD := {|
  gcm_seal k n p ad := pack [k; n; p; ad];
  gcm_open k n c ad := match unpack c with
    | Some [_; _; p; _] => if c =? pack [k; n; p; ad] then Some p else None
    | _ => None
    end |}.
Lemma pack_inj l l' : l ≠ [] → l' ≠ [] → pack l = pack l' → l = l'.
Proof. intros H H' E. apply (f_equal unpack) in E. rewrite !unpack_pack in E by done. by injection E. Qed.
Lemma demo_gcm_ideal : @ideal_gcm demo_gcm.
Proof.
  split.
  - intros k n c ad p. cbn [gcm_open gcm_seal demo_gcm]. split.
    + destruct (unpack c) as [[|? [|? [|? [|? [|]]]]]|]; try done. case_bool_decide; [|done]. intros [= <-]. done.
    + intros ->. rewrite unpack_pack by done. by rewrite bool_decide_true.
  - intros n k p ad k' p' ad' H. apply (pack_inj [k; n; p; ad] [k'; n; p'; ad']) in H; [|done..]. by simplify_eq.
Qed.

Definition z_out (z : Z) : string := bits (encode z).
Definition z_in (s : string) : Z := default 0%Z (decode (unbits s)).
(** The groups and scopes follow the other fields, each marked with what it is. *)
Definition marked (c : ascii) (l : list string) : list string := String c <$> l.
Definition unmark (c : ascii) (l : list string) : list string :=
  omap (λ s, match s with String c' s => if decide (c = c') then Some s else None | "" => None end) l.
Definition demo_oauth_json : OAuthJSON := {|
  json_req d := pack ([rd_ClientID d; rd_RedirectURI d; rd_State d; rd_Nonce d; rd_Challenge d; rd_Method d; rd_Sub d;
                       rd_Email d; rd_Mode d; z_out (rd_AuthTime d); z_out (rd_Exp d)] ++
                      marked "g" (rd_Groups d) ++ marked "s" (rd_Scopes d));
  unjson_req s := match unpack s with
    | Some (a :: b :: c :: d :: e :: f :: g :: h :: i :: j :: k :: l) =>
        Some (mkReqData a b c d (unmark "s" l) e f g h (unmark "g" l) i (z_in j) (z_in k))
    | _ => None
    end;
  json_refresh d := pack ([rf_Sub d; rf_Email d; rf_Mode d; rf_ClientID d; z_out (rf_AuthTime d); z_out (rf_Exp d)] ++
                          marked "g" (rf_Groups d) ++ marked "s" (rf_Scopes d));
  unjson_refresh s := match unpack s with
    | Some (a :: b :: c :: d :: e :: f :: l) =>
        Some (mkRefreshData a b (unmark "g" l) c d (unmark "s" l) (z_in e) (z_in f))
    | _ => None
    end;
  json_client d := pack ("c" :: cld_URIs d);
  unjson_client s := match unpack s with Some (_ :: l) => Some (mkClientData l) | _ => None end;
  unjson_registration s := l ← unpack s; Some (mkRegistration l "app" "none" ["authorization_code"] ["code"]);
  json_registered id now name uris := pack (id :: z_out now :: name :: uris);
  json_error code msg := pack [code; msg]
|}.
Lemma demo_client_roundtrip d : unjson_client (OAuthJSON := demo_oauth_json) (json_client (OAuthJSON := demo_oauth_json) d) = Some d.
Proof. cbn [unjson_client json_client demo_oauth_json]. rewrite unpack_pack by done. by destruct d. Qed.
Definition demo_op : @OP demo_crypto := {|
  op_ServeHTTP path w req := WriteHeader 200 w;
  NewProvider issuer _ := Ok (issuer +:+ "/authorize");
  code_Encrypt k id := id; code_Decrypt k code := Some code;
  CreateDiscoveryConfig issuer scopes := mkDiscovery issuer (issuer +:+ "/authorize") (issuer +:+ "/token") (issuer +:+ "/jwks.json") ""
    (issuer +:+ "/introspect") (issuer +:+ "/userinfo") (issuer +:+ "/revoke") (issuer +:+ "/end_session") "" ""
    (["none"], []) ([], []) ["RS256"] [] scopes ["authorization_code"] ["code"; "id_token"] [] (["none"; "client_secret_basic"], []) ["S256"];
  json_discovery d := Ok (dc_Issuer d); json_metadata m := Ok (rm_resource m); hmac_sha256 k s := k +:+ s |}.

Section demo.
#[local] Existing Instances demo_crypto demo_x509 demo_regexp demo_neturl ascii_unicode demo_floats demo_gcm
demo_oauth_json demo_op demo_sha.

(** The sealed-value example of the witness: a rotated-in key, the old one kept. *)
Definition demo_nonce : string := "0123456789ab".
Lemma sealed_kinds_witness :
∃ tok, seal ["k1"] (Ok demo_nonce) kindClient "x" = Ok tok ∧
  open (λ s, Some s) ["k2"; "k1"] kindClient tok = Ok "x" ∧
  open (λ s, Some s) ["k2"; "k1"] kindDone tok = Err errBadToken.
Proof.
eexists. split; [reflexivity|]. split.
- rewrite (sealed_kinds (λ s, Some s) ["k1"] ["k2"; "k1"] "k1" demo_nonce kindClient kindClient "x" _ demo_gcm_ideal);
    vm_compute; reflexivity.
- rewrite (sealed_kinds (λ s, Some s) ["k1"] ["k2"; "k1"] "k1" demo_nonce kindClient kindDone "x" _ demo_gcm_ideal);
    vm_compute; reflexivity.
Defined.

Definition demo_oreg : ORegistry := OAuth_Reconcile 1 demo_config NewORegistry.
Definition demo_sv : server :=
default (mkServer (mkStorage [] "" (mkKeyManager (@mkParsedKey demo_crypto "" "") []) ∅ "") "" "" "" [] "") (og_srv demo_oreg).
Definition demo_settings : OAuthServerConfig * TokenConfig :=
match settings (Some demo_config) with Ok x => x | Err _ => (demo_server, demo_token) end.

(** A client's request, the login it leads to, and the token it ends in. *)
Definition demo_aq : AuthRequest := mkAuthRequest "cli" "http://localhost/cb" "st" "" ["openid"] "ch" "S256".
Definition demo_req : authReq := Eval vm_compute in
match CreateAuthRequest 0 (Ok demo_nonce) (Some demo_config) (sv_storage demo_sv) demo_aq with
| Ok r => r
| Err _ => mkAuthReq (mkReqData "" "" "" "" [] "" "" "" "" [] "" 0 0) "" false ""
end.
Definition demo_login_get : Request := demo_get "/_tap/oauth/login" ("id=" +:+ ar_id demo_req) "".
Definition demo_who : Identity := mkIdentity "basic" "alice" ∅.
Definition demo_done : reqData := Eval vm_compute in
done_data second demo_settings.1 (ar_d demo_req) demo_who "alice" "" [].
Definition demo_code : string := Eval vm_compute in
match seal (sg_sealer (sv_storage demo_sv)) (Ok demo_nonce) kindDone (json_req demo_done) with Ok t => t | Err _ => "" end.
Definition demo_wd1 : world := mkWorld [SealedPending (ar_d demo_req)] [] [].
Definition demo_wd2 : world :=
mkWorld [SealedDone demo_done; SealedPending (ar_d demo_req)]
  [mkLogin_ "alice" "" [] "basic" "cli" "http://localhost/cb" "ch" second] [].
Definition demo_fin : authReq := mkAuthReq demo_done demo_code true (t_Audience demo_settings.2).
Definition demo_issued : issued := mkIssued "alice" "" [] "basic" "cli" 1 (2 * second) false.
Definition demo_wd3 : world :=
mkWorld (SealedRefresh (refresh_content demo_settings.1 (TR_auth demo_fin)) :: wd_sealed demo_wd2)
  (wd_logins demo_wd2) [demo_issued].

Lemma unforged_one s wd tok :
(if open unjson_req (sg_sealer s) kindPending tok is Ok d then SealedPending d ∈ wd_sealed wd else True) →
(if open unjson_req (sg_sealer s) kindDone tok is Ok d then SealedDone d ∈ wd_sealed wd else True) →
(if open unjson_refresh (sg_sealer s) kindRefresh tok is Ok d then SealedRefresh d ∈ wd_sealed wd else True) →
unforged s wd tok.
Proof. intros H1 H2 H3. split_and!; intros d E; rewrite E in *; done. Qed.

Abbreviation demo_reachable := (flow_reachable (sv_storage demo_sv) minute (24 * hour)).
Lemma demo_in_force : in_force minute (24 * hour) (Some demo_config) demo_settings.1 demo_settings.2.
Proof. split_and!; [vm_compute; reflexivity|vm_compute; discriminate..]. Qed.
Lemma demo_reach2 : demo_reachable demo_wd2.
Proof.
apply (OR_step _ _ _ demo_wd1); [apply (OR_step _ _ _ empty_world); [apply OR_empty|]|].
- apply (O_request _ _ _ empty_world 0 (Ok demo_nonce) (Some demo_config) demo_aq demo_req). vm_compute. reflexivity.
- apply (O_login _ _ _ demo_wd1 second (Ok demo_nonce) demo_oreg demo_sv new_response demo_login_get (λ _ _ _, true)
    demo_settings.1 demo_settings.2 (ar_d demo_req) demo_who "alice" "" []);
    [vm_compute; reflexivity|reflexivity|exact demo_in_force|done|done| |vm_compute; reflexivity..].
  apply unforged_one; vm_compute; [left|exact I..].
Qed.
Lemma demo_reach3 : demo_reachable demo_wd3.
Proof.
apply (OR_step _ _ _ demo_wd2); [apply demo_reach2|].
apply (O_code _ _ _ demo_wd2 (2 * second) (Ok demo_nonce) (Some demo_config) demo_settings.1 demo_settings.2
  demo_code demo_code demo_fin "t1" (match CreateAccessAndRefreshTokens (2 * second) (Ok demo_nonce) (Some demo_config)
    (sv_storage demo_sv) "t1" (TR_auth demo_fin) with Ok x => x | Err _ => ("", "", 0%Z) end));
  [exact demo_in_force|reflexivity| |vm_compute; reflexivity..].
apply unforged_one; vm_compute; [exact I|left|exact I].
Qed.


(** A server with dynamic registration, and a client that registers. *)
Definition demo_reg_config : Config :=
let c := demo_config in
mkConfig (c_ListenAddr c) (c_Target c) (c_TargetCACert c) (c_Timeouts c)
  (mkInbound (i_Auth (c_Inbound c))
     ((λ o, mkOAuthServer (o_Disabled o) (o_SPBaseURL o) (o_MCPURL o) (o_CodeTTL o) (o_RefreshAbsoluteLifetime o)
              (o_SealingKeys o) (o_Clients o) (mkDynReg true []) (o_Denylist o) (o_sealing o)) <$> i_OAuthServer (c_Inbound c)))
  (c_Outbound c) (c_ACL c) (c_targetURL c) (c_targetCAPool c).
Definition demo_reg_oreg : ORegistry := OAuth_Reconcile 1 demo_reg_config NewORegistry.
Definition demo_reg_post : Request :=
mkRequest "POST" (mkURL "" "" None "" "/_tap/oauth/register" "" false "" "") ∅ (pack ["http://localhost/cb"]) (mkContext None None).
Lemma serveRegister_spec_witness :
w_status (serveRegister 0 (Ok demo_nonce) new_response demo_reg_post demo_reg_oreg demo_sv) = Some 201%Z ∧
r_Method demo_reg_post = "POST".
Proof.
assert (H : w_status (serveRegister 0 (Ok demo_nonce) new_response demo_reg_post demo_reg_oreg demo_sv) = Some 201%Z)
  by (vm_compute; reflexivity).
split; [exact H|].
destruct (serveRegister_spec 0 demo_nonce new_response demo_reg_post demo_reg_oreg demo_sv
  (default "" (head (sg_sealer (sv_storage demo_sv)))) demo_gcm_ideal demo_client_roundtrip eq_refl
  ltac:(vm_compute; reflexivity) eq_refl H) as [Hm _].
exact Hm.
Defined.
End demo.
