(* ===== verification/Authenticate.v ===== *)
(** Authentication of a request ([internal/authn/middleware.go]): [enforceJWT],
    and [authenticate], which runs Basic, JWT, and the interactive methods in
    their order of precedence.

    A leg that lets the request through calls [allow] in tail position, so
    [authenticate] returns what [allow] would be called with ([Allow]); a leg that
    answers the request itself returns [Answered].  The request is threaded, since
    taking cookies off it and adding a renewed one mutate its header for
    everything that follows.  The registries are threaded in [Regs]; the single
    copy of the JWT registry is the login registry's. *)
From S2P Require Import Prelude GoStrings ConfigTypes PromScope GoURL GoHTTP Acl ConfigAuth ConfigMain Credentials Basic Jwks JwksConcurrent Session Login Saml.

(** What a request finds outside the proxy's memory: the clock (again after a
    password comparison), whether a comparison slot came in time, TLS, what
    waiting for another request's refresh brought (first and second attempt),
    and random values. *)
Record Inputs := mkInputs {
  in_now : Z; in_later : Z; in_slot : bool; in_tls : bool;
  in_waited : result refreshOutcome; in_waited2 : result refreshOutcome;
  in_randoms : Randoms; in_nonce : result string
}.

Section enforce.
Context {C : Crypto} {X : X509} {R : Regexp} {N : NetURL} {U : Unicode} {F : Floats} {J : JWT} {W : Network}.

Definition auth_of (cfg : Config) : InboundAuthConfig := i_Auth (c_Inbound cfg).

(** The candidate loop: the source and claims that verify, or the reason
    reported ([have]: some candidate's keys were unavailable). *)
Fixpoint try_candidates (now : Z) (raw : string) (srcs : list JWTSource) (report : string) (have : bool)
    (reg : Registry) : (JWTSource * gmap string any + string) * Registry :=
  match srcs with
  | [] => (inr report, reg)
  | src :: srcs =>
      let '(kf, reg) := Keyfunc_ now src reg in
      match kf with
      | Err _ => try_candidates now raw srcs (if have then report else reasonKeysUnavailable) true reg
      | Ok kf =>
          match verify raw src kf with
          | Err e => try_candidates now raw srcs (if have then report else classify e) have reg
          | Ok claims =>
              if j_Local src && deniedLocalSubject reg claims
              then try_candidates now raw srcs (if have then report else reasonSubjectDenied) have reg
              else (inl (src, claims), reg)
          end
      end
  end.

Inductive jwtOutcome := jwtNoCredential | jwtAllowed (p : principal) | jwtRejected | jwtStale.

Definition enforceJWT (now : Z) (w : Response) (r : Request) (cfg : Config) (reg : Registry)
  : jwtOutcome * Response * Registry :=
  match extractTokenFrom r (auth_of cfg) with
  | None => (jwtNoCredential, w, reg)
  | Some (raw, loginSrc) =>
      let stale why := bool_decide (is_Some loginSrc) && (why !=? reasonKeysUnavailable) in
      let refuse why := (jwtRejected, reject w (bearerInvalidChallenge cfg) why, reg) in
      match unverifiedIssuer raw with
      | Err _ => if stale reasonMalformedToken then (jwtStale, w, reg) else refuse reasonMalformedToken
      | Ok iss =>
          match JWTSourcesByIssuer (auth_of cfg) iss with
          | [] => if stale reasonUnknownIssuer then (jwtStale, w, reg) else refuse reasonUnknownIssuer
          | candidates =>
              let '(res, reg) := try_candidates now raw candidates "" false reg in
              match res with
              | inl (src, claims) => (jwtAllowed (jwtPrincipal src claims), w, reg)
              | inr why =>
                  if stale why then (jwtStale, w, reg)
                  else if why =? reasonKeysUnavailable
                  then (jwtRejected, rejectUnavailable w reasonKeysUnavailable defaultResolverRetry, reg)
                  else (jwtRejected, reject w (bearerInvalidChallenge cfg) why, reg)
              end
          end
      end
  end.
End enforce.

Section authenticate.
Context {C : Crypto} {X : X509} {R : Regexp} {N : NetURL} {U : Unicode} {F : Floats} {J : JWT} {W : Network}
  {L : LoginNet} {O : OAuth2} {D : Sha256} {B : BasicCrypto} {En : Env} {M : SAMLMetadata} {SP : SAMLSP}.

(** [authRegistries] *)
Record Regs := mkRegs { ag_saml : SAMLRegistry; ag_basic : BasicRegistry; ag_login : LoginRegistry }.
Definition with_saml (s : SAMLRegistry) (g : Regs) : Regs := mkRegs s (ag_basic g) (ag_login g).
Definition with_basic (b : BasicRegistry) (g : Regs) : Regs := mkRegs (ag_saml g) b (ag_login g).
Definition with_login (l : LoginRegistry) (g : Regs) : Regs := mkRegs (ag_saml g) (ag_basic g) l.

(** A leg's result: the next one's turn, a response written, or [allow]. *)
Inductive outcome := Continue | Answered | Allow (p : option principal) (r : Request).
Record state := mkState { st_w : Response; st_r : Request; st_regs : Regs }.
Definition leg : Type := state → outcome * state.
(** The next leg's turn, if this one leaves it. *)
Definition then_ (a b : leg) : leg := λ s,
  match a s with (Continue, s) => b s | x => x end.

Definition basic_leg (i : Inputs) (cfg : Config) : leg := λ s,
  match a_Basic (auth_of cfg) with
  | Some src =>
      if BasicEnabled (auth_of cfg) then
        let '(o, w, b) := enforceBasic (in_now i) (in_later i) (in_slot i) (st_w s) (st_r s) src (ag_basic (st_regs s)) in
        let s := mkState w (st_r s) (with_basic b (st_regs s)) in
        match o with
        | basicAllowed username => (Allow (Some (basicPrincipal username)) (st_r s), s)
        | basicRejected => (Answered, s)
        | basicNoCredential => (Continue, s)
        end
      else (Continue, s)
  | None => (Continue, s)
  end.

Definition refresh_leg (i : Inputs) (waited : result refreshOutcome) (cfg : Config) (tokens : gmap string string) : leg := λ s,
  let '(answered, w, r, l) := Refresh (in_now i) waited (st_w s) (st_r s) (auth_of cfg) tokens (ag_login (st_regs s)) in
  (if answered then Answered else Continue, mkState w r (with_login l (st_regs s))).
Definition run_enforceJWT (i : Inputs) (cfg : Config) (s : state) : jwtOutcome * state :=
  let l := ag_login (st_regs s) in
  let '(o, w, j) := enforceJWT (in_now i) (st_w s) (st_r s) cfg (lg_jwt l) in
  (o, mkState w (st_r s) (with_login (with_jwt j l) (st_regs s))).
(** The switch on the outcome. *)
Definition jwt_switch (cfg : Config) (os : jwtOutcome * state) : outcome * state :=
  let '(o, s) := os in
  match o with
  | jwtAllowed p => (Allow (Some p) (st_r s), s)
  | jwtRejected => (Answered, s)
  | jwtStale =>
      (Answered, mkState (reject (st_w s) (bearerInvalidChallenge cfg) reasonInvalidClaims) (st_r s) (st_regs s))
  | jwtNoCredential => (Continue, s)
  end.
Definition jwt_leg (i : Inputs) (cfg : Config) (tokens : gmap string string) : leg :=
  if JWTEnabled (auth_of cfg) then
    then_ (refresh_leg i (in_waited i) cfg tokens) (λ s,
      match run_enforceJWT i cfg s with
      | (jwtStale, s) =>
          let '(w, r) := DropStaleLogin (st_w s) (st_r s) (auth_of cfg) in
          then_ (refresh_leg i (in_waited2 i) cfg tokens) (λ s, jwt_switch cfg (run_enforceJWT i cfg s))
            (mkState w r (st_regs s))
      | os => jwt_switch cfg os
      end)
  else λ s, (Continue, s).

(** [loginReg.Start(w, r, src, r.URL.RequestURI())].  A source that is found
    has a login block. *)
Definition start_leg (i : Inputs) (src : option JWTSource) (returnTo : string) : leg := λ s,
  match src with
  | Some src =>
      match j_Login src with
      | Some lg =>
          let '(w, l) := Start (in_now i) (in_randoms i) (st_w s) (st_r s) src lg returnTo (ag_login (st_regs s)) in
          (Answered, mkState w (st_r s) (with_login l (st_regs s)))
      | None => (Answered, s)
      end
  | None => (Answered, s)
  end.
Definition pick_leg (i : Inputs) (cfg : Config) : leg := λ s,
  let auth := auth_of cfg in
  let r := st_r s in
  if (2 <=? LoginMethodCount auth) && browserNav r then
    match chosenMethod r (loginMethods auth) with
    | None => (Answered, mkState (redirectToPicker (st_w s) r) r (st_regs s))
    | Some m =>
        if lm_kind m =? "basic" then
          (Answered, mkState (serveBasicChallengePage (st_w s) r (match a_Basic auth with Some b => b_Realm b | None => "" end))
                       r (st_regs s))
        else if lm_kind m =? "jwt" then
          start_leg i (jwtLoginSource auth (lm_source m)) (RequestURI (r_URL r)) s
        else (Continue, s)
    end
  else (Continue, s).
Definition saml_leg (i : Inputs) (cfg : Config) : leg := λ s,
  match a_SAML (auth_of cfg) with
  | Some src =>
      if SAMLEnabled (auth_of cfg) then
        let '(mw, reg) := Provider_ (in_now i) src (ag_saml (st_regs s)) in
        let s := mkState (st_w s) (st_r s) (with_saml reg (st_regs s)) in
        match mw with
        | Err _ =>
            (Answered, mkState (rejectUnavailable (st_w s) reasonSAMLMetadataUnavailable defaultSAMLRetry) (st_r s) (st_regs s))
        | Ok mw =>
            if OAuthEnabled cfg && negb (browserNav (st_r s)) then
              match GetSession (in_now i) mw (st_r s) with
              | Some ss => (Allow (Some (samlPrincipal ss)) (with_ctx (mkContext (Some ss) (ctx_scope (r_ctx (st_r s)))) (st_r s)), s)
              | None => (Continue, s)
              end
            else
              match enforceSAML (in_now i) mw (st_w s) (st_r s) with
              | inl r => (Allow (samlSessionPrincipal r) r, s)
              | inr w => (Answered, mkState w (st_r s) (st_regs s))
              end
        end
      else (Continue, s)
  | None => (Continue, s)
  end.
Definition single_leg (i : Inputs) (cfg : Config) : leg := λ s,
  if (LoginMethodCount (auth_of cfg) =? 1)%nat && browserNav (st_r s) then
    match LoginSources (auth_of cfg) with
    | [src] => start_leg i (Some src) (RequestURI (r_URL (st_r s))) s
    | _ => (Continue, s)
    end
  else (Continue, s).
Definition challenges (cfg : Config) : list string :=
  (match a_Basic (auth_of cfg) with
   | Some b => if BasicEnabled (auth_of cfg) then [basicChallenge (b_Realm b)] else []
   | None => []
   end) ++
  (if JWTEnabled (auth_of cfg) then [bearerChallenge cfg] else []).
Definition last_leg (cfg : Config) : leg := λ s,
  if JWTEnabled (auth_of cfg) || BasicEnabled (auth_of cfg) then
    (Answered, mkState (rejectChallenges (st_w s) reasonNoCredential (challenges cfg)) (st_r s) (st_regs s))
  else (Allow None (st_r s), s).

Definition authenticate (i : Inputs) (cfg : Config) : leg := λ s,
  let '(refreshTokens, r) := TakeRefreshCookies (st_r s) (auth_of cfg) in
  then_ (basic_leg i cfg) (then_ (jwt_leg i cfg refreshTokens) (then_ (pick_leg i cfg)
    (then_ (saml_leg i cfg) (then_ (single_leg i cfg) (last_leg cfg)))))
    (mkState (st_w s) r (st_regs s)).
End authenticate.

(** * Reference answers for [enforceJWT] *)

Section reference.
Context {C : Crypto} {X : X509} {R : Regexp} {N : NetURL} {U : Unicode} {F : Floats} {J : JWT} {W : Network}.

(** What one candidate says. *)
Inductive answer := Verified (p : principal) | Failed (why : string).
Definition ask (now : Z) (raw : string) (src : JWTSource) (reg : Registry) : answer * Registry :=
  let '(kf, reg) := Keyfunc_ now src reg in
  (match kf with
   | Err _ => Failed reasonKeysUnavailable
   | Ok kf =>
       match verify raw src kf with
       | Err e => Failed (classify e)
       | Ok claims =>
           if j_Local src && deniedLocalSubject reg claims then Failed reasonSubjectDenied
           else Verified (jwtPrincipal src claims)
       end
   end, reg).
(** All of them asked in turn. *)
Fixpoint answers (now : Z) (raw : string) (srcs : list JWTSource) (reg : Registry) : list answer :=
  match srcs with
  | [] => []
  | src :: srcs => let '(a, reg) := ask now raw src reg in a :: answers now raw srcs reg
  end.
Definition verified (a : answer) : option principal := match a with Verified p => Some p | Failed _ => None end.
Definition reason_of (a : answer) : option string := match a with Failed why => Some why | Verified _ => None end.
(** The reason reported of those that failed. *)
Definition reported (l : list answer) : string :=
  if bool_decide (reasonKeysUnavailable ∈ omap reason_of l) then reasonKeysUnavailable
  else default "" (last (omap reason_of l)).
(** The candidates of a credential. *)
Definition asked (now : Z) (cfg : Config) (raw : string) (reg : Registry) : list answer :=
  match unverifiedIssuer raw with
  | Err _ => [Failed reasonMalformedToken]
  | Ok iss =>
      match List.filter (issuer_match iss) (a_JWT (auth_of cfg)) with
      | [] => [Failed reasonUnknownIssuer]
      | srcs => answers now raw srcs reg
      end
  end.
(** The outcome: the first that verified; else, from the login cookie and with
    all keys at hand, stale; else rejected. *)
Definition judge (cookie : bool) (l : list answer) : jwtOutcome :=
  match head (omap verified l) with
  | Some p => jwtAllowed p
  | None => if cookie && (reported l !=? reasonKeysUnavailable) then jwtStale else jwtRejected
  end.
End reference.

(** * Lemmas *)

(** ** The candidates *)

Section candidates.
Context {C : Crypto} {X : X509} {R : Regexp} {N : NetURL} {U : Unicode} {F : Floats} {J : JWT} {W : Network}.
Implicit Types reg : Registry.

Lemma classify_not_keys e : classify e ≠ reasonKeysUnavailable.
Proof. unfold classify. repeat case_match; discriminate. Qed.

(** What the registry keeps through key requests: its invariants, and where
    the derived source's keys and denylist come from. *)
Record jwt_kept reg reg' : Prop := {
  jk_inv : reg_inv [] reg → reg_inv [] reg';
  jk_grows : reg_grows reg reg';
  jk_local : rg_local reg' = rg_local reg;
  jk_denied : rg_denied reg' = rg_denied reg
}.
#[export] Instance jwt_kept_preorder : PreOrder jwt_kept.
Proof. split; [done|]. intros a b c [? G1 H1 H2] [? G2 H3 H4]. split; [auto|by etrans|congruence..]. Qed.
Lemma Keyfunc_kept now src reg res reg' : Keyfunc_ now src reg = (res, reg') → jwt_kept reg reg'.
Proof.
  intros H. split; [intros Hi; by eapply Keyfunc_inv|by eapply Keyfunc_grows|..]; revert H;
    unfold Keyfunc_, Keyfunc_lookup, Keyfunc_build; repeat case_match; intros; by simplify_eq.
Qed.
(** The keys [Keyfunc] gives for a source are its own. *)
Definition keys_for reg (src : JWTSource) (kf : keyfn) : Prop :=
  if j_Local src then rg_local reg = Some kf else built_for (fingerprint src) kf.
Lemma keys_for_kept reg reg' src kf : jwt_kept reg reg' → keys_for reg' src kf → keys_for reg src kf.
Proof. intros [_ _ Hl _]. unfold keys_for. by rewrite Hl. Qed.
Lemma Keyfunc_keys now src reg kf reg' : reg_inv [] reg → Keyfunc_ now src reg = (Ok kf, reg') → keys_for reg src kf.
Proof.
  intros Hi H. unfold keys_for. destruct (j_Local src) eqn:El.
  { unfold Keyfunc_ in H. rewrite El in H. destruct (rg_local reg); by simplify_eq. }
  destruct (Keyfunc_result _ _ _ _ _ Hi El H) as (a & rs & _ & Hrs & <- & Hkf).
  apply (Keyfunc_inv _ _ _ _ _ Hi) in H as [_ _ _ Hb]. by eapply Hb.
Qed.

(** The loop answers as the candidates do, in order. *)
Lemma try_candidates_answers now raw srcs report have reg :
  match (try_candidates now raw srcs report have reg).1 with
  | inl (src, claims) => head (omap verified (answers now raw srcs reg)) = Some (jwtPrincipal src claims)
  | inr why =>
      let why' := omap reason_of (answers now raw srcs reg) in
      omap verified (answers now raw srcs reg) = [] ∧
      why = if have then report
            else if bool_decide (reasonKeysUnavailable ∈ why') then reasonKeysUnavailable
            else default report (last why')
  end.
Proof.
  assert (Hlast : ∀ d (x : string) l, default d (last (x :: l)) = default x (last l)).
  { intros d x l. rewrite last_cons. by destruct (last l). }
  revert report have reg. induction srcs as [|src srcs IH]; intros report have reg; cbn [try_candidates answers].
  { cbn. split; [done|]. by destruct have. }
  unfold ask. destruct (Keyfunc_ now src reg) as [[kf|e] reg1]; cbn [fst snd].
  - destruct (verify raw src kf) as [claims|e].
    + destruct (j_Local src && deniedLocalSubject reg1 claims); [|done].
      specialize (IH (if have then report else reasonSubjectDenied) have reg1).
      destruct (try_candidates _ _ _ _ _ _).1 as [[??]|why]; [done|]. destruct IH as [H1 H2].
      split; [done|]. rewrite H2. cbn [omap list_omap reason_of]. destruct have; [done|].
      rewrite Hlast. erewrite bool_decide_ext; [done|]. rewrite elem_of_cons. naive_solver.
    + specialize (IH (if have then report else classify e) have reg1).
      destruct (try_candidates _ _ _ _ _ _).1 as [[??]|why]; [done|]. destruct IH as [H1 H2].
      split; [done|]. rewrite H2. cbn [omap list_omap reason_of]. destruct have; [done|].
      rewrite Hlast. pose proof (classify_not_keys e).
      erewrite bool_decide_ext; [done|]. rewrite elem_of_cons. naive_solver.
  - specialize (IH (if have then report else reasonKeysUnavailable) true reg1).
    destruct (try_candidates _ _ _ _ _ _).1 as [[??]|why]; [done|]. destruct IH as [H1 H2].
    split; [done|]. rewrite H2. cbn [omap list_omap reason_of]. destruct have; [done|].
    by rewrite bool_decide_true by apply list_elem_of_here.
Qed.

Lemma try_candidates_kept now raw srcs report have reg : jwt_kept reg (try_candidates now raw srcs report have reg).2.
Proof.
  revert report have reg. induction srcs as [|src srcs IH]; intros report have reg; [done|]. cbn [try_candidates].
  destruct (Keyfunc_ now src reg) as [kf reg1] eqn:Ek. etrans; [by eapply Keyfunc_kept|].
  destruct kf; [destruct (verify _ _ _); [case_if; [|done]|]|]; apply IH.
Qed.

(** What is verified was verified by one of the candidates, with its keys. *)
Record verified_by reg (raw : string) (srcs : list JWTSource) (src : JWTSource) (claims : gmap string any) : Prop := {
  vb_src : src ∈ srcs;
  vb_keys : ∃ kf, keys_for reg src kf ∧ verify raw src kf = Ok claims;
  vb_denied : j_Local src = true → deniedLocalSubject reg claims = false
}.
Lemma try_candidates_sound now raw srcs report have reg res reg' :
  reg_inv [] reg → try_candidates now raw srcs report have reg = (res, reg') →
  jwt_kept reg reg' ∧ match res with inl (src, claims) => verified_by reg raw srcs src claims | inr _ => True end.
Proof.
  revert report have reg. induction srcs as [|src srcs IH]; intros report have reg Hi H; cbn [try_candidates] in H.
  { by simplify_eq. }
  destruct (Keyfunc_ now src reg) as [kf reg1] eqn:Ek. pose proof (Keyfunc_kept _ _ _ _ _ Ek) as Hk.
  assert (Hrest : ∀ report have, try_candidates now raw srcs report have reg1 = (res, reg') →
    jwt_kept reg reg' ∧ match res with inl (s, c) => verified_by reg raw (src :: srcs) s c | inr _ => True end).
  { intros report' have' H'. apply IH in H' as [Hk' Hr]; [|by apply Hk]. split; [by etrans|].
    destruct res as [[s c]|]; [|done]. destruct Hr as [H1 (kf' & H2 & H3) H4]. split; [set_solver| |].
    - exists kf'. split; [by eapply keys_for_kept|done].
    - unfold deniedLocalSubject in *. by rewrite (jk_denied _ _ Hk) in H4. }
  destruct kf as [kf|e]; [|by eapply Hrest].
  destruct (verify raw src kf) as [claims|e] eqn:Ev; [|by eapply Hrest].
  destruct (j_Local src && deniedLocalSubject reg1 claims) eqn:Ed; [by eapply Hrest|].
  simplify_eq. split; [done|]. split; [set_solver|exists kf; split; [by eapply Keyfunc_keys|done]|].
  intros Hl. rewrite Hl in Ed. unfold deniedLocalSubject in *. by rewrite (jk_denied _ _ Hk) in Ed.
Qed.
End candidates.

(** ** enforceJWT *)

Section enforce_lemmas.
Context {C : Crypto} {X : X509} {R : Regexp} {N : NetURL} {U : Unicode} {F : Floats} {J : JWT} {W : Network}.
Implicit Types (reg : Registry) (cfg : Config).

(** [p] is who the credential [raw] of the enabled source with its issuer names. *)
Definition names_bearer reg cfg (raw : string) (p : principal) : Prop :=
  ∃ iss src claims, unverifiedIssuer raw = Ok iss ∧
    verified_by reg raw (List.filter (issuer_match iss) (a_JWT (auth_of cfg))) src claims ∧
    p = jwtPrincipal src claims.

Lemma enforceJWT_kept now w r cfg reg : jwt_kept reg (enforceJWT now w r cfg reg).2.
Proof.
  unfold enforceJWT. destruct (extractTokenFrom _ _) as [[raw src]|]; [|done]. destruct (unverifiedIssuer raw); [|by case_if].
  destruct (JWTSourcesByIssuer _ _) as [|s1 srcs]; [by case_if|]. pose proof (try_candidates_kept now raw (s1 :: srcs) "" false reg).
  destruct (try_candidates _ _ _ _ _ _) as [[[? ?]|why] reg1]; [done|]. repeat case_if; done.
Qed.
Lemma enforceJWT_sound now w r cfg reg o w' reg' :
  reg_inv [] reg → enforceJWT now w r cfg reg = (o, w', reg') →
  jwt_kept reg reg' ∧
  ∀ p, o = jwtAllowed p → ∃ raw src, extractTokenFrom r (auth_of cfg) = Some (raw, src) ∧ names_bearer reg cfg raw p.
Proof.
  intros Hi H. unfold enforceJWT in H.
  destruct (extractTokenFrom r (auth_of cfg)) as [[raw src]|]; [|by simplify_eq].
  destruct (unverifiedIssuer raw) as [iss|] eqn:Eiss; [|case_if_in H; by simplify_eq].
  rewrite JWTSourcesByIssuer_filter in H. set (srcs := List.filter _ _) in H.
  destruct srcs as [|s1 srcs'] eqn:Es; [case_if_in H; by simplify_eq|]. rewrite <- Es in H.
  destruct (try_candidates now raw srcs "" false reg) as [res reg1] eqn:Et.
  apply try_candidates_sound in Et as [Hk Hres]; [|done]. destruct res as [[s claims]|why].
  - simplify_eq. split; [done|]. intros p [= <-]. exists raw, src. split; [done|]. by exists iss, s, claims.
  - assert (reg' = reg1 ∧ (o = jwtStale ∨ o = jwtRejected)) as [-> Ho] by (repeat case_if_in H; simplify_eq; auto).
    split; [done|]. intros p ->. by destruct Ho.
Qed.

Lemma reject_spec w ch why : w_status w = None →
  w_status (reject w ch why) = Some 401%Z ∧ w_rejections (reject w ch why) = w_rejections w ++ [why].
Proof.
  intros Hw. split; [by apply rejectChallenges_status|].
  unfold reject, rejectChallenges, w_Set, w_Add, w_map_header, WriteHeader, Write, recordRejection.
  cbn [foldl]. rewrite Hw. cbn. done.
Qed.
Lemma rejectUnavailable_spec w why d : w_status w = None →
  w_status (rejectUnavailable w why d) = Some 503%Z ∧ w_rejections (rejectUnavailable w why d) = w_rejections w ++ [why].
Proof.
  intros Hw. split; [by apply rejectUnavailable_status|].
  unfold rejectUnavailable, w_Set, w_map_header, WriteHeader, Write, recordRejection. rewrite Hw. cbn. done.
Qed.

Lemma enforceJWT_status now w r cfg reg o w' reg' :
  w_status w = None → enforceJWT now w r cfg reg = (o, w', reg') →
  match o with
  | jwtRejected => ∃ st, w_status w' = Some st ∧ st ∈ [302; 401; 500; 503]%Z
  | _ => w_status w' = None
  end.
Proof.
  intros Hw H. assert (Hrej : ∀ ch why, ∃ st, w_status (reject w ch why) = Some st ∧ st ∈ [302; 401; 500; 503]%Z).
  { intros ch why. exists 401%Z. split; [by apply reject_spec|set_solver]. }
  unfold enforceJWT in H. destruct (extractTokenFrom r (auth_of cfg)) as [[raw src]|]; [|by simplify_eq].
  destruct (unverifiedIssuer raw) as [iss|]; [|case_if_in H; simplify_eq; [done|apply Hrej]].
  destruct (JWTSourcesByIssuer (auth_of cfg) iss); [case_if_in H; simplify_eq; [done|apply Hrej]|].
  destruct (try_candidates _ _ _ _ _ _) as [[[? ?]|why] ?]; [by simplify_eq|].
  repeat case_if_in H; simplify_eq; [done| |apply Hrej].
  exists 503%Z. split; [by apply rejectUnavailable_status|set_solver].
Qed.

(** The response to an outcome. *)
Definition enforce_response (w w' : Response) (o : jwtOutcome) (why : string) : Prop :=
  match o with
  | jwtRejected =>
      w_status w' = Some (if why =? reasonKeysUnavailable then 503%Z else 401%Z) ∧
      w_rejections w' = w_rejections w ++ [why]
  | _ => w' = w
  end.
End enforce_lemmas.

(** ** The legs *)

(** What every change [authenticate] makes to a request leaves alone: all but
    its cookies and its session. *)
Definition frame (r : Request) : string * URL * string * Header * option Scope :=
  (r_Method r, r_URL r, r_Body r, delete "Cookie" (r_Header r), ctx_scope (r_ctx r)).
Lemma takeCookies_frame names r : frame (takeCookies names r).2 = frame r.
Proof.
  unfold takeCookies. case_if; [done|]. destruct (foldl _ _ _) as [[t c] k]. cbn. destruct c; [|done].
  unfold frame. cbn. by rewrite take_lines_others.
Qed.
Lemma TakeRefreshCookies_frame r auth : frame (TakeRefreshCookies r auth).2 = frame r.
Proof. unfold TakeRefreshCookies. case_if; [done|]. apply takeCookies_frame. Qed.
Lemma AddCookie_frame n v r : frame (AddCookie n v r) = frame r.
Proof.
  unfold AddCookie, frame. cbn. unfold Header_Set. change (CanonicalHeaderKey "Cookie") with "Cookie".
  by rewrite delete_insert_eq.
Qed.
Lemma frame_Header r r' key : frame r = frame r' → CanonicalHeaderKey key ≠ "Cookie" →
  Header_Values (r_Header r) key = Header_Values (r_Header r') key.
Proof.
  intros H Hk. unfold frame in H. injection H as _ _ _ Hh _. unfold Header_Values.
  by rewrite <- (lookup_delete_ne (r_Header r) "Cookie"), Hh, lookup_delete_ne by done.
Qed.

Section refresh_lemmas.
Context {C : Crypto} {X : X509} {R : Regexp} {N : NetURL} {U : Unicode} {F : Floats} {J : JWT} {W : Network}
  {L : LoginNet} {O : OAuth2} {D : Sha256}.

Lemma extractBasic_frame r r' : frame r = frame r' → extractBasic r = extractBasic r'.
Proof.
  intros H. apply (frame_Header _ _ "Authorization") in H; [|by vm_compute].
  unfold extractBasic, BasicAuth, Header_Get. by rewrite H.
Qed.
Lemma browserNav_frame r r' : frame r = frame r' → browserNav r = browserNav r'.
Proof.
  intros H. pose proof (frame_Header _ _ "Accept" H) as Ha. unfold frame in H. injection H as Hm _ _ _ _.
  unfold browserNav, Header_Get. by rewrite Hm, Ha by (by vm_compute).
Qed.
Lemma rejectChallenges_header w why cs : w_status w = None →
  Header_Values (w_header (rejectChallenges w why cs)) "WWW-Authenticate" =
    Header_Values (w_header w) "WWW-Authenticate" ++ cs.
Proof.
  intros Hw. unfold rejectChallenges, recordRejection, Write. cbn [w_header].
  rewrite WriteHeader_header. rewrite WriteHeader_header.
  rewrite w_Set_header by (by rewrite foldl_w_Add_status).
  unfold Header_Values, Header_Set. change (CanonicalHeaderKey "Content-Type") with "Content-Type".
  rewrite lookup_insert_ne by (by vm_compute).
  change (default [] (?m !! CanonicalHeaderKey "WWW-Authenticate")) with (Header_Values m "WWW-Authenticate").
  revert w Hw. induction cs as [|c cs IH]; intros w Hw; cbn [foldl]; [by rewrite app_nil_r|].
  rewrite IH by (by rewrite w_Add_status). unfold w_Add, w_map_header at 1. rewrite Hw. cbn [w_header].
  by rewrite Header_Values_Add, <- app_assoc.
Qed.
Lemma DropStaleLogin_spec w r auth w' r' :
  DropStaleLogin w r auth = (w', r') → w_status w' = w_status w ∧ frame r' = frame r.
Proof.
  unfold DropStaleLogin. destruct (extractTokenFrom r auth) as [[raw [src|]]|]; [|by intros [= <- <-]..].
  destruct (j_Login src) as [lg|]; [|by intros [= <- <-]].
  pose proof (takeCookies_frame {[l_CookieName lg := j_Name src]} r) as Hf.
  destruct (takeCookies _ r) as [t r1]. intros [= <- <-]. by rewrite SetCookie_status.
Qed.

Lemma verifyIDToken_kept now src raw l res l' :
  verifyIDToken now src raw l = (res, l') → jwt_kept (lg_jwt l) (lg_jwt l').
Proof.
  unfold verifyIDToken. destruct (Keyfunc_ now src (lg_jwt l)) as [kf j] eqn:Ek. intros [= _ <-].
  by eapply Keyfunc_kept.
Qed.
Lemma doRefresh_kept now src lg rt l res l' :
  doRefresh now src lg rt l = (res, l') → jwt_kept (lg_jwt l) (lg_jwt l').
Proof.
  intros H. unfold doRefresh in H. destruct (endpoints now src l) as [ep l1] eqn:Ee.
  apply endpoints_jwt in Ee as [Hj _]. rewrite <- Hj. destruct ep as [e|]; [|by simplify_eq].
  destruct (TokenSource_Token _ _ _ _) as [tok| |]; [|by simplify_eq..]. case_if_in H; [by simplify_eq|].
  destruct (verifyIDToken now src (tk_IDToken tok) (count_net l1)) as [v l2] eqn:Ev.
  apply verifyIDToken_kept in Ev. by destruct v as [[? ?]|]; simplify_eq.
Qed.
Lemma redeem_kept now waited src lg rt l res l' :
  redeem now waited src lg rt l = (res, l') → jwt_kept (lg_jwt l) (lg_jwt l').
Proof.
  intros H. unfold redeem in H. destruct (doRefresh now src lg rt l) as [out l1] eqn:Ed.
  apply doRefresh_kept in Ed. destruct (lg_calls l !! _) as [c|].
  - destruct (call_live now c); [destruct c; by simplify_eq|destruct out; by simplify_eq].
  - destruct out; by simplify_eq.
Qed.

Lemma refresh_loop_spec now waited w r srcs tokens l b w' r' l' :
  w_status w = None → refresh_loop now waited w r srcs tokens l = (b, w', r', l') →
  w_status w' = (if b then Some 503%Z else None) ∧ frame r' = frame r ∧ jwt_kept (lg_jwt l) (lg_jwt l').
Proof.
  revert w l. induction srcs as [|src srcs IH]; intros w l Hw H; cbn [refresh_loop] in H; [by simplify_eq|].
  destruct (j_Login src) as [lg|]; [|by eapply IH]. case_if_in H; [by eapply IH|].
  destruct (redeem now waited src lg _ l) as [out l1] eqn:Er. apply redeem_kept in Er. destruct out as [o|e].
  - simplify_eq. split; [by apply setSession_spec|]. by rewrite AddCookie_frame.
  - case_if_in H.
    + apply IH in H as (H1 & H2 & H3); [|by rewrite SetCookie_status]. split_and!; [done|done|by etrans].
    + simplify_eq. split; [by apply rejectUnavailable_status|done].
Qed.
Lemma Refresh_spec now waited w r auth tokens l b w' r' l' :
  w_status w = None → Refresh now waited w r auth tokens l = (b, w', r', l') →
  w_status w' = (if b then Some 503%Z else None) ∧ frame r' = frame r ∧ jwt_kept (lg_jwt l) (lg_jwt l').
Proof.
  intros Hw H. unfold Refresh in H. case_if_in H; [by simplify_eq|].
  destruct (extractToken r auth); [by simplify_eq|]. by eapply refresh_loop_spec.
Qed.
End refresh_lemmas.

Section leg_lemmas.
Context {C : Crypto} {X : X509} {R : Regexp} {N : NetURL} {U : Unicode} {F : Floats} {J : JWT} {W : Network}
  {L : LoginNet} {O : OAuth2} {D : Sha256} {B : BasicCrypto} {En : Env} {M : SAMLMetadata} {SP : SAMLSP}.
Variables (i : Inputs) (cfg : Config) (s0 : state).

(** Who [r] is from, by which credential, checked against the registries of
    [s0]: nobody, only where no mode is enabled. *)
Definition by_basic (r : Request) (p : principal) : Prop :=
  ∃ src u pw, a_Basic (auth_of cfg) = Some src ∧ b_Disabled src = false ∧ extractBasic r = basicPresent u pw ∧
    (Verify (in_now i) (in_later i) (in_slot i) src u pw (ag_basic (st_regs s0))).1 = Ok true ∧ p = basicPrincipal u.
Definition by_bearer (r : Request) (p : principal) : Prop :=
  ∃ raw src, extractTokenFrom r (auth_of cfg) = Some (raw, src) ∧
    names_bearer (lg_jwt (ag_login (st_regs s0))) cfg raw p.
Definition by_session (r : Request) (p : principal) : Prop :=
  ∃ src mw ss r0, a_SAML (auth_of cfg) = Some src ∧ s_Disabled src = false ∧
    (Provider_ (in_now i) src (ag_saml (st_regs s0))).1 = Ok mw ∧ frame r0 = frame r ∧
    (GetSession (in_now i) mw r0 = Some ss ∨ RequireAccount (in_now i) mw r0 = inl ss) ∧
    ctx_session (r_ctx r) = Some ss ∧ p = samlPrincipal ss.
Definition identified (r : Request) (p : option principal) : Prop :=
  match p with
  | None => Enabled (auth_of cfg) = false
  | Some p => by_basic r p ∨ by_bearer r p ∨ by_session r p
  end.
(** A response was written: by the proxy, or by the SAML library. *)
Definition answered_ (w : Response) : Prop :=
  (∃ st, w_status w = Some st ∧ st ∈ [302; 401; 500; 503]%Z) ∨
  ∃ mw r w0 f, w_status w0 = None ∧ RequireAccount (in_now i) mw r = inr f ∧ w = f w0.

(** The state between legs; [saml]: the SAML registry is still as it was. *)
Record live (saml : bool) (s : state) : Prop := {
  lv_w : w_status (st_w s) = None;
  lv_frame : frame (st_r s) = frame (st_r s0);
  lv_saml : saml = true → ag_saml (st_regs s) = ag_saml (st_regs s0);
  lv_jwt : jwt_kept (lg_jwt (ag_login (st_regs s0))) (lg_jwt (ag_login (st_regs s)))
}.
Definition good (next : state → Prop) (x : outcome * state) : Prop :=
  match x with
  | (Continue, s) => next s
  | (Answered, s) => answered_ (st_w s)
  | (Allow p r, s) => w_status (st_w s) = None ∧ frame r = frame (st_r s0) ∧ identified r p
  end.
Definition leg_ok (pre next : state → Prop) (l : leg) : Prop := ∀ s, pre s → good next (l s).
Lemma then_ok P Q T a b : leg_ok P Q a → leg_ok Q T b → leg_ok P T (then_ a b).
Proof. intros Ha Hb s Hs. specialize (Ha s Hs). unfold then_. destruct (a s) as [[] s']; cbn in *; auto. Qed.

Lemma answered_status w st : w_status w = Some st → st ∈ [302; 401; 500; 503]%Z → answered_ w.
Proof. intros. left. eauto. Qed.

Lemma basic_ok r : frame r = frame (st_r s0) → w_status (st_w s0) = None →
  good (live true) (basic_leg i cfg (mkState (st_w s0) r (st_regs s0))).
Proof.
  intros Hr Hw. assert (Hlive : live true (mkState (st_w s0) r (st_regs s0))) by (split; done).
  unfold basic_leg, BasicEnabled. destruct (a_Basic (auth_of cfg)) as [src|] eqn:Ea; [|done].
  destruct (b_Disabled src) eqn:Ed; cbn [negb]; [done|]. cbn [st_w st_r st_regs]. unfold enforceBasic.
  destruct (extractBasic r) as [| |u pw] eqn:Ee.
  - cbn. by split.
  - apply (answered_status _ 401); [by apply rejectChallenges_status|set_solver].
  - destruct (Verify _ _ _ src u pw _) as [[[]|e] b] eqn:Ev; cbn.
    + split_and!; [done|done|left]. exists src, u, pw. by rewrite Ev.
    + apply (answered_status _ 401); [by apply rejectChallenges_status|set_solver].
    + apply (answered_status _ 503); [by apply rejectUnavailable_status|set_solver].
Qed.

Lemma refresh_ok waited tokens : leg_ok (live true) (live true) (refresh_leg i waited cfg tokens).
Proof.
  intros s [Hw Hf Hs Hj]. unfold refresh_leg. destruct (Refresh _ _ _ _ _ _ _) as [[[b w] r] l] eqn:Er.
  apply Refresh_spec in Er as (H1 & H2 & H3); [|done]. destruct b; cbn.
  - by apply (answered_status _ 503); [|set_solver].
  - split; cbn; [done|congruence|done|by etrans].
Qed.

(** A verdict of [enforceJWT] that is not stale. *)
Lemma names_bearer_kept reg reg' raw p : jwt_kept reg reg' → names_bearer reg' cfg raw p → names_bearer reg cfg raw p.
Proof.
  intros Hk (iss & src & claims & H1 & [H2 (kf & H3 & H4) H5] & ->). exists iss, src, claims. split; [done|]. split; [|done].
  split; [done|exists kf; split; [by eapply keys_for_kept|done]|].
  unfold deniedLocalSubject in *. by rewrite <- (jk_denied _ _ Hk).
Qed.
Lemma run_enforceJWT_ok s o s' :
  reg_inv [] (lg_jwt (ag_login (st_regs s0))) → live true s → run_enforceJWT i cfg s = (o, s') →
  (o = jwtStale → live true s') ∧ good (live true) (jwt_switch cfg (o, s')).
Proof.
  intros Hi [Hw Hf Hs Hj] H. unfold run_enforceJWT in H.
  destruct (enforceJWT _ _ _ _ _) as [[o' w'] j] eqn:Ee. injection H as <- <-.
  pose proof (enforceJWT_status _ _ _ _ _ _ _ _ Hw Ee) as Hst.
  apply enforceJWT_sound in Ee as [Hk Hsound]; [|by apply Hj].
  assert (Hlive : w_status w' = None → live true (mkState w' (st_r s) (with_login (with_jwt j (ag_login (st_regs s))) (st_regs s)))).
  { intros Hw'. split; cbn; [done|done|done|by etrans]. }
  split; [intros ->; by apply Hlive|].
  destruct o' as [|p| |]; cbn in *.
  - by apply Hlive.
  - destruct (Hsound p eq_refl) as (raw & src & H1 & H2). split_and!; [done|done|].
    right. left. exists raw, src. split; [done|]. by eapply names_bearer_kept.
  - destruct Hst as (st & H1 & H2). by apply (answered_status _ st).
  - apply (answered_status _ 401); [by apply rejectChallenges_status|set_solver].
Qed.
Lemma jwt_ok tokens : reg_inv [] (lg_jwt (ag_login (st_regs s0))) → leg_ok (live true) (live true) (jwt_leg i cfg tokens).
Proof.
  intros Hi. unfold jwt_leg. destruct (JWTEnabled (auth_of cfg)); [|by intros s Hs].
  eapply then_ok; [apply refresh_ok|]. intros s Hs.
  destruct (run_enforceJWT i cfg s) as [o s1] eqn:Ee.
  destruct (run_enforceJWT_ok _ _ _ Hi Hs Ee) as [Hstale Hgood]. destruct o; [done..|].
  destruct (DropStaleLogin (st_w s1) (st_r s1) (auth_of cfg)) as [w r] eqn:Ed.
  apply DropStaleLogin_spec in Ed as [Hw Hf]. destruct (Hstale eq_refl) as [Hw1 Hf1 Hs1 Hj1].
  eapply (then_ok (live true) (live true)); [apply refresh_ok| |split; cbn; [congruence|congruence|done|done]].
  intros s2 Hs2. destruct (run_enforceJWT i cfg s2) as [o' s3] eqn:Ee'.
  by destruct (run_enforceJWT_ok _ _ _ Hi Hs2 Ee').
Qed.
Lemma start_ok pre next src returnTo :
  (∀ s, pre s → w_status (st_w s) = None) → (∃ j lg, src = Some j ∧ j_Login j = Some lg) →
  leg_ok pre next (start_leg i src returnTo).
Proof.
  intros Hpre (j & lg & -> & Hlg) s Hs%Hpre. unfold start_leg. rewrite Hlg.
  destruct (Start _ _ _ _ _ _ _ _) as [w l] eqn:Es. cbn. unfold Start in Es.
  destruct (endpoints _ _ _) as [[e|] l1]; simplify_eq.
  - destruct (randomToken _) as [st|]; [destruct (randomToken _)|]; simplify_eq.
    + apply (answered_status _ 302); [apply Redirect_spec; by autorewrite with resp|set_solver].
    + apply (answered_status _ 500); [by apply login_fail_status|set_solver].
    + apply (answered_status _ 500); [by apply login_fail_status|set_solver].
  - apply (answered_status _ 503); [by apply rejectUnavailable_status|set_solver].
Qed.
Lemma jwtLoginSource_found auth m : m ∈ loginMethods auth → lm_kind m = "jwt" →
  ∃ j lg, jwtLoginSource auth (lm_source m) = Some j ∧ j_Login j = Some lg.
Proof.
  intros Hm Hk. unfold loginMethods in Hm. apply elem_of_app in Hm as [Hm|Hm].
  - apply list_elem_of_fmap in Hm as (j & -> & Hj). cbn. unfold jwtLoginSource.
    destruct (find _ (LoginSources auth)) as [j'|] eqn:Ef.
    + apply find_some_first in Ef as (l1 & l2 & Hl & _).
      assert (Hj' : j' ∈ LoginSources auth) by (rewrite Hl; set_solver).
      apply list_elem_of_In, filter_In in Hj' as [_ Hen]. unfold LoginEnabled in Hen. bool_hyps.
      match goal with H : is_Some (j_Login j') |- _ => destruct H as [lg Hlg] end. eauto.
    + rewrite find_none_all in Ef. specialize (Ef j Hj). by bool_hyps.
  - exfalso. apply elem_of_app in Hm as [Hm|Hm]; case_if_in Hm;
      rewrite ?list_elem_of_singleton, ?elem_of_nil in Hm; by subst.
Qed.
Lemma pick_ok : leg_ok (live true) (live true) (pick_leg i cfg).
Proof.
  intros s Hs. unfold pick_leg. case_if; [|done]. destruct (chosenMethod _ _) as [m|] eqn:Em.
  - case_if.
    + cbn. apply (answered_status _ 401); [|set_solver]. unfold serveBasicChallengePage, servePickerPage.
      rewrite recordRejection_status. destruct Hs as [Hw _ _ _]. apply Write_sent, WriteHeader_fresh. by autorewrite with resp.
    + case_if; [|done]. bool_hyps. apply start_ok with (live true); [by intros ? []| |done].
      apply jwtLoginSource_found; [|done]. unfold chosenMethod in Em.
      destruct (Cookie_ _ _); [|done]. apply find_some_first in Em as (l1 & l2 & -> & _). set_solver.
  - cbn. apply (answered_status _ 302); [|set_solver]. apply Redirect_spec. by destruct Hs.
Qed.
Lemma single_ok b P : leg_ok (λ s, live b s ∧ P) (λ s, live b s ∧ P) (single_leg i cfg).
Proof.
  intros s Hs. unfold single_leg. case_if; [|done]. destruct (LoginSources (auth_of cfg)) as [|j [|]] eqn:El; [done| |done].
  apply start_ok with (λ s, live b s ∧ P); [by intros ? [[] _]|exists j|exact Hs].
  assert (Hj : j ∈ LoginSources (auth_of cfg)) by (rewrite El; set_solver).
  apply list_elem_of_In, filter_In in Hj as [_ Hen]. unfold LoginEnabled in Hen. bool_hyps.
  match goal with H : is_Some (j_Login j) |- _ => destruct H as [lg Hlg] end. eauto.
Qed.
(** The SAML leg leaves nothing to the next ones unless it is off, or the
    OAuth server is on. *)
Lemma saml_ok : leg_ok (live true) (λ s, live false s ∧ (SAMLEnabled (auth_of cfg) = false ∨ OAuthEnabled cfg = true)) (saml_leg i cfg).
Proof.
  intros s Hs. unfold saml_leg, SAMLEnabled. destruct (a_SAML (auth_of cfg)) as [src|] eqn:Ea.
  2:{ cbn. split; [|by left]. destruct Hs. by split. }
  destruct (s_Disabled src) eqn:Ed; cbn [negb]. { cbn. split; [|by left]. destruct Hs. by split. }
  destruct Hs as [Hw Hf Hsaml Hj]. rewrite (Hsaml eq_refl).
  destruct (Provider_ _ src _) as [[mw|e] reg] eqn:Ep; cbn [st_w st_r st_regs].
  2:{ apply (answered_status _ 503); [by apply rejectUnavailable_status|set_solver]. }
  destruct (OAuthEnabled cfg && negb (browserNav (st_r s))) eqn:Eo.
  - destruct (GetSession _ mw _) as [ss|] eqn:Eg; cbn.
    + split_and!; [done|exact Hf|right; right].
      exists src, mw, ss, (st_r s). rewrite Ep. split_and!; auto.
    + apply andb_true_iff in Eo as [Eo _]. split; [|by right]. split; cbn; [done|done|discriminate|done].
  - unfold enforceSAML. destruct (RequireAccount _ mw _) as [ss|f] eqn:Er; cbn.
    + split_and!; [done|exact Hf|right; right].
      exists src, mw, ss, (st_r s). rewrite Ep. split_and!; auto.
    + right. eauto 10.
Qed.
Lemma last_ok b (Hlocal : OAuthEnabled cfg = true → JWTEnabled (auth_of cfg) = true) :
  leg_ok (λ s, live b s ∧ (SAMLEnabled (auth_of cfg) = false ∨ OAuthEnabled cfg = true)) (λ _, False) (last_leg cfg).
Proof.
  intros s [[Hw Hf _ _] Hs]. unfold last_leg. destruct (JWTEnabled _ || BasicEnabled _) eqn:E; cbn.
  - apply (answered_status _ 401); [by apply rejectChallenges_status|set_solver].
  - apply orb_false_iff in E as [Ej Eb]. split; [done|split; [done|]]. unfold Enabled. destruct Hs as [Hs|Ho].
    + by rewrite Ej, Hs, Eb.
    + apply Hlocal in Ho. congruence.
Qed.

Lemma authenticate_ok (Hlocal : OAuthEnabled cfg = true → JWTEnabled (auth_of cfg) = true) :
  w_status (st_w s0) = None → reg_inv [] (lg_jwt (ag_login (st_regs s0))) →
  good (λ _, False) (authenticate i cfg s0).
Proof.
  intros Hw Hi. unfold authenticate. pose proof (TakeRefreshCookies_frame (st_r s0) (auth_of cfg)) as Hf.
  destruct (TakeRefreshCookies (st_r s0) (auth_of cfg)) as [tokens r].
  apply (then_ok (λ s, s = mkState (st_w s0) r (st_regs s0)) (live true)); [|clear Hf|done].
  { intros s ->. by apply basic_ok. }
  eapply then_ok; [by apply jwt_ok|]. eapply then_ok; [apply pick_ok|]. eapply then_ok; [apply saml_ok|].
  eapply then_ok; [apply single_ok|by apply last_ok].
Qed.

(** ** Precedence *)

Lemma then_stop (a b : leg) s : (a s).1 ≠ Continue → then_ a b s = a s.
Proof. unfold then_. by destruct (a s) as [[] ?]. Qed.
Lemma then_go (a b : leg) s s' : a s = (Continue, s') → then_ a b s = b s'.
Proof. unfold then_. by intros ->. Qed.

Lemma basic_leg_absent s : BasicEnabled (auth_of cfg) = false ∨ extractBasic (st_r s) = basicAbsent →
  ∃ b, basic_leg i cfg s = (Continue, mkState (st_w s) (st_r s) (with_basic b (st_regs s))).
Proof.
  intros Hb. unfold basic_leg. destruct s as [w r [sa ba lo]]. cbn in *.
  destruct (a_Basic (auth_of cfg)) as [src|]; [|by exists ba]. destruct (BasicEnabled _); [|by exists ba].
  destruct Hb as [?|Hb]; [done|]. unfold enforceBasic. rewrite Hb. by exists ba.
Qed.
Lemma extract_sources_enabled r srcs x : extract_sources r srcs = Some x → existsb (λ j, negb (j_Disabled j)) srcs = true.
Proof.
  induction srcs as [|src srcs IH]; cbn; [done|]. destruct (j_Disabled src); cbn; [exact IH|done].
Qed.
Lemma refresh_leg_presented waited tokens s raw src :
  extractTokenFrom (st_r s) (auth_of cfg) = Some (raw, src) → refresh_leg i waited cfg tokens s = (Continue, s).
Proof.
  intros He. unfold refresh_leg, Refresh, extractToken. rewrite He. cbn. destruct s as [w r [sa ba lo]]. by case_if.
Qed.
Lemma refresh_leg_none waited s : refresh_leg i waited cfg ∅ s = (Continue, s).
Proof. unfold refresh_leg, Refresh. rewrite bool_decide_true by done. by destruct s as [w r [sa ba lo]]. Qed.

Lemma jwt_leg_none s : extractTokenFrom (st_r s) (auth_of cfg) = None → jwt_leg i cfg ∅ s = (Continue, s).
Proof.
  intros He. unfold jwt_leg. destruct (JWTEnabled _); [|done]. rewrite (then_go _ _ _ _ (refresh_leg_none _ _)).
  unfold run_enforceJWT, enforceJWT. rewrite He. by destruct s as [? ? [? ? []]].
Qed.

(** The verdict of a leg that decides alone. *)
Definition final (r : Request) (mode : string) (x : outcome * state) : Prop :=
  (∃ p, x.1 = Allow (Some p) r ∧ p_mode p = mode ∧ w_status (st_w x.2) = None) ∨
  (x.1 = Answered ∧ (w_status (st_w x.2) = Some 401%Z ∨ w_status (st_w x.2) = Some 503%Z)).
Lemma final_decides r mode x : final r mode x → x.1 ≠ Continue.
Proof. intros [(p & -> & _)|[-> _]]; done. Qed.
Lemma basic_leg_presented s :
  w_status (st_w s) = None → BasicEnabled (auth_of cfg) = true → extractBasic (st_r s) ≠ basicAbsent →
  final (st_r s) ACLModeBasic (basic_leg i cfg s) ∧
  ag_saml (st_regs (basic_leg i cfg s).2) = ag_saml (st_regs s) ∧
  ag_login (st_regs (basic_leg i cfg s).2) = ag_login (st_regs s).
Proof.
  intros Hw Hb He. unfold basic_leg.
  assert (∃ src, a_Basic (auth_of cfg) = Some src) as (src & ->).
  { unfold BasicEnabled in Hb. destruct (a_Basic _); [eauto|done]. }
  rewrite Hb. unfold enforceBasic. destruct (extractBasic (st_r s)) as [| |u pw]; [done| |].
  { split; [right; split; [done|left]|done]. by apply rejectChallenges_status. }
  destruct (Verify _ _ _ _ _ _ _) as [[[]|e] b]; (split; [|done]); [left; by eexists|right..]; (split; [done|]).
  - left. by apply rejectChallenges_status.
  - right. by apply rejectUnavailable_status.
Qed.
Lemma jwt_leg_presented tokens s raw :
  w_status (st_w s) = None → extractTokenFrom (st_r s) (auth_of cfg) = Some (raw, None) →
  final (st_r s) ACLModeJWT (jwt_leg i cfg tokens s) ∧
  ag_saml (st_regs (jwt_leg i cfg tokens s).2) = ag_saml (st_regs s).
Proof.
  intros Hw He. unfold jwt_leg, JWTEnabled. rewrite (extract_sources_enabled _ _ _ He).
  rewrite (then_go _ _ _ _ (refresh_leg_presented _ _ _ _ _ He)). unfold run_enforceJWT, enforceJWT. rewrite He.
  rewrite (bool_decide_false (is_Some None)) by (by intros [? ?]). cbn [andb].
  assert (Hrej : ∀ ch why reg, final (st_r s) ACLModeJWT (jwt_switch cfg (jwtRejected, mkState (reject (st_w s) ch why) (st_r s) reg))).
  { intros ch why reg. right. split; [done|left]. by apply reject_spec. }
  destruct (unverifiedIssuer raw) as [iss|]; [|split; [apply Hrej|done]].
  destruct (JWTSourcesByIssuer (auth_of cfg) iss); [split; [apply Hrej|done]|].
  destruct (try_candidates _ _ _ _ _ _) as [[[src claims]|why] reg].
  - split; [left; by eexists|done].
  - cbn [andb]. case_if; (split; [|done]); [|apply Hrej]. right. split; [done|right]. by apply rejectUnavailable_status.
Qed.
End leg_lemmas.

(** * Properties *)

(** C10: [enforceJWT] answers as its candidates do. Without a credential it does
    nothing. With one, the candidates are the enabled sources whose issuer is the
    token's, asked in order: the first that verifies it, and does not have its
    subject denied, decides; otherwise the reason is that keys were unavailable
    if that happened to any candidate, wherever in the order, and the last
    candidate's failure if not. A token of the login cookie is then stale, with
    nothing written, unless keys were unavailable; any other is answered 503 for
    unavailable keys and 401 for everything else, and the reason recorded. *)
Theorem enforceJWT_spec {C : Crypto} {X : X509} {R : Regexp} {N : NetURL} {U : Unicode} {F : Floats} {J : JWT} {W : Network}
    now w r (cfg : Config) (reg : Registry) o w' reg'
    (Hw : w_status w = None) (He : enforceJWT now w r cfg reg = (o, w', reg')) :
  match extractTokenFrom r (auth_of cfg) with
  | None => o = jwtNoCredential ∧ w' = w ∧ reg' = reg
  | Some (raw, src) =>
      let said := asked now cfg raw reg in
      o = judge (bool_decide (is_Some src)) said ∧ enforce_response w w' o (reported said)
  end.
Proof.
  unfold enforceJWT in He. destruct (extractTokenFrom r (auth_of cfg)) as [[raw src]|]; [|by simplify_eq].
  cbn zeta. unfold asked. set (cookie := bool_decide (is_Some src)) in *. clearbody cookie.
  assert (Hone : ∀ why, why ≠ reasonKeysUnavailable → judge cookie [Failed why] = (if cookie then jwtStale else jwtRejected) ∧
    reported [Failed why] = why).
  { intros why Hne. unfold judge, reported. cbn [omap list_omap verified reason_of head last default].
    rewrite (bool_decide_false (_ ∈ [why])) by set_solver. rewrite (bool_decide_false (why = _)) by done.
    by destruct cookie. }
  assert (Hrefuse : ∀ ch why (b : bool), why ≠ reasonKeysUnavailable → b = cookie && (why !=? reasonKeysUnavailable) →
    (if b then (jwtStale, w, reg) else (jwtRejected, reject w ch why, reg)) = (o, w', reg') →
    o = judge cookie [Failed why] ∧ enforce_response w w' o (reported [Failed why])).
  { intros ch why b Hne -> H. destruct (Hone why Hne) as [-> ->]. rewrite bool_decide_false in H by done.
    rewrite andb_true_r in H. destruct cookie; simplify_eq; cbn; [done|].
    rewrite bool_decide_false by done. split; [done|]. by apply reject_spec. }
  destruct (unverifiedIssuer raw) as [iss|]; [|by eapply Hrefuse].
  rewrite JWTSourcesByIssuer_filter in He. set (srcs := List.filter _ _) in *.
  destruct srcs as [|s1 srcs'] eqn:Es; [by eapply Hrefuse|]. rewrite <- Es in *. clear Es Hrefuse Hone.
  pose proof (try_candidates_answers now raw srcs "" false reg) as Ha.
  destruct (try_candidates now raw srcs "" false reg) as [[[s claims]|why] reg1]; cbn [fst] in Ha.
  - simplify_eq. unfold judge. rewrite Ha. done.
  - destruct Ha as [Hv Hwhy]. unfold judge. rewrite Hv. cbn [head].
    assert (reported (answers now raw srcs reg) = why) as -> by (by rewrite Hwhy). clear Hv Hwhy.
    destruct (cookie && (why !=? reasonKeysUnavailable)); [by simplify_eq|]. split; [by case_if_in He; simplify_eq|].
    case_bool_decide as Hk; simplify_eq; cbn.
    + rewrite bool_decide_true by done. by apply rejectUnavailable_spec.
    + rewrite bool_decide_false by done. by apply reject_spec.
Qed.

(** C8: authentication decides, soundly. Under a validated configuration, from
    an unsent response and a JWT registry in its invariant, exactly one of two
    things happens. Either the request is let through with nothing written, the
    same but for its cookies and session, and as a principal that a credential it
    carries establishes: Basic credentials the verifier accepts, a token verified
    by an enabled source of its issuer with that source's own keys and not denied,
    or a session the SAML provider vouches for; as nobody only when no mode is
    enabled. Or a response was written: a 302, 401, 500 or 503 of the proxy's, or
    the SAML library's. *)
Theorem authenticate_sound {C : Crypto} {X : X509} {R : Regexp} {N : NetURL} {U : Unicode} {F : Floats} {J : JWT} {W : Network}
    {L : LoginNet} {O : OAuth2} {D : Sha256} {B : BasicCrypto} {En : Env} {M : SAMLMetadata} {SP : SAMLSP}
    {P : PromModel} (i : Inputs) raw cfg (s : state) o s'
    (Hcfg : Config_Validate raw = Ok cfg) (Hw : w_status (st_w s) = None)
    (Hi : reg_inv [] (lg_jwt (ag_login (st_regs s)))) (Ha : authenticate i cfg s = (o, s')) :
  match o with
  | Allow p r => w_status (st_w s') = None ∧ frame r = frame (st_r s) ∧ identified i cfg s r p
  | Answered => answered_ i (st_w s')
  | Continue => False
  end.
Proof.
  pose proof (authenticate_ok i cfg s (Config_Validate_local _ _ Hcfg) Hw Hi) as H.
  rewrite Ha in H. by destruct o.
Qed.

(** C9: the order of precedence. With Basic on, a request with Basic
    credentials, well-formed or not, is decided by them alone: it goes through as
    a Basic user or gets a 401 or 503, and neither of the other registries is
    consulted. Otherwise a bearer credential anywhere but in a login cookie is
    decided by the JWT leg alone, likewise, and never sent to an identity
    provider. With no credential, no refresh cookie, SAML off and no browser
    navigation, a request for which some mode is enabled gets a 401 that carries
    exactly one challenge for each of Basic and JWT that is enabled. *)
Theorem authenticate_precedence {C : Crypto} {X : X509} {R : Regexp} {N : NetURL} {U : Unicode} {F : Floats} {J : JWT} {W : Network}
    {L : LoginNet} {O : OAuth2} {D : Sha256} {B : BasicCrypto} {En : Env} {M : SAMLMetadata} {SP : SAMLSP}
    (i : Inputs) (cfg : Config) (s : state) (Hw : w_status (st_w s) = None) :
  let auth := auth_of cfg in
  let '(tokens, r) := TakeRefreshCookies (st_r s) auth in
  let x := authenticate i cfg s in
  (BasicEnabled auth = true → extractBasic (st_r s) ≠ basicAbsent →
     final r ACLModeBasic x ∧ ag_saml (st_regs x.2) = ag_saml (st_regs s) ∧ ag_login (st_regs x.2) = ag_login (st_regs s)) ∧
  (BasicEnabled auth = false ∨ extractBasic (st_r s) = basicAbsent →
     (∀ raw, extractTokenFrom r auth = Some (raw, None) →
        final r ACLModeJWT x ∧ ag_saml (st_regs x.2) = ag_saml (st_regs s)) ∧
     (extractTokenFrom r auth = None → tokens = ∅ → SAMLEnabled auth = false → browserNav (st_r s) = false →
        JWTEnabled auth || BasicEnabled auth = true → Header_Values (w_header (st_w s)) "WWW-Authenticate" = [] →
        x.1 = Answered ∧ w_status (st_w x.2) = Some 401%Z ∧
        Header_Values (w_header (st_w x.2)) "WWW-Authenticate" = challenges cfg)).
Proof.
  cbn zeta. unfold authenticate. pose proof (TakeRefreshCookies_frame (st_r s) (auth_of cfg)) as Hf.
  destruct (TakeRefreshCookies (st_r s) (auth_of cfg)) as [tokens r]. cbn in Hf.
  rewrite <- (extractBasic_frame _ _ Hf). set (s1 := mkState (st_w s) r (st_regs s)). split.
  - intros Hb He. destruct (basic_leg_presented i cfg s1 Hw Hb He) as (H1 & H2 & H3).
    rewrite !then_stop by (by eapply final_decides). by split_and!.
  - intros Hb. destruct (basic_leg_absent i cfg s1 Hb) as (b & Hleg).
    rewrite !(then_go _ _ _ _ Hleg). set (s2 := mkState _ _ _). split.
    + intros raw He. destruct (jwt_leg_presented i cfg tokens s2 raw Hw He) as (H1 & H2).
      rewrite !then_stop by (by eapply final_decides). by split.
    + intros He -> Hs Hn Hm Hh.
      assert (Hnav : browserNav r = false) by (rewrite (browserNav_frame _ _ Hf); exact Hn).
      rewrite (then_go _ _ _ _ (jwt_leg_none i cfg s2 He)).
      rewrite (then_go (pick_leg i cfg) _ s2 s2) by (unfold pick_leg; cbn [st_r s2 s1]; by rewrite Hnav, andb_false_r).
      rewrite (then_go (saml_leg i cfg) _ s2 s2) by (unfold saml_leg; rewrite Hs; by destruct (a_SAML (auth_of cfg))).
      rewrite (then_go (single_leg i cfg) _ s2 s2) by (unfold single_leg; cbn [st_r s2 s1]; by rewrite Hnav, andb_false_r).
      unfold last_leg. rewrite Hm. split; [done|split; [by apply rejectChallenges_status|]].
      cbn [snd st_w s2 s1]. by rewrite rejectChallenges_header, Hh by exact Hw.
Qed.

(** * Concrete values for the witnesses *)

(** A SAML library with no session anywhere. *)
Definition demo_sp : @SAMLSP demo_crypto :=
  @Build_SAMLSP demo_crypto (λ _ _ _, None)
    (λ _ _ _, inr (λ w, WriteHeader 302 (w_Set "Location" "https://idp/sso" w)))
    (λ _ _ _, mkBuffered 302 ∅ [] "").
#[local] Existing Instances demo_crypto demo_x509 demo_regexp demo_neturl ascii_unicode demo_floats demo_token_lib
  demo_network demo_loginnet demo_oauth2 demo_sha demo_bcrypto demo_env demo_prom demo_metadata demo_sp.

Definition demo_authorized (auth : string) : Request :=
  mkRequest "GET" (mkURL "" "" None "" "/x/y" "" false "" "") {["Authorization" := [auth]]} "" (mkContext None None).
Definition demo_inputs : Inputs :=
  mkInputs 0 0 true true (Err (ENew "canceled")) (Err (ENew "canceled")) demo_randoms (Ok "0123456789ab").
Definition demo_state (r : Request) : state :=
  mkState new_response r (mkRegs demo_saml_registry NewBasicRegistry demo_login_reg).
Definition demo_principal : principal :=
  mkPrincipal ACLModeJWT "https://idp" ""
    {["sub" := AString "alice"; "nonce" := AString "n"; "iss" := AString "https://idp"]}.

Lemma enforceJWT_spec_witness :
  let r := demo_authorized "Bearer https://idp|alice|n" in
  let x := enforceJWT 0 new_response r demo_config (lg_jwt demo_login_reg) in
  x.1.1 = jwtAllowed demo_principal ∧
  x.1.1 = judge false (asked 0 demo_config "https://idp|alice|n" (lg_jwt demo_login_reg)).
Proof.
  cbn zeta. split; [vm_compute; reflexivity|].
  destruct (enforceJWT 0 new_response (demo_authorized "Bearer https://idp|alice|n") demo_config (lg_jwt demo_login_reg))
    as [[o w'] reg'] eqn:E.
  pose proof (enforceJWT_spec 0 new_response _ demo_config (lg_jwt demo_login_reg) o w' reg' eq_refl E) as H.
  assert (He : extractTokenFrom (demo_authorized "Bearer https://idp|alice|n") (auth_of demo_config) =
    Some ("https://idp|alice|n", None)) by (vm_compute; reflexivity).
  rewrite He in H. exact (proj1 H).
Defined.

Lemma demo_reg_inv : reg_inv [] (lg_jwt demo_login_reg).
Proof.
  destruct reg_inv_new as [H1 H2 H3 H4]. split; [exact H1|exact H2|exact H3|exact H4].
Qed.
Lemma authenticate_sound_witness :
  let r := demo_authorized "Bearer https://idp|alice|n" in
  (authenticate demo_inputs demo_config (demo_state r)).1 = Allow (Some demo_principal) r ∧
  identified demo_inputs demo_config (demo_state r) r (Some demo_principal).
Proof.
  cbn zeta. set (s := demo_state _).
  assert (H : (authenticate demo_inputs demo_config s).1 = Allow (Some demo_principal) (demo_authorized "Bearer https://idp|alice|n"))
    by (vm_compute; reflexivity).
  split; [exact H|].
  assert (Hv : Config_Validate demo_defaulted = Ok demo_config) by (vm_compute; reflexivity).
  destruct (authenticate_sound demo_inputs demo_defaulted demo_config s _ (authenticate demo_inputs demo_config s).2
    Hv eq_refl demo_reg_inv (eq_trans (surjective_pairing _) (f_equal (λ o, (o, _)) H))) as (_ & _ & Hid).
  exact Hid.
Defined.

(** Wrong Basic credentials, sent along with nothing else: a 401. *)
Lemma authenticate_precedence_witness :
  let s := demo_state (demo_authorized "Basic YWxpY2U6eA==") in
  let x := authenticate demo_inputs demo_config s in
  extractBasic (st_r s) = basicPresent "alice" "x" ∧ x.1 = Answered ∧ ag_login (st_regs x.2) = ag_login (st_regs s).
Proof.
  cbn zeta. set (s := demo_state _). split; [vm_compute; reflexivity|split; [vm_compute; reflexivity|]].
  pose proof (authenticate_precedence demo_inputs demo_config s eq_refl) as H.
  destruct (TakeRefreshCookies (st_r s) (auth_of demo_config)) as [tokens r]. destruct H as [H _].
  apply H; vm_compute; [reflexivity|discriminate].
Defined.
