(* ===== verification/Middleware.v ===== *)
(** The middleware as a whole ([internal/authn]): label scopes ([promlabel.go]),
    the login routes ([login_picker.go]), the OAuth routes ([oauth.go]) and
    [NewMiddleware] ([middleware.go]), with the link [cmd/token-auth-proxy] makes
    between the JWT registry and the OAuth server.

    [next] is called in tail position or not at all, so [NewMiddleware] returns the
    request it is called with, if it is.  The font's bytes are a parameter. *)
From S2P Require Import Prelude GoStrings ConfigTypes PromScope GoURL GoHTTP Acl ConfigAuth ConfigMain Credentials Basic Jwks Session Login Saml OAuthServer Authenticate.

(** * promlabel.go *)

Definition with_scope (sc : Scope) (r : Request) : Request := with_ctx (mkContext (ctx_session (r_ctx r)) (Some sc)) r.
Definition bypass : Scope := mkScope true [] endpointNone "".

Section promlabel.
Context {C : Crypto} {R : Regexp} {U : Unicode} {F : Floats}.

(** The labels of a rule for a principal, [None] when one has no value. *)
Fixpoint label_values (p : principal) (ls : list PromLabel) : option (list Label) :=
  match ls with
  | [] => Some []
  | l :: ls =>
      match PromLabel_Values l (claimStrings (claim_of p (pl_Claim l))) with
      | [] => None
      | values => cons (mkLabel (pl_Name l) values) <$> label_values p ls
      end
  end.

Definition resolvePromLabels (w : Response) (r : Request) (cfg : Config) (p : option principal)
  : Response * option Request :=
  match ob_PromLabelProxy (c_Outbound cfg) with
  | None => (w, Some r)
  | Some block =>
      let allow s := (w, Some (with_scope s r)) in
      let deny := (rejectForbiddenFor reasonPromLabelDenied w, None) in
      match p with
      | None => deny
      | Some p =>
          if anyPrincipalMatches (pp_Exempt block) p then allow bypass
          else
            match find (λ rule, anyPrincipalMatches (pr_Principals rule) p) (pp_Rules block) with
            | None => deny
            | Some rule =>
                match label_values p (pr_Labels rule) with
                | None => deny
                | Some ls =>
                    if uncleanPath r then deny
                    else if (0 <? length (pp_PassthroughPaths block)) && pathMatches (pp_PassthroughPaths block) (r_Path r)
                    then allow bypass
                    else
                      let '(endpoint, prefix, ok) := Route (pp_prefixes block) (r_Method r) (r_Path r) in
                      if ok then allow (mkScope false ls endpoint prefix) else deny
                end
            end
      end
  end.
End promlabel.

(** * The login routes (login_picker.go) *)

Section routes.
Context {C : Crypto} {X : X509} {R : Regexp} {N : NetURL} {U : Unicode} {F : Floats} {J : JWT} {W : Network}
  {L : LoginNet} {O : OAuth2} {D : Sha256} {B : BasicCrypto} {En : Env} {M : SAMLMetadata} {SP : SAMLSP}.
Variable loginFont : string.

Definition with_URL (u : URL) (r : Request) : Request :=
  mkRequest (r_Method r) u (r_Header r) (r_Body r) (r_ctx r).

Definition runSAMLLogin (i : Inputs) (cfg : Config) (returnTo : string) (s : state) : state :=
  match a_SAML (auth_of cfg) with
  | Some src =>
      let '(mw, reg) := Provider_ (in_now i) src (ag_saml (st_regs s)) in
      let answer w := mkState w (st_r s) (with_saml reg (st_regs s)) in
      match mw with
      | Err _ => answer (rejectUnavailable (st_w s) reasonSAMLMetadataUnavailable defaultSAMLRetry)
      | Ok mw =>
          let target := match url_ParseRequestURI returnTo with
                        | Ok u => u
                        | Err _ => mkURL "" "" None "" "/" "" false "" ""
                        end in
          match enforceSAML (in_now i) mw (st_w s) (with_URL target (st_r s)) with
          | inl r2 => answer (Redirect r2 returnTo 302 (st_w s))
          | inr w => answer w
          end
      end
  | None => s
  end.

(** The method a route names. *)
Definition route_method (r : Request) : option loginMethod :=
  let path := r_Path r in
  if path =? LoginPathPrefix +:+ "/saml" then Some (mkMethod "saml" "" "")
  else if path =? LoginPathPrefix +:+ "/basic" then Some (mkMethod "basic" "" "")
  else if path =? LoginPathPrefix +:+ "/jwt" then Some (mkMethod "jwt" (Values_Get (URL_Query (r_URL r)) "source") "")
  else None.

Definition serveLoginRoute (i : Inputs) (cfg : Config) (s : state) : state :=
  let auth := auth_of cfg in
  let methods := loginMethods auth in
  let r := st_r s in
  let returnTo := sanitizeReturnTo (Values_Get (URL_Query (r_URL r)) "return_to") in
  let answer w := mkState w r (st_regs s) in
  if (r_Method r !=? "GET") && (r_Method r !=? "HEAD") then
    answer (http_Error "method not allowed" 405 (w_Set "Allow" "GET, HEAD" (st_w s)))
  else if r_Path r =? loginFontPath then
    answer (Write loginFont (w_Set "Cache-Control" "public, max-age=31536000, immutable"
      (w_Set "Content-Type" "font/woff2" (st_w s))))
  else if (r_Path r =? LoginPathPrefix) || (r_Path r =? LoginPathPrefix +:+ "/") then
    answer (servePicker (st_w s) methods returnTo)
  else
    match route_method r with
    | None => answer (http_NotFound (st_w s))
    | Some m =>
        if negb (existsb (λ c, (lm_kind c =? lm_kind m) && (lm_source c =? lm_source m)) methods) then
          answer (http_NotFound (st_w s))
        else
          let chosen := answer (setMethodCookie (in_tls i) r m (st_w s)) in
          if lm_kind m =? "basic" then
            match a_Basic auth with
            | Some src =>
                let '(o, w, b) := enforceBasic (in_now i) (in_later i) (in_slot i) (st_w s) r src (ag_basic (st_regs s)) in
                let w := match o with
                         | basicAllowed _ => Redirect r returnTo 302 (setMethodCookie (in_tls i) r m w)
                         | basicNoCredential => rejectChallenges w reasonNoCredential [basicChallenge (b_Realm src)]
                         | basicRejected => w
                         end in
                mkState w r (with_basic b (st_regs s))
            | None => s
            end
          else if lm_kind m =? "saml" then runSAMLLogin i cfg returnTo chosen
          else (start_leg i (jwtLoginSource auth (lm_source m)) returnTo chosen).2
    end.
End routes.

(** * The OAuth routes (oauth.go) *)

(** What [SetLocalSource] is given: a key function by key ID, as golang-jwt
    takes it. *)
Class LocalKeys `{JWT} : Type := { local_keyfn : (string → result ECPrivateKey) → keyfn }.

Section oauth.
Context {C : Crypto} {X : X509} {R : Regexp} {N : NetURL} {U : Unicode} {F : Floats} {J : JWT} {W : Network}
  {L : LoginNet} {O : OAuth2} {D : Sha256} {B : BasicCrypto} {En : Env} {M : SAMLMetadata} {SP : SAMLSP}
  {G : AEAD} {JS : OAuthJSON} {Op : OP}.

(** The principal a token with these claims will be. *)
Definition token_principal (sub email : string) (groups : list string) : principal :=
  let claims : gmap string any := <["groups" := AStrs groups]> {["sub" := AString sub]} in
  mkPrincipal ACLModeJWT OAuthSourceName "" (if email !=? "" then <["email" := AString email]> claims else claims).
Definition tokenPermit (cfg : Config) (sub email : string) (groups : list string) : bool :=
  if c_ACL cfg =? [] then true
  else
    match i_OAuthServer (c_Inbound cfg) with
    | None => false
    | Some o =>
        match url_Parse (o_MCPURL o) with
        | Err _ => false
        | Ok u => aclAllows (c_ACL cfg) (Some (token_principal sub email groups)) "POST" (u_Path u)
        end
    end.

(** The login's authentication: an identity, or the response given. *)
Definition oauth_identify (i : Inputs) (cfg : Config) (w : Response) (r : Request) (g : Regs)
  : option Identity * Response * Regs :=
  let '(o, s) := authenticate i cfg (mkState w r g) in
  match o with
  | Allow None _ => (None, http_Error "forbidden" 403 (st_w s), st_regs s)
  | Allow (Some p) _ =>
      if (p_mode p =? ACLModeJWT) && (p_source p =? OAuthSourceName) then
        (None, http_Error "sign in with your identity provider, not with a token" 403 (st_w s), st_regs s)
      else (Some (mkIdentity (p_mode p) (p_username p) (p_claims p)), st_w s, st_regs s)
  | _ => (None, st_w s, st_regs s)
  end.
Definition serveOAuth (i : Inputs) (cfg : Config) (reg : ORegistry) (s : state) : state :=
  if r_Path (st_r s) !=? OAuthPathPrefix +:+ "/login" then
    mkState (OAuth_ServeHTTP (in_now i) (in_nonce i) (st_w s) (st_r s) reg) (st_r s) (st_regs s)
  else
    let '(w, g) := ServeLogin (in_now i) (in_nonce i) (st_w s) (st_r s) reg (oauth_identify i cfg) (tokenPermit cfg)
                     (st_regs s) in
    mkState w (st_r s) g.
End oauth.

(** * NewMiddleware *)

Section middleware.
Context {C : Crypto} {X : X509} {R : Regexp} {N : NetURL} {U : Unicode} {F : Floats} {J : JWT} {W : Network}
  {L : LoginNet} {O : OAuth2} {D : Sha256} {B : BasicCrypto} {En : Env} {M : SAMLMetadata} {SP : SAMLSP}
  {G : AEAD} {JS : OAuthJSON} {Op : OP} {LK : LocalKeys}.
Variable loginFont : string.

Record Registries := mkRegistries { md_regs : Regs; md_oauth : option ORegistry }.

(** The closures [main] installs read the OAuth registry as it is now. *)
Definition bind_local (o : option ORegistry) (j : Registry) : Registry :=
  match o with
  | Some o => SetLocalSource (local_keyfn (OAuth_Keyfunc o)) (Denied o) j
  | None => j
  end.
(** The four [Reconcile] calls, for the configuration of identity [ptr]. *)
Definition reconcile (ptr : nat) (cfg : Config) (m : Registries) : Registries :=
  let auth := auth_of cfg in
  let g := md_regs m in
  let o := OAuth_Reconcile ptr cfg <$> md_oauth m in
  let jwt := bind_local o (Reconcile ptr auth (lg_jwt (ag_login g))) in
  mkRegistries
    (mkRegs (SAML_Reconcile ptr auth (ag_saml g)) (Basic_Reconcile ptr auth (ag_basic g)) (with_jwt jwt (ag_login g))) o.

(** The source whose callback a path is. *)
Definition callback_of (auth : InboundAuthConfig) (path : string) : option (JWTSource * JWTLogin) :=
  match find (λ j, match j_Login j with
                   | Some lg => LoginEnabled j && (path =? l_CallbackPath lg)
                   | None => false
                   end) (a_JWT auth) with
  | Some j => (λ lg, (j, lg)) <$> j_Login j
  | None => None
  end.
Definition acs_of (auth : InboundAuthConfig) (path : string) : option SAMLSource :=
  match a_SAML auth with
  | Some src => if SAMLEnabled auth && (path =? s_ACSPath src) then Some src else None
  | None => None
  end.
Definition serve_acs (i : Inputs) (src : SAMLSource) (s : state) : state :=
  let '(mw, reg) := Provider_ (in_now i) src (ag_saml (st_regs s)) in
  match mw with
  | Err _ => mkState (rejectUnavailable (st_w s) reasonSAMLMetadataUnavailable defaultSAMLRetry) (st_r s) (with_saml reg (st_regs s))
  | Ok mw =>
      let '(w, reg) := serveACSRetrying (in_now i) src mw (st_w s) (st_r s) reg in
      mkState w (st_r s) (with_saml reg (st_regs s))
  end.

(** The proxy's own routes, served ahead of every credential check. *)
Definition serve_route (i : Inputs) (cfg : Config) (o : option ORegistry) (s : state) : option state :=
  let auth := auth_of cfg in
  let path := r_Path (st_r s) in
  let methods := LoginMethodCount auth in
  match acs_of auth path with
  | Some src => Some (serve_acs i src s)
  | None =>
      match callback_of auth path with
      | Some (src, lg) =>
          let '(w, l) := Callback (in_now i) (st_w s) (st_r s) src lg (ag_login (st_regs s)) in
          Some (mkState w (st_r s) (with_login l (st_regs s)))
      | None =>
          if (0 <? methods) && isLoginRoute path then Some (serveLoginRoute loginFont i cfg s)
          else if (0 <? methods) && isLogoutRoute path then
            let '(w, l) := serveLogout (in_now i) (in_tls i) (st_w s) (st_r s) auth (ag_login (st_regs s)) in
            Some (mkState w (st_r s) (with_login l (st_regs s)))
          else
            match o with
            | Some reg => if Serves reg path then Some (serveOAuth i cfg reg s) else None
            | None => None
            end
      end
  end.

(** The response, the request [next] is called with if it is, and the
    registries. *)
Definition NewMiddleware (i : Inputs) (ptr : nat) (cfg : Config) (w : Response) (r : Request) (m : Registries)
  : Response * option Request * Registries :=
  let m := reconcile ptr cfg m in
  let s := mkState w r (md_regs m) in
  match serve_route i cfg (md_oauth m) s with
  | Some s => (st_w s, None, mkRegistries (st_regs s) (md_oauth m))
  | None =>
      let '(o, s) := authenticate i cfg s in
      let m := mkRegistries (st_regs s) (md_oauth m) in
      match o with
      | Allow p r =>
          let '(w, ok) := authorize (st_w s) r (c_ACL cfg) p in
          if ok then let '(w, fwd) := resolvePromLabels w r cfg p in (w, fwd, m)
          else (w, None, m)
      | _ => (st_w s, None, m)
      end
  end.
End middleware.

(** * Declarative readings *)

Section spec.
Context {C : Crypto} {R : Regexp} {U : Unicode} {F : Floats}.

Definition some_granted (prs : list ACLPrincipal) (p : principal) : Prop :=
  ∃ pr, pr ∈ prs ∧ principal_granted pr p.
(** The first rule for a principal. *)
Definition first_rule (block : PromLabelProxyConfig) (p : principal) (rule : PromLabelRule) : Prop :=
  ∃ before after, pp_Rules block = before ++ rule :: after ∧ some_granted (pr_Principals rule) p ∧
    ∀ r0, r0 ∈ before → ¬ some_granted (pr_Principals r0) p.
Definition labelled (p : principal) (l : PromLabel) (lb : Label) : Prop :=
  lb_Name lb = pl_Name l ∧ lb_Values lb ≠ [] ∧
  lb_Values lb = PromLabel_Values l (claimStrings (claim_of p (pl_Claim l))).
Definition passed_through (block : PromLabelProxyConfig) (r : Request) : Prop :=
  pp_PassthroughPaths block ≠ [] ∧ path_granted (pp_PassthroughPaths block) (r_Path r).

(** The scope of a principal's request. *)
Inductive scoped (block : PromLabelProxyConfig) (p : principal) (r : Request) : Scope → Prop :=
| scoped_exempt : some_granted (pp_Exempt block) p → scoped block p r bypass
| scoped_rule rule ls sc :
    ¬ some_granted (pp_Exempt block) p → first_rule block p rule → Forall2 (labelled p) (pr_Labels rule) ls →
    uncleanPath r = false →
    (passed_through block r ∧ sc = bypass ∨
     ¬ passed_through block r ∧ ∃ e pre, Route (pp_prefixes block) (r_Method r) (r_Path r) = (e, pre, true) ∧
       sc = mkScope false ls e pre) →
    scoped block p r sc.
End spec.

(** * Lemmas *)

Section promlabel_lemmas.
Context {C : Crypto} {R : Regexp} {U : Unicode} {F : Floats}.

Lemma label_values_spec p ls out : label_values p ls = Some out ↔ Forall2 (labelled p) ls out.
Proof.
  revert out. induction ls as [|l ls IH]; intros out; cbn.
  { split; [intros [= <-]; constructor|]. by intros ->%Forall2_nil_inv_l. }
  destruct (PromLabel_Values l _) as [|v vs] eqn:E.
  - split; [done|]. intros (lb & ? & (_ & H & H') & _)%Forall2_cons_inv_l. congruence.
  - split.
    + intros (out' & H%IH & ->)%fmap_Some. constructor; [|done]. split; cbn; [done|]. by rewrite E.
    + intros ([n w] & out' & (H1 & _ & H2) & H%IH & ->)%Forall2_cons_inv_l. cbn in *. rewrite H. cbn. congruence.
Qed.
Lemma passed_through_spec block r :
  (0 <? length (pp_PassthroughPaths block)) && pathMatches (pp_PassthroughPaths block) (r_Path r) = true ↔
  passed_through block r.
Proof.
  unfold passed_through. rewrite andb_true_iff, pathMatches_spec. destruct (pp_PassthroughPaths block); cbn; naive_solver.
Qed.
Lemma first_rule_spec block p rule :
  find (λ rule, anyPrincipalMatches (pr_Principals rule) p) (pp_Rules block) = Some rule ↔ first_rule block p rule.
Proof.
  rewrite find_some_first. unfold first_rule, some_granted. setoid_rewrite <- anyPrincipalMatches_spec.
  setoid_rewrite not_true_iff_false. naive_solver.
Qed.
Lemma rejectForbiddenFor_spec why w :
  w_rejections (rejectForbiddenFor why w) = w_rejections w ++ [why] ∧
  (w_status w = None → w_status (rejectForbiddenFor why w) = Some 403%Z).
Proof. destruct w as [[s|] h ck b rj]; cbn; split; done. Qed.
Lemma claimStrings_spec c s : s ∈ claimStrings c ↔ claim_has c s.
Proof.
  rewrite <- claimContains_spec. destruct c as [|b|x|f|l|l|g]; cbn [claimStrings claimContains scalarEquals scalarString];
    rewrite ?list_elem_of_singleton, ?bool_decide_eq_true, ?elem_of_nil, ?existsb_bool; try naive_solver.
  - setoid_rewrite scalarEquals_spec. rewrite list_elem_of_omap. naive_solver.
  - setoid_rewrite bool_decide_eq_true. naive_solver.
Qed.
End promlabel_lemmas.

Section middleware_lemmas.
Context {C : Crypto} {X : X509} {R : Regexp} {N : NetURL} {U : Unicode} {F : Floats} {J : JWT} {W : Network}.
Implicit Types (cfg : Config).

Lemma resolvePromLabels_scoped w r cfg p block sc :
  ob_PromLabelProxy (c_Outbound cfg) = Some block →
  (resolvePromLabels w r cfg p).2 = Some (with_scope sc r) ↔ ∃ q, p = Some q ∧ scoped block q r sc.
Proof.
  intros Hb. unfold resolvePromLabels. rewrite Hb. cbn zeta.
  assert (Hinj : ∀ a, Some (with_scope a r) = Some (with_scope sc r) ↔ a = sc).
  { intros a. split; [|by intros ->]. intros H. injection H. done. }
  destruct p as [p|]; [|cbn; naive_solver].
  assert (Hq : (∃ q, Some p = Some q ∧ scoped block q r sc) ↔ scoped block p r sc) by naive_solver.
  rewrite Hq. clear Hq. destruct (anyPrincipalMatches (pp_Exempt block) p) eqn:Ex; cbn [snd].
  { rewrite Hinj. apply anyPrincipalMatches_spec in Ex. split; [intros <-; by constructor|]. by inversion 1. }
  assert (Hex : ¬ some_granted (pp_Exempt block) p).
  { unfold some_granted. rewrite <- anyPrincipalMatches_spec. by rewrite Ex. }
  clear Ex. destruct (find _ (pp_Rules block)) as [rule|] eqn:Er.
  2:{ split; [done|]. inversion 1 as [|rule ls ? _ Hr]; [done|]. apply first_rule_spec in Hr. congruence. }
  destruct (label_values p (pr_Labels rule)) as [ls|] eqn:El.
  2:{ split; [done|]. inversion 1 as [|rule' ls ? _ Hr Hl]; [done|]. apply first_rule_spec in Hr.
      apply label_values_spec in Hl. congruence. }
  destruct (uncleanPath r) eqn:Eu; [split; [done|]; inversion 1; [done|congruence]|].
  pose proof (passed_through_spec block r) as Hpass.
  destruct ((0 <? length _) && pathMatches _ _); [|destruct (Route _ _ _) as [[e pre] ok] eqn:Eroute]; cbn [snd].
  - rewrite Hinj. apply proj1 in Hpass. specialize (Hpass eq_refl). split.
    + intros <-. apply first_rule_spec in Er. apply label_values_spec in El. eapply scoped_rule; eauto.
    + inversion 1 as [|? ? ? _ _ _ _ [[_ ->]|[? _]]]; [done|done|done].
  - assert (Hno : ¬ passed_through block r) by (by rewrite <- Hpass). split.
    + destruct ok; cbn; [|done]. rewrite Hinj. intros <-. apply first_rule_spec in Er. apply label_values_spec in El.
      eapply scoped_rule; eauto 10.
    + inversion 1 as [|rule' ls' ? _ Hr Hl _ [[? _]|(_ & e' & pre' & He & ->)]]; [done|done|].
      simplify_eq. apply first_rule_spec in Hr. simplify_eq. apply label_values_spec in Hl. rewrite He in Eroute. by simplify_eq.
Qed.
Lemma resolvePromLabels_cases w r cfg p :
  let '(w', res) := resolvePromLabels w r cfg p in
  match res with
  | Some r' => w' = w ∧ (r' = r ∧ ob_PromLabelProxy (c_Outbound cfg) = None ∨
                         ∃ sc block, r' = with_scope sc r ∧ ob_PromLabelProxy (c_Outbound cfg) = Some block)
  | None => w' = rejectForbiddenFor reasonPromLabelDenied w
  end.
Proof.
  unfold resolvePromLabels. destruct (ob_PromLabelProxy _) as [block|]; [|naive_solver]. cbn zeta.
  destruct p as [p|]; [|done]. destruct (anyPrincipalMatches _ _); [naive_solver|].
  destruct (find _ _) as [rule|]; [|done]. destruct (label_values _ _); [|done].
  destruct (uncleanPath r); [done|]. destruct ((0 <? length _) && _); [naive_solver|].
  destruct (Route _ _ _) as [[? ?] []]; naive_solver.
Qed.
End middleware_lemmas.

Section serve_lemmas.
Context {C : Crypto} {X : X509} {R : Regexp} {N : NetURL} {U : Unicode} {F : Floats} {J : JWT} {W : Network}
  {L : LoginNet} {O : OAuth2} {D : Sha256} {B : BasicCrypto} {En : Env} {M : SAMLMetadata} {SP : SAMLSP}
  {P : PromModel} {G : AEAD} {JS : OAuthJSON} {Op : OP} {LK : LocalKeys}.
Implicit Types (cfg : Config).

(** What the ACL grants. *)
Definition granted cfg (r : Request) (p : option principal) : Prop :=
  c_ACL cfg = [] ∨ uncleanPath r = false ∧ ∃ q rule, p = Some q ∧ rule ∈ c_ACL cfg ∧
    rule_grants rule q (r_Method r) (r_Path r).
Lemma authorize_cases w r cfg p :
  let '(w', ok) := authorize w r (c_ACL cfg) p in
  if ok then w' = w ∧ granted cfg r p else w' = rejectForbidden w.
Proof.
  unfold authorize, granted. case_bool_decide; [by split; [|left]|].
  destruct (uncleanPath r); [done|]. destruct (aclAllows _ _ _ _) eqn:E; [|done].
  apply aclAllows_grants in E. auto.
Qed.
Lemma granted_frame cfg r r' p : frame r = frame r' → granted cfg r p → granted cfg r' p.
Proof.
  unfold frame, granted, uncleanPath, r_Path. intros H. injection H as Hm Hu _ _ _. by rewrite Hm, Hu.
Qed.

(** A token of these claims could be used on the MCP endpoint. *)
Definition token_useful cfg (sub email : string) (groups : list string) : Prop :=
  c_ACL cfg = [] ∨ ∃ o u rule, i_OAuthServer (c_Inbound cfg) = Some o ∧ url_Parse (o_MCPURL o) = Ok u ∧
    rule ∈ c_ACL cfg ∧ rule_grants rule (token_principal sub email groups) "POST" (u_Path u).
Lemma tokenPermit_spec cfg sub email groups : tokenPermit cfg sub email groups = true ↔ token_useful cfg sub email groups.
Proof.
  unfold tokenPermit, token_useful. case_bool_decide; [naive_solver|].
  destruct (i_OAuthServer _) as [o|].
  2:{ split; [done|]. by intros [?|(o & u & rule & ? & _)]. }
  destruct (url_Parse (o_MCPURL o)) as [u|] eqn:Eu.
  2:{ split; [done|]. intros [?|(o' & u & rule & [= <-] & Hu & _)]; congruence. }
  rewrite aclAllows_grants. split.
  - intros (q & rule & [= <-] & H1 & H2). right. by exists o, u, rule.
  - intros [?|(o' & u' & rule & [= <-] & Hu & H1 & H2)]; [done|]. rewrite Eu in Hu. injection Hu as <-. eauto.
Qed.

(** A login that may end in a token: not one made with a token. *)
Definition login_of (i : Inputs) cfg (s : state) (who : Identity) : Prop :=
  ∃ p r, identified i cfg s r (Some p) ∧ ¬ (p_mode p = ACLModeJWT ∧ p_source p = OAuthSourceName) ∧
    who = mkIdentity (p_mode p) (p_username p) (p_claims p).
Lemma oauth_identify_cases i raw cfg w r g :
  Config_Validate raw = Ok cfg → w_status w = None → reg_inv [] (lg_jwt (ag_login g)) →
  let x := oauth_identify i cfg w r g in
  match x.1.1 with
  | Some who => w_status x.1.2 = None ∧ login_of i cfg (mkState w r g) who
  | None => answered_ i x.1.2 ∨ w_status x.1.2 = Some 403%Z
  end.
Proof.
  intros Hv Hw Hi. pose proof (authenticate_ok i cfg (mkState w r g) (Config_Validate_local _ _ Hv) Hw Hi) as H.
  unfold oauth_identify. destruct (authenticate i cfg _) as [[| |[p|] r'] s]; cbn [good st_r] in H; [done|by left| |].
  - destruct H as (Hs & _ & Hid). destruct ((p_mode p =? ACLModeJWT) && (p_source p =? OAuthSourceName)) eqn:E; cbn [fst snd].
    { right. by rewrite http_Error_status. }
    split; [done|]. exists p, r'. split; [done|split; [|done]]. intros [H1 H2]. rewrite H1, H2 in E. by vm_compute in E.
  - right. destruct H as [Hs _]. cbn [fst snd]. by rewrite http_Error_status.
Qed.
Lemma ServeLogin_open_unsent now w r reg w0 x :
  w_status w = None → ServeLogin_open now w r reg = (w0, Some x) → w_status w0 = None.
Proof.
  intros Hw. unfold ServeLogin_open. destruct (og_srv reg), (settings (og_live reg)) as [[? ?]|]; try done.
  case_if; [done|]. destruct (open _ _ _ _); [case_if; [done|]|done]. intros [= <- _]. by autorewrite with resp.
Qed.

(** Is the path one of the proxy's own? *)
Definition own_route cfg (o : option ORegistry) (path : string) : bool :=
  let auth := auth_of cfg in
  bool_decide (is_Some (acs_of auth path)) || bool_decide (is_Some (callback_of auth path)) ||
  ((0 <? LoginMethodCount auth) && (isLoginRoute path || isLogoutRoute path)) ||
  match o with Some reg => Serves reg path | None => false end.
Lemma serve_route_own font i cfg o s : bool_decide (is_Some (serve_route font i cfg o s)) = own_route cfg o (r_Path (st_r s)).
Proof.
  unfold serve_route, own_route. destruct (acs_of _ _) as [src|]; [by rewrite !bool_decide_true by eauto|].
  rewrite (bool_decide_false (is_Some None)) by (by intros [? ?]). cbn [orb].
  destruct (callback_of _ _) as [[src lg]|].
  { destruct (Callback _ _ _ _ _ _). by rewrite !bool_decide_true by eauto. }
  rewrite (bool_decide_false (is_Some None)) by (by intros [? ?]). cbn [orb].
  destruct (0 <? _); cbn [andb orb].
  - destruct (isLoginRoute _); cbn [orb]; [by rewrite bool_decide_true by eauto|].
    destruct (isLogoutRoute _); cbn [orb]; [destruct (serveLogout _ _ _ _ _ _); by rewrite bool_decide_true by eauto|].
    destruct o as [reg|]; [|by rewrite bool_decide_false by (by intros [? ?])].
    destruct (Serves _ _); [by rewrite bool_decide_true by eauto|by rewrite bool_decide_false by (by intros [? ?])].
  - destruct o as [reg|]; [|by rewrite bool_decide_false by (by intros [? ?])].
    destruct (Serves _ _); [by rewrite bool_decide_true by eauto|by rewrite bool_decide_false by (by intros [? ?])].
Qed.
Lemma reconcile_inv ptr cfg m :
  reg_inv [] (lg_jwt (ag_login (md_regs m))) → reg_inv [] (lg_jwt (ag_login (md_regs (reconcile ptr cfg m)))).
Proof.
  intros H. apply (Reconcile_inv ptr (auth_of cfg)) in H. cbn. unfold bind_local.
  destruct (OAuth_Reconcile ptr cfg <$> md_oauth m) as [o|]; [|done]. by destruct H.
Qed.
(** What one request through the middleware can come to. *)
Lemma NewMiddleware_cases font i ptr raw (cfg : Config) w r (m : Registries) w' fwd m' :
  Config_Validate raw = Ok cfg → w_status w = None → reg_inv [] (lg_jwt (ag_login (md_regs m))) →
  NewMiddleware font i ptr cfg w r m = (w', fwd, m') →
  let m1 := reconcile ptr cfg m in
  if own_route cfg (md_oauth m1) (r_Path r) then fwd = None
  else
    match fwd with
    | Some r' =>
        w_status w' = None ∧ ∃ p r1, identified i cfg (mkState w r (md_regs m1)) r1 p ∧ granted cfg r p ∧
          frame r1 = frame r ∧
          match ob_PromLabelProxy (c_Outbound cfg) with
          | None => r' = r1
          | Some block => ∃ q sc, p = Some q ∧ scoped block q r1 sc ∧ r' = with_scope sc r1
          end
    | None => answered_ i w' ∨ w_status w' = Some 403%Z
    end.
Proof.
  intros Hcfg Hw Hi Hrun. cbn zeta. apply (reconcile_inv ptr cfg) in Hi. unfold NewMiddleware in Hrun. cbn zeta in Hrun.
  set (m1 := reconcile ptr cfg m) in *. set (s := mkState w r (md_regs m1)) in *.
  pose proof (serve_route_own font i cfg (md_oauth m1) s) as Hown. cbn [st_r s] in Hown. rewrite <- Hown.
  destruct (serve_route font i cfg (md_oauth m1) s) as [s1|]; [rewrite bool_decide_true by eauto; by simplify_eq|].
  rewrite bool_decide_false by (by intros [? ?]). clear Hown.
  pose proof (authenticate_ok i cfg s (Config_Validate_local _ _ Hcfg) Hw Hi) as H.
  destruct (authenticate i cfg s) as [[| |p r1] s1]; cbn in H; [done|simplify_eq; by left|].
  destruct H as (Hs1 & Hf & Hid). cbn in Hf.
  pose proof (authorize_cases (st_w s1) r1 cfg p) as Ha. destruct (authorize _ _ _ _) as [w2 ok].
  destruct ok; [|simplify_eq; right; by apply rejectForbiddenFor_spec]. destruct Ha as [-> Hg].
  pose proof (resolvePromLabels_cases (st_w s1) r1 cfg p) as Hc.
  destruct (resolvePromLabels (st_w s1) r1 cfg p) as [w3 res] eqn:Er. injection Hrun as <- <- _.
  destruct res as [r'|]; [|right; rewrite Hc; by apply rejectForbiddenFor_spec].
  destruct Hc as [-> Hc]. split; [done|]. exists p, r1. split; [done|split; [by eapply granted_frame|split; [done|]]].
  destruct Hc as [[-> ->]|(sc & block & -> & Eb)]; [done|]. rewrite Eb.
  assert (Hsc : (resolvePromLabels (st_w s1) r1 cfg p).2 = Some (with_scope sc r1)) by (by rewrite Er).
  apply (resolvePromLabels_scoped _ _ _ _ _ _ Eb) in Hsc as (q & -> & Hsc). eauto.
Qed.
End serve_lemmas.

(** * Properties *)

(** C24: label scopes. With [prom_label_proxy] off, requests pass as they are.
    With it on, a request goes on with exactly one scope when its principal has
    one: exempt, or by the first rule that names the principal, all of whose
    labels have a value, for a clean path that is passed through, or routed to an
    endpoint; any other request, and every one without a principal, gets a single
    403 recorded as prom_label_denied. Each value of a scope's labels comes from
    the principal's own claims under the label's pattern and is not empty, and a
    scope that does not bypass has at least one for each of its labels. *)
Theorem resolvePromLabels_spec {C : Crypto} {R : Regexp} {U : Unicode} {F : Floats} w r (cfg : Config) p :
  let '(w', res) := resolvePromLabels w r cfg p in
  match ob_PromLabelProxy (c_Outbound cfg) with
  | None => w' = w ∧ res = Some r
  | Some block =>
      (∀ sc, res = Some (with_scope sc r) ↔ ∃ q, p = Some q ∧ scoped block q r sc) ∧
      (∀ r', res = Some r' → w' = w ∧ ∃ sc, r' = with_scope sc r) ∧
      (res = None → w_rejections w' = w_rejections w ++ [reasonPromLabelDenied] ∧
                    (w_status w = None → w_status w' = Some 403%Z)) ∧
      (∀ q sc lb, p = Some q → scoped block q r sc → lb ∈ sc_Labels sc → lb_Values lb ≠ [] ∧
         ∃ l, lb_Name lb = pl_Name l ∧
           ∀ v, v ∈ lb_Values lb ↔ ∃ x, claim_has (claim_of q (pl_Claim l)) x ∧ label_value l x v)
  end.
Proof.
  pose proof (resolvePromLabels_scoped w r cfg p) as Hs. pose proof (resolvePromLabels_cases w r cfg p) as Hc.
  destruct (resolvePromLabels w r cfg p) as [w' res] eqn:E. cbn in Hs.
  destruct (ob_PromLabelProxy (c_Outbound cfg)) as [block|] eqn:Eb.
  - split; [intros sc; by apply Hs|]. split; [|split].
    + intros r' ->. destruct Hc as [-> [[_ ?]|(sc & ? & -> & _)]]; [done|]. eauto.
    + intros ->. rewrite Hc. apply rejectForbiddenFor_spec.
    + intros q sc lb -> Hsc Hlb. inversion Hsc as [|rule ls ? _ _ Hl _ Hor]; subst; [by apply elem_of_nil in Hlb|].
      destruct Hor as [[_ ->]|(_ & e & pre & _ & ->)]; [by apply elem_of_nil in Hlb|]. cbn in Hlb.
      apply list_elem_of_lookup in Hlb as (k & Hk). destruct (Forall2_lookup_r _ _ _ _ _ Hl Hk) as (l & _ & Hn & Hv & Heq).
      split; [done|]. exists l. split; [done|]. intros v. rewrite Heq, PromLabel_Values_elem.
      by setoid_rewrite claimStrings_spec.
  - unfold resolvePromLabels in E. rewrite Eb in E. by simplify_eq.
Qed.

(** C11: who gets an OAuth login. Under a validated configuration, once the
    login route has opened a pending request, either the authentication answered
    (a challenge, a login redirect, or a 403 when it identified nobody or someone
    who presented a token this server issued), and nothing is sealed; or it
    identified someone by another credential, and a redirect is then to the
    provider's callback with a sealed finished login, for a subject that is not
    denied and whose token the ACL would let use the MCP endpoint. *)
Theorem serveOAuth_login {C : Crypto} {X : X509} {R : Regexp} {N : NetURL} {U : Unicode} {F : Floats} {J : JWT} {W : Network}
    {L : LoginNet} {O : OAuth2} {D : Sha256} {B : BasicCrypto} {En : Env} {M : SAMLMetadata} {SP : SAMLSP}
    {P : PromModel} {G : AEAD} {JS : OAuthJSON} {Op : OP} (i : Inputs) raw (cfg : Config) (reg : ORegistry) (s : state)
    w0 sv srv tok d
    (Hcfg : Config_Validate raw = Ok cfg) (Hw : w_status (st_w s) = None) (Hi : reg_inv [] (lg_jwt (ag_login (st_regs s))))
    (Hpath : r_Path (st_r s) = "/_tap/oauth/login")
    (Hopen : ServeLogin_open (in_now i) (st_w s) (st_r s) reg = (w0, Some (sv, srv, tok, d))) :
  let w' := st_w (serveOAuth i cfg reg s) in
  let x := oauth_identify i cfg w0 (st_r s) (st_regs s) in
  match x.1.1 with
  | None => w' = x.1.2 ∧ (answered_ i w' ∨ w_status w' = Some 403%Z)
  | Some who =>
      login_of i cfg (mkState w0 (st_r s) (st_regs s)) who ∧
      (w_status w' = Some 302%Z → ∃ sub email groups done,
         extract who (t_Claims tok) = Ok (sub, email, groups) ∧ Denied reg sub = false ∧
         token_useful cfg sub email groups ∧
         seal (sg_sealer (sv_storage sv)) (in_nonce i) kindDone
           (json_req (done_data (in_now i) srv d who sub email groups)) = Ok done ∧
         Header_Get (w_header w') "Location" = redirect_location (st_r s) (sv_callbackURL sv +:+ "?id=" +:+ QueryEscape done))
  end.
Proof.
  cbn zeta. unfold serveOAuth. rewrite Hpath. change (bool_decide _) with true. cbn [negb].
  unfold ServeLogin. rewrite Hopen. pose proof (ServeLogin_open_unsent _ _ _ _ _ _ Hw Hopen) as Hw0.
  pose proof (oauth_identify_cases i raw cfg w0 (st_r s) (st_regs s) Hcfg Hw0 Hi) as H. cbn zeta in H.
  destruct (oauth_identify i cfg w0 (st_r s) (st_regs s)) as [[[who|] w1] g]; cbn [fst snd st_w] in *; [|done].
  destruct H as [Hw1 Hl]. split; [done|]. unfold ServeLogin_done.
  destruct (extract who (t_Claims tok)) as [[[sub email] groups]|]; [|by rewrite http_Error_status].
  destruct (Denied reg sub || negb (tokenPermit cfg sub email groups)) eqn:E; [by rewrite http_Error_status|].
  apply orb_false_iff in E as [Ed Ep%negb_false_iff%tokenPermit_spec].
  destruct (seal _ _ _ _) as [done_|] eqn:Es; [|by rewrite http_Error_status]. intros _.
  exists sub, email, groups, done_. split_and!; [done..|]. by apply Redirect_spec.
Qed.

(** C1: what reaches the backend. Under a validated configuration, one request
    through the middleware does exactly one of three things. Its path is one of
    the proxy's own, and it is never forwarded. Or it is forwarded, with nothing
    written: as a principal that one of its credentials establishes, or as nobody
    only when no mode is enabled; with the ACL granting that principal its method
    and path; unchanged but for its cookies, its session, and the label scope it
    must carry when the label proxy is on. Or it is answered: by a 302, 401, 403,
    500 or 503, or by the SAML library. *)
Theorem middleware_forwards {C : Crypto} {X : X509} {R : Regexp} {N : NetURL} {U : Unicode} {F : Floats} {J : JWT} {W : Network}
    {L : LoginNet} {O : OAuth2} {D : Sha256} {B : BasicCrypto} {En : Env} {M : SAMLMetadata} {SP : SAMLSP}
    {P : PromModel} {G : AEAD} {JS : OAuthJSON} {Op : OP} {LK : LocalKeys}
    font (i : Inputs) ptr raw (cfg : Config) w r (m : Registries) w' fwd m'
    (Hcfg : Config_Validate raw = Ok cfg) (Hw : w_status w = None) (Hi : reg_inv [] (lg_jwt (ag_login (md_regs m))))
    (Hrun : NewMiddleware font i ptr cfg w r m = (w', fwd, m')) :
  let m1 := reconcile ptr cfg m in
  if own_route cfg (md_oauth m1) (r_Path r) then fwd = None
  else
    match fwd with
    | Some r' =>
        w_status w' = None ∧ ∃ p r1, identified i cfg (mkState w r (md_regs m1)) r1 p ∧ granted cfg r p ∧
          frame r1 = frame r ∧
          match ob_PromLabelProxy (c_Outbound cfg) with
          | None => r' = r1
          | Some block => ∃ q sc, p = Some q ∧ scoped block q r1 sc ∧ r' = with_scope sc r1
          end
    | None => answered_ i w' ∨ w_status w' = Some 403%Z
    end.
Proof. by eapply NewMiddleware_cases. Qed.

(** * Concrete values for the witnesses *)

(** The key function of the derived source is the key named "k1". *)
Definition demo_local_keys : @LocalKeys demo_crypto demo_floats demo_token_lib :=
  @Build_LocalKeys demo_crypto demo_floats demo_token_lib (λ f, match f "k1" with Ok k => k | Err _ => "" end).
#[local] Existing Instances demo_crypto demo_x509 demo_regexp demo_neturl ascii_unicode demo_floats demo_token_lib
  demo_network demo_loginnet demo_oauth2 demo_sha demo_bcrypto demo_env demo_prom demo_metadata demo_sp
  demo_gcm demo_oauth_json demo_op demo_local_keys.

(** Tokens of the OAuth server may use /x and /mcp, scoped by their subject. *)
Definition demo_mid_raw : Config :=
  let c := demo_raw in
  Config_applyDefaults (mkConfig (c_ListenAddr c) (c_Target c) (c_TargetCACert c) (c_Timeouts c) (c_Inbound c)
    (mkOutbound (ob_Token (c_Outbound c))
       (Some (mkProm ["/x/"] [] [mkPromRule [mkACLPrincipal "jwt" "tap-oauth" "" ∅] [mkPromLabel "ns" "sub" "" None]] [] [])))
    [mkACLRule [mkACLPrincipal "jwt" "tap-oauth" "" ∅] [] ["/x/*"; "/mcp"]] None None).
Definition demo_mid_config : Config := match demo_validate demo_mid_raw with Ok c => c | Err _ => demo_mid_raw end.
Lemma demo_mid_valid : Config_Validate demo_mid_raw = Ok demo_mid_config.
Proof. vm_compute. reflexivity. Qed.
Definition demo_token_claims : gmap string any :=
  {["sub" := AString "alice"; "nonce" := AString "n"; "iss" := AString "https://p/_tap/oauth"]}.
Definition demo_token_principal : principal := mkPrincipal ACLModeJWT OAuthSourceName "" demo_token_claims.
Definition demo_query : Request :=
  mkRequest "GET" (mkURL "" "" None "" "/x/api/v1/query" "" false "" "")
    {["Authorization" := ["Bearer https://p/_tap/oauth|alice|n"]]} "" (mkContext None None).
Definition demo_scope : Scope := mkScope false [mkLabel "ns" ["alice"]] endpointQuery "/x".

Lemma resolvePromLabels_spec_witness :
  resolvePromLabels new_response demo_query demo_mid_config (Some demo_token_principal) =
    (new_response, Some (with_scope demo_scope demo_query)) ∧
  ∃ block, ob_PromLabelProxy (c_Outbound demo_mid_config) = Some block ∧ scoped block demo_token_principal demo_query demo_scope.
Proof.
  assert (Hr : resolvePromLabels new_response demo_query demo_mid_config (Some demo_token_principal) =
    (new_response, Some (with_scope demo_scope demo_query))) by (vm_compute; reflexivity).
  split; [exact Hr|].
  pose proof (resolvePromLabels_spec new_response demo_query demo_mid_config (Some demo_token_principal)) as H.
  rewrite Hr in H. destruct (ob_PromLabelProxy (c_Outbound demo_mid_config)) as [block|] eqn:E.
  - exists block. split; [reflexivity|]. destruct H as [H _]. destruct (proj1 (H demo_scope) eq_refl) as (q & [= <-] & Hs).
    exact Hs.
  - exfalso. vm_compute in E. discriminate E.
Defined.

(** A pending request, opened by alice with her password. *)
Definition demo_mid_oreg : ORegistry := OAuth_Reconcile 1 demo_mid_config NewORegistry.
Definition demo_login_request : Request :=
  mkRequest "GET" (mkURL "" "" None "" "/_tap/oauth/login" "" false ("id=" +:+ ar_id demo_req) "")
    {["Authorization" := ["Basic YWxpY2U6YSR4"]]} "" (mkContext None None).
Lemma serveOAuth_login_witness :
  let s := demo_state demo_login_request in
  let w' := st_w (serveOAuth demo_inputs demo_mid_config demo_mid_oreg s) in
  w_status w' = Some 302%Z ∧ Denied demo_mid_oreg "alice" = false ∧ token_useful demo_mid_config "alice" "" [].
Proof.
  cbn zeta. set (s := demo_state _).
  assert (H302 : w_status (st_w (serveOAuth demo_inputs demo_mid_config demo_mid_oreg s)) = Some 302%Z) by (vm_compute; reflexivity).
  split; [exact H302|].
  destruct (ServeLogin_open (in_now demo_inputs) (st_w s) (st_r s) demo_mid_oreg) as [w0 [[[[sv srv] tok] d]|]] eqn:Eo.
  2:{ exfalso. vm_compute in Eo. discriminate Eo. }
  pose proof (serveOAuth_login demo_inputs demo_mid_raw demo_mid_config demo_mid_oreg s w0 sv srv tok d
    demo_mid_valid eq_refl demo_reg_inv eq_refl Eo) as H. cbn zeta in H.
  assert (Hid : (oauth_identify demo_inputs demo_mid_config w0 (st_r s) (st_regs s)).1.1 = Some (mkIdentity "basic" "alice" ∅)).
  { injection Eo as <- _ _ _ _. vm_compute. reflexivity. }
  rewrite Hid in H. destruct H as [_ H]. destruct (H H302) as (sub & email & groups & tk & He & Hd & Hu & _).
  assert (Hx : extract (mkIdentity "basic" "alice" ∅) (t_Claims tok) = Ok ("alice", "", [])).
  { injection Eo as _ _ _ <- _. vm_compute. reflexivity. }
  rewrite Hx in He. injection He as <- <- <-. split; [exact Hd|exact Hu].
Defined.

Definition demo_registries : Registries :=
  mkRegistries (mkRegs demo_saml_registry NewBasicRegistry demo_login_reg) (Some NewORegistry).
Lemma middleware_forwards_witness :
  let x := NewMiddleware "font" demo_inputs 1 demo_mid_config new_response demo_query demo_registries in
  x.1.2 = Some (with_scope demo_scope demo_query) ∧ w_status x.1.1 = None ∧
  ∃ p, granted demo_mid_config demo_query p ∧ p ≠ None.
Proof.
  cbn zeta.
  assert (Hfwd : (NewMiddleware "font" demo_inputs 1 demo_mid_config new_response demo_query demo_registries).1.2 =
    Some (with_scope demo_scope demo_query)) by (vm_compute; reflexivity).
  split; [exact Hfwd|].
  destruct (NewMiddleware "font" demo_inputs 1 demo_mid_config new_response demo_query demo_registries)
    as [[w' fwd] m'] eqn:E. cbn [fst snd] in *. subst fwd.
  pose proof (middleware_forwards "font" demo_inputs 1 demo_mid_raw demo_mid_config new_response demo_query demo_registries
    w' _ m' demo_mid_valid eq_refl demo_reg_inv E) as H. cbn zeta in H.
  assert (Ho : own_route demo_mid_config (md_oauth (reconcile 1 demo_mid_config demo_registries)) (r_Path demo_query) = false)
    by (vm_compute; reflexivity).
  rewrite Ho in H. destruct H as (Hs & p & r1 & _ & Hg & _ & Hb). split; [exact Hs|]. exists p. split; [exact Hg|].
  destruct (ob_PromLabelProxy (c_Outbound demo_mid_config)) as [block|] eqn:Eb.
  - destruct Hb as (q & sc & -> & _). discriminate.
  - exfalso. vm_compute in Eb. discriminate Eb.
Defined.

(** The branch of [authenticate] for a login cookie found stale twice can be
    taken: a cookie whose name is followed by a space is read as the login cookie,
    but not dropped. *)
Lemma stale_twice :
  let r := mkRequest "GET" (mkURL "" "" None "" "/x/y" "" false "" "") {["Cookie" := ["tap_id_token =junk"]]} "" (mkContext None None) in
  let x := authenticate demo_inputs demo_mid_config (demo_state r) in
  x.1 = Answered ∧ w_status (st_w x.2) = Some 401%Z ∧ w_rejections (st_w x.2) = [reasonInvalidClaims].
Proof. vm_compute. split_and!; reflexivity. Qed.
