(* ===== verification/Registries.v ===== *)
(** What a request may do to the registries it shares with all others: whatever the
    middleware does, their invariants are kept, and the decisions made with them are
    those of the configuration in force, with no registry in the way. *)
From S2P Require Import Prelude GoStrings ConfigTypes PromScope GoURL GoHTTP Acl ConfigAuth ConfigMain Credentials Basic Jwks Session Login Saml OAuthServer Authenticate Middleware.

(** * The invariant *)

Section registries.
Context {C : Crypto} {X : X509} {R : Regexp} {N : NetURL} {U : Unicode} {F : Floats} {J : JWT} {W : Network}
  {L : LoginNet} {O : OAuth2} {D : Sha256} {B : BasicCrypto} {En : Env} {M : SAMLMetadata} {SP : SAMLSP}.

(** [inv]: what is kept of the JWT registry. *)
Record regs_ok (inv : Registry → Prop) (g : Regs) : Prop := {
  ro_jwt : inv (lg_jwt (ag_login g));
  ro_saml : Saml.saml_ok (ag_saml g);
  ro_basic : cache_ok (ag_basic g)
}.
(** A password that the request presents is free of the separator of the cache's
    keys, and so is what it is checked against. *)
Definition cred_plain (cfg : Config) (r : Request) : Prop :=
  ∀ src u pw, a_Basic (auth_of cfg) = Some src → extractBasic r = basicPresent u pw → plain src u pw.
Lemma cred_plain_frame cfg r r' : frame r = frame r' → cred_plain cfg r → cred_plain cfg r'.
Proof. intros H%extractBasic_frame Hr src u pw. rewrite <- H. apply Hr. Qed.

End registries.

(** ** One registry at a time *)

Section each.
Context {C : Crypto} {X : X509} {R : Regexp} {N : NetURL} {U : Unicode} {F : Floats} {J : JWT} {W : Network}
  {L : LoginNet} {O : OAuth2} {D : Sha256} {B : BasicCrypto} {En : Env} {M : SAMLMetadata} {SP : SAMLSP}.

Variable inv : Registry → Prop.
Hypothesis Hinv : ∀ j j', jwt_kept j j' → inv j → inv j'.
Notation regs_ok := (regs_ok inv).

Lemma regs_ok_login g l : regs_ok g → jwt_kept (lg_jwt (ag_login g)) (lg_jwt l) → regs_ok (with_login l g).
Proof. intros [H1 H2 H3] Hk. split; [by eapply Hinv|done..]. Qed.
Lemma regs_ok_saml g s : regs_ok g → Saml.saml_ok s → regs_ok (with_saml s g).
Proof. by intros [H1 H2 H3] Hs; split. Qed.
Lemma regs_ok_basic g b : regs_ok g → cache_ok b → regs_ok (with_basic b g).
Proof. by intros [H1 H2 H3] Hb; split. Qed.

Lemma saml_built_ok closed now src p expiry e r n : sr_fingerprint r = samlFingerprint src → fetchAndBuild closed now n src = Ok (p, expiry) →
  Saml.saml_ok (saml_built now src p expiry e r).
Proof. intros Hf Hb p' [= <-]. cbn. rewrite Hf. exists src, n, now, expiry. split; [done|by eapply fetchAndBuild_open]. Qed.
Lemma Provider_ok now src r res r' : Saml.saml_ok r → Provider_ now src r = (res, r') →
  Saml.saml_ok r' ∧ ∀ p, res = Ok p → built_for_saml (samlFingerprint src) p.
Proof.
  intros Hr H. unfold Provider_ in H. fold (saml_at (samlFingerprint src) r) in H.
  pose proof (saml_at_fp (samlFingerprint src) r) as [Hfp _]. apply (saml_at_ok (samlFingerprint src)) in Hr.
  revert Hfp Hr H. generalize (saml_at (samlFingerprint src) r). intros r0 Hfp Hr H.
  enough (Saml.saml_ok r' ∧ (∀ p, res = Ok p → sr_provider r' = Some p) ∧ sr_fingerprint r' = samlFingerprint src) as (H1 & H2 & H3).
  { split; [done|]. intros p Hp%H2. rewrite <- H3. by apply H1. }
  destruct (sr_provider r0) as [p|] eqn:Ep.
  - destruct (now <? sr_refreshAt r0)%Z; [simplify_eq; split_and!; [done|by intros ? [= <-]|done]|].
    destruct (fetchAndBuild (sr_closed r0) now (sr_fetches r0) src) as [[p' expiry]|e] eqn:Ef; simplify_eq.
    + split_and!; [by eapply saml_built_ok|by intros ? [= <-]|done].
    + split_and!; [intros ? [= <-]; by apply Hr|by intros ? [= <-]|done].
  - destruct (now <? sr_nextTry r0)%Z; [simplify_eq; split_and!; [done|done|done]|].
    destruct (fetchAndBuild (sr_closed r0) now (sr_fetches r0) src) as [[p' expiry]|e] eqn:Ef; simplify_eq.
    + split_and!; [by eapply saml_built_ok|by intros ? [= <-]|done].
    + split_and!; [done|done|done].
Qed.
Lemma RefreshNow_ok now src r : Saml.saml_ok r → Saml.saml_ok (RefreshNow now src r).2.
Proof.
  intros Hr. unfold RefreshNow. destruct (_ || _) eqn:H; [done|]. apply orb_false_iff in H as [Hf%negb_false_iff _].
  case_if; [done|]. destruct (fetchAndBuild _ _ _ _) as [[p expiry]|e] eqn:Ef; cbn; [|by intros p Hp; apply Hr].
  eapply saml_built_ok; [|done]. symmetry. by apply bool_decide_eq_true in Hf.
Qed.
Lemma serveACSRetrying_ok now src mw w r reg : Saml.saml_ok reg → Saml.saml_ok (serveACSRetrying now src mw w r reg).2.
Proof.
  intros Hr. unfold serveACSRetrying. case_if; [done|]. cbn zeta. case_if; [|done].
  apply (RefreshNow_ok now src) in Hr. by destruct (RefreshNow now src reg).
Qed.

(** A registry's answer, cached or not, is the direct one. *)
Lemma Verify_ok now now' slot src u pw (b : BasicRegistry) : plain src u pw → cache_ok b →
  cache_ok (Verify now now' slot src u pw b).2.
Proof.
  intros Hp Hb. unfold Verify. case_if; [done|].
  destruct (lookup_ now _ b) as [[ok|] b'] eqn:El; apply cache_ok_lookup in El; try done.
  destruct (verify_uncached slot src u pw) as [[ok|e]|] eqn:Ev; [|done..]. cbn.
  apply verify_uncached_ok in Ev as ->. by apply cache_ok_store.
Qed.
Lemma Verify_direct (Hmac : ∀ m m', hmac_sum m = hmac_sum m' → m = m') now now' slot src u pw (b : BasicRegistry) :
  plain src u pw → cache_ok b → (Verify now now' slot src u pw b).1 = Ok true → direct src u pw = true.
Proof.
  intros Hp Hb. unfold Verify. case_if; [done|].
  destruct (lookup_ now _ b) as [[ok|] b'] eqn:El.
  - intros [= ->]. symmetry. by eapply hit_direct.
  - destruct (verify_uncached slot src u pw) as [[ok|e]|] eqn:Ev; [|done..]. cbn. intros [= ->].
    symmetry. by eapply verify_uncached_ok.
Qed.
Lemma enforceBasic_ok now now' slot w r cfg src (b : BasicRegistry) : a_Basic (auth_of cfg) = Some src → cred_plain cfg r →
  cache_ok b → cache_ok (enforceBasic now now' slot w r src b).2.
Proof.
  intros Ha Hr Hb. unfold enforceBasic. destruct (extractBasic r) as [| |u pw] eqn:Ee; [done..|].
  pose proof (Verify_ok now now' slot src u pw b (Hr _ _ _ Ha Ee) Hb) as H.
  by destruct (Verify _ _ _ _ _ _ _) as [[[]|] b'].
Qed.
Lemma endpoints_kept now src l res l' : endpoints now src l = (res, l') → jwt_kept (lg_jwt l) (lg_jwt l').
Proof. intros [-> _]%endpoints_jwt. done. Qed.
Lemma Start_kept now rn w r src lg ret l : jwt_kept (lg_jwt l) (lg_jwt (Start now rn w r src lg ret l).2).
Proof.
  unfold Start. destruct (endpoints now src l) as [ep l1] eqn:Ee. apply endpoints_kept in Ee.
  destruct ep; [|done]. destruct (randomToken (rn_state rn)), (randomToken (rn_nonce rn)); done.
Qed.
Lemma Callback_kept now w r src lg l : jwt_kept (lg_jwt l) (lg_jwt (Callback now w r src lg l).2).
Proof.
  unfold Callback. cbn zeta. case_if; [done|]. destruct (Cookie_ r _) as [c|]; [|done].
  destruct (callback_state _ _ _) as [[st code]|[status msg]]; [|done]. unfold callback_exchange.
  destruct (endpoints now src l) as [ep l1] eqn:Ee. apply endpoints_kept in Ee. destruct ep as [e|]; [|done].
  destruct (Exchange _ _ _ _ _) as [tok|]; [|done]. case_if; [done|].
  destruct (verifyIDToken now src (tk_IDToken tok) (count_net l1)) as [v l2] eqn:Ev. apply verifyIDToken_kept in Ev.
  assert (Hk : jwt_kept (lg_jwt l) (lg_jwt l2)) by (by etrans).
  destruct v as [[claims maxAge]|err]; case_if; done.
Qed.
Lemma serveLogout_kept now tls w r auth l : jwt_kept (lg_jwt l) (lg_jwt (serveLogout now tls w r auth l).2).
Proof.
  unfold serveLogout. case_if; [done|]. destruct (foldl _ _ _) as [es w1]. destruct es as [[[src lg] id]|]; [|done].
  unfold endSessionURL. destruct (endpoints now src l) as [ep l1] eqn:Ee. by apply endpoints_kept in Ee.
Qed.
Lemma refresh_loop_kept now waited w r srcs tokens l :
  jwt_kept (lg_jwt l) (lg_jwt (refresh_loop now waited w r srcs tokens l).2).
Proof.
  revert w l. induction srcs as [|src srcs IH]; intros w l; cbn [refresh_loop]; [done|].
  destruct (j_Login src) as [lg|]; [|apply IH]. case_if; [apply IH|].
  destruct (redeem now waited src lg _ l) as [out l1] eqn:Er. apply redeem_kept in Er. destruct out as [o|e]; [done|].
  case_if; [|done]. etrans; [done|apply IH].
Qed.
Lemma Refresh_kept now waited w r auth tokens l : jwt_kept (lg_jwt l) (lg_jwt (Refresh now waited w r auth tokens l).2).
Proof. unfold Refresh. case_if; [done|]. destruct (extractToken r auth); [done|apply refresh_loop_kept]. Qed.
End each.

(** ** The legs *)

Section legs.
Context {C : Crypto} {X : X509} {R : Regexp} {N : NetURL} {U : Unicode} {F : Floats} {J : JWT} {W : Network}
  {L : LoginNet} {O : OAuth2} {D : Sha256} {B : BasicCrypto} {En : Env} {M : SAMLMetadata} {SP : SAMLSP}.
Variables (i : Inputs) (cfg : Config) (inv : Registry → Prop).
Hypothesis Hinv : ∀ j j', jwt_kept j j' → inv j → inv j'.
Notation regs_ok := (regs_ok inv).

(** For requests of [P], the leg keeps the invariant. *)
Definition leg_keeps (P : Request → Prop) (l : leg) : Prop :=
  ∀ s, P (st_r s) → regs_ok (st_regs s) → regs_ok (st_regs (l s).2).
Definition every : Request → Prop := λ _, True.
Lemma then_keeps P a b : leg_keeps P a → leg_keeps every b → leg_keeps P (then_ a b).
Proof.
  intros Ha Hb s Hs Hg. specialize (Ha s Hs Hg). unfold then_. destruct (a s) as [[| |p r] s']; [|done..]. by apply Hb.
Qed.
Lemma basic_keeps : leg_keeps (cred_plain cfg) (basic_leg i cfg).
Proof.
  intros s Hr Hg. unfold basic_leg. destruct (a_Basic (auth_of cfg)) as [src|] eqn:Ea; [|done]. case_if; [|done].
  pose proof (enforceBasic_ok (in_now i) (in_later i) (in_slot i) (st_w s) (st_r s) cfg src _ Ea Hr (ro_basic _ _ Hg)) as Hb.
  destruct (enforceBasic _ _ _ _ _ _ _) as [[o w] b]. destruct o; by apply regs_ok_basic.
Qed.
Lemma refresh_keeps waited tokens : leg_keeps every (refresh_leg i waited cfg tokens).
Proof.
  intros s _ Hg. unfold refresh_leg.
  pose proof (Refresh_kept (in_now i) waited (st_w s) (st_r s) (auth_of cfg) tokens (ag_login (st_regs s))) as Hk.
  destruct (Refresh _ _ _ _ _ _ _) as [[[b w] r] l]. by apply regs_ok_login.
Qed.
Lemma run_enforceJWT_keeps s : regs_ok (st_regs s) → regs_ok (st_regs (run_enforceJWT i cfg s).2).
Proof.
  intros Hg. unfold run_enforceJWT.
  pose proof (enforceJWT_kept (in_now i) (st_w s) (st_r s) cfg (lg_jwt (ag_login (st_regs s)))).
  destruct (enforceJWT _ _ _ _ _) as [[o w] j]. by apply regs_ok_login.
Qed.
Lemma jwt_switch_keeps os : regs_ok (st_regs os.2) → regs_ok (st_regs (jwt_switch cfg os).2).
Proof. by destruct os as [[] s]. Qed.
Lemma jwt_keeps tokens : leg_keeps every (jwt_leg i cfg tokens).
Proof.
  unfold jwt_leg. case_if; [|by intros s]. apply then_keeps; [apply refresh_keeps|]. intros s _ Hg.
  pose proof (run_enforceJWT_keeps s Hg) as H. destruct (run_enforceJWT i cfg s) as [o s1].
  destruct o; try by apply (jwt_switch_keeps (_, s1)).
  destruct (DropStaleLogin _ _ _) as [w r]. apply (then_keeps every); [apply refresh_keeps| |done|done].
  intros s2 _ Hg2. by apply jwt_switch_keeps, run_enforceJWT_keeps.
Qed.
Lemma start_keeps src ret : leg_keeps every (start_leg i src ret).
Proof.
  intros s _ Hg. unfold start_leg. destruct src as [src|]; [|done]. destruct (j_Login src) as [lg|]; [|done].
  pose proof (Start_kept (in_now i) (in_randoms i) (st_w s) (st_r s) src lg ret (ag_login (st_regs s))) as Hk.
  destruct (Start _ _ _ _ _ _ _ _) as [w l]. by apply regs_ok_login.
Qed.
Lemma pick_keeps : leg_keeps every (pick_leg i cfg).
Proof.
  intros s Hs Hg. unfold pick_leg. case_if; [|done]. destruct (chosenMethod _ _) as [m|]; [|done].
  case_if; [done|]. case_if; [by apply start_keeps|done].
Qed.
Lemma saml_keeps : leg_keeps every (saml_leg i cfg).
Proof.
  intros s _ Hg. unfold saml_leg. destruct (a_SAML (auth_of cfg)) as [src|]; [|done]. case_if; [|done].
  destruct (Provider_ _ src _) as [mw reg] eqn:Ep. apply Provider_ok in Ep as [Hr _]; [|apply Hg].
  apply (regs_ok_saml _ _ _ Hg) in Hr. destruct mw; [|done]. case_if; [by destruct (GetSession _ _ _)|].
  by destruct (enforceSAML _ _ _ _).
Qed.
Lemma single_keeps : leg_keeps every (single_leg i cfg).
Proof.
  intros s Hs Hg. unfold single_leg. case_if; [|done].
  destruct (LoginSources (auth_of cfg)) as [|src [|]]; [done|by apply start_keeps|done].
Qed.
Lemma last_keeps : leg_keeps every (last_leg cfg).
Proof. intros s _ Hg. unfold last_leg. by case_if. Qed.
Lemma authenticate_keeps : leg_keeps (cred_plain cfg) (authenticate i cfg).
Proof.
  intros s Hr Hg. unfold authenticate. pose proof (TakeRefreshCookies_frame (st_r s) (auth_of cfg)) as Hf.
  destruct (TakeRefreshCookies (st_r s) (auth_of cfg)) as [tokens r]. cbn [snd] in Hf.
  apply (then_keeps (cred_plain cfg)); [apply basic_keeps| |by eapply cred_plain_frame|done].
  repeat first [apply (then_keeps every)|apply jwt_keeps|apply pick_keeps|apply saml_keeps|apply single_keeps|apply last_keeps].
Qed.
End legs.

(** ** The OAuth server's fingerprint *)

Lemma s_app_same_length p q s t : String.length p = String.length q → p +:+ s = q +:+ t → p = q ∧ s = t.
Proof.
  revert q. induction p as [|a p IH]; intros [|b q] Hl H; [done|done|done|]. injection Hl as Hl. injection H as -> H.
  destruct (IH _ Hl H) as [-> ->]. done.
Qed.

(** The number that decimal digits after [v] make. *)
Fixpoint digits_value (v : Z) (s : string) : Z :=
  match s with "" => v | String a s => digits_value (v * 10 + (byte a - 48))%Z s end.
Lemma itoa_digits_value f n acc : (0 ≤ n < 10 ^ Z.of_nat f)%Z → 0 < f →
  digits_value 0 (itoa_digits f n acc) = digits_value n acc.
Proof.
  revert n acc. induction f as [|f IH]; intros n acc Hn Hf; [lia|]. cbn [itoa_digits]. destruct (Z.ltb_spec n 10).
  - cbn. rewrite (Z.mod_small n 10), byte_char by lia. f_equal. lia.
  - rewrite IH; cbn.
    + rewrite byte_char by (pose proof (Z.mod_pos_bound n 10); lia). f_equal. pose proof (Z.div_mod n 10). lia.
    + rewrite Nat2Z.inj_succ, Z.pow_succ_r in Hn by lia. split; [by apply Z.div_pos; lia|by apply Z.div_lt_upper_bound; lia].
    + destruct f; [|lia]. cbn in Hn. lia.
Qed.
Lemma itoa_digits_free f n acc : (0 ≤ n)%Z → sep_free ":" acc → sep_free ":" (itoa_digits f n acc).
Proof.
  revert n acc. induction f as [|f IH]; intros n acc Hn Ha; [done|]. cbn [itoa_digits].
  assert (sep_free ":" (String (char (48 + n mod 10)) acc)).
  { apply sep_free_cons. split; [|done]. intros H%(f_equal byte). pose proof (Z.mod_pos_bound n 10).
    rewrite byte_char in H by lia. change (byte ":") with 58%Z in H. lia. }
  case_if; [done|]. apply IH; [by apply Z.div_pos; lia|done].
Qed.
Lemma Itoa_inj m n : (0 ≤ m < 10 ^ 20)%Z → (0 ≤ n < 10 ^ 20)%Z → Itoa m = Itoa n → m = n.
Proof.
  intros Hm Hn H. unfold Itoa in H. rewrite !(proj2 (Z.ltb_ge _ _)) in H by lia.
  apply (f_equal (digits_value 0)) in H. by rewrite !itoa_digits_value in H by (done || lia).
Qed.
Definition short (p : string) : Prop := (Z.of_nat (String.length p) < 10 ^ 20)%Z.
Lemma write_part_inj p p' s s' : short p → short p' → write_part p +:+ s = write_part p' +:+ s' → p = p' ∧ s = s'.
Proof.
  intros Hp Hp' H. unfold write_part in H. rewrite !s_app_assoc in H.
  apply (f_equal (λ x, Cut x ":")) in H.
  assert (Hf : ∀ q : string, sep_free ":" (Itoa (Z.of_nat (String.length q)))).
  { intros q. unfold Itoa. rewrite (proj2 (Z.ltb_ge _ _)) by lia. apply itoa_digits_free; [lia|]. apply sep_free_nil. }
  rewrite !app_cons, !app_nil_l' in H. rewrite !Cut_app in H by done. injection H as H1 H2. apply Itoa_inj in H1; [|unfold short in *; lia..].
  apply Nat2Z.inj in H1. destruct (s_app_same_length _ _ _ _ H1 H2) as [-> H3]. by injection H3 as ->.
Qed.
Lemma write_parts_inj l l' : Forall short l → Forall short l' →
  concat_string (write_part <$> l) = concat_string (write_part <$> l') → l = l'.
Proof.
  intros Hl. revert l'. induction Hl as [|p l Hp _ IH]; intros [|p' l'] Hl' H; [done|..].
  - exfalso. cbn in H. symmetry in H. apply s_app_eq_nil in H as [H _]. apply (f_equal String.length) in H.
    unfold write_part in H. rewrite !s_length_app in H. cbn in H. lia.
  - exfalso. cbn in H. apply s_app_eq_nil in H as [H _]. apply (f_equal String.length) in H.
    unfold write_part in H. rewrite !s_length_app in H. cbn in H. lia.
  - inversion Hl'; subst. cbn in H. apply write_part_inj in H as [-> H]; [|done..]. f_equal. by apply IH.
Qed.

(** A run of groups that open with a tag, up to what opens with none. *)
Lemma tagged_inj {A} (tag : string) (f : A → list string) (Hf : ∀ x y (t t' : list string), f x ++ t = f y ++ t' → x = y ∧ t = t') l l' t t' :
  head t ≠ Some tag → head t' ≠ Some tag →
  flat_map (λ x, tag :: f x) l ++ t = flat_map (λ x, tag :: f x) l' ++ t' → l = l' ∧ t = t'.
Proof.
  intros Ht Ht'. revert l'. induction l as [|x l IH]; intros [|y l'] H; cbn in H.
  - done.
  - subst t. by destruct Ht.
  - subst t'. by destruct Ht'.
  - injection H as H. rewrite <- !app_assoc in H. apply Hf in H as [-> H]. by destruct (IH _ H) as [-> ->].
Qed.
Section fingerprint.
Context {C : Crypto} {R : Regexp} {N : NetURL} {U : Unicode} {F : Floats} {G : AEAD} {JS : OAuthJSON} {Op : OP} {D : Sha256}.

Lemma fingerprint_parts_inj srv tok srv' tok' : fingerprint_parts srv tok = fingerprint_parts srv' tok' →
  o_SPBaseURL srv = o_SPBaseURL srv' ∧ o_MCPURL srv = o_MCPURL srv' ∧ t_Audience tok = t_Audience tok' ∧
  t_SigningKeys tok = t_SigningKeys tok' ∧ o_SealingKeys srv = o_SealingKeys srv'.
Proof.
  unfold fingerprint_parts. set (tl := flat_map (λ c, "client" :: _) _ ++ _). set (tl' := flat_map (λ c, "client" :: _) (o_Clients srv') ++ _).
  assert (Hs : ∀ (o : OAuthServerConfig) x, head (flat_map (λ c, "client" :: oc_ID c :: oc_RedirectURIs c) (o_Clients o) ++ ["register"; x]) ≠ Some "seal" ∧
    head (flat_map (λ k, ["seal"; k]) (o_SealingKeys o) ++ flat_map (λ c, "client" :: oc_ID c :: oc_RedirectURIs c) (o_Clients o) ++ ["register"; x]) ≠ Some "sig").
  { intros o x. by destruct (o_SealingKeys o), (o_Clients o). }
  intros H. cbn [app] in H. injection H as H1 H2 H3 H.
  apply (tagged_inj "sig" (λ k, [sk_KID k; sk_PrivateKey k])) in H as [Hk H]; [|clear|apply Hs..].
  2: { intros [a b] [a' b'] t t' [= -> -> ->]. done. }
  apply (tagged_inj "seal" (λ k, [k])) in H as [Hk' _]; [done|clear|apply Hs..].
  intros a a' t t' [= -> ->]. done.
Qed.
Lemma oauth_fingerprint_inj srv tok srv' tok' (Hsha : ∀ a b : string, sha256_hex a = sha256_hex b → a = b) :
  Forall short (fingerprint_parts srv tok) → Forall short (fingerprint_parts srv' tok') →
  oauth_fingerprint srv tok = oauth_fingerprint srv' tok' → fingerprint_parts srv tok = fingerprint_parts srv' tok'.
Proof. intros H1 H2 H%Hsha. by apply write_parts_inj in H. Qed.
End fingerprint.

(** ** The middleware *)

Section middleware_regs.
Context {C : Crypto} {X : X509} {R : Regexp} {N : NetURL} {U : Unicode} {F : Floats} {J : JWT} {W : Network}
  {L : LoginNet} {O : OAuth2} {D : Sha256} {B : BasicCrypto} {En : Env} {M : SAMLMetadata} {SP : SAMLSP}
  {P : PromModel} {G : AEAD} {JS : OAuthJSON} {Op : OP} {LK : LocalKeys}.
Implicit Types (cfg : Config) (m : Registries).

Section keeps.
Variable inv : Registry → Prop.
Hypothesis Hinv : ∀ j j', jwt_kept j j' → inv j → inv j'.
Notation regs_ok := (regs_ok inv).

Lemma oauth_identify_keeps i cfg w r g : cred_plain cfg r → regs_ok g → regs_ok (oauth_identify i cfg w r g).2.
Proof.
  intros Hr Hg. unfold oauth_identify. pose proof (authenticate_keeps i cfg inv Hinv (mkState w r g) Hr Hg) as H.
  destruct (authenticate i cfg _) as [o s]. destruct o as [| |[p|] r']; [done..| |done]. by case_if.
Qed.
Lemma serveOAuth_keeps i cfg reg s : cred_plain cfg (st_r s) → regs_ok (st_regs s) → regs_ok (st_regs (serveOAuth i cfg reg s)).
Proof.
  intros Hr Hg. unfold serveOAuth. case_if; [done|]. unfold ServeLogin.
  destruct (ServeLogin_open _ _ _ _) as [w [[[[sv srv] tok] d]|]]; [|done].
  pose proof (oauth_identify_keeps i cfg w (st_r s) (st_regs s) Hr Hg) as H.
  by destruct (oauth_identify i cfg w (st_r s) (st_regs s)) as [[[who|] w1] g].
Qed.
Lemma runSAMLLogin_keeps i cfg ret s : regs_ok (st_regs s) → regs_ok (st_regs (runSAMLLogin i cfg ret s)).
Proof.
  intros Hg. unfold runSAMLLogin. destruct (a_SAML (auth_of cfg)) as [src|]; [|done].
  destruct (Provider_ _ src _) as [mw reg] eqn:Ep. apply Provider_ok in Ep as [Hr _]; [|apply Hg].
  apply (regs_ok_saml _ _ _ Hg) in Hr. destruct mw; [|done]. by destruct (enforceSAML _ _ _ _).
Qed.
Lemma serveLoginRoute_keeps font i cfg s : cred_plain cfg (st_r s) → regs_ok (st_regs s) → regs_ok (st_regs (serveLoginRoute font i cfg s)).
Proof.
  intros Hr Hg. unfold serveLoginRoute. cbn zeta. repeat (case_if; [done|]).
  destruct (route_method (st_r s)) as [m|]; [|done]. case_if; [done|]. case_if.
  - destruct (a_Basic (auth_of cfg)) as [src|] eqn:Ea; [|done].
    pose proof (enforceBasic_ok (in_now i) (in_later i) (in_slot i) (st_w s) (st_r s) cfg src _ Ea Hr (ro_basic _ _ Hg)) as Hb.
    destruct (enforceBasic _ _ _ _ _ _ _) as [[o w] b]. by apply regs_ok_basic.
  - case_if; [by apply runSAMLLogin_keeps|by apply start_keeps].
Qed.
Lemma serve_route_keeps font i cfg o s s' : cred_plain cfg (st_r s) → regs_ok (st_regs s) →
  serve_route font i cfg o s = Some s' → regs_ok (st_regs s').
Proof.
  intros Hr Hg H. unfold serve_route in H. destruct (acs_of _ _) as [src|].
  { injection H as <-. unfold serve_acs. destruct (Provider_ _ src _) as [mw reg] eqn:Ep.
    apply Provider_ok in Ep as [Hs _]; [|apply Hg]. destruct mw as [mw|]; [|by apply regs_ok_saml].
    pose proof (serveACSRetrying_ok (in_now i) src mw (st_w s) (st_r s) reg Hs).
    destruct (serveACSRetrying _ _ _ _ _ _) as [w reg']. by apply regs_ok_saml. }
  destruct (callback_of _ _) as [[src lg]|].
  { pose proof (Callback_kept (in_now i) (st_w s) (st_r s) src lg (ag_login (st_regs s))) as Hk.
    destruct (Callback _ _ _ _ _ _) as [w l]. injection H as <-. by apply regs_ok_login. }
  case_if_in H; [injection H as <-; by apply serveLoginRoute_keeps|]. case_if_in H.
  { pose proof (serveLogout_kept (in_now i) (in_tls i) (st_w s) (st_r s) (auth_of cfg) (ag_login (st_regs s))) as Hk.
    destruct (serveLogout _ _ _ _ _ _) as [w l]. injection H as <-. by apply regs_ok_login. }
  destruct o as [reg|]; [|done]. case_if_in H; [|done]. injection H as <-. by apply serveOAuth_keeps.
Qed.

End keeps.

(** The configurations that have been in force. *)
Variable known : Config → Prop.
(** The OAuth server in force: for the current configuration, from a validated one
    with the same fingerprint. *)
Definition oauth_built (o : ORegistry) : Prop := ∀ s, og_srv o = Some s → ∃ cfg' srv tok,
  known cfg' ∧ settings (Some cfg') = Ok (srv, tok) ∧ build srv tok (oauth_fingerprint srv tok) = Ok s.
Definition srv_for cfg (o : ORegistry) : Prop := ∀ s, og_srv o = Some s →
  ∃ srv tok, settings (Some cfg) = Ok (srv, tok) ∧ sv_fingerprint s = oauth_fingerprint srv tok.
Record governs cfg (o : ORegistry) : Prop := { gv_live : og_live o = Some cfg; gv_srv : srv_for cfg o }.
Lemma build_fingerprint srv tok fp s : build srv tok fp = Ok s → sv_fingerprint s = fp.
Proof. unfold build. intros H. run_checks H. done. Qed.
Lemma OAuth_Reconcile_ok ptr cfg (o : ORegistry) : known cfg → oauth_built o →
  (og_seen o = Some ptr → governs cfg o) →
  let o' := OAuth_Reconcile ptr cfg o in oauth_built o' ∧ og_seen o' = Some ptr ∧ governs cfg o'.
Proof.
  intros Hv Hb Hg. unfold OAuth_Reconcile. destruct (og_seen o =? Some ptr) eqn:E.
  { apply bool_decide_eq_true in E. auto. }
  destruct (settings (Some cfg)) as [[srv tok]|] eqn:Es.
  2: { split_and!; [by intros s ?|done|split; [done|by intros s ?]]. }
  cbn zeta. destruct (match og_srv o with Some _ => _ | None => _ end) eqn:Ef.
  - destruct (og_srv o) as [s0|] eqn:Eo; [|done]. apply bool_decide_eq_true in Ef.
    split_and!; [intros s [= <-]; by apply Hb|done|split; [done|]]. intros s [= <-]. eauto.
  - destruct (build srv tok (oauth_fingerprint srv tok)) as [s0|] eqn:Ebd.
    + split_and!; [|done|split; [done|]]; intros s [= <-]; [eauto 10|].
      exists srv, tok. split; [done|]. by eapply build_fingerprint.
    + split_and!; [by intros s ?|done|split; [done|by intros s ?]].
Qed.

(** The registries while the configuration of identity [ptr] is [cfg]. *)
Record mids_ok (ptr : nat) cfg m : Prop := {
  mo_regs : regs_ok (reg_inv []) (md_regs m);
  mo_built : ∀ o, md_oauth m = Some o → oauth_built o;
  mo_seen : ∀ o k, md_oauth m = Some o → og_seen o = Some k → k ≤ ptr ∧ (k = ptr → governs cfg o)
}.
Lemma mids_ok_new ptr cfg o : o = None ∨ o = Some NewORegistry →
  mids_ok ptr cfg (mkRegistries (mkRegs NewSAMLRegistry NewBasicRegistry (NewLoginRegistry NewRegistry)) o).
Proof.
  intros Ho. split; cbn.
  - split; cbn; [apply reg_inv_new|apply saml_ok_new|apply cache_ok_new].
  - intros o' ->. destruct Ho as [?|[= ->]]; [done|]. by intros s ?.
  - intros o' k ->. destruct Ho as [?|[= ->]]; done.
Qed.
(** The configuration changes: so does the identity. *)
Lemma mids_ok_reload ptr cfg cfg' m : mids_ok ptr cfg m → mids_ok (Datatypes.S ptr) cfg' m.
Proof. intros [H1 H2 H3]. split; [done..|]. intros o k Ho Hk. destruct (H3 o k Ho Hk). split; [lia|]. intros ->. lia. Qed.
Lemma reconcile_ok ptr cfg m : known cfg → mids_ok ptr cfg m →
  let m' := reconcile ptr cfg m in
  mids_ok ptr cfg m' ∧ ∀ o, md_oauth m' = Some o → governs cfg o ∧
    rg_local (lg_jwt (ag_login (md_regs m'))) = Some (local_keyfn (OAuth_Keyfunc o)) ∧
    rg_denied (lg_jwt (ag_login (md_regs m'))) = Some (Denied o).
Proof.
  intros Hv [Hg Hb Hs]. cbn zeta.
  assert (Ho : ∀ o, OAuth_Reconcile ptr cfg <$> md_oauth m = Some o → oauth_built o ∧ og_seen o = Some ptr ∧ governs cfg o).
  { intros o (o0 & E & ->)%fmap_Some. apply OAuth_Reconcile_ok; [done|by apply Hb|]. intros E'. by apply (Hs o0 ptr). }
  split.
  - split; cbn [md_regs md_oauth reconcile].
    + destruct Hg as [H1 H2 H3]. split; [by apply reconcile_inv|by apply saml_ok_Reconcile|by apply cache_ok_Reconcile].
    + intros o H%Ho. apply H.
    + intros o k H%Ho Hk. destruct H as (_ & H & Hgov). assert (k = ptr) as -> by congruence. by split.
  - intros o H. cbn [md_oauth reconcile] in H. destruct (Ho o H) as (_ & _ & Hgov). split; [done|].
    cbn. rewrite H. done.
Qed.
Lemma NewMiddleware_keeps font i ptr cfg w r m : known cfg → cred_plain cfg r → mids_ok ptr cfg m →
  mids_ok ptr cfg (NewMiddleware font i ptr cfg w r m).2.
Proof.
  intros Hv Hr Hm. destruct (reconcile_ok ptr cfg m Hv Hm) as [[Hg Hb Hs] _].
  assert (Hinv : ∀ j j', jwt_kept j j' → reg_inv [] j → reg_inv [] j') by (intros j j'; apply jk_inv).
  assert (Hkeep : ∀ g, regs_ok (reg_inv []) g → mids_ok ptr cfg (mkRegistries g (md_oauth (reconcile ptr cfg m)))) by (intros g ?; by split).
  unfold NewMiddleware. cbn zeta. set (s := mkState w r _).
  destruct (serve_route font i cfg _ s) as [s1|] eqn:Er; [apply Hkeep; by eapply (serve_route_keeps _ Hinv font i cfg _ s)|].
  pose proof (authenticate_keeps i cfg _ Hinv s Hr Hg) as Ha. destruct (authenticate i cfg s) as [o s1]. cbn [snd] in Ha.
  destruct o as [| |p r1]; [by apply Hkeep..|]. destruct (authorize _ _ _ _) as [w1 ok]. destruct ok; [|by apply Hkeep].
  destruct (resolvePromLabels _ _ _ _) as [w2 fwd]. by apply Hkeep.
Qed.
End middleware_regs.

(** * Who a request is from, with no registry in the way *)

(** The keys validation leaves are those of the signing keys configured. *)
Lemma settings_keys {C : Crypto} {X : X509} {R : Regexp} {N : NetURL} {U : Unicode} {En : Env} {P : PromModel} raw (cfg : Config) srv tok :
  Config_Validate raw = Ok cfg → settings (Some cfg) = Ok (srv, tok) →
  t_SigningKeys tok ≠ [] ∧ parse_keys ∅ (t_SigningKeys tok) = Ok (t_keys tok).
Proof.
  intros Hv Hs. unfold Config_Validate in Hv.
  destruct (negb (SplitHostPort_ok _)); [done|]. destruct (bool_decide (c_Target raw = "")); [done|].
  apply rbind_ok in Hv as (u & _ & Hv). apply rbind_ok in Hv as ([] & _ & Hv). apply rbind_ok in Hv as ([o t] & Ho & Hv).
  apply rbind_ok in Hv as ([] & _ & Hv). apply rbind_ok in Hv as (prom & _ & Hv).
  apply rbind_ok in Hv as (pool & _ & Hv). injection Hv as <-. unfold settings in Hs. cbn in Hs.
  destruct o as [o|], t as [t|]; try done. case_if_in Hs; [|done]. injection Hs as -> ->.
  unfold validateOAuth in Ho. destruct (i_OAuthServer (c_Inbound raw)) as [o0|], (ob_Token (c_Outbound raw)) as [t0|]; try done.
  apply rbind_ok in Ho as (o1 & _ & Ho). apply rbind_ok in Ho as (t1 & Ht1%rwrap_ok & Ho).
  apply rbind_ok in Ho as ([] & _ & Ho). apply rbind_ok in Ho as ([] & _ & Ho). case_if_in Ho; [done|].
  injection Ho as _ ->. unfold TokenConfig_validate in Ht1. run_checks Ht1. split; [|done]. cbn. by bool_hyps.
Qed.

Section authentic.
Context {C : Crypto} {X : X509} {R : Regexp} {N : NetURL} {U : Unicode} {F : Floats} {J : JWT} {W : Network}
  {L : LoginNet} {O : OAuth2} {D : Sha256} {B : BasicCrypto} {En : Env} {M : SAMLMetadata} {SP : SAMLSP}
  {P : PromModel} {G : AEAD} {JS : OAuthJSON} {Op : OP} {LK : LocalKeys}.
Implicit Types (cfg : Config) (m : Registries).

(** The key function of the proxy's own tokens: no key when the OAuth server could
    not be built, and otherwise the configuration's. *)
Inductive own_keys cfg : keyfn → Prop :=
| own_none : own_keys cfg (local_keyfn (λ _, Err errDisabled))
| own_some srv tok km : settings (Some cfg) = Ok (srv, tok) → newKeyManager (t_keys tok) = Ok km →
    own_keys cfg (local_keyfn (km_keyfunc km)).
Definition token_sub (claims : gmap string any) : string := match claims !! "sub" with Some (AString s) => s | _ => "" end.
(** A request is a principal's by one of its credentials, checked directly against
    a configuration; [vouched]: a key function and subject of the proxy's own tokens. *)
Inductive authentic_by (vouched : keyfn → string → Prop) cfg (now : Z) (r : Request) : principal → Prop :=
| by_password src u pw :
    a_Basic (auth_of cfg) = Some src → b_Disabled src = false → extractBasic r = basicPresent u pw →
    direct src u pw = true → authentic_by vouched cfg now r (basicPrincipal u)
| by_token raw from iss src claims kf :
    extractTokenFrom r (auth_of cfg) = Some (raw, from) → unverifiedIssuer raw = Ok iss →
    src ∈ List.filter (issuer_match iss) (a_JWT (auth_of cfg)) → verify raw src kf = Ok claims →
    (if j_Local src then vouched kf (token_sub claims) else built_for (fingerprint src) kf) →
    authentic_by vouched cfg now r (jwtPrincipal src claims)
| by_saml src mw ss r0 :
    a_SAML (auth_of cfg) = Some src → s_Disabled src = false → built_for_saml (samlFingerprint src) mw →
    frame r0 = frame r → (GetSession now mw r0 = Some ss ∨ RequireAccount now mw r0 = inl ss) →
    ctx_session (r_ctx r) = Some ss → authentic_by vouched cfg now r (samlPrincipal ss).
(** The configuration's own keys, and a subject that it does not deny. *)
Definition vouched_by cfg (kf : keyfn) (sub : string) : Prop := own_keys cfg kf ∧ storage_denied (Some cfg) sub = false.
Definition authentic cfg : Z → Request → principal → Prop := authentic_by (vouched_by cfg) cfg.
Lemma authentic_by_mono (V V' : keyfn → string → Prop) cfg now r q : (∀ kf sub, V kf sub → V' kf sub) →
  authentic_by V cfg now r q → authentic_by V' cfg now r q.
Proof.
  intros HV [src u pw|raw from iss src claims kf ? ? ? ? Hk|src mw ss r0]; [by eapply by_password| |by eapply by_saml].
  eapply by_token; [done..|]. destruct (j_Local src); auto.
Qed.

(** What a request that goes on is, by [cfg]: [r1] is the request with its cookies and
    session settled, [r2] what goes on. *)
Definition passed_by (vouched : keyfn → string → Prop) cfg (now : Z) (r r2 : Request) : Prop :=
  ∃ p r1, match p with Some q => authentic_by vouched cfg now r1 q | None => Enabled (auth_of cfg) = false end ∧
    granted cfg r p ∧ frame r1 = frame r ∧
    match ob_PromLabelProxy (c_Outbound cfg) with
    | None => r2 = r1
    | Some block => ∃ q sc, p = Some q ∧ scoped block q r1 sc ∧ r2 = with_scope sc r1
    end.
Lemma passed_by_mono (V V' : keyfn → string → Prop) cfg now r r2 : (∀ kf sub, V kf sub → V' kf sub) →
  passed_by V cfg now r r2 → passed_by V' cfg now r r2.
Proof.
  intros HV (p & r1 & Hp & H). exists p, r1. split; [|done]. destruct p; [|done]. by eapply authentic_by_mono.
Qed.

Variable known : Config → Prop.
Hypothesis Hvalid : ∀ cfg, known cfg → ∃ raw, Config_Validate raw = Ok cfg.
Hypothesis Hshort : ∀ cfg srv tok, known cfg → settings (Some cfg) = Ok (srv, tok) → Forall short (fingerprint_parts srv tok).
Hypothesis Hsha : ∀ a b : string, sha256_hex a = sha256_hex b → a = b.
Hypothesis Hmac : ∀ a b : string, hmac_sum a = hmac_sum b → a = b.

Lemma governs_keys cfg o : known cfg → oauth_built known o → srv_for cfg o → own_keys cfg (local_keyfn (OAuth_Keyfunc o)).
Proof.
  intros Hk Hb Hs. unfold OAuth_Keyfunc. destruct (og_srv o) as [s|] eqn:Eo; [|constructor].
  destruct (Hb s Eo) as (cfg' & srv' & tok' & Hk' & Hset' & Hbd). destruct (Hs s Eo) as (srv & tok & Hset & Hf).
  apply build_fingerprint in Hbd as Hf'. rewrite Hf in Hf'. apply oauth_fingerprint_inj in Hf'; [|done|exact (Hshort _ _ _ Hk Hset)|exact (Hshort _ _ _ Hk' Hset')].
  apply fingerprint_parts_inj in Hf' as (_ & _ & _ & Hkeys & _).
  destruct (Hvalid _ Hk) as [raw Hv], (Hvalid _ Hk') as [raw' Hv'].
  destruct (settings_keys _ _ _ _ Hv Hset) as [_ Hp], (settings_keys _ _ _ _ Hv' Hset') as [_ Hp'].
  rewrite Hkeys in Hp. assert (Ht : t_keys tok = t_keys tok') by congruence.
  unfold build in Hbd. apply rbind_ok in Hbd as (km & Hkm & Hbd). run_checks Hbd. cbn.
  apply own_some with srv tok; [done|]. by rewrite Ht.
Qed.

(** What the middleware establishes with its registries holds without them. *)
Lemma identified_authentic i ptr cfg w r m r1 q : known cfg → mids_ok known ptr cfg m → cred_plain cfg r →
  (∃ o, md_oauth m = Some o) →
  identified i cfg (mkState w r (md_regs (reconcile ptr cfg m))) r1 (Some q) → frame r1 = frame r →
  authentic cfg (in_now i) r1 q.
Proof.
  intros Hk Hm Hr [o0 Ho] Hid Hf. destruct (reconcile_ok known ptr cfg m Hk Hm) as [[[Hj Hs Hb] Hbd _] Hgov].
  assert (Hsome : ∃ o, md_oauth (reconcile ptr cfg m) = Some o) by (cbn; rewrite Ho; eauto).
  destruct Hsome as [o Ho']. destruct (Hgov o Ho') as (Hg & Hloc & Hden). clear Hgov.
  destruct Hid as [Hid|[Hid|Hid]].
  - destruct Hid as (src & u & pw & Ha & Hd & He & Hver & ->). apply by_password with src pw; [done..|].
    eapply (Verify_direct Hmac); [|exact Hb|exact Hver]. apply (Hr _ _ _ Ha). by rewrite <- (extractBasic_frame _ _ Hf).
  - destruct Hid as (raw & from & He & iss & src & claims & Hiss & [Hin (kf & Hkf & Hv) Hnd] & ->).
    apply by_token with raw from iss kf; [done..|]. unfold keys_for in Hkf. cbn [st_regs] in Hkf, Hnd.
    destruct (j_Local src) eqn:El; [|done]. rewrite Hloc in Hkf. injection Hkf as <-.
    split; [by apply governs_keys; [|apply Hbd|apply Hg]|]. specialize (Hnd eq_refl). unfold deniedLocalSubject in Hnd.
    rewrite Hden in Hnd. unfold Denied in Hnd. by rewrite (gv_live _ _ Hg) in Hnd.
  - destruct Hid as (src & mw & ss & r0 & Ha & Hd & Hp & Hf' & Hss & Hc & ->). cbn [st_regs] in Hp.
    destruct (Provider_ (in_now i) src (ag_saml (md_regs (reconcile ptr cfg m)))) as [res reg] eqn:Ep.
    apply Provider_ok in Ep as [_ Hbuilt]; [|done]. cbn [fst] in Hp. subst res.
    apply by_saml with src mw r0; auto.
Qed.
End authentic.
