(* ===== verification/Atomic.v ===== *)
(** Code that shares state with other goroutines, as a sequence of atomic steps.

    A program does one step at a time on the shared state: a part of the code under one
    lock, or one atomic load or store.  A step can block, as taking a held lock does.
    [run] is the program with no other in between.  [safe] says what it does when others
    step in between: if they keep to what is relied on, it keeps the invariant and its
    own guarantee, and its result is as specified. *)
From S2P Require Import Prelude.

Inductive prog (S A : Type) : Type :=
| Ret (a : A)
| Act {B : Type} (op : S → option (B * S)) (k : B → prog S A).
Arguments Ret {S A} a.
Arguments Act {S A B} op k.

Section prog.
Context {S : Type}.

Fixpoint bind {A B} (p : prog S A) (f : A → prog S B) : prog S B :=
  match p with
  | Ret a => f a
  | Act op k => Act op (λ b, bind (k b) f)
  end.
(** One step. *)
Definition act {B} (op : S → option (B * S)) : prog S B := Act op Ret.
Definition step {A} (p : prog S A) (s : S) : option (prog S A * S) :=
  match p with
  | Ret _ => None
  | Act op k => match op s with Some (b, s') => Some (k b, s') | None => None end
  end.
(** All of it; [None] when it blocks. *)
Fixpoint run {A} (p : prog S A) (s : S) : option (A * S) :=
  match p with
  | Ret a => Some (a, s)
  | Act op k => match op s with Some (b, s') => run (k b) s' | None => None end
  end.

Lemma run_bind {A B} (p : prog S A) (f : A → prog S B) s :
  run (bind p f) s = match run p s with Some (a, s') => run (f a) s' | None => None end.
Proof. revert s. induction p as [a|T op k IH]; intros s; [done|]. cbn. destruct (op s) as [[b s']|]; [apply IH|done]. Qed.
Lemma run_then {A B} (p : prog S A) (f : A → prog S B) s a s' : run p s = Some (a, s') → run (bind p f) s = run (f a) s'.
Proof. intros H. by rewrite run_bind, H. Qed.
(** Its steps come to an end, whatever the states in which it takes them. *)
Lemma step_wf {A} (p : prog S A) : Acc (λ p' p, ∃ s s', step p s = Some (p', s')) p.
Proof.
  induction p as [a|T op k IH]; constructor; intros p' (s & s' & H); cbn in H; [done|].
  destruct (op s) as [[b s1]|]; [|done]. injection H as <- _. apply IH.
Qed.
Lemma run_act {B} (op : S → option (B * S)) s : run (act op) s = op s.
Proof. cbn. by destruct (op s) as [[b s']|]. Qed.
End prog.

Declare Scope prog_scope.
Delimit Scope prog_scope with prog.
Notation "'do' x ← p ; k" := (bind p (λ x, k)) (at level 200, x name, p at level 100, k at level 200) : prog_scope.
Notation "'do' ' x ← p ; k" := (bind p (λ y, match y with x => k end))
  (at level 200, x pattern, p at level 100, k at level 200) : prog_scope.

(** * Reasoning about a program among others *)

(** What all programs keep, what this one relies on, and what it guarantees. *)
Record contract (S : Type) := mkContract {
  c_inv : S → Prop; c_rely : S → S → Prop; c_guar : S → S → Prop;
  c_refl : Reflexive c_rely; c_trans : Transitive c_rely
}.
Arguments mkContract {S}.
Arguments c_inv {S}.
Arguments c_rely {S}.
Arguments c_guar {S}.
Arguments c_refl {S}.
Arguments c_trans {S}.

Section safe.
Context {S : Type} (c : contract S).

(** One step from [s], as allowed, with [Q] of what comes after. *)
Definition allowed {B} (op : S → option (B * S)) (Q : B → S → Prop) (s : S) : Prop :=
  match op s with Some (b, s') => c_inv c s' ∧ c_guar c s s' ∧ Q b s' | None => True end.
Lemma allowed_mono {B} (op : S → option (B * S)) (Q Q' : B → S → Prop) s :
  (∀ b s', c_inv c s' → Q b s' → Q' b s') → allowed op Q s → allowed op Q' s.
Proof. intros H. unfold allowed. destruct (op s) as [[b s']|]; [|done]. intros (? & ? & ?). auto. Qed.
(** Others have taken any number of steps before each of its own. *)
Fixpoint safe {A} (p : prog S A) (s : S) (Q : A → S → Prop) : Prop :=
  match p with
  | Ret a => ∀ s', c_rely c s s' → c_inv c s' → Q a s'
  | Act op k => ∀ s', c_rely c s s' → c_inv c s' → allowed op (λ b s'', safe (k b) s'' Q) s'
  end.
Lemma safe_rely {A} (p : prog S A) s s' Q : safe p s Q → c_rely c s s' → safe p s' Q.
Proof. destruct p; cbn; intros H Hs s1 H1 Hi; apply H; solve [done|by eapply c_trans]. Qed.
Lemma safe_ret {A} (a : A) s Q : safe (Ret a) s Q → c_inv c s → Q a s.
Proof. intros H Hi. by apply H; [apply c_refl|]. Qed.
Lemma safe_step {A} (p p' : prog S A) s s' Q : safe p s Q → c_inv c s → step p s = Some (p', s') →
  c_inv c s' ∧ c_guar c s s' ∧ safe p' s' Q.
Proof.
  destruct p as [a|T op k]; cbn; [done|]. intros H Hi E. specialize (H s (c_refl c s) Hi). unfold allowed in H.
  destruct (op s) as [[b s1]|]; [|done]. by injection E as <- <-.
Qed.
Lemma safe_mono {A} (p : prog S A) s (Q Q' : A → S → Prop) : (∀ a s', c_inv c s' → Q a s' → Q' a s') → safe p s Q → safe p s Q'.
Proof.
  intros HQ. revert s. induction p as [a|T op k IH]; cbn; intros s H s' Hr Hi; [by apply HQ; [|apply H]|].
  eapply allowed_mono; [|by apply H]. intros b s1 _. apply IH.
Qed.
Lemma safe_bind {A B} (p : prog S A) (f : A → prog S B) s Q R : c_inv c s →
  safe p s Q → (∀ a s', c_inv c s' → Q a s' → safe (f a) s' R) → safe (bind p f) s R.
Proof.
  intros Hi Hp Hf. revert s Hi Hp. induction p as [a|T op k IH]; cbn; intros s Hi Hp; [apply Hf; [done|by apply Hp; [apply c_refl|]]|].
  intros s' Hr Hi'. eapply allowed_mono; [|by apply Hp]. intros b s1 Hi1. by apply IH.
Qed.

(** ** From an assertion to a result *)

Definition stable (P : S → Prop) : Prop := ∀ s s', P s → c_rely c s s' → P s'.
Definition triple {A} (P : S → Prop) (p : prog S A) (Q : A → S → Prop) : Prop := ∀ s, c_inv c s → P s → safe p s Q.
(** [P] holds throughout, and the result is as said. *)
Definition ensures {A} (P : S → Prop) (p : prog S A) (Q : A → Prop) : Prop := triple P p (λ a s, P s ∧ Q a).

Lemma triple_ret {A} (P : S → Prop) (a : A) : stable P → triple P (Ret a) (λ _, P).
Proof. intros Hs s Hi HP s' Hr Hi'. by eapply Hs. Qed.
Lemma triple_act {B} (P : S → Prop) (op : S → option (B * S)) (Q : B → S → Prop) : stable P → (∀ b, stable (Q b)) →
  (∀ s, c_inv c s → P s → allowed op Q s) → triple P (act op) Q.
Proof.
  intros HP HQ H s Hi Hs s1 Hr1 Hi1. eapply allowed_mono; [|apply H; [done|by eapply HP]].
  intros b s2 _ HQ2 s3 Hr3 Hi3. by eapply HQ.
Qed.
Lemma triple_bind {A B} (P : S → Prop) (p : prog S A) (f : A → prog S B) Q R :
  triple P p Q → (∀ a, triple (Q a) (f a) R) → triple P (bind p f) R.
Proof. intros Hp Hf s Hi HP. eapply safe_bind; [done|by apply Hp|]. intros a s' Hi' HQ. by apply Hf. Qed.
Lemma triple_mono {A} (P P' : S → Prop) (p : prog S A) (Q Q' : A → S → Prop) :
  (∀ s, c_inv c s → P' s → P s) → (∀ a s, c_inv c s → Q a s → Q' a s) → triple P p Q → triple P' p Q'.
Proof. intros H1 H2 H s Hi HP. eapply safe_mono; [exact H2|]. by apply H; [|apply H1]. Qed.

Lemma ensures_ret {A} (P : S → Prop) (a : A) (Q : A → Prop) : stable P → Q a → ensures P (Ret a) Q.
Proof. intros Hs HQ s Hi HP s' Hr Hi'. split; [by eapply Hs|done]. Qed.
Lemma ensures_act {B} (P : S → Prop) (op : S → option (B * S)) (Q : B → Prop) : stable P →
  (∀ s, c_inv c s → P s → allowed op (λ b s', P s' ∧ Q b) s) → ensures P (act op) Q.
Proof.
  intros HP H. apply triple_act; [done| |exact H]. intros b s s' [Hs HQ] Hr. split; [by eapply HP|done].
Qed.
Lemma ensures_bind {A B} (P : S → Prop) (p : prog S A) (f : A → prog S B) (Q : A → Prop) (R : B → Prop) :
  ensures P p Q → (∀ a, Q a → ensures P (f a) R) → ensures P (bind p f) R.
Proof. intros Hp Hf. eapply triple_bind; [exact Hp|]. intros a s Hi [HP HQ]. by apply Hf. Qed.
Lemma ensures_mono {A} (P : S → Prop) (p : prog S A) (Q Q' : A → Prop) : (∀ a, Q a → Q' a) → ensures P p Q → ensures P p Q'.
Proof. intros H. apply triple_mono; [done|]. intros a s _ [? ?]. auto. Qed.
End safe.
