(* ===== verification/Interleaved.v ===== *)
(** The middleware among other requests ([internal/authn/middleware.go]): what
    [NewMiddleware] does as a program of atomic steps on the registries that all
    requests share.

    A step is what the code does under one lock, or one atomic load or store: each
    [Reconcile] loads [seen], changes its registry under its lock and stores [seen];
    a key request looks its resolver up, closes the one it replaced, and builds; a
    password is looked up, compared outside the lock, and stored; the denylist is read
    after the token is verified.  Serving one of the proxy's own routes, refreshing or
    starting a browser login, and asking for the SAML provider are one step each.

    [middleware_run]: with no other request in between, this is [NewMiddleware].
    [middleware_safe]: among others, what it lets through. *)
From S2P Require Import Prelude GoStrings ConfigTypes PromScope GoURL GoHTTP Acl ConfigAuth ConfigMain Credentials Basic Jwks JwksConcurrent Session Login Saml OAuthServer Authenticate Middleware Registries Atomic.
Open Scope prog_scope.

Section programs.
Context {C : Crypto} {X : X509} {R : Regexp} {N : NetURL} {U : Unicode} {F : Floats} {J : JWT} {W : Network}
  {L : LoginNet} {O : OAuth2} {D : Sha256} {B : BasicCrypto} {En : Env} {M : SAMLMetadata} {SP : SAMLSP}
  {G : AEAD} {JS : OAuthJSON} {Op : OP} {LK : LocalKeys}.

(** The registries, and who holds the OAuth registry's lock: which request, for the
    configuration of which identity.  (The other locks are taken and released in one
    step.) *)
Record Shared := mkShared { sh_mid : Registries; sh_lock : option (nat * nat) }.
Definition sh_regs (s : Shared) : Regs := md_regs (sh_mid s).
Definition sh_jwt (s : Shared) : Registry := lg_jwt (ag_login (sh_regs s)).
Definition with_regs (g : Regs) (s : Shared) : Shared := mkShared (mkRegistries g (md_oauth (sh_mid s))) (sh_lock s).

Definition on_regs {T} (f : Regs → T * Regs) : prog Shared T :=
  act (λ s, let '(b, g) := f (sh_regs s) in Some (b, with_regs g s)).
Definition on_jwt {T} (f : Registry → T * Registry) : prog Shared T :=
  on_regs (λ g, let '(b, j) := f (lg_jwt (ag_login g)) in (b, with_login (with_jwt j (ag_login g)) g)).
Definition on_saml {T} (f : SAMLRegistry → T * SAMLRegistry) : prog Shared T :=
  on_regs (λ g, let '(b, r) := f (ag_saml g) in (b, with_saml r g)).
Definition on_basic {T} (f : BasicRegistry → T * BasicRegistry) : prog Shared T :=
  on_regs (λ g, let '(b, r) := f (ag_basic g) in (b, with_basic r g)).

(** * The four [Reconcile] calls *)

Fixpoint close_each (l : list nat) : prog Shared unit :=
  match l with
  | [] => Ret tt
  | a :: l => do _ ← on_jwt (λ j, (tt, close_stale [a] j)); close_each l
  end.
Definition jwt_reconcile (ptr : nat) (auth : InboundAuthConfig) : prog Shared unit :=
  do fresh ← on_jwt (λ j, (rg_seen j =? Some ptr, j));
  if fresh then Ret tt else do stale ← on_jwt (reconcile_locked ptr auth); close_each stale.

Definition saml_wants (auth : InboundAuthConfig) : string :=
  match a_SAML auth with Some s => if SAMLEnabled auth then samlFingerprint s else "" | None => "" end.
Definition saml_saw (ptr : nat) (r : SAMLRegistry) : SAMLRegistry :=
  mkSAMLRegistry (Some ptr) (sr_fingerprint r) (sr_provider r) (sr_refreshAt r) (sr_fetchedAt r)
    (sr_certExpiry r) (sr_lastErr r) (sr_nextTry r) (sr_fetches r) (sr_closed r).
Definition saml_reconcile (ptr : nat) (auth : InboundAuthConfig) : prog Shared unit :=
  do fresh ← on_saml (λ r, (sr_seen r =? Some ptr, r));
  if fresh then Ret tt
  else do _ ← on_saml (λ r, (tt, saml_at (saml_wants auth) r)); on_saml (λ r, (tt, saml_saw ptr r)).

Definition basic_wants (auth : InboundAuthConfig) : string :=
  match a_Basic auth with Some b => if BasicEnabled auth then basicFingerprint b else "" | None => "" end.
Definition basic_at (fp : string) (r : BasicRegistry) : BasicRegistry :=
  if fp !=? br_fingerprint r then mkBasicRegistry (br_seen r) fp ∅ ∅ else r.
Definition basic_saw (ptr : nat) (r : BasicRegistry) : BasicRegistry :=
  mkBasicRegistry (Some ptr) (br_fingerprint r) (br_cache r) (br_negative r).
Definition basic_reconcile (ptr : nat) (auth : InboundAuthConfig) : prog Shared unit :=
  do fresh ← on_basic (λ r, (br_seen r =? Some ptr, r));
  if fresh then Ret tt
  else do _ ← on_basic (λ r, (tt, basic_at (basic_wants auth) r)); on_basic (λ r, (tt, basic_saw ptr r)).

(** A store in the OAuth registry; the closures of the JWT registry read it. *)
Definition oauth_write (f : ORegistry → ORegistry) (m : Registries) : Registries :=
  match md_oauth m with
  | Some o =>
      let g := md_regs m in
      mkRegistries (with_login (with_jwt (bind_local (Some (f o)) (lg_jwt (ag_login g))) (ag_login g)) g) (Some (f o))
  | None => m
  end.
(** Is there nothing to do?  (Nor is there without a registry.) *)
Definition oauth_saw (ptr : nat) (s : Shared) : bool :=
  match md_oauth (sh_mid s) with Some o => og_seen o =? Some ptr | None => true end.
(** The server to store: the one there is, or a new one, or none. *)
Definition oauth_new (cfg : Config) (o : ORegistry) : option server :=
  match settings (Some cfg) with
  | Err _ => None
  | Ok (srv, tok) =>
      let fp := oauth_fingerprint srv tok in
      if match og_srv o with Some cur => sv_fingerprint cur =? fp | None => false end then og_srv o
      else match build srv tok fp with Ok s => Some s | Err _ => None end
  end.
Definition set_live (cfg : Config) (o : ORegistry) : ORegistry := mkORegistry (og_seen o) (Some cfg) (og_srv o).
Definition set_srv (cfg : Config) (o : ORegistry) : ORegistry := mkORegistry (og_seen o) (og_live o) (oauth_new cfg o).
Definition set_seen (ptr : nat) (o : ORegistry) : ORegistry := mkORegistry (Some ptr) (og_live o) (og_srv o).
(** Taking the lock, looking at [seen] again, and storing [live]. *)
Definition oauth_lock (id ptr : nat) (cfg : Config) (s : Shared) : option (bool * Shared) :=
  match sh_lock s with
  | Some _ => None
  | None =>
      if oauth_saw ptr s then Some (true, s)
      else Some (false, mkShared (oauth_write (set_live cfg) (sh_mid s)) (Some (id, ptr)))
  end.
Definition oauth_reconcile (id ptr : nat) (cfg : Config) : prog Shared unit :=
  do fresh ← act (λ s, Some (oauth_saw ptr s, s));
  if fresh then Ret tt
  else
    do fresh ← act (oauth_lock id ptr cfg);
    if fresh then Ret tt
    else
      do _ ← act (λ s, Some (tt, mkShared (oauth_write (set_srv cfg) (sh_mid s)) (sh_lock s)));
      act (λ s, Some (tt, mkShared (oauth_write (set_seen ptr) (sh_mid s)) None)).
Definition reconcile_all (id ptr : nat) (cfg : Config) : prog Shared unit :=
  do _ ← jwt_reconcile ptr (auth_of cfg);
  do _ ← saml_reconcile ptr (auth_of cfg);
  do _ ← basic_reconcile ptr (auth_of cfg);
  oauth_reconcile id ptr cfg.

(** * The legs *)

Definition pleg : Type := Response → Request → prog Shared (outcome * Response * Request).
Definition pthen (a b : pleg) : pleg := λ w r,
  do x ← a w r; match x with (Continue, w, r) => b w r | x => Ret x end.
(** A leg in one step. *)
Definition atomic (l : leg) : pleg := λ w r,
  on_regs (λ g, let '(o, s) := l (mkState w r g) in ((o, st_w s, st_r s), st_regs s)).

Definition verify_p (i : Inputs) (src : BasicSource) (username password : string) : prog Shared (result bool) :=
  if maxBasicCredentialLen <? String.length username + String.length password then Ret (Ok false)
  else
    let k := key (basicFingerprint src) username password in
    do hit ← on_basic (lookup_ (in_now i) k);
    match hit with
    | Some ok => Ret (Ok ok)
    | None =>
        match verify_uncached (in_slot i) src username password with
        | None => Ret (Ok false)
        | Some (Err e) => Ret (Err e)
        | Some (Ok ok) => do _ ← on_basic (λ b, (tt, store (in_later i) k ok b)); Ret (Ok ok)
        end
    end.
Definition enforceBasic_p (i : Inputs) (w : Response) (req : Request) (src : BasicSource) : prog Shared (basicOutcome * Response) :=
  match extractBasic req with
  | basicAbsent => Ret (basicNoCredential, w)
  | basicMalformed => Ret (basicRejected, rejectChallenges w reasonMalformedCredential [basicChallenge (b_Realm src)])
  | basicPresent username password =>
      do res ← verify_p i src username password;
      Ret (match res with
           | Err _ => (basicRejected, rejectUnavailable w reasonBasicSaturated basicVerifyTimeout)
           | Ok false => (basicRejected, rejectChallenges w reasonBadCredential [basicChallenge (b_Realm src)])
           | Ok true => (basicAllowed username, w)
           end)
  end.
Definition basic_p (i : Inputs) (cfg : Config) : pleg := λ w r,
  match a_Basic (auth_of cfg) with
  | Some src =>
      if BasicEnabled (auth_of cfg) then
        do x ← enforceBasic_p i w r src;
        Ret (match x with
             | (basicAllowed username, w) => (Allow (Some (basicPrincipal username)) r, w, r)
             | (basicRejected, w) => (Answered, w, r)
             | (basicNoCredential, w) => (Continue, w, r)
             end)
      else Ret (Continue, w, r)
  | None => Ret (Continue, w, r)
  end.

(** The local keys are read when the token is verified, the others as [Jwks] has it. *)
Definition Keyfunc_p (now : Z) (src : JWTSource) : prog Shared (result keyfn) :=
  if j_Local src then on_jwt (λ j, (match rg_local j with Some kf => Ok kf | None => Err errNoLocalKeys end, j))
  else
    do x ← on_jwt (lookup_map src);
    do _ ← on_jwt (λ j, (tt, close_stale (option_list x.2) j));
    on_jwt (Keyfunc_build now src x.1).
(** Is the token of a denied subject?  Only asked of the proxy's own. *)
Definition denied_p (src : JWTSource) (claims : gmap string any) : prog Shared bool :=
  if j_Local src then on_jwt (λ j, (deniedLocalSubject j claims, j)) else Ret false.
Fixpoint try_candidates_p (now : Z) (raw : string) (srcs : list JWTSource) (report : string) (have : bool)
    : prog Shared (JWTSource * gmap string any + string) :=
  match srcs with
  | [] => Ret (inr report)
  | src :: srcs =>
      do kf ← Keyfunc_p now src;
      match kf with
      | Err _ => try_candidates_p now raw srcs (if have then report else reasonKeysUnavailable) true
      | Ok kf =>
          match verify raw src kf with
          | Err e => try_candidates_p now raw srcs (if have then report else classify e) have
          | Ok claims =>
              do denied ← denied_p src claims;
              if denied then try_candidates_p now raw srcs (if have then report else reasonSubjectDenied) have
              else Ret (inl (src, claims))
          end
      end
  end.
Definition enforceJWT_p (now : Z) (w : Response) (r : Request) (cfg : Config) : prog Shared (jwtOutcome * Response) :=
  match extractTokenFrom r (auth_of cfg) with
  | None => Ret (jwtNoCredential, w)
  | Some (raw, loginSrc) =>
      let stale why := bool_decide (is_Some loginSrc) && (why !=? reasonKeysUnavailable) in
      let refuse why := Ret (jwtRejected, reject w (bearerInvalidChallenge cfg) why) in
      match unverifiedIssuer raw with
      | Err _ => if stale reasonMalformedToken then Ret (jwtStale, w) else refuse reasonMalformedToken
      | Ok iss =>
          match JWTSourcesByIssuer (auth_of cfg) iss with
          | [] => if stale reasonUnknownIssuer then Ret (jwtStale, w) else refuse reasonUnknownIssuer
          | candidates =>
              do res ← try_candidates_p now raw candidates "" false;
              match res with
              | inl (src, claims) => Ret (jwtAllowed (jwtPrincipal src claims), w)
              | inr why =>
                  if stale why then Ret (jwtStale, w)
                  else if why =? reasonKeysUnavailable
                  then Ret (jwtRejected, rejectUnavailable w reasonKeysUnavailable defaultResolverRetry)
                  else refuse why
              end
          end
      end
  end.
Definition jwt_verdict (cfg : Config) (r : Request) (x : jwtOutcome * Response) : outcome * Response * Request :=
  match x with
  | (jwtAllowed p, w) => (Allow (Some p) r, w, r)
  | (jwtRejected, w) => (Answered, w, r)
  | (jwtStale, w) => (Answered, reject w (bearerInvalidChallenge cfg) reasonInvalidClaims, r)
  | (jwtNoCredential, w) => (Continue, w, r)
  end.
Definition jwt_p (i : Inputs) (cfg : Config) (tokens : gmap string string) : pleg :=
  if JWTEnabled (auth_of cfg) then
    pthen (atomic (refresh_leg i (in_waited i) cfg tokens)) (λ w r,
      do x ← enforceJWT_p (in_now i) w r cfg;
      match x with
      | (jwtStale, w) =>
          let '(w, r) := DropStaleLogin w r (auth_of cfg) in
          pthen (atomic (refresh_leg i (in_waited2 i) cfg tokens))
            (λ w r, do x ← enforceJWT_p (in_now i) w r cfg; Ret (jwt_verdict cfg r x)) w r
      | x => Ret (jwt_verdict cfg r x)
      end)
  else λ w r, Ret (Continue, w, r).
Definition authenticate_p (i : Inputs) (cfg : Config) : pleg := λ w r,
  let '(tokens, r) := TakeRefreshCookies r (auth_of cfg) in
  pthen (basic_p i cfg) (pthen (jwt_p i cfg tokens) (pthen (atomic (pick_leg i cfg))
    (pthen (atomic (saml_leg i cfg)) (pthen (atomic (single_leg i cfg)) (atomic (last_leg cfg)))))) w r.

(** * The middleware *)

Variable loginFont : string.
(** One of the proxy's own routes: the response, if it is one. *)
Definition route_p (i : Inputs) (cfg : Config) (w : Response) (r : Request) : prog Shared (option Response) :=
  act (λ s, Some (match serve_route loginFont i cfg (md_oauth (sh_mid s)) (mkState w r (sh_regs s)) with
                  | Some s1 => (Some (st_w s1), with_regs (st_regs s1) s)
                  | None => (None, s)
                  end)).
Definition middleware_p (id : nat) (i : Inputs) (ptr : nat) (cfg : Config) (w : Response) (r : Request)
  : prog Shared (Response * option Request) :=
  do _ ← reconcile_all id ptr cfg;
  do served ← route_p i cfg w r;
  match served with
  | Some w => Ret (w, None)
  | None =>
      do x ← authenticate_p i cfg w r;
      Ret (match x with
           | (Allow p r, w, _) =>
               let '(w, ok) := authorize w r (c_ACL cfg) p in
               if ok then resolvePromLabels w r cfg p else (w, None)
           | (_, w, _) => (w, None)
           end)
  end.
End programs.

(** * With no other request in between *)

Section alone.
Context {C : Crypto} {X : X509} {R : Regexp} {N : NetURL} {U : Unicode} {F : Floats} {J : JWT} {W : Network}
  {L : LoginNet} {O : OAuth2} {D : Sha256} {B : BasicCrypto} {En : Env} {M : SAMLMetadata} {SP : SAMLSP}
  {G : AEAD} {JS : OAuthJSON} {Op : OP} {LK : LocalKeys}.
Implicit Types (g : Regs) (s : Shared) (cfg : Config).

Lemma run_regs {T} (f : Regs → T * Regs) s : run (on_regs f) s = Some ((f (sh_regs s)).1, with_regs (f (sh_regs s)).2 s).
Proof. unfold on_regs. rewrite run_act. by destruct (f (sh_regs s)). Qed.
Lemma run_jwt {T} (f : Registry → T * Registry) s :
  run (on_jwt f) s = Some ((f (sh_jwt s)).1, with_regs (with_login (with_jwt (f (sh_jwt s)).2 (ag_login (sh_regs s))) (sh_regs s)) s).
Proof. unfold on_jwt. rewrite run_regs. fold (sh_jwt s). by destruct (f (sh_jwt s)). Qed.

(** The JWT registry becomes [j]. *)
Definition jwt_now (j : Registry) s : Shared := with_regs (with_login (with_jwt j (ag_login (sh_regs s))) (sh_regs s)) s.
Lemma jwt_now_now j j' s : jwt_now j (jwt_now j' s) = jwt_now j s.
Proof. done. Qed.
Lemma jwt_now_self s : jwt_now (sh_jwt s) s = s.
Proof. by destruct s as [[[? ? []] ?] ?]. Qed.
Lemma run_now {T} (f : Registry → T * Registry) s : run (on_jwt f) s = Some ((f (sh_jwt s)).1, jwt_now (f (sh_jwt s)).2 s).
Proof. apply run_jwt. Qed.

Lemma close_stale_nil j : close_stale [] j = j.
Proof. by destruct j. Qed.
Lemma run_close l s : run (close_each l) s = Some (tt, jwt_now (close_stale l (sh_jwt s)) s).
Proof.
  revert s. induction l as [|a l IH]; intros s; cbn [close_each].
  - by rewrite close_stale_nil, jwt_now_self.
  - by rewrite run_bind, run_now, IH.
Qed.
Lemma run_jwt_reconcile ptr auth s : run (jwt_reconcile ptr auth) s = Some (tt, jwt_now (Reconcile ptr auth (sh_jwt s)) s).
Proof.
  unfold jwt_reconcile. rewrite run_bind, run_now, Reconcile_steps. cbn [fst snd]. rewrite jwt_now_self.
  unfold reconcile_map. destruct (rg_seen (sh_jwt s) =? Some ptr); cbn [fst snd].
  - by rewrite close_stale_nil, jwt_now_self.
  - by rewrite run_bind, run_now, run_close.
Qed.
Lemma run_saml_reconcile ptr auth s :
  run (saml_reconcile ptr auth) s = Some (tt, with_regs (with_saml (SAML_Reconcile ptr auth (ag_saml (sh_regs s))) (sh_regs s)) s).
Proof.
  unfold saml_reconcile, on_saml. rewrite run_bind, run_regs. cbn [fst snd]. unfold SAML_Reconcile.
  destruct s as [[[sa ba lo] o] lk]. cbn. by destruct (sr_seen sa =? Some ptr).
Qed.
Lemma run_basic_reconcile ptr auth s :
  run (basic_reconcile ptr auth) s = Some (tt, with_regs (with_basic (Basic_Reconcile ptr auth (ag_basic (sh_regs s))) (sh_regs s)) s).
Proof.
  unfold basic_reconcile, on_basic. rewrite run_bind, run_regs. cbn [fst snd]. unfold Basic_Reconcile.
  destruct s as [[[sa ba lo] o] lk]. cbn. by destruct (br_seen ba =? Some ptr).
Qed.

(** The closures of the JWT registry are those of the OAuth registry. *)
Definition bound (m : Registries) : Prop := ∀ o, md_oauth m = Some o →
  rg_local (lg_jwt (ag_login (md_regs m))) = Some (local_keyfn (OAuth_Keyfunc o)) ∧
  rg_denied (lg_jwt (ag_login (md_regs m))) = Some (Denied o).
Lemma bind_local_bind o o' j : bind_local (Some o) (bind_local (Some o') j) = bind_local (Some o) j.
Proof. done. Qed.
Lemma oauth_write_write f f' (m : Registries) : oauth_write f (oauth_write f' m) = oauth_write (λ o, f (f' o)) m.
Proof. unfold oauth_write. by destruct m as [[? ? []] [o|]]. Qed.
Lemma OAuth_Reconcile_parts ptr cfg r : og_seen r ≠ Some ptr → OAuth_Reconcile ptr cfg r = set_seen ptr (set_srv cfg (set_live cfg r)).
Proof.
  intros H. unfold OAuth_Reconcile. rewrite bool_decide_false by done. unfold set_seen, set_srv, set_live, oauth_new.
  cbn [og_seen og_live og_srv]. destruct (settings (Some cfg)) as [[srv tok]|]; [|done]. by destruct (match og_srv r with Some _ => _ | None => _ end).
Qed.
Lemma bound_same (m : Registries) : bound m → oauth_write id m = m.
Proof.
  intros H. unfold oauth_write. destruct m as [[sa ba [[lo de se re he ne fe] sl ca nt]] [o|]]; [|done].
  destruct (H o eq_refl) as [H1 H2]. cbn in *. unfold id, bind_local, SetLocalSource, with_login, with_jwt. cbn. by rewrite H1, H2.
Qed.
Lemma run_oauth_reconcile id ptr cfg (m : Registries) : bound m →
  run (oauth_reconcile id ptr cfg) (mkShared m None) = Some (tt, mkShared (oauth_write (OAuth_Reconcile ptr cfg) m) None).
Proof.
  intros Hb. unfold oauth_reconcile. rewrite run_bind, run_act.
  assert (Hsaw : oauth_saw ptr (mkShared m None) = true → oauth_write (OAuth_Reconcile ptr cfg) m = m).
  { unfold oauth_saw. cbn. intros H. rewrite <- (bound_same m Hb) at 2. unfold oauth_write. destruct (md_oauth m) as [o|] eqn:Eo; [|done].
    unfold OAuth_Reconcile. by rewrite H. }
  destruct (oauth_saw ptr (mkShared m None)) eqn:E; [by rewrite Hsaw|].
  rewrite run_bind, run_act. unfold oauth_lock. cbn [sh_lock]. rewrite E, run_bind, run_act, run_act. cbn [sh_mid].
  rewrite !oauth_write_write. unfold oauth_saw in E. cbn [sh_mid] in E. unfold oauth_write. destruct (md_oauth m) as [o|]; [|done].
  rewrite OAuth_Reconcile_parts; [done|]. by apply bool_decide_eq_false in E.
Qed.
Lemma reconcile_locked_local ptr auth j :
  let j' := (reconcile_locked ptr auth j).2 in rg_local j' = rg_local j ∧ rg_denied j' = rg_denied j.
Proof.
  cbn. set (r0 := kept_registry _ j). change (rg_local j) with (rg_local r0). change (rg_denied j) with (rg_denied r0). generalize r0.
  induction (map_to_list (desired auth)) as [|x l IH]; intros r; [done|]. cbn. destruct (IH (add_placeholder r x)) as [-> ->].
  unfold add_placeholder. by destruct (rg_resolvers r !! x.1).
Qed.
Lemma Reconcile_local ptr auth j :
  rg_local (Reconcile ptr auth j) = rg_local j ∧ rg_denied (Reconcile ptr auth j) = rg_denied j.
Proof. rewrite Reconcile_steps. unfold reconcile_map. case_bool_decide; [done|]. apply reconcile_locked_local. Qed.
Lemma run_reconcile_all id ptr cfg (m : Registries) : bound m →
  run (reconcile_all id ptr cfg) (mkShared m None) = Some (tt, mkShared (reconcile ptr cfg m) None).
Proof.
  intros Hb. unfold reconcile_all.
  rewrite run_bind, run_jwt_reconcile, run_bind, run_saml_reconcile, run_bind, run_basic_reconcile.
  destruct m as [[sa ba [j sl ca nt]] o]. set (auth := auth_of cfg).
  set (m1 := mkRegistries (mkRegs (SAML_Reconcile ptr auth sa) (Basic_Reconcile ptr auth ba) (mkLogin (Reconcile ptr auth j) sl ca nt)) o).
  etrans; [apply (run_oauth_reconcile id ptr cfg m1)|by destruct o].
  intros r Hr. destruct (Hb r Hr) as [H1 H2]. cbn in *. by rewrite (proj1 (Reconcile_local ptr auth j)), (proj2 (Reconcile_local ptr auth j)).
Qed.

(** ** The legs *)

Definition implements (p : pleg) (l : leg) : Prop := ∀ w r s,
  run (p w r) s = Some (let x := l (mkState w r (sh_regs s)) in ((x.1, st_w x.2, st_r x.2), with_regs (st_regs x.2) s)).
Lemma with_regs_self s : with_regs (sh_regs s) s = s.
Proof. by destruct s as [[? ?] ?]. Qed.
Lemma ret_implements : implements (λ w r, Ret (Continue, w, r)) (λ st : state, (Continue, st)).
Proof. intros w r s. cbn. by rewrite with_regs_self. Qed.
Lemma atomic_implements (l : leg) : implements (atomic l) l.
Proof. intros w r s. unfold atomic. rewrite run_regs. by destruct (l _) as [o st]. Qed.
Lemma pthen_implements (p q : pleg) (a b : leg) : implements p a → implements q b → implements (pthen p q) (then_ a b).
Proof.
  intros Hp Hq w r s. unfold pthen, then_. rewrite run_bind, Hp. cbn zeta.
  destruct (a _) as [[| |u r'] [w1 r1 g1]]; cbn [fst snd st_w st_r st_regs]; [|done..]. by rewrite Hq.
Qed.
Lemma verify_implements i src u pw s :
  run (verify_p i src u pw) s =
    Some (let x := Verify (in_now i) (in_later i) (in_slot i) src u pw (ag_basic (sh_regs s)) in
          (x.1, with_regs (with_basic x.2 (sh_regs s)) s)).
Proof.
  unfold verify_p, Verify. destruct s as [[[sa ba lo] o] lk]. case_if; [done|]. unfold on_basic. rewrite run_bind, run_regs. cbn [sh_regs sh_mid md_regs ag_basic].
  destruct (lookup_ _ _ ba) as [[ok|] b]; [done|]. cbn [fst snd]. destruct (verify_uncached _ _ _ _) as [[ok|e]|]; [|done..].
  by rewrite run_bind, run_regs.
Qed.
Lemma basic_implements i cfg : implements (basic_p i cfg) (basic_leg i cfg).
Proof.
  intros w r s. unfold basic_p, basic_leg. destruct (a_Basic (auth_of cfg)) as [src|]; [|apply ret_implements].
  case_if; [|apply ret_implements]. unfold enforceBasic_p, enforceBasic. cbn [st_w st_r st_regs].
  destruct (extractBasic r) as [| |u pw]; [by destruct s as [[[? ? ?] ?] ?]..|].
  rewrite run_bind, run_bind, verify_implements. cbn zeta.
  destruct (Verify _ _ _ _ _ _ _) as [[[]|e] b]; done.
Qed.
Lemma keyfunc_implements now src s :
  run (Keyfunc_p now src) s = Some (let x := Keyfunc_ now src (sh_jwt s) in (x.1, jwt_now x.2 s)).
Proof.
  unfold Keyfunc_p. destruct (j_Local src) eqn:El.
  { rewrite run_now. unfold Keyfunc_. by rewrite El. }
  rewrite Keyfunc_steps by done. rewrite run_bind, run_now. destruct (lookup_map src (sh_jwt s)) as [[a old] r1].
  rewrite run_bind, run_now, run_now. cbn [fst snd]. cbn zeta. done.
Qed.
Lemma try_candidates_implements now raw srcs report have s :
  run (try_candidates_p now raw srcs report have) s =
    Some (let x := try_candidates now raw srcs report have (sh_jwt s) in (x.1, jwt_now x.2 s)).
Proof.
  revert report have s. induction srcs as [|src srcs IH]; intros report have s; cbn [try_candidates_p try_candidates].
  { cbn. by rewrite jwt_now_self. }
  rewrite run_bind, keyfunc_implements. destruct (Keyfunc_ now src (sh_jwt s)) as [[kf|e] reg]; cbn [fst snd]; cbn zeta; [|by rewrite IH].
  destruct (verify raw src kf) as [claims|e]; [|by rewrite IH]. unfold denied_p. destruct (j_Local src); [|done].
  rewrite run_bind, run_now. change (sh_jwt (jwt_now reg s)) with reg. cbn [fst snd andb].
  destruct (deniedLocalSubject reg claims); [by rewrite IH|done].
Qed.
Lemma enforceJWT_implements now w r cfg s :
  run (enforceJWT_p now w r cfg) s =
    Some (let x := enforceJWT now w r cfg (sh_jwt s) in (x.1, jwt_now x.2 s)).
Proof.
  unfold enforceJWT_p, enforceJWT. cbn zeta. destruct (extractTokenFrom r (auth_of cfg)) as [[raw from]|]; [|cbn; by rewrite jwt_now_self].
  destruct (unverifiedIssuer raw); [|case_if; cbn; by rewrite jwt_now_self].
  destruct (JWTSourcesByIssuer _ _) as [|s1 srcs]; [case_if; cbn; by rewrite jwt_now_self|].
  rewrite run_bind, try_candidates_implements. cbn zeta.
  destruct (try_candidates _ _ _ _ _ _) as [[[src claims]|why] reg]; [done|]. cbn [fst snd]. by repeat case_if.
Qed.
Lemma run_enforceJWT_implements i cfg w r s :
  run (enforceJWT_p (in_now i) w r cfg) s =
    Some (let x := run_enforceJWT i cfg (mkState w r (sh_regs s)) in ((x.1, st_w x.2), with_regs (st_regs x.2) s)) ∧
  st_r (run_enforceJWT i cfg (mkState w r (sh_regs s))).2 = r.
Proof.
  rewrite enforceJWT_implements. unfold run_enforceJWT, jwt_now. cbn [st_w st_r st_regs]. fold (sh_jwt s).
  by destruct (enforceJWT _ _ _ _ _) as [[o w'] j].
Qed.
Lemma jwt_implements i cfg tokens : implements (jwt_p i cfg tokens) (jwt_leg i cfg tokens).
Proof.
  unfold jwt_p, jwt_leg. case_if; [|apply ret_implements].
  assert (Hv : ∀ o st s, run (Ret (jwt_verdict cfg (st_r st) (o, st_w st))) (with_regs (st_regs st) s) =
    Some (let x := jwt_switch cfg (o, st) in ((x.1, st_w x.2, st_r x.2), with_regs (st_regs x.2) s))) by (by intros []).
  apply pthen_implements; [apply atomic_implements|]. intros w r s. rewrite run_bind.
  destruct (run_enforceJWT_implements i cfg w r s) as [-> Hr]. cbn zeta. revert Hr.
  destruct (run_enforceJWT i cfg (mkState w r (sh_regs s))) as [o s1]. cbn [fst snd]. intros <-.
  destruct o; [apply Hv..|].
  destruct (DropStaleLogin _ _ _) as [w2 r2].
  rewrite (pthen_implements _ _ (refresh_leg i (in_waited2 i) cfg tokens) (λ st : state, jwt_switch cfg (run_enforceJWT i cfg st)));
    [done|apply atomic_implements|].
  intros w3 r3 s3. rewrite run_bind. destruct (run_enforceJWT_implements i cfg w3 r3 s3) as [-> Hr]. cbn zeta. revert Hr.
  destruct (run_enforceJWT i cfg (mkState w3 r3 (sh_regs s3))) as [o s4]. cbn [fst snd]. intros <-.
  apply Hv.
Qed.
Lemma authenticate_implements i cfg : implements (authenticate_p i cfg) (authenticate i cfg).
Proof.
  intros w r s. unfold authenticate_p, authenticate. cbn [st_w st_r st_regs]. destruct (TakeRefreshCookies _ _) as [tokens r1].
  rewrite (pthen_implements _ _ (basic_leg i cfg) (then_ (jwt_leg i cfg tokens) (then_ (pick_leg i cfg)
    (then_ (saml_leg i cfg) (then_ (single_leg i cfg) (last_leg cfg)))))); [done|apply basic_implements|].
  repeat first [apply pthen_implements|apply jwt_implements|apply atomic_implements].
Qed.
End alone.

(** * Properties *)

(** C5: one request alone: from registries whose JWT registry reads the OAuth server's keys
    and denylist, as [run] binds them, the program of atomic steps answers and leaves
    behind what [NewMiddleware] does, never blocks, and releases the lock. *)
Theorem middleware_run {C : Crypto} {X : X509} {R : Regexp} {N : NetURL} {U : Unicode} {F : Floats} {J : JWT} {W : Network}
    {L : LoginNet} {O : OAuth2} {D : Sha256} {B : BasicCrypto} {En : Env} {M : SAMLMetadata} {SP : SAMLSP}
    {G : AEAD} {JS : OAuthJSON} {Op : OP} {LK : LocalKeys} font id i ptr (cfg : Config) w r (m : Registries) (Hb : bound m) :
  run (middleware_p font id i ptr cfg w r) (mkShared m None) =
    let '(w', fwd, m') := NewMiddleware font i ptr cfg w r m in Some ((w', fwd), mkShared m' None).
Proof.
  unfold middleware_p, NewMiddleware. rewrite run_bind, run_reconcile_all by done. set (m1 := reconcile ptr cfg m). cbn zeta.
  unfold route_p. rewrite run_bind, run_act. unfold sh_regs. cbn [sh_mid].
  destruct (serve_route font i cfg (md_oauth m1) _) as [s1|]; [done|]. rewrite run_bind, authenticate_implements. cbn zeta.
  unfold sh_regs. cbn [sh_mid]. destruct (authenticate i cfg _) as [[| |p r1] [w1 r2 g]]; [done..|]. cbn [fst snd st_w st_r st_regs].
  destruct (authorize w1 r1 (c_ACL cfg) p) as [w2 []]; [|done]. by destruct (resolvePromLabels w2 r1 cfg p).
Qed.

(** ** A concrete run *)

#[local] Existing Instances demo_crypto demo_x509 demo_regexp demo_neturl ascii_unicode demo_floats demo_token_lib
  demo_network demo_loginnet demo_oauth2 demo_sha demo_bcrypto demo_env demo_prom demo_metadata demo_sp
  demo_gcm demo_oauth_json demo_op demo_local_keys.
Definition demo_bound : Registries := oauth_write id demo_registries.
Lemma middleware_run_witness : bound demo_bound ∧
  (λ x, (w_status x.1.1, x.1.2)) <$>
    run (middleware_p "font" 7 demo_inputs 1 demo_mid_config new_response demo_query) (mkShared demo_bound None) =
    Some (None, Some (with_scope demo_scope demo_query)).
Proof.
  assert (Hb : bound demo_bound) by (intros o [= <-]; split; reflexivity). split; [exact Hb|].
  rewrite (middleware_run "font" 7 demo_inputs 1 demo_mid_config new_response demo_query demo_bound Hb).
  assert (H : (λ x, (w_status x.1.1, x.1.2)) (NewMiddleware "font" demo_inputs 1 demo_mid_config new_response demo_query demo_bound) =
    (None, Some (with_scope demo_scope demo_query))) by (vm_compute; reflexivity).
  destruct (NewMiddleware "font" demo_inputs 1 demo_mid_config new_response demo_query demo_bound) as [[w' fwd] m'].
  cbn in H |- *. by rewrite H.
Defined.
