(* ===== verification/Interference.v ===== *)
(** What the middleware lets through while other requests use the same registries.

    [inv]: what holds of the registries after every step of any request.  [rely]: what
    the other requests do between two steps of this one: they add resolvers and build
    their keys, never change a resolver's source or its keys, and put the OAuth registry
    to configurations of their own, under its lock.  [guar]: the same of this request.
    [middleware_safe]: if the others keep to it, so does this one, and a request it
    passes on is one that its own configuration lets through, up to the keys and the
    denylist of the proxy's own tokens, which may be those of a request it overlaps. *)
From S2P Require Import Prelude GoStrings ConfigTypes PromScope GoURL GoHTTP Acl ConfigAuth ConfigMain Credentials Basic Jwks JwksConcurrent Session Login Saml OAuthServer Authenticate Middleware Registries Atomic Interleaved.
#[local] Open Scope prog_scope.

(** * The contract *)

Section contract.
Context {C : Crypto} {X : X509} {R : Regexp} {N : NetURL} {U : Unicode} {F : Floats} {J : JWT} {W : Network}
  {L : LoginNet} {O : OAuth2} {D : Sha256} {B : BasicCrypto} {En : Env} {M : SAMLMetadata} {SP : SAMLSP}
  {P : PromModel} {G : AEAD} {JS : OAuthJSON} {Op : OP} {LK : LocalKeys}.
Implicit Types (s : Shared) (o : ORegistry).

Definition sh_oauth s : ORegistry := default NewORegistry (md_oauth (sh_mid s)).
(** Key requests and reconciliations of any configuration. *)
Record jwt_same (j j' : Registry) : Prop := {
  js_grows : reg_grows j j';
  js_local : rg_local j' = rg_local j;
  js_denied : rg_denied j' = rg_denied j
}.
#[export] Instance jwt_same_preorder : PreOrder jwt_same.
Proof. split; [done|]. intros a b c [G1 H1 H2] [G2 H3 H4]. split; [by etrans|congruence..]. Qed.
Lemma jwt_kept_same j j' : jwt_kept j j' → jwt_same j j'.
Proof. intros [_ H1 H2 H3]. by split. Qed.
Lemma lookup_same src j a old j' : lookup_map src j = (a, old, j') → jwt_same j j' ∧ resolver_for src a (rg_heap j').
Proof.
  intros E. pose proof E as [H1 H2]%lookup_grows. split; [|done]. unfold lookup_map in E. repeat case_match; simplify_eq; by split.
Qed.
Lemma close_same l j : jwt_same j (close_stale l j).
Proof. split; [apply close_grows|done..]. Qed.
Lemma build_same now src a j res j' : resolver_for src a (rg_heap j) → Keyfunc_build now src a j = (res, j') →
  jwt_same j j' ∧ (reg_sound j → ∀ kf, res = Ok kf → built_for (fingerprint src) kf).
Proof.
  intros Hr E. pose proof E as [H1 H2]%build_grows; [|done]. split; [|done]. unfold Keyfunc_build in E.
  repeat case_match; simplify_eq; by split.
Qed.

(** [cfgs]: the configuration of each identity; [known]: those published;
    [with_]: the identities of the requests that overlap this one, [me]. *)
Variables (cfgs : nat → Config) (known : Config → Prop) (with_ : nat → Prop) (me : nat).

(** The OAuth registry: without the lock, it is as the configuration it has seen says;
    under it, half way between that and the one of the request that holds it. *)
Definition oauth_ok (lock : option (nat * nat)) o : Prop :=
  match lock with
  | None => ∀ p, og_seen o = Some p → governs (cfgs p) o
  | Some (_, q) => og_live o = Some (cfgs q) ∧ ∀ p, og_seen o = Some p → srv_for (cfgs p) o ∨ srv_for (cfgs q) o
  end.
Record inv s : Prop := {
  iv_regs : regs_ok reg_sound (sh_regs s);
  iv_oauth : md_oauth (sh_mid s) = Some (sh_oauth s);
  iv_built : oauth_built known (sh_oauth s);
  iv_seen : oauth_ok (sh_lock s) (sh_oauth s);
  iv_bound : bound (sh_mid s)
}.
Record rely s s' : Prop := {
  rl_heap : heap_ext (rg_heap (sh_jwt s)) (rg_heap (sh_jwt s'));
  rl_held : ∀ q, sh_lock s = Some (me, q) → sh_lock s' = sh_lock s ∧ sh_oauth s' = sh_oauth s;
  rl_mine : ∀ q, sh_lock s' = Some (me, q) → sh_lock s = Some (me, q);
  rl_lock : ∀ j q, sh_lock s' = Some (j, q) → sh_lock s = Some (j, q) ∨ with_ q;
  rl_live : og_live (sh_oauth s') = og_live (sh_oauth s) ∨ ∃ p, with_ p ∧ og_live (sh_oauth s') = Some (cfgs p);
  rl_srv : og_srv (sh_oauth s') = og_srv (sh_oauth s) ∨ ∃ p, with_ p ∧ srv_for (cfgs p) (sh_oauth s')
}.
(** What the request of identity [ptr] does. *)
Record guar (ptr : nat) s s' : Prop := {
  gu_heap : heap_ext (rg_heap (sh_jwt s)) (rg_heap (sh_jwt s'));
  gu_held : ∀ j q, j ≠ me → sh_lock s = Some (j, q) → sh_lock s' = sh_lock s ∧ sh_oauth s' = sh_oauth s;
  gu_lock : ∀ j q, sh_lock s' = Some (j, q) → sh_lock s = Some (j, q) ∨ j = me ∧ q = ptr;
  gu_live : og_live (sh_oauth s') = og_live (sh_oauth s) ∨ og_live (sh_oauth s') = Some (cfgs ptr);
  gu_srv : og_srv (sh_oauth s') = og_srv (sh_oauth s) ∨ srv_for (cfgs ptr) (sh_oauth s')
}.
Lemma srv_for_same cfg o o' : og_srv o' = og_srv o → srv_for cfg o → srv_for cfg o'.
Proof. unfold srv_for. by intros ->. Qed.
#[export] Instance rely_refl : Reflexive rely.
Proof. intros s. split; [apply heap_ext_refl|auto..]. Qed.
#[export] Instance rely_trans : Transitive rely.
Proof.
  intros s1 s2 s3 [A1 A2 A3 A4 A5 A6] [B1 B2 B3 B4 B5 B6]. split.
  - by eapply heap_ext_trans.
  - intros q Hq. destruct (A2 q Hq) as [E1 E2]. rewrite <- E1, <- E2 in *. by apply (B2 q).
  - auto.
  - intros j q [Hq|?]%B4; [by apply A4|by right].
  - destruct B5 as [->|?]; [done|by right].
  - destruct B6 as [E|?]; [|by right]. rewrite E. destruct A6 as [?|(p & ? & ?)]; [by left|]. right. exists p.
    split; [done|]. by eapply srv_for_same.
Qed.
Definition ct (ptr : nat) : contract Shared := mkContract inv rely (guar ptr) rely_refl rely_trans.

(** Before the OAuth registry is reconciled, and after. *)
Definition before s : Prop := (∀ j q, sh_lock s = Some (j, q) → with_ q) ∧ ∀ q, sh_lock s ≠ Some (me, q).
Definition after s : Prop :=
  (∃ p, with_ p ∧ og_live (sh_oauth s) = Some (cfgs p)) ∧ (∃ p, with_ p ∧ srv_for (cfgs p) (sh_oauth s)) ∧
  ∀ q, sh_lock s ≠ Some (me, q).
Lemma before_stable ptr : stable (ct ptr) before.
Proof.
  intros s s' [H1 H2] [_ _ A3 A4 _ _]. split; [|intros q Hq%A3; by apply (H2 q)]. intros j q [Hq|?]%A4; [by eapply H1|done].
Qed.
Lemma after_stable ptr : stable (ct ptr) after.
Proof.
  intros s s' (H1 & (p & Hp & Hs) & H3) [_ _ A3 _ A5 A6]. split_and!; [by destruct A5 as [->|?]| |intros q Hq%A3; by apply (H3 q)].
  destruct A6 as [E|?]; [|done]. exists p. split; [done|]. by eapply srv_for_same.
Qed.
(** An assertion on the OAuth registry and its lock. *)
Definition on_oauth (Q : Shared → Prop) : Prop := ∀ s s', sh_oauth s' = sh_oauth s → sh_lock s' = sh_lock s → Q s → Q s'.
Lemma before_oauth : on_oauth before.
Proof. intros s s' _ E [H1 H2]. split; rewrite E; auto. Qed.
Lemma after_oauth : on_oauth after.
Proof. intros s s' E1 E2 H. unfold after. by rewrite E1, E2. Qed.

(** ** A step on the other registries *)

Lemma regs_step ptr g s : inv s → regs_ok reg_sound g → jwt_same (sh_jwt s) (lg_jwt (ag_login g)) →
  inv (with_regs g s) ∧ guar ptr s (with_regs g s).
Proof.
  intros [H1 H2 H3 H4 H5] Hg [Hgr Hl Hd]. split; [split; try done|].
  - intros o Ho. destruct (H5 o Ho) as [<- <-]. by split.
  - split; [by apply Hgr, H1|auto..].
Qed.
Lemma triple_regs {T} ptr (Q : Shared → Prop) (f : Regs → T * Regs) (Post : T → Shared → Prop) :
  stable (ct ptr) Q → (∀ b, stable (ct ptr) (Post b)) →
  (∀ s, inv s → Q s → regs_ok reg_sound (f (sh_regs s)).2 ∧ jwt_same (sh_jwt s) (lg_jwt (ag_login (f (sh_regs s)).2)) ∧
    Post (f (sh_regs s)).1 (with_regs (f (sh_regs s)).2 s)) → triple (ct ptr) Q (on_regs f) Post.
Proof.
  intros HQ HP Hf. apply triple_act; [done..|]. intros s Hi Hs. destruct (Hf s Hi Hs) as (H1 & H2 & H3).
  unfold allowed. destruct (f (sh_regs s)) as [b g]. cbn [fst snd] in *. by destruct (regs_step ptr g s Hi H1 H2).
Qed.
Lemma triple_jwt {T} ptr (Q : Shared → Prop) (f : Registry → T * Registry) (Post : T → Shared → Prop) :
  stable (ct ptr) Q → (∀ b, stable (ct ptr) (Post b)) →
  (∀ s, inv s → Q s → jwt_same (sh_jwt s) (f (sh_jwt s)).2 ∧ Post (f (sh_jwt s)).1 (jwt_now (f (sh_jwt s)).2 s)) →
  triple (ct ptr) Q (on_jwt f) Post.
Proof.
  intros HQ HP Hf. apply triple_regs; [done..|]. intros s Hi Hs. destruct (Hf s Hi Hs) as [H1 H2]. fold (sh_jwt s).
  destruct (f (sh_jwt s)) as [b j]. cbn [fst snd] in *. destruct (iv_regs _ Hi) as [G1 G2 G3].
  split_and!; [split; [by apply H1|done..]|done..].
Qed.
Lemma ensures_regs {T} ptr (Q : Shared → Prop) (f : Regs → T * Regs) (Post : T → Prop) : stable (ct ptr) Q → on_oauth Q →
  (∀ s, inv s → Q s → regs_ok reg_sound (f (sh_regs s)).2 ∧ jwt_same (sh_jwt s) (lg_jwt (ag_login (f (sh_regs s)).2)) ∧
    Post (f (sh_regs s)).1) → ensures (ct ptr) Q (on_regs f) Post.
Proof.
  intros HQ Ho Hf. apply triple_regs; [done| |].
  - intros b s s' [H1 H2] Hr. split; [by eapply HQ|done].
  - intros s Hi Hs. destruct (Hf s Hi Hs) as (H1 & H2 & H3). split_and!; [done|done|by apply (Ho s)|done].
Qed.
Lemma ensures_jwt {T} ptr (Q : Shared → Prop) (f : Registry → T * Registry) (Post : T → Prop) : stable (ct ptr) Q → on_oauth Q →
  (∀ s, inv s → Q s → jwt_same (sh_jwt s) (f (sh_jwt s)).2 ∧ Post (f (sh_jwt s)).1) → ensures (ct ptr) Q (on_jwt f) Post.
Proof.
  intros HQ Ho Hf. apply ensures_regs; [done..|]. intros s Hi Hs. destruct (Hf s Hi Hs) as [H1 H2]. fold (sh_jwt s).
  destruct (f (sh_jwt s)) as [b j]. cbn [fst snd] in *. split_and!; [|done..]. destruct (iv_regs _ Hi) as [G1 G2 G3].
  split; [by apply H1|done..].
Qed.
Lemma ensures_saml {T} ptr (Q : Shared → Prop) (f : SAMLRegistry → T * SAMLRegistry) : stable (ct ptr) Q → on_oauth Q →
  (∀ r, Saml.saml_ok r → Saml.saml_ok (f r).2) → ensures (ct ptr) Q (on_saml f) (λ _, True).
Proof.
  intros HQ Ho Hf. apply ensures_regs; [done..|]. intros s Hi Hs. destruct (iv_regs _ Hi) as [G1 G2 G3]. apply Hf in G2.
  destruct (f (ag_saml (sh_regs s))) as [b r]. split_and!; [by split|done..].
Qed.
Lemma ensures_basic {T} ptr (Q : Shared → Prop) (f : BasicRegistry → T * BasicRegistry) (Post : T → Prop) : stable (ct ptr) Q → on_oauth Q →
  (∀ r, cache_ok r → cache_ok (f r).2 ∧ Post (f r).1) → ensures (ct ptr) Q (on_basic f) Post.
Proof.
  intros HQ Ho Hf. apply ensures_regs; [done..|]. intros s Hi Hs. destruct (iv_regs _ Hi) as [G1 G2 G3]. destruct (Hf _ G3) as [H1 H2].
  destruct (f (ag_basic (sh_regs s))) as [b r]. split_and!; [by split|done..].
Qed.
End contract.

(** * The four [Reconcile] calls *)

Section reconciling.
Context {C : Crypto} {X : X509} {R : Regexp} {N : NetURL} {U : Unicode} {F : Floats} {J : JWT} {W : Network}
  {L : LoginNet} {O : OAuth2} {D : Sha256} {B : BasicCrypto} {En : Env} {M : SAMLMetadata} {SP : SAMLSP}
  {P : PromModel} {G : AEAD} {JS : OAuthJSON} {Op : OP} {LK : LocalKeys}.
Variables (cfgs : nat → Config) (known : Config → Prop) (with_ : nat → Prop) (me ptr : nat).
Hypothesis Hknown : known (cfgs ptr).
Hypothesis Hptr : with_ ptr.
Notation inv := (inv cfgs known).
Notation ct := (ct cfgs known with_ me ptr).
Notation before := (before with_ me).
Notation after := (after cfgs with_ me).
Implicit Types (s : Shared) (Q : Shared → Prop).

Lemma jwt_reconcile_ensures auth Q : stable ct Q → on_oauth Q → ensures ct Q (jwt_reconcile ptr auth) (λ _, True).
Proof.
  intros HQ Ho. assert (Hclose : ∀ l, ensures ct Q (close_each l) (λ _, True)).
  { induction l as [|a l IH]; cbn [close_each]; [by apply ensures_ret|]. apply ensures_bind with (λ _, True); [|done].
    apply ensures_jwt; [done..|]. intros s _ _. split; [|done]. split; [apply close_grows|done..]. }
  apply ensures_bind with (λ _, True); [by apply ensures_jwt|]. intros [] _; [by apply ensures_ret|].
  apply ensures_bind with (λ _, True); [|intros l _; apply Hclose]. apply ensures_jwt; [done..|]. intros s _ _. split; [|done].
  split; [apply reconcile_locked_grows|apply reconcile_locked_local..].
Qed.
Lemma saml_reconcile_ensures auth Q : stable ct Q → on_oauth Q → ensures ct Q (saml_reconcile ptr auth) (λ _, True).
Proof.
  intros HQ Ho. apply ensures_bind with (λ _, True); [by apply ensures_saml|]. intros [] _; [by apply ensures_ret|].
  apply ensures_bind with (λ _, True); [apply ensures_saml; [done..|]; intros r; apply saml_at_ok|]. intros _ _. by apply ensures_saml.
Qed.
Lemma basic_reconcile_ensures auth Q : stable ct Q → on_oauth Q → ensures ct Q (basic_reconcile ptr auth) (λ _, True).
Proof.
  intros HQ Ho. apply ensures_bind with (λ _, True); [by apply ensures_basic|]. intros [] _; [by apply ensures_ret|].
  apply ensures_bind with (λ _, True).
  - apply ensures_basic; [done..|]. intros r [? ? ? ?]. split; [|done]. unfold basic_at. cbn. destruct (_ !=? _); [|done].
    split; cbn; try apply entries_ok_empty; rewrite map_size_empty; apply Nat.le_0_l.
  - intros _ _. apply ensures_basic; [done..|]. intros r [? ? ? ?]. by split.
Qed.

(** A store in the OAuth registry. *)
Lemma write_step f lock s : inv s → oauth_built known (f (sh_oauth s)) → oauth_ok cfgs lock (f (sh_oauth s)) →
  let s' := mkShared (oauth_write f (sh_mid s)) lock in
  inv s' ∧ sh_oauth s' = f (sh_oauth s) ∧ rg_heap (sh_jwt s') = rg_heap (sh_jwt s).
Proof.
  intros [[H1 H1' H1''] H2 H3 H4 H5] Hb Ho. cbn zeta. unfold oauth_write. rewrite H2.
  split; [|done]. split; [|done..|].
  - split; [|done..]. destruct H1 as [Hn Hf]. by split.
  - intros o [= <-]. done.
Qed.
Lemma oauth_new_ok o : oauth_built known o →
  oauth_built known (set_srv (cfgs ptr) o) ∧ srv_for (cfgs ptr) (set_srv (cfgs ptr) o).
Proof.
  intros Hb. unfold oauth_built, srv_for, set_srv, oauth_new. cbn [og_srv].
  destruct (settings (Some (cfgs ptr))) as [[srv tok]|] eqn:Es; [|done]. cbn zeta.
  destruct (match og_srv o with Some _ => _ | None => _ end) eqn:Ef.
  - destruct (og_srv o) as [s0|] eqn:Eo; [|done]. apply bool_decide_eq_true in Ef.
    split; intros s [= <-]; [by apply Hb|eauto].
  - destruct (build srv tok (oauth_fingerprint srv tok)) as [s0|] eqn:Ebd; [|done].
    split; intros s [= <-]; [by eauto 10|]. exists srv, tok. split; [done|]. by eapply build_fingerprint.
Qed.
Definition held s : Prop := sh_lock s = Some (me, ptr).
Lemma held_stable : stable ct held.
Proof. intros s s' H Hr. unfold held. by rewrite (proj1 (rl_held _ _ _ _ _ Hr ptr H)). Qed.
Definition stored s : Prop := held s ∧ srv_for (cfgs ptr) (sh_oauth s).
Lemma stored_stable : stable ct stored.
Proof. intros s s' [H1 H2] Hr. destruct (rl_held _ _ _ _ _ Hr ptr H1) as [E1 E2]. unfold stored, held. by rewrite E1, E2. Qed.

(** What is seen of a registry that needs no change. *)
Lemma saw_after s : inv s → before s → oauth_saw ptr s = true → after s.
Proof.
  intros Hi [H1 H2] Hs. unfold oauth_saw in Hs. rewrite (iv_oauth _ _ _ Hi) in Hs. apply bool_decide_eq_true in Hs.
  pose proof (iv_seen _ _ _ Hi) as Hok. destruct (sh_lock s) as [[j q]|] eqn:El; cbn in Hok.
  - destruct Hok as [Hl Hp]. specialize (H1 j q eq_refl). split_and!; [by exists q| |congruence].
    destruct (Hp ptr Hs); [by exists ptr|by exists q].
  - destruct (Hok ptr Hs). split_and!; [by exists ptr..|congruence].
Qed.
Lemma not_mine j q s : held s → j ≠ me → sh_lock s = Some (j, q) → False.
Proof. unfold held. congruence. Qed.
Lemma lock_step s : inv s → before s → allowed ct (oauth_lock me ptr (cfgs ptr)) (λ b, if b then after else held) s.
Proof.
  intros Hi Hb. unfold allowed, oauth_lock. destruct (sh_lock s) as [[j q]|] eqn:El; [done|].
  destruct (oauth_saw ptr s) eqn:Es.
  { split_and!; [done| |by apply saw_after]. split; [apply heap_ext_refl|auto..]. }
  destruct (write_step (set_live (cfgs ptr)) (Some (me, ptr)) s Hi (iv_built _ _ _ Hi)) as (H1 & H2 & H3).
  { split; [done|]. intros p Hp. left. pose proof (iv_seen _ _ _ Hi) as Hok. rewrite El in Hok. by apply Hok. }
  split_and!; [done| |done]. split; rewrite ?H2, ?H3; [apply heap_ext_refl|by intros; congruence| |by right|by left].
  intros j q [= <- <-]. by right.
Qed.
Lemma store_step s : inv s → held s →
  let s' := mkShared (oauth_write (set_srv (cfgs ptr)) (sh_mid s)) (sh_lock s) in inv s' ∧ guar cfgs me ptr s s' ∧ stored s'.
Proof.
  intros Hi Hh. cbn zeta. destruct (oauth_new_ok _ (iv_built _ _ _ Hi)) as [Hb Hs].
  destruct (write_step (set_srv (cfgs ptr)) (sh_lock s) s Hi Hb) as (H1 & H2 & H3).
  { pose proof (iv_seen _ _ _ Hi) as Hok. rewrite Hh in Hok |- *. cbn in *. destruct Hok as [Hl _]. split; [done|]. by right. }
  split_and!; [done| |split; [done|by rewrite H2]]. split; rewrite ?H2, ?H3; [apply heap_ext_refl| |by left|by left|by right].
  intros j q Hj El. by destruct (not_mine _ _ _ Hh Hj El).
Qed.
Lemma unlock_step s : inv s → stored s →
  let s' := mkShared (oauth_write (set_seen ptr) (sh_mid s)) None in inv s' ∧ guar cfgs me ptr s s' ∧ after s'.
Proof.
  intros Hi [Hh Hs]. cbn zeta. pose proof (iv_seen _ _ _ Hi) as Hok. rewrite Hh in Hok. destruct Hok as [Hl _].
  destruct (write_step (set_seen ptr) None s Hi (iv_built _ _ _ Hi)) as (H1 & H2 & H3).
  { intros p [= <-]. by split. }
  split_and!; [done| |split_and!; rewrite ?H2; [by exists ptr..|done]].
  split; rewrite ?H2, ?H3; [apply heap_ext_refl| |done|by left|by left]. intros j q Hj El. by destruct (not_mine _ _ _ Hh Hj El).
Qed.
Lemma oauth_reconcile_triple : triple ct before (oauth_reconcile me ptr (cfgs ptr)) (λ _, after).
Proof.
  assert (Hst : ∀ Q : Shared → Prop, stable ct Q → ∀ b : bool, stable ct (if b then after else Q)).
  { intros Q HQ []; [apply after_stable|done]. }
  apply triple_bind with (λ b : bool, if b then after else before).
  { apply triple_act; [apply before_stable|apply Hst, before_stable|]. intros s Hi Hb.
    split_and!; [done|split; [apply heap_ext_refl|auto..]|]. destruct (oauth_saw ptr s) eqn:E; [by apply saw_after|done]. }
  intros []; [apply triple_ret, after_stable|]. apply triple_bind with (λ b : bool, if b then after else held).
  { apply triple_act; [apply before_stable|apply Hst, held_stable|]. apply lock_step. }
  intros []; [apply triple_ret, after_stable|]. apply triple_bind with (λ _, stored).
  { apply triple_act; [apply held_stable|intros _; apply stored_stable|]. apply store_step. }
  intros _. apply triple_act; [apply stored_stable|intros _; apply after_stable|]. apply unlock_step.
Qed.
Lemma reconcile_all_triple : triple ct before (reconcile_all me ptr (cfgs ptr)) (λ _, after).
Proof.
  assert (Hthen : ∀ p q, ensures ct before p (λ _ : unit, True) → triple ct before q (λ _ : unit, after) →
    triple ct before (do _ ← p; q) (λ _, after)).
  { intros p q Hp Hq. eapply triple_bind; [exact Hp|]. intros a. eapply triple_mono; [by intros s ? [? _]|intros ? ? ? HQ; exact HQ|exact Hq]. }
  pose proof (before_stable cfgs known with_ me ptr) as Hb. pose proof (before_oauth with_ me) as Ho.
  apply Hthen; [by apply jwt_reconcile_ensures|]. apply Hthen; [by apply saml_reconcile_ensures|].
  apply Hthen; [by apply basic_reconcile_ensures|]. apply oauth_reconcile_triple.
Qed.
End reconciling.

(** * The credentials *)

Section passing.
Context {C : Crypto} {X : X509} {R : Regexp} {N : NetURL} {U : Unicode} {F : Floats} {J : JWT} {W : Network}
  {L : LoginNet} {O : OAuth2} {D : Sha256} {B : BasicCrypto} {En : Env} {M : SAMLMetadata} {SP : SAMLSP}
  {P : PromModel} {G : AEAD} {JS : OAuthJSON} {Op : OP} {LK : LocalKeys}.
Variables (cfgs : nat → Config) (known : Config → Prop) (with_ : nat → Prop) (me ptr : nat).
Hypothesis Hknown : ∀ p, with_ p → known (cfgs p).
Hypothesis Hptr : with_ ptr.
Hypothesis Hvalid : ∀ cfg, known cfg → ∃ raw, Config_Validate raw = Ok cfg.
Hypothesis Hshort : ∀ cfg srv tok, known cfg → settings (Some cfg) = Ok (srv, tok) → Forall short (fingerprint_parts srv tok).
Hypothesis Hsha : ∀ a b : string, sha256_hex a = sha256_hex b → a = b.
Hypothesis Hmac : ∀ a b : string, hmac_sum a = hmac_sum b → a = b.
Notation inv := (inv cfgs known).
Notation ct := (ct cfgs known with_ me ptr).
Notation after := (after cfgs with_ me).
Notation cfg := (cfgs ptr).
Implicit Types (s : Shared).
Variables (i : Inputs) (r0 : Request).
Hypothesis Hplain : cred_plain cfg r0.

(** Keys and a denylist for the proxy's own tokens, each of an overlapping request. *)
Definition vouched_among (kf : keyfn) (sub : string) : Prop :=
  (∃ p, with_ p ∧ own_keys (cfgs p) kf) ∧ ∃ p, with_ p ∧ storage_denied (Some (cfgs p)) sub = false.
Definition keys_among (src : JWTSource) (kf : keyfn) : Prop :=
  if j_Local src then ∃ p, with_ p ∧ own_keys (cfgs p) kf else built_for (fingerprint src) kf.

Let after_stable_ : stable ct after := after_stable cfgs known with_ me ptr.
Let after_oauth_ : on_oauth after := after_oauth cfgs with_ me.

Lemma Keyfunc_ensures now src : ensures ct after (Keyfunc_p now src) (λ res, ∀ kf, res = Ok kf → keys_among src kf).
Proof.
  unfold Keyfunc_p, keys_among. destruct (j_Local src).
  { apply ensures_jwt; [done..|]. intros s Hi (_ & (p & Hp & Hs) & _). split; [done|]. intros kf.
    destruct (iv_bound _ _ _ Hi _ (iv_oauth _ _ _ Hi)) as [Hl _]. fold (sh_jwt s) in Hl. unfold sh_jwt, sh_regs in *. rewrite Hl. intros [= <-].
    exists p. split; [done|]. eapply governs_keys; eauto using iv_built. }
  pose (found (x : nat * option nat) s := after s ∧ resolver_for src x.1 (rg_heap (sh_jwt s))).
  assert (Hf : ∀ x, stable ct (found x)).
  { intros x s s' [H1 H2] Hr. split; [by eapply after_stable_|]. eapply resolver_for_ext; [apply (rl_heap _ _ _ _ _ Hr)|done]. }
  apply triple_bind with found.
  { apply triple_jwt; [done..|]. intros s Hi Ha. destruct (lookup_map src (sh_jwt s)) as [[a old] j] eqn:E.
    apply lookup_same in E as [H1 H2]. split; [done|]. split; [by apply (after_oauth_ s)|done]. }
  intros [a old]. apply triple_bind with (λ _, found (a, old)).
  { apply triple_jwt; [done..|]. intros s Hi [Ha Hr]. split; [apply close_same|]. split; [by apply (after_oauth_ s)|].
    eapply resolver_for_ext; [apply heap_ext_close|done]. }
  intros _. apply triple_jwt; [done| |].
  - intros b s s' [H1 H2] Hr. split; [by eapply after_stable_|done].
  - intros s Hi [Ha Hr]. cbn [fst] in *. destruct (Keyfunc_build now src a (sh_jwt s)) as [res j] eqn:E.
    apply build_same in E as [H1 H2]; [|done]. split; [done|]. split; [by apply (after_oauth_ s)|]. apply H2, (iv_regs _ _ _ Hi).
Qed.
Lemma denied_ensures src claims : ensures ct after (denied_p src claims) (λ denied, denied = false → j_Local src = true →
  ∃ p, with_ p ∧ storage_denied (Some (cfgs p)) (token_sub claims) = false).
Proof.
  unfold denied_p. destruct (j_Local src); [|by apply ensures_ret]. apply ensures_jwt; [done..|]. intros s Hi ((p & Hp & Hl) & _).
  split; [done|]. cbn [fst]. destruct (iv_bound _ _ _ Hi _ (iv_oauth _ _ _ Hi)) as [_ Hd]. unfold deniedLocalSubject, sh_jwt, sh_regs.
  rewrite Hd. unfold Denied. rewrite Hl. eauto.
Qed.
Lemma try_candidates_ensures now raw srcs report have : ensures ct after (try_candidates_p now raw srcs report have) (λ res,
  match res with
  | inl (src, claims) => src ∈ srcs ∧ ∃ kf, verify raw src kf = Ok claims ∧
      if j_Local src then vouched_among kf (token_sub claims) else built_for (fingerprint src) kf
  | inr _ => True
  end).
Proof.
  revert report have. induction srcs as [|src srcs IH]; intros report have; cbn [try_candidates_p]; [by apply ensures_ret|].
  assert (Hrest : ∀ report have, ensures ct after (try_candidates_p now raw srcs report have) (λ res,
    match res with
    | inl (src', claims) => src' ∈ src :: srcs ∧ ∃ kf, verify raw src' kf = Ok claims ∧
        if j_Local src' then vouched_among kf (token_sub claims) else built_for (fingerprint src') kf
    | inr _ => True
    end)).
  { intros report' have'. eapply ensures_mono; [|apply IH]. intros [[s c]|]; [|done]. intros [H1 H2]. split; [by right|done]. }
  eapply ensures_bind; [apply Keyfunc_ensures|]. intros [kf|e] Hk; [|apply Hrest].
  destruct (verify raw src kf) as [claims|e] eqn:Ev; [|apply Hrest].
  eapply ensures_bind; [apply denied_ensures|]. intros [] Hd; [apply Hrest|]. apply ensures_ret; [done|].
  split; [by left|]. exists kf. split; [done|]. specialize (Hk kf eq_refl). unfold keys_among in Hk. destruct (j_Local src); [|done].
  split; [done|by apply Hd].
Qed.
Lemma enforceJWT_ensures w r : ensures ct after (enforceJWT_p (in_now i) w r cfg) (λ x,
  (x.1 ≠ jwtRejected → x.2 = w) ∧ ∀ p, x.1 = jwtAllowed p → authentic_by vouched_among cfg (in_now i) r p).
Proof.
  unfold enforceJWT_p. cbn zeta. destruct (extractTokenFrom r (auth_of cfg)) as [[raw from]|] eqn:Ee; [|by apply ensures_ret].
  destruct (unverifiedIssuer raw) as [iss|] eqn:Ei; [|case_if; by apply ensures_ret].
  rewrite JWTSourcesByIssuer_filter. destruct (List.filter _ _) as [|s1 srcs] eqn:Es; [case_if; by apply ensures_ret|].
  rewrite <- Es. eapply ensures_bind; [apply try_candidates_ensures|]. intros [[src claims]|why] Hres.
  - destruct Hres as (Hin & kf & Hv & Hk). apply ensures_ret; [done|]. split; [done|]. intros p [= <-]. by eapply by_token.
  - repeat case_if; by apply ensures_ret.
Qed.
Lemma verify_ensures src u pw : plain src u pw →
  ensures ct after (verify_p i src u pw) (λ res, res = Ok true → direct src u pw = true).
Proof.
  intros Hp. unfold verify_p. case_if; [by apply ensures_ret|].
  eapply ensures_bind; [apply (ensures_basic _ _ _ _ _ _ _ (λ hit, ∀ ok, hit = Some ok → ok = direct src u pw)); [done..|]|].
  { intros b Hb. destruct (lookup_ _ _ b) as [hit b'] eqn:E. cbn [fst snd]. split; [by eapply cache_ok_lookup|].
    intros ok ->. by eapply hit_direct. }
  intros [ok|] Hhit; [apply ensures_ret; [done|]; intros [= ->]; symmetry; by apply Hhit|].
  destruct (verify_uncached _ _ _ _) as [[ok|e]|] eqn:Ev; [|by apply ensures_ret..]. apply verify_uncached_ok in Ev as ->.
  eapply ensures_bind; [apply ensures_basic with (Post := λ _, True); [done..|]|].
  - intros b Hb. split; [by apply cache_ok_store|done].
  - intros _ _. apply ensures_ret; [done|]. by intros [=].
Qed.

(** ** The legs *)

(** What a leg leaves: the turn of the next one, where [nx] holds; a response; or a
    request let through. *)
Definition settled (nx : Prop) (x : outcome * Response * Request) : Prop :=
  match x with
  | (Continue, w, r) => w_status w = None ∧ frame r = frame r0 ∧ nx
  | (Answered, _, _) => True
  | (Allow p r, w, _) => w_status w = None ∧ frame r = frame r0 ∧
      match p with Some q => authentic_by vouched_among cfg (in_now i) r q | None => Enabled (auth_of cfg) = false end
  end.
Definition pleg_ok (nx nx' : Prop) (p : pleg) : Prop := ∀ w r, w_status w = None → frame r = frame r0 → nx →
  ensures ct after (p w r) (settled nx').
Lemma pthen_ok n1 n2 n3 p q : pleg_ok n1 n2 p → pleg_ok n2 n3 q → pleg_ok n1 n3 (pthen p q).
Proof.
  intros Hp Hq w r Hw Hf Hn. eapply ensures_bind; [by apply Hp|].
  intros [[[| |u r'] w1] r1] Hx; [destruct Hx as (? & ? & ?); by apply Hq|by apply ensures_ret..].
Qed.
Lemma atomic_ok (nx nx' : Prop) (l : leg) :
  (∀ keep, (∀ j j', jwt_kept j j' → keep j → keep j') → leg_keeps keep every l) →
  (∀ w r g, w_status w = None → frame r = frame r0 → nx → regs_ok reg_sound g →
     settled nx' (let x := l (mkState w r g) in (x.1, st_w x.2, st_r x.2))) → pleg_ok nx nx' (atomic l).
Proof.
  intros Hl Hs w r Hw Hf Hn. apply ensures_regs; [done..|]. intros s Hi _. pose proof (iv_regs _ _ _ Hi) as Hg.
  specialize (Hs w r (sh_regs s) Hw Hf Hn Hg).
  destruct (Hl (λ j, reg_sound j ∧ jwt_same (sh_jwt s) j)) with (s := mkState w r (sh_regs s)) as [[H1 H2] H3 H4].
  - intros j j' Hk%jwt_kept_same [H1 H2]. split; [by apply Hk|by etrans].
  - done.
  - destruct Hg as [G1 G2 G3]. by split.
  - destruct (l (mkState w r (sh_regs s))) as [o st]. cbn [fst snd] in *. split_and!; [by split|done..].
Qed.
(** A leg that lets nobody through, by what [Authenticate] says of it. *)
Lemma quiet_leg (nx nx' : Prop) (l : leg) :
  (∀ keep, (∀ j j', jwt_kept j j' → keep j → keep j') → leg_keeps keep every l) →
  (∀ st p r, (l st).1 ≠ Allow p r) →
  (∀ st, w_status (st_w st) = None → nx → good i cfg st (λ st', live st false st' ∧ nx') (l st)) → pleg_ok nx nx' (atomic l).
Proof.
  intros Hl Hq Hg. apply atomic_ok; [done|]. intros w r g Hw Hf Hn _. specialize (Hg (mkState w r g) Hw Hn).
  specialize (Hq (mkState w r g)). destruct (l (mkState w r g)) as [[| |p r'] st]; cbn in *; [|done|by destruct (Hq p r')].
  destruct Hg as [[H1 H2 _ _] H3]. cbn in H2. split_and!; [done|congruence|done].
Qed.
Lemma live_start st : w_status (st_w st) = None → live st true st.
Proof. intros H. by split. Qed.
Lemma live_weaken st (nx : Prop) x : nx → good i cfg st (live st true) x → good i cfg st (λ st', live st false st' ∧ nx) x.
Proof. destruct x as [[] st']; cbn; [|done..]. intros Hn [H1 H2 _ H4]. split; [by split|done]. Qed.
Lemma refresh_p_ok waited tokens : pleg_ok True True (atomic (refresh_leg i waited cfg tokens)).
Proof.
  apply quiet_leg.
  - intros keep Hk. by apply refresh_keeps.
  - intros st p r. unfold refresh_leg. destruct (Refresh _ _ _ _ _ _ _) as [[[[] ?] ?] ?]; done.
  - intros st Hw _. by apply live_weaken, refresh_ok, live_start.
Qed.
Lemma start_leg_quiet src ret st p r : (start_leg i src ret st).1 ≠ Allow p r.
Proof. unfold start_leg. destruct src as [src|]; [|done]. destruct (j_Login src); [|done]. by destruct (Start _ _ _ _ _ _ _ _). Qed.
Lemma pick_p_ok : pleg_ok True True (atomic (pick_leg i cfg)).
Proof.
  apply quiet_leg.
  - intros keep Hk. by apply pick_keeps.
  - intros st p r. unfold pick_leg. repeat (case_match || case_if); try done. apply start_leg_quiet.
  - intros st Hw _. by apply live_weaken, pick_ok, live_start.
Qed.
Definition saml_off : Prop := SAMLEnabled (auth_of cfg) = false ∨ OAuthEnabled cfg = true.
Lemma single_p_ok : pleg_ok saml_off saml_off (atomic (single_leg i cfg)).
Proof.
  apply quiet_leg.
  - intros keep Hk. by apply single_keeps.
  - intros st p r. unfold single_leg. case_if; [|done]. destruct (LoginSources _) as [|src [|]]; [done|apply start_leg_quiet|done].
  - intros st Hw Hn. pose proof (single_ok i cfg st false saml_off st) as H. apply H. split; [|done]. destruct (live_start st Hw). by split.
Qed.
Lemma last_p_ok : pleg_ok saml_off False (atomic (last_leg cfg)).
Proof.
  apply atomic_ok; [intros keep _; apply last_keeps|]. intros w r g Hw Hf Hn _. unfold last_leg.
  destruct (JWTEnabled _ || BasicEnabled _) eqn:E; cbn; [done|]. split_and!; [done..|]. apply orb_false_iff in E as [Ej Eb].
  unfold Enabled. destruct Hn as [Hs|Ho]; [by rewrite Ej, Hs, Eb|]. destruct (Hvalid cfg (Hknown _ Hptr)) as [raw Hv].
  pose proof (Config_Validate_local _ _ Hv Ho) as Hj. unfold auth_of in Ej. congruence.
Qed.
Lemma saml_p_ok : pleg_ok True saml_off (atomic (saml_leg i cfg)).
Proof.
  apply atomic_ok; [intros keep Hk; by apply saml_keeps|]. intros w r g Hw Hf _ Hg. unfold saml_leg, saml_off, SAMLEnabled.
  destruct (a_SAML (auth_of cfg)) as [src|] eqn:Ea; [|by split_and!; [..|left]].
  destruct (s_Disabled src) eqn:Ed; cbn [negb]; [by split_and!; [..|left]|]. cbn [st_regs].
  destruct (Provider_ (in_now i) src (ag_saml g)) as [[mw|e] reg] eqn:Ep; [|done]. apply Provider_ok in Ep as [_ Hb]; [|apply Hg].
  cbn [st_w st_r st_regs]. destruct (OAuthEnabled cfg && negb (browserNav r)) eqn:Eo.
  - destruct (GetSession (in_now i) mw r) as [ss|] eqn:Eg.
    + split_and!; [done|done|]. by apply by_saml with src mw r; [| |apply Hb| |left|].
    + apply andb_true_iff in Eo as [Eo _]. split_and!; [done..|by right].
  - unfold enforceSAML. destruct (RequireAccount (in_now i) mw r) as [ss|f] eqn:Er; [|done].
    split_and!; [done|done|]. by apply by_saml with src mw r; [| |apply Hb| |right|].
Qed.
Lemma basic_p_ok : pleg_ok True True (basic_p i cfg).
Proof.
  intros w r Hw Hf _. unfold basic_p, BasicEnabled. destruct (a_Basic (auth_of cfg)) as [src|] eqn:Ea; [|by apply ensures_ret].
  destruct (b_Disabled src) eqn:Ed; cbn [negb]; [by apply ensures_ret|].
  apply ensures_bind with (λ x : basicOutcome * Response, (∀ u, x.1 = basicAllowed u → authentic_by vouched_among cfg (in_now i) r (basicPrincipal u)) ∧
    (x.1 ≠ basicRejected → x.2 = w)).
  - unfold enforceBasic_p. destruct (extractBasic r) as [| |u pw] eqn:Ee; [by apply ensures_ret..|].
    eapply ensures_bind; [apply (verify_ensures src u pw), (Hplain _ _ _ Ea)|].
    { by rewrite <- (extractBasic_frame _ _ Hf). }
    intros [[]|e] Hres; apply ensures_ret; try done. split; [|done]. intros u' [= <-]. by eapply by_password; [..|apply Hres].
  - intros [[|u|] w'] [H1 H2]; apply ensures_ret; cbn in *; try done; rewrite H2 by done; split_and!; auto.
Qed.
Lemma jwt_verdict_ok w r x : w_status w = None → frame r = frame r0 → (x.1 ≠ jwtRejected → x.2 = w) →
  (∀ p, x.1 = jwtAllowed p → authentic_by vouched_among cfg (in_now i) r p) → settled True (jwt_verdict cfg r x).
Proof. intros Hw Hf H1 H2. destruct x as [[|p| |] w']; cbn in *; try done; rewrite H1 by done; split_and!; auto. Qed.
Lemma jwt_p_ok tokens : pleg_ok True True (jwt_p i cfg tokens).
Proof.
  unfold jwt_p. destruct (JWTEnabled _); [|intros w r Hw Hf _; by apply ensures_ret].
  eapply pthen_ok; [apply refresh_p_ok|]. intros w r Hw Hf _.
  eapply ensures_bind; [apply enforceJWT_ensures|]. intros [o w'] [H1 H2]. pose proof (jwt_verdict_ok w r (o, w') Hw Hf H1 H2) as Hv.
  destruct o; [by apply ensures_ret..|]. cbn in H1. rewrite H1 by done. destruct (DropStaleLogin w r (auth_of cfg)) as [w2 r2] eqn:Ed.
  apply DropStaleLogin_spec in Ed as [Hw2 Hf2]. eapply (pthen_ok True True True); [apply refresh_p_ok| |congruence|congruence|done].
  intros w3 r3 Hw3 Hf3 _. eapply ensures_bind; [apply enforceJWT_ensures|]. intros x [H3 H4]. apply ensures_ret; [done|].
  by eapply jwt_verdict_ok.
Qed.
Lemma authenticate_p_ok : pleg_ok True False (authenticate_p i cfg).
Proof.
  intros w r Hw Hf _. unfold authenticate_p. pose proof (TakeRefreshCookies_frame r (auth_of cfg)) as Hf'.
  destruct (TakeRefreshCookies r (auth_of cfg)) as [tokens r1]. cbn [snd] in Hf'.
  eapply (pthen_ok True); [apply basic_p_ok| |done|congruence|done].
  eapply pthen_ok; [apply jwt_p_ok|]. eapply pthen_ok; [apply pick_p_ok|]. eapply pthen_ok; [apply saml_p_ok|].
  eapply pthen_ok; [apply single_p_ok|apply last_p_ok].
Qed.

(** ** The middleware *)

Lemma route_ensures font w r : frame r = frame r0 → ensures ct after (route_p font i cfg w r) (λ _, True).
Proof.
  intros Hf. apply ensures_act; [done|]. intros s Hi Ha. pose proof (iv_regs _ _ _ Hi) as [G1 G2 G3].
  assert (Hr : cred_plain cfg r) by (by eapply cred_plain_frame).
  pose proof (serve_route_keeps (λ j, reg_sound j ∧ jwt_same (sh_jwt s) j)) as Hk.
  specialize (Hk (λ j j' Hj H, conj (gr_sound _ _ (jk_grows _ _ Hj) (proj1 H)) (transitivity (proj2 H) (jwt_kept_same _ _ Hj)))
    font i cfg (md_oauth (sh_mid s)) (mkState w r (sh_regs s))).
  unfold allowed. destruct (serve_route font i cfg (md_oauth (sh_mid s)) _) as [st|].
  - destruct (Hk st) as [[H1 H2] H3 H4]; [done| |done|]. { by split. }
    destruct (regs_step cfgs known me ptr (st_regs st) s Hi) as [A1 A2]; [by split|done|]. split_and!; [done..| |done].
    by apply (after_oauth_ s).
  - split_and!; [done| |done|done]. split; [apply heap_ext_refl|auto..].
Qed.
Lemma middleware_safe font w : w_status w = None →
  triple ct (before with_ me) (middleware_p font me i ptr cfg w r0) (λ x s, after s ∧
    ∀ r2, x.2 = Some r2 → w_status x.1 = None ∧ passed_by vouched_among cfg (in_now i) r0 r2).
Proof.
  intros Hw. eapply triple_bind; [apply reconcile_all_triple; auto|]. intros a. cbn beta.
  eapply (ensures_bind ct after _ _ (λ _, True)); [by apply route_ensures|]. intros [w1|] _; [by apply ensures_ret|].
  eapply ensures_bind; [by apply authenticate_p_ok|]. intros [[[| |p r1] w1] r'] Hx; [by destruct Hx as (_ & _ & ?)|by apply ensures_ret|].
  destruct Hx as (Hw1 & Hf & Hp). apply ensures_ret; [done|].
  pose proof (authorize_cases w1 r1 cfg p) as Ha. destruct (authorize _ _ _ _) as [w2 []]; [|done]. destruct Ha as [-> Hg].
  pose proof (resolvePromLabels_cases w1 r1 cfg p) as Hc. destruct (resolvePromLabels w1 r1 cfg p) as [w3 res] eqn:Er.
  cbn [fst snd]. intros r2 ->. destruct Hc as [-> Hc]. split; [done|]. exists p, r1. split_and!; [done|by eapply granted_frame|done|].
  destruct Hc as [[-> ->]|(sc & block & -> & Eb)]; [done|]. rewrite Eb.
  assert (Hsc : (resolvePromLabels w1 r1 cfg p).2 = Some (with_scope sc r1)) by (by rewrite Er).
  apply (resolvePromLabels_scoped _ _ _ _ _ _ Eb) in Hsc as (q & -> & Hsc). eauto.
Qed.
End passing.
