(* ===== verification/OAuthProvider.v ===== *)
(** What the provider library sees of [internal/oauth]: requests, clients and keys
    through its interfaces ([types.go], [keys.go]) and the rest of its storage
    ([storage.go]).  Lifetimes are nanoseconds. *)
From S2P Require Import Prelude GoStrings ConfigTypes PromScope GoURL GoHTTP Acl ConfigAuth ConfigMain Credentials Basic Jwks Session Login Saml OAuthServer Authenticate Middleware Registries.

(** * types.go *)

(** op.TokenRequest, and what op.AuthRequest and op.RefreshTokenRequest add to it
    alike. *)
Class op_TokenRequest (T : Type) : Type := {
  GetSubject : T → string; GetAudience : T → list string; GetScopes : T → list string
}.
Class op_SessionRequest (T : Type) : Type := {
  session_TokenRequest :: op_TokenRequest T;
  GetAMR : T → list string; GetAuthTime : T → Z; GetClientID : T → string
}.
Definition amr (mode : string) : list string := if (mode =? "")%go then [] else [mode].
#[export] Instance authReq_session : op_SessionRequest authReq := {
  session_TokenRequest := {| GetSubject a := rd_Sub (ar_d a); GetAudience a := [ar_audience a]; GetScopes a := rd_Scopes (ar_d a) |};
  GetAMR a := amr (rd_Mode (ar_d a)); GetAuthTime a := of_unix (rd_AuthTime (ar_d a)); GetClientID a := rd_ClientID (ar_d a)
}.
#[export] Instance refreshReq_session : op_SessionRequest refreshReq := {
  session_TokenRequest := {| GetSubject r := rf_Sub (rr_d r); GetAudience r := [rr_audience r]; GetScopes r := rf_Scopes (rr_d r) |};
  GetAMR r := amr (rf_Mode (rr_d r)); GetAuthTime r := of_unix (rf_AuthTime (rr_d r)); GetClientID r := rf_ClientID (rr_d r)
}.
(** A request of either kind. *)
#[export] Instance TokenRequest_session : op_SessionRequest TokenRequest := {
  session_TokenRequest := {| GetSubject t := match t with TR_auth a => GetSubject a | TR_refresh r => GetSubject r end;
                             GetAudience t := match t with TR_auth a => GetAudience a | TR_refresh r => GetAudience r end;
                             GetScopes t := match t with TR_auth a => GetScopes a | TR_refresh r => GetScopes r end |};
  GetAMR t := match t with TR_auth a => GetAMR a | TR_refresh r => GetAMR r end;
  GetAuthTime t := match t with TR_auth a => GetAuthTime a | TR_refresh r => GetAuthTime r end;
  GetClientID t := match t with TR_auth a => GetClientID a | TR_refresh r => GetClientID r end
}.
Definition SetCurrentScopes (scopes : list string) (r : refreshReq) : refreshReq :=
  let d := rr_d r in
  mkRefreshReq (mkRefreshData (rf_Sub d) (rf_Email d) (rf_Groups d) (rf_Mode d) (rf_ClientID d) scopes (rf_AuthTime d) (rf_Exp d))
    (rr_audience r).

(** The rest of op.AuthRequest. *)
Record op_AuthRequest := mkOpAuthRequest {
  oa_ID : string; oa_ACR : string; oa_CodeChallenge : string * string; oa_Nonce : string; oa_RedirectURI : string;
  oa_ResponseType : string; oa_ResponseMode : string; oa_State : string; oa_Done : bool
}.
Definition as_AuthRequest (a : authReq) : op_AuthRequest :=
  let d := ar_d a in
  mkOpAuthRequest (ar_id a) "" (rd_Challenge d, rd_Method d) (rd_Nonce d) (rd_RedirectURI d) "code" "" (rd_State d) (ar_done a).

(** op.Client: every client is a native one, with no secret. *)
Record op_Client := mkOpClient {
  oc_GetID : string; oc_RedirectURIs_ : list string; oc_PostLogoutRedirectURIs : list string; oc_ApplicationType : string;
  oc_AuthMethod : string; oc_ResponseTypes : list string; oc_GrantTypes : list string; oc_LoginURL : string → string;
  oc_AccessTokenType : string; oc_IDTokenLifetime : Z; oc_DevMode : bool;
  oc_RestrictIDTokenScopes : list string → list string; oc_RestrictAccessTokenScopes : list string → list string;
  oc_IsScopeAllowed : string → bool; oc_IDTokenUserinfoClaimsAssertion : bool; oc_ClockSkew : Z
}.
Definition as_Client (c : client) : op_Client :=
  mkOpClient (oc_ID (cl_cfg c)) (oc_RedirectURIs (cl_cfg c)) [] "native" "none" ["code"] ["authorization_code"; "refresh_token"]
    (LoginURL c) "jwt" (5 * minute) false (λ s, s) (λ s, s) (λ s, (s =? "groups")%go) false 0.

(** * keys.go *)

Definition ES256 : string := "ES256".
Section keys.
Context {C : Crypto}.
(** op.SigningKey and op.Key: the algorithm, the use, the ID and the key. *)
Record op_Key := mkOpKey { ok_Algorithm : string; ok_Use : string; ok_ID : string; ok_Key : ECPrivateKey }.
Definition signing (m : keyManager) : op_Key := mkOpKey ES256 "" (pk_KID (km_active m)) (pk_Key (km_active m)).
Definition publicKey (k : ParsedSigningKey) : op_Key := mkOpKey ES256 "sig" (pk_KID k) (pk_Key k).
Definition keySet (m : keyManager) : list op_Key := publicKey <$> km_public m.
End keys.

(** * storage.go *)

Section storage.
Open Scope go_scope.
Context {C : Crypto} {R : Regexp} {N : NetURL} {U : Unicode} {F : Floats} {G : AEAD} {JS : OAuthJSON} {Op : OP} {D : Sha256}.

Definition Health (live : option Config) : option error := match settings live with Ok _ => None | Err e => Some e end.
(** The subject of a refresh token and an ID for it. *)
Definition GetRefreshTokenInfo (s : storage) (token : string) : result (string * string) :=
  match open unjson_refresh (sg_sealer s) kindRefresh token with
  | Err _ => Err ErrInvalidRefreshToken
  | Ok d => Ok (rf_Sub d, s_take 16 (sha256_hex token))
  end.
Definition storage_SigningKey (s : storage) : result op_Key := Ok (signing (sg_keys s)).
Definition SignatureAlgorithms : result (list string) := Ok [ES256].
Definition storage_KeySet (s : storage) : result (list op_Key) := Ok (keySet (sg_keys s)).
Definition GetClientByClientID (live : option Config) (s : storage) (id : string) : result op_Client :=
  match lookupClient live s id with Some c => Ok (as_Client c) | None => Err errNotFound end.
Definition AuthorizeClientIDSecret (id secret : string) : error := ENew "clients have no secret".
(** Nothing to save, delete or revoke; no userinfo, and no claims by scope. *)
Definition SaveAuthCode : option error := None.
Definition DeleteAuthRequest : option error := None.
Definition TerminateSession : option error := None.
Definition RevokeToken : option error := None.
Definition GetPrivateClaimsFromScopes : result (gmap string any) := Ok ∅.
Definition GetKeyByIDAndClientID : error := ENew "unsupported".
Definition ValidateJWTProfileScopes : error := ENew "unsupported".

(** * Lemmas *)

Lemma parse_keys_kids {X : X509} kids l ks : parse_keys kids l = Ok ks →
  pk_KID <$> ks = sk_KID <$> l ∧ NoDup (pk_KID <$> ks) ∧ ∀ k, k ∈ ks → pk_KID k ∉ kids ∧ pk_KID k ≠ "".
Proof.
  revert kids ks. induction l as [|k l IH]; intros kids ks H; cbn in H.
  { injection H as <-. split_and!; [done|constructor|by intros k ?%elem_of_nil]. }
  destruct (bool_decide (sk_KID k = "")) eqn:Ek; [done|]. apply bool_decide_eq_false in Ek. apply rbind_ok in H as (kids' & Hm%rwrap_ok & H). apply rbind_ok in H as (key & _ & H).
  apply rbind_ok in H as (ks' & H & [= <-]). apply IH in H as (H1 & H2 & H3). unfold markUnique in Hm.
  case_bool_decide as Hk; [done|]. injection Hm as <-. split_and!.
  - cbn. by rewrite H1.
  - cbn. constructor; [|done]. intros (k' & E & Hk')%list_elem_of_fmap. specialize (H3 _ Hk'). set_solver.
  - intros k' [->|Hk']%elem_of_cons; [done|]. specialize (H3 _ Hk'). split; [set_solver|apply H3].
Qed.
Lemma find_kid ks kid : NoDup (pk_KID <$> ks) → ∀ k, find (λ k, pk_KID k =? kid) (rev ks) = Some k ↔ k ∈ ks ∧ pk_KID k = kid.
Proof.
  intros Hd k. split.
  - intros H. apply find_some in H as [H1 H2]. apply bool_decide_eq_true in H2. split; [|done].
    apply list_elem_of_In. by apply in_rev.
  - intros [Hk <-]. destruct (find _ (rev ks)) as [k'|] eqn:E.
    + apply find_some in E as [E1 E2]. apply bool_decide_eq_true in E2. f_equal.
      assert (Hk' : k' ∈ ks) by (apply list_elem_of_In; by apply in_rev).
      apply list_elem_of_lookup in Hk as [i Hi], Hk' as [j Hj].
      assert (i = j) as <-; [|congruence]. eapply NoDup_lookup; [exact Hd|..]; rewrite list_lookup_fmap; [by rewrite Hi|].
      rewrite Hj. cbn. by rewrite E2.
    + exfalso. pose proof (find_none _ _ E k) as Hn. rewrite <- in_rev in Hn.
      apply list_elem_of_In in Hk. specialize (Hn Hk). cbn in Hn. by rewrite bool_decide_true in Hn.
Qed.
End storage.

(** * Properties *)

(** The keys of the tokens. Under a validated configuration with the OAuth server
    on, there is a key manager: it publishes every configured signing key once, in
    order, and tokens are signed with the first. A key ID resolves to a key for
    verification exactly when that key is published under it, so what is signed
    verifies, a token signed with a key rotated out of the first place still does as
    long as the key is configured, and a token with no key ID, or another, never does. *)
Theorem keys_spec {C : Crypto} {X : X509} {R : Regexp} {N : NetURL} {U : Unicode} {En : Env} {P : PromModel} raw (cfg : Config) srv tok
    (Hv : Config_Validate raw = Ok cfg) (Hs : settings (Some cfg) = Ok (srv, tok)) :
  ∃ m, newKeyManager (t_keys tok) = Ok m ∧
    ok_ID <$> keySet m = sk_KID <$> t_SigningKeys tok ∧ NoDup (ok_ID <$> keySet m) ∧
    (∀ kid key, km_keyfunc m kid = Ok key ↔ ∃ k, k ∈ keySet m ∧ ok_ID k = kid ∧ ok_Key k = key) ∧
    head (keySet m) = Some (mkOpKey ES256 "sig" (ok_ID (signing m)) (ok_Key (signing m))) ∧
    km_keyfunc m (ok_ID (signing m)) = Ok (ok_Key (signing m)) ∧ is_ok (km_keyfunc m "") = false.
Proof.
  destruct (settings_keys _ _ _ _ Hv Hs) as [Hne Hp]. apply parse_keys_kids in Hp as (Hkids & Hd & Hn).
  destruct (t_keys tok) as [|k0 ks] eqn:Ek; [by destruct (t_SigningKeys tok)|].
  set (m := mkKeyManager k0 (k0 :: ks)). exists m.
  assert (HID : ok_ID <$> keySet m = pk_KID <$> k0 :: ks) by (unfold keySet; by rewrite <- list_fmap_compose).
  assert (Hf : ∀ kid key, km_keyfunc m kid = Ok key ↔ ∃ k, k ∈ keySet m ∧ ok_ID k = kid ∧ ok_Key k = key).
  { intros kid key. unfold km_keyfunc. pose proof (find_kid (k0 :: ks) kid Hd) as H. cbn [m km_public].
    split.
    - destruct (find _ _) as [k|]; [|done]. intros [= <-]. destruct (H k) as [[H1 H2] _]; [done|]. exists (publicKey k).
      split_and!; [|done..]. by apply list_elem_of_fmap_2.
    - intros (k' & (k & -> & Hk)%list_elem_of_fmap & <- & <-). destruct (H k) as [_ H2]. by rewrite H2. }
  split_and!; [done|by rewrite HID|by rewrite HID|exact Hf|done| |].
  - apply Hf. exists (publicKey k0). split_and!; [|done..]. left.
  - destruct (km_keyfunc m "") as [key|] eqn:E; [|done]. apply Hf in E as (k' & (k & -> & Hk)%list_elem_of_fmap & E & _).
    destruct (Hn k Hk) as [_ H]. done.
Qed.

(** C13: refreshing. A refresh token given for a token request is answered, from then
    on, by any configuration in force and any server that still holds its sealing key,
    in one of two ways: it is refused, exactly when its fixed expiry has passed or its
    subject is on the denylist in force; or it becomes a token request with the same
    subject, client, scopes, methods and time of login, for the audience in force, that
    gives an access token the same claims of its own, and a refresh token the same
    content, so that refreshing changes nothing and extends nothing. *)
Theorem refresh_roundtrip {C : Crypto} {R : Regexp} {N : NetURL} {U : Unicode} {F : Floats} {G : AEAD} {JS : OAuthJSON} {Op : OP} {D : Sha256}
    (s s' : storage) k nonce now now' live live' srv tok srv' tok' id (req : TokenRequest) x
    (Hg : ideal_gcm) (Hn : String.length nonce = nonceSize) (Hk : head (sg_sealer s) = Some k) (Hk' : k ∈ sg_sealer s')
    (Hlive : settings live = Ok (srv, tok)) (Hlive' : settings live' = Ok (srv', tok'))
    (Hjson : unjson_refresh (json_refresh (refresh_content srv req)) = Some (refresh_content srv req))
    (Hx : CreateAccessAndRefreshTokens now (Ok nonce) live s id req = Ok x) :
  let d := refresh_content srv req in
  match TokenRequestByRefreshToken now' live' s' x.1.2 with
  | Err e => e = ErrInvalidRefreshToken ∧ ((rf_Exp d < unix now')%Z ∨ Denylist_Contains (o_Denylist srv') (GetSubject req) = true)
  | Ok r => (unix now' ≤ rf_Exp d)%Z ∧ Denylist_Contains (o_Denylist srv') (GetSubject req) = false ∧
      GetSubject r = GetSubject req ∧ GetClientID r = GetClientID req ∧ GetScopes r = GetScopes req ∧ GetAMR r = GetAMR req ∧
      GetAuthTime r = GetAuthTime req ∧ GetAudience r = [t_Audience tok'] ∧
      GetPrivateClaimsFromRequest (TR_refresh r) = GetPrivateClaimsFromRequest req ∧
      ∀ later, refresh_content later (TR_refresh r) = d
  end ∧ GetRefreshTokenInfo s' x.1.2 = Ok (GetSubject req, s_take 16 (sha256_hex x.1.2)).
Proof.
  cbn zeta. unfold CreateAccessAndRefreshTokens in Hx. rewrite Hlive in Hx. cbn [rbind] in Hx.
  destruct (seal _ _ _ _) as [t|] eqn:Es; [|done]. injection Hx as <-. cbn [fst snd].
  pose proof (open_sealed Hg unjson_refresh _ (sg_sealer s') k nonce kindRefresh kindRefresh _ t Hn Hk Es) as Ho.
  rewrite !bool_decide_true in Ho by done. cbn [andb] in Ho. rewrite Hjson in Ho.
  unfold TokenRequestByRefreshToken, GetRefreshTokenInfo, storage_denied. rewrite Hlive', Ho. cbn [rbind].
  assert (Hsub : rf_Sub (refresh_content srv req) = GetSubject req) by (by destruct req). rewrite Hsub. split; [|done].
  destruct ((rf_Exp _ <? unix now')%Z || _) eqn:E.
  - split; [done|]. apply orb_true_iff in E as [E|E]; [left; lia|by right].
  - apply orb_false_iff in E as [E1 E2]. split_and!; [lia|done|by destruct req..].
Qed.

(** ** Concrete values *)

#[local] Existing Instances demo_crypto demo_x509 demo_regexp demo_neturl ascii_unicode demo_floats demo_env demo_prom demo_gcm
  demo_oauth_json demo_op demo_sha.
Lemma keys_spec_witness :
  ∃ srv tok m, settings (Some demo_mid_config) = Ok (srv, tok) ∧ newKeyManager (t_keys tok) = Ok m ∧ (ok_ID <$> keySet m) ≠ [] ∧
    km_keyfunc m (ok_ID (signing m)) = Ok (ok_Key (signing m)).
Proof.
  destruct (settings (Some demo_mid_config)) as [[srv tok]|e] eqn:Es; [|exfalso; vm_compute in Es; discriminate Es].
  destruct (keys_spec demo_mid_raw demo_mid_config srv tok demo_mid_valid Es) as (m & Hm & _ & _ & _ & Hh & H & _).
  exists srv, tok, m. split; [reflexivity|split; [exact Hm|split; [|exact H]]]. intros E. destruct (keySet m); [discriminate Hh|discriminate E].
Defined.

(** A finished login's refresh token, before its expiry and after. *)
Definition demo_grant : TokenRequest := TR_auth (mkAuthReq demo_done "id" true "https://mcp").
Definition demo_grant_refresh : refreshData := refresh_content demo_settings.1 demo_grant.
Definition demo_issued : result (string * string * Z) :=
  CreateAccessAndRefreshTokens 0 (Ok demo_nonce) (Some demo_config) (sv_storage demo_sv) "id" demo_grant.
Lemma refresh_roundtrip_witness :
  ∃ x, demo_issued = Ok x ∧
    is_ok (TokenRequestByRefreshToken 0 (Some demo_config) (sv_storage demo_sv) x.1.2) = true ∧
    TokenRequestByRefreshToken (of_unix (rf_Exp demo_grant_refresh + 1)) (Some demo_config) (sv_storage demo_sv) x.1.2 =
      Err ErrInvalidRefreshToken.
Proof.
  assert (Es : settings (Some demo_config) = Ok demo_settings) by (vm_compute; reflexivity).
  destruct demo_issued as [x|e] eqn:Ex; [|exfalso; vm_compute in Ex; discriminate Ex]. exists x. split; [reflexivity|].
  assert (Hk : head (sg_sealer (sv_storage demo_sv)) = Some (default "" (head (sg_sealer (sv_storage demo_sv))))) by (vm_compute; reflexivity).
  assert (Hk' : default "" (head (sg_sealer (sv_storage demo_sv))) ∈ sg_sealer (sv_storage demo_sv))
    by (apply (bool_decide_unpack _); vm_compute; exact I).
  assert (Hj : unjson_refresh (json_refresh demo_grant_refresh) = Some demo_grant_refresh) by (vm_compute; reflexivity).
  pose proof (λ t, refresh_roundtrip (sv_storage demo_sv) (sv_storage demo_sv) _ demo_nonce 0 t (Some demo_config) (Some demo_config)
    demo_settings.1 demo_settings.2 demo_settings.1 demo_settings.2 "id" demo_grant x demo_gcm_ideal eq_refl Hk Hk' Es Es
    Hj Ex) as H. cbn zeta in H. fold demo_grant_refresh in H. split.
  - destruct (H 0%Z) as [H0 _]. destruct (TokenRequestByRefreshToken 0 _ _ _) as [r|e]; [reflexivity|].
    exfalso. destruct H0 as [_ [H0|H0]]; vm_compute in H0; discriminate H0.
  - destruct (H (of_unix (rf_Exp demo_grant_refresh + 1))) as [H0 _].
    destruct (TokenRequestByRefreshToken _ _ _ _) as [r|e]; [|destruct H0 as [-> _]; reflexivity].
    exfalso. destruct H0 as [H0 _]. vm_compute in H0. apply H0. reflexivity.
Defined.
