(* ===== verification/PromFilter.v ===== *)
(** [internal/promlabel/filter.go]: the responses of the rules, alerts and silences
    endpoints, cut down to the entries that carry the caller's labels.

    The filter a request carries in its context is the record [responseFilter]
    with the function itself.  A backend's response is read whole; [gzip] is the
    class [Gzip].  A map or a slice of [json.RawMessage] is one of the syntax trees of
    [GoJSON], so an entry that is kept is kept as it was. *)
From S2P Require Import Prelude GoStrings ConfigTypes PromScope GoURL GoHTTP Credentials GoJSON.

Definition maxResponseBytes : Z := Z.shiftl 64 20.

Definition bodyFilter := string → list Label → result string.
(** The raw message is nil when the response has no data field. *)
Definition dataFilter := option json → list Label → result json.
Record responseFilter := mkFilter { rf_filter : bodyFilter; rf_labels : list Label }.

Record BackendResponse := mkBackend { b_Status : Z; b_Header : Header; b_Body : string }.

(** [compress/gzip]: the decompressed stream, or the error its header or its body
    gives. *)
Class Gzip : Type := { gunzip : string → result string }.

(** * Reading a response *)

Section response.
Context {Gz : Gzip}.

(** [io.ReadAll(io.LimitReader(reader, maxResponseBytes+1))] and the test of its
    length. *)
Definition limit_response (body : string) : result string :=
  fail_if (maxResponseBytes <? Z.of_nat (String.length body))%Z with Errorf "response over %d bytes" in Ok body.
Definition readResponse (resp : BackendResponse) : result (string * BackendResponse) :=
  let enc := Header_Get (b_Header resp) "Content-Encoding" in
  if (enc =? "") || (enc =? "identity") then
    let* body := limit_response (b_Body resp) in Ok (body, resp)
  else if enc =? "gzip" then
    let* data := gunzip (b_Body resp) in
    let* body := limit_response data in
    Ok (body, mkBackend (b_Status resp) (Header_Del "Content-Encoding" (b_Header resp)) (b_Body resp))
  else Err (ErrorfA "unsupported content encoding %q" [enc]).

Definition ModifyResponse (f : option responseFilter) (resp : BackendResponse) : result BackendResponse :=
  match f with
  | None => Ok resp
  | Some f =>
      if (400 <=? b_Status resp)%Z then Ok resp
      else if b_Status resp !=? 200%Z
      then Err (ErrorfA "prom_label_proxy: unexpected status %d" [Itoa (b_Status resp)])
      else
        let* read := rwrap "prom_label_proxy: read response: %w" [] (readResponse resp) in
        let '(body, resp) := read in
        let* filtered := rwrap "prom_label_proxy: filter response: %w" [] (rf_filter f body (rf_labels f)) in
        Ok (mkBackend (b_Status resp)
              (Header_Set "Content-Length" (Itoa (Z.of_nat (String.length filtered))) (b_Header resp)) filtered)
  end.
End response.

(** * Filters *)

(** [apiFilter(f)] *)
Definition apiFilter (f : dataFilter) : bodyFilter := λ body ls,
  let* envelope := Unmarshal Decode_map body in
  match UnmarshalRaw (Decode_string "") (envelope !! "status") with
  | Err _ => Err (ENew "not a successful API response")
  | Ok status =>
      fail_if status !=? "success" with ENew "not a successful API response" in
      let* data := f (envelope !! "data") ls in
      Ok (Marshal (jmap (<["data" := data]> envelope)))
  end.

Definition visible (entry : gmap string string) (ls : list Label) : bool :=
  forallb (λ l, allows l (default "" (entry !! lb_Name l))) ls.

Section labelled.
Context {U : Unicode}.

(** [map[string]string]: an object is added to the map, null clears it, and a null
    value is the empty string. *)
Definition Decode_strings (old : gmap string string) (j : json) : result (gmap string string) :=
  match j with
  | JNull => Ok ∅
  | JObject l =>
      foldl (λ acc kv, let* m := acc in
                       let* v := Decode_string "" kv.2 in Ok (<[unquote kv.1 := v]> m)) (Ok old) l
  | _ => Err errType
  end.
(** [labeled] *)
Definition Decode_labeled (j : json) : result (gmap string string) :=
  Decode_struct (λ ls key x, if EqualFold key "labels" then Decode_strings ls x else Ok ls) ∅ j.

Fixpoint keepLabelled (entries : list json) (ls : list Label) : result (list json) :=
  match entries with
  | [] => Ok []
  | raw :: entries =>
      let* e := Decode_labeled raw in
      let* kept := keepLabelled entries ls in
      Ok (if visible e ls then raw :: kept else kept)
  end.

(** The loop over the groups. *)
Fixpoint filter_groups (groups : list (gmap string json)) (ls : list Label) : result (list json) :=
  match groups with
  | [] => Ok []
  | g :: groups =>
      let* rules := UnmarshalRaw Decode_list (g !! "rules") in
      let* visibleRules := keepLabelled rules ls in
      if visibleRules =? [] then filter_groups groups ls
      else
        let* kept := filter_groups groups ls in
        Ok (jmap (<["rules" := JArray visibleRules]> g) :: kept)
  end.
Definition filterRules : dataFilter := λ data ls,
  let* d := UnmarshalRaw Decode_map data in
  let* groups := UnmarshalRaw Decode_maps (d !! "groups") in
  let* kept := filter_groups groups ls in
  Ok (jmap (<["groups" := JArray kept]> d)).

Definition filterAlerts : dataFilter := λ data ls,
  let* d := UnmarshalRaw Decode_map data in
  let* alerts := UnmarshalRaw Decode_list (d !! "alerts") in
  let* kept := keepLabelled alerts ls in
  Ok (jmap (<["alerts" := JArray kept]> d)).
End labelled.

(** * What a client reads *)

Section reading.
Context {U : Unicode}.

(** A field of an object, the elements of a list, as [json.Unmarshal] gives them. *)
Definition read_field (key : string) (j : json) : option json :=
  match Decode_map j with Ok m => m !! key | Err _ => None end.
Definition read_list (j : option json) : list json :=
  match j with Some j => match Decode_list j with Ok l => l | Err _ => [] end | None => [] end.

Definition body_data (body : string) : option json := json_parse body ≫= read_field "data".
Definition body_rules (body : string) : list json :=
  flat_map (λ g, read_list (read_field "rules" g)) (read_list (body_data body ≫= read_field "groups")).
Definition body_alerts (body : string) : list json := read_list (body_data body ≫= read_field "alerts").

(** The entry carries every enforced label with a value the caller holds. *)
Definition entry_visible (ls : list Label) (raw : json) : bool :=
  match Decode_labeled raw with Ok e => visible e ls | Err _ => false end.
End reading.

(** * Lemmas *)

Lemma visible_spec e ls : visible e ls = true ↔ ∀ l, l ∈ ls → default "" (e !! lb_Name l) ∈ lb_Values l.
Proof.
  unfold visible. rewrite forallb_bool. split; intros H l Hl; [by apply allows_spec, H|apply allows_spec; auto].
Qed.

Section labelled_lemmas.
Context {U : Unicode}.

Lemma Decode_strings_escape d old j : wf_json d j → Decode_strings old (escape_json j) = Decode_strings old j.
Proof.
  intros Hwf. destruct Hwf as [| | | |d l ? Hl|d l ? Hl]; try done. cbn [escape_json Decode_strings].
  induction l as [|[k x] l IH] using rev_ind; [done|]. apply Forall_app in Hl as [Hl Hx].
  apply Forall_singleton in Hx as [Hk Hx]. rewrite fmap_app, list_fmap_singleton, !foldl_app, (IH Hl).
  cbn [foldl fst snd]. destruct (foldl _ (Ok old) l) as [m|e]; [|done]. cbn [rbind].
  by rewrite unquote_html_wf, (Decode_string_escape (d + 1)).
Qed.
Lemma Decode_labeled_escape d j : wf_json d j → Decode_labeled (escape_json j) = Decode_labeled j.
Proof.
  intros Hwf. unfold Decode_labeled. set (step := λ ls key x, if EqualFold key "labels" then _ else _).
  etrans; [apply (Decode_struct_escape id step d ∅ j Hwf)|by destruct (Decode_struct _ _ _)].
  intros a k x d' Hx. unfold id, step. rewrite (Decode_strings_escape d') by done.
  by destruct (if EqualFold k "labels" then _ else _).
Qed.
Lemma entry_visible_escape d ls j : wf_json d j → entry_visible ls (escape_json j) = entry_visible ls j.
Proof. intros H. unfold entry_visible. by rewrite (Decode_labeled_escape d). Qed.

Lemma keepLabelled_ok entries ls kept :
  keepLabelled entries ls = Ok kept → kept = filter (λ raw, entry_visible ls raw = true) entries.
Proof.
  revert kept. induction entries as [|raw entries IH]; intros kept; cbn [keepLabelled]; [by intros [= <-]|].
  intros (e & He & (kept' & Hk%IH & Hr)%rbind_ok)%rbind_ok. injection Hr as <-. subst kept'.
  assert (Hv : entry_visible ls raw = visible e ls) by (unfold entry_visible; by rewrite He).
  rewrite filter_cons, Hv. destruct (visible e ls); by case_decide.
Qed.

Lemma read_escape_jmap m key : (∀ k, is_Some (m !! k) → valid_utf8 k) →
  read_field key (escape_json (jmap m)) = escape_json <$> (m !! key).
Proof. intros Hv. unfold read_field. by rewrite Decode_escape_jmap, lookup_fmap. Qed.
Lemma Decode_list_wf d j l : (d < maxNestingDepth)%Z → wf_json d j → Decode_list j = Ok l → Forall (wf_json (d + 1)) l.
Proof. intros Hd Hwf H. destruct j; try done; injection H as <-; [done|]. by inversion Hwf. Qed.

(** What is known of a value that was decoded as a map: its keys and its
    members, and that changing one member keeps this. *)
Definition good_map (d : Z) (m : gmap string json) : Prop :=
  (∀ k, is_Some (m !! k) → valid_utf8 k) ∧ map_Forall (λ _, wf_json (d + 1)) m.
Lemma good_map_insert d m k x : good_map d m → is_Some (m !! k) → wf_json (d + 1) x → good_map d (<[k := x]> m).
Proof.
  intros [Hv Hm] Hk Hx. split; [|by apply map_Forall_insert_2].
  intros k'. rewrite lookup_insert_is_Some'. intros [->|?]; auto.
Qed.
Lemma good_map_decode d j m : wf_json d j → Decode_map j = Ok m → good_map d m.
Proof. apply Decode_map_wf. Qed.
Lemma good_map_jmap d m : (d < maxNestingDepth)%Z → good_map d m → wf_json d (jmap m).
Proof. intros ? [_ ?]. by apply wf_jmap. Qed.
Lemma good_map_some d m k x : good_map d m → m !! k = Some x → wf_json (d + 1) x.
Proof. intros [_ H]. apply H. Qed.
Lemma UnmarshalRaw_ok {A} (dec : json → result A) raw a : UnmarshalRaw dec raw = Ok a → ∃ j, raw = Some j ∧ dec j = Ok a.
Proof. destruct raw; [|done]. eauto. Qed.
Lemma wf_filter d (P : json → Prop) `{∀ x, Decision (P x)} l : Forall (wf_json d) l → Forall (wf_json d) (filter P l).
Proof. rewrite !Forall_forall. intros Hl x [_ ?]%list_elem_of_filter. auto. Qed.

Abbreviation visible_only ls := (filter (λ raw, entry_visible ls raw = true)).

Lemma filter_groups_ok groups ls kept : Forall (good_map 3) groups → filter_groups groups ls = Ok kept →
  Forall (wf_json 3) kept ∧
  flat_map (λ g, read_list (read_field "rules" g)) (escape_json <$> kept) =
  escape_json <$> visible_only ls (flat_map (λ g : gmap string json, read_list (g !! "rules")) groups).
Proof.
  revert kept. induction groups as [|g groups IH]; intros kept Hg; cbn [filter_groups]; [by intros [= <-]|].
  apply Forall_cons in Hg as [Hg Hgs]. intros (rules & (x & Ex & Hx)%UnmarshalRaw_ok & Hk)%rbind_ok.
  apply rbind_ok in Hk as (vs & ->%keepLabelled_ok & Hk). cbn [flat_map].
  assert (Er : read_list (g !! "rules") = rules) by (rewrite Ex; cbn; by rewrite Hx).
  rewrite Er, filter_app, fmap_app. case_bool_decide as Ev; [rewrite Ev; by apply IH|].
  apply rbind_ok in Hk as (kept' & Hk & [= <-]). destruct (IH _ Hgs Hk) as [Hwf Hrest].
  assert (Hx' : wf_json (3 + 1) x) by (by eapply good_map_some).
  assert (Hr : Forall (wf_json (4 + 1)) rules) by (by eapply Decode_list_wf).
  assert (Hg' : good_map 3 (<["rules" := JArray (visible_only ls rules)]> g)).
  { apply good_map_insert; [done|eauto|]. constructor; [done|]. by apply wf_filter. }
  split; [constructor; [by apply good_map_jmap|done]|].
  rewrite fmap_cons. cbn [flat_map]. rewrite Hrest, read_escape_jmap by apply Hg'. by rewrite lookup_insert_eq.
Qed.

Definition rules_of (data : json) : list json :=
  flat_map (λ g, read_list (read_field "rules" g)) (read_list (read_field "groups" data)).
Lemma read_groups l groups : map_result Decode_map l = Ok groups →
  flat_map (λ g, read_list (read_field "rules" g)) l = flat_map (λ g : gmap string json, read_list (g !! "rules")) groups.
Proof.
  intros H%map_result_ok. induction H as [|j g l groups Hg _ IH]; [done|]. cbn [flat_map]. rewrite IH.
  unfold read_field at 1. by rewrite Hg.
Qed.
Lemma filterRules_ok data ls out : wf_json 1 data → filterRules (Some data) ls = Ok out →
  wf_json 1 out ∧ rules_of (escape_json out) = escape_json <$> visible_only ls (rules_of data).
Proof.
  intros Hwf. unfold filterRules. cbn [UnmarshalRaw]. intros (d & Hd & Ho)%rbind_ok.
  pose proof (good_map_decode _ _ _ Hwf Hd) as Hgd.
  apply rbind_ok in Ho as (groups & (x & Ex & (l & Hl & Hg)%rbind_ok)%UnmarshalRaw_ok & Ho).
  apply rbind_ok in Ho as (kept & Hk & [= <-]).
  assert (Hl' : Forall (wf_json (2 + 1)) l) by (apply (Decode_list_wf 2 x); [done|exact (good_map_some 1 _ _ _ Hgd Ex)|done]).
  assert (Hgs : Forall (good_map 3) groups).
  { pose proof Hg as Hg'%map_result_ok. clear Hg Hk Hl. induction Hg' as [|? ? ? ? H _ IH]; [done|].
    apply Forall_cons in Hl' as [??]. constructor; [by eapply good_map_decode|auto]. }
  destruct (filter_groups_ok _ _ _ Hgs Hk) as [Hwk Hr].
  assert (Hgd' : good_map 1 (<["groups" := JArray kept]> d)).
  { apply good_map_insert; [done|eauto|]. by constructor. }
  split; [by apply good_map_jmap|]. unfold rules_of. rewrite read_escape_jmap by apply Hgd'.
  rewrite lookup_insert_eq. cbn [fmap option_fmap option_map escape_json read_list Decode_list]. rewrite Hr.
  unfold read_field at 2. rewrite Hd, Ex. cbn [read_list]. by rewrite Hl, (read_groups _ _ Hg).
Qed.

Definition alerts_of (data : json) : list json := read_list (read_field "alerts" data).
Lemma filterAlerts_ok data ls out : wf_json 1 data → filterAlerts (Some data) ls = Ok out →
  wf_json 1 out ∧ alerts_of (escape_json out) = escape_json <$> visible_only ls (alerts_of data).
Proof.
  intros Hwf. unfold filterAlerts. cbn [UnmarshalRaw]. intros (d & Hd & Ho)%rbind_ok.
  pose proof (good_map_decode _ _ _ Hwf Hd) as Hgd.
  apply rbind_ok in Ho as (l & (x & Ex & Hl)%UnmarshalRaw_ok & Ho).
  apply rbind_ok in Ho as (kept & ->%keepLabelled_ok & [= <-]).
  assert (Hl' : Forall (wf_json (2 + 1)) l) by (apply (Decode_list_wf 2 x); [done|exact (good_map_some 1 _ _ _ Hgd Ex)|done]).
  assert (Hgd' : good_map 1 (<["alerts" := JArray (visible_only ls l)]> d)).
  { apply good_map_insert; [done|eauto|]. constructor; [done|]. by apply wf_filter. }
  split; [by apply good_map_jmap|]. unfold alerts_of. rewrite read_escape_jmap by apply Hgd'.
  rewrite lookup_insert_eq. cbn [fmap option_fmap option_map escape_json read_list Decode_list].
  unfold read_field. rewrite Hd, Ex. cbn [read_list]. by rewrite Hl.
Qed.

(** The envelope: its data is filtered, what a client reads of it is the
    filtered data, and the other fields are as they were. *)
Lemma apiFilter_ok (f : dataFilter) body ls out :
  (∀ x, f None ls ≠ Ok x) → (∀ data x, wf_json 1 data → f (Some data) ls = Ok x → wf_json 1 x) →
  apiFilter f body ls = Ok out →
  ∃ j data x, json_parse body = Some j ∧ wf_json 1 data ∧ read_field "data" j = Some data ∧ f (Some data) ls = Ok x ∧
    ∃ j', json_parse out = Some j' ∧ read_field "data" j' = Some (escape_json x) ∧
      ∀ k, k ≠ "data" → read_field k j' = escape_json <$> read_field k j.
Proof.
  intros Hnone Hwf. unfold apiFilter, Unmarshal. intros (env & Henv & Ho)%rbind_ok.
  destruct (json_parse body) as [j|] eqn:Ej; [|done]. pose proof (good_map_decode _ _ _ (json_parse_wf _ _ Ej) Henv) as Hg.
  destruct (UnmarshalRaw _ (env !! "status")); [|done]. case_bool_decide; [|done]. cbn [negb] in Ho.
  apply rbind_ok in Ho as (x & Hx & [= <-]). destruct (env !! "data") as [data|] eqn:Ed; [|by apply Hnone in Hx].
  pose proof (good_map_some _ _ _ _ Hg Ed) as Hdata.
  assert (Hg' : good_map 0 (<["data" := x]> env)) by (apply good_map_insert; [done|eauto|by eapply Hwf]).
  exists j, data, x. split_and!; [done|done| |done|].
  { unfold read_field. by rewrite Henv. }
  exists (escape_json (jmap (<["data" := x]> env))). split_and!.
  - by apply Marshal_parse, good_map_jmap.
  - rewrite read_escape_jmap by apply Hg'. by rewrite lookup_insert_eq.
  - intros k Hk. rewrite read_escape_jmap, lookup_insert_ne by (done || apply Hg'). unfold read_field. by rewrite Henv.
Qed.
End labelled_lemmas.

Section response_lemmas.
Context {Gz : Gzip}.

(** The body a backend sent, decoded. *)
Definition decoded_body (resp : BackendResponse) : result string := rmap fst (readResponse resp).

Lemma limit_response_ok b b' : limit_response b = Ok b' → b' = b ∧ (Z.of_nat (String.length b) ≤ maxResponseBytes)%Z.
Proof. unfold limit_response. destruct (Z.ltb_spec maxResponseBytes (Z.of_nat (String.length b))); [done|]. intros [= <-]. done. Qed.
Lemma readResponse_ok resp body r' : readResponse resp = Ok (body, r') →
  (Z.of_nat (String.length body) ≤ maxResponseBytes)%Z ∧ b_Status r' = b_Status resp ∧
  Header_Get (b_Header r') "Content-Encoding" ∈ [""; "identity"] ∧
  (body = b_Body resp ∧ r' = resp ∨
   Header_Get (b_Header resp) "Content-Encoding" = "gzip" ∧ gunzip (b_Body resp) = Ok body).
Proof.
  unfold readResponse. destruct (_ || _) eqn:E.
  - intros (b & [-> Hl]%limit_response_ok & [= <- <-])%rbind_ok. split_and!; [done|done| |by left].
    apply orb_true_iff in E as [E%bool_decide_eq_true|E%bool_decide_eq_true]; rewrite E; set_solver.
  - clear E. case_bool_decide as Eg; [|done]. intros (d & Hd & (b & [-> Hl]%limit_response_ok & [= <- <-])%rbind_ok)%rbind_ok.
    split_and!; [done|done| |by right]. cbn [b_Header]. unfold Header_Get. rewrite Header_Values_Del. set_solver.
Qed.

Lemma ModifyResponse_ok f resp resp' : ModifyResponse (Some f) resp = Ok resp' →
  (400 ≤ b_Status resp)%Z ∧ resp' = resp ∨
  b_Status resp = 200%Z ∧ b_Status resp' = 200%Z ∧
  Header_Values (b_Header resp') "Content-Length" = [Itoa (Z.of_nat (String.length (b_Body resp')))] ∧
  Header_Get (b_Header resp') "Content-Encoding" ∈ [""; "identity"] ∧
  ∃ body, decoded_body resp = Ok body ∧ (Z.of_nat (String.length body) ≤ maxResponseBytes)%Z ∧
    rf_filter f body (rf_labels f) = Ok (b_Body resp').
Proof.
  unfold ModifyResponse. destruct (Z.leb_spec 400 (b_Status resp)); [intros [= <-]; by left|].
  case_bool_decide as Es; [|done]. cbn [negb]. intros ([body r'] & Hr%rwrap_ok & Ho)%rbind_ok. right.
  apply rbind_ok in Ho as (out & Ho%rwrap_ok & [= <-]). pose proof (readResponse_ok _ _ _ Hr) as (Hl & Hst & Hce & _).
  cbn [b_Status b_Header b_Body]. rewrite Header_Values_Set. split_and!; [done|congruence|done| |].
  - unfold Header_Get, Header_Values, Header_Set in *. by rewrite lookup_insert_ne by (by vm_compute).
  - exists body. unfold decoded_body. by rewrite Hr.
Qed.
End response_lemmas.

(** A response to filter, by the texts and the labels of an example. *)
#[local] Existing Instance ascii_unicode.
Definition demo_labels_ab : list Label := [mkLabel "ns" ["a"; "b"]].
(** Double quotes written as single ones. *)
Definition jtext (s : string) : string := Join (Split s "'") dq.
Definition demo_rules : string := jtext
  "{'status':'success', 'data':{'groups':[{'name':'g','rules':[{'name':'r1','labels':{'ns':'a'}},{'name':'r2','labels':{'ns':'c'}}]},{'name':'h','rules':[{'name':'r3'}]}]}}".
Example demo_rules_filtered : apiFilter filterRules demo_rules demo_labels_ab = Ok (jtext
  "{'data':{'groups':[{'name':'g','rules':[{'name':'r1','labels':{'ns':'a'}}]}]},'status':'success'}").
Proof. vm_compute. reflexivity. Qed.
