(* ===== verification/PromRewrite.v ===== *)
(** [internal/promlabel/promql.go] and the parts of [handler.go] that rewrite a
    request: the enforced matchers, the selectors of a PromQL query, the parameters of
    the URL and of a form body, and the body itself.

    The PromQL parser, the printer and the combination of matchers of one selector
    are those of prometheus and prom-label-proxy: the class [PromQL].  A parsed
    expression is a tree whose nodes are vector selectors, with their matchers, or not;
    [parser.Inspect] visits every node of it.  [url.Values] is mutated by the enforcers: they
    return the map they leave. *)
From S2P Require Import Prelude GoStrings ConfigTypes PromScope GoURL GoHTTP Credentials GoJSON PromFilter.

(** * PromQL *)

(** A node of [promql/parser]: its own data, the matchers of a [*VectorSelector],
    the children. *)
Unset Elimination Schemes.
Inductive Node (T : Type) := mkNode (data : T) (selector : option (list Matcher)) (children : list (Node T)).
Set Elimination Schemes.
Arguments mkNode {T} data selector children.

Section node_ind.
Context {T : Type} (P : Node T → Prop) (H : ∀ d s l, Forall P l → P (mkNode d s l)).
Fixpoint Node_ind (n : Node T) : P n :=
  match n with
  | mkNode d s l => H d s l ((fix go l : Forall P l :=
      match l with [] => List.Forall_nil _ | x :: l => List.Forall_cons _ _ _ (Node_ind x) (go l) end) l)
  end.
End node_ind.

Class PromQL : Type := {
  NodeData : Type;
  ParseExpr : string → result (Node NodeData);
  Expr_String : Node NodeData → string;
  (* injectproxy.NewPromQLEnforcer(errorOnReplace, ms...).EnforceMatchers *)
  EnforceMatchers : bool → list Matcher → list Matcher → result (list Matcher)
}.

Definition ErrQueryParse := "failed to parse query string".
Definition ErrIllegalLabelMatcher := "conflicting label matcher".

(** [parser.Inspect] with the closure of [enforce]: the selectors are rewritten in
    the order of the walk, which stops at the first error. *)
Section inspect.
Context {T : Type} (f : list Matcher → result (list Matcher)).
Fixpoint Inspect_selectors (n : Node T) : result (Node T) :=
  match n with
  | mkNode d s l =>
      let* s := match s with Some ms => rmap Some (f ms) | None => Ok None end in
      let* l := map_result Inspect_selectors l in
      Ok (mkNode d s l)
  end.
End inspect.

(** The matchers of every selector of an expression. *)
Fixpoint selectors {T} (n : Node T) : list (list Matcher) :=
  match n with mkNode _ s l => option_list s ++ concat (selectors <$> l) end.

Record promqlEnforcer := mkEnforcer { pe_matchers : list Matcher }.

(** The text of an error. *)
Class ErrorText : Type := { Error_ : error → string }.
(** [mime.ParseMediaType]: the media type, without its parameters. *)
Class Mime : Type := { ParseMediaType : string → result string }.

Section enforce.
Context {P : PromLabels} {Q : PromQL}.

Definition scope_matchers (s : Scope) : result (list Matcher) :=
  map_result (λ l, rwrap "label %q: %w" [lb_Name l] (matcher l)) (sc_Labels s).

Definition newPromQLEnforcer (s : Scope) : result promqlEnforcer :=
  let* matchers := scope_matchers s in Ok (mkEnforcer matchers).

Definition enforce (e : promqlEnforcer) (query : string) : result string :=
  match ParseExpr query with
  | Err err => Err (EWrap "%w: %w" [] [ENew ErrQueryParse; err])
  | Ok expr =>
      let* expr := Inspect_selectors (EnforceMatchers true (pe_matchers e)) expr in
      Ok (Expr_String expr)
  end.

(** * Parameters *)

Definition queryParam := "query".
Definition matchParam := "match[]".
Definition filterParam := "filter".
Definition maxBodyBytes : Z := Z.shiftl 10 20.
Definition formContentType := "application/x-www-form-urlencoded".

Definition enforcer := promqlEnforcer → Values → result (bool * Values).

Definition enforceQuery : enforcer := λ e v,
  if negb (Values_Has v queryParam) then Ok (false, v)
  else
    fail_if negb (bool_decide (length (default [] (v !! queryParam)) = 1))
    with Wrapf "%w: more than one query parameter" [] (ENew ErrQueryParse) in
    let* q := enforce e (Values_Get v queryParam) in
    Ok (true, Values_Set queryParam q v).

(** The slice is that of the map, rewritten in place. *)
Definition enforceMatch : enforcer := λ e v,
  match v !! matchParam with
  | None => Ok (false, v)
  | Some selectors =>
      let* enforced := map_result (enforce e) selectors in
      Ok (0 <? length selectors, <[matchParam := enforced]> v)
  end.

Definition enforceStatus (err : error) : Z :=
  if errors_Is err ErrQueryParse || errors_Is err ErrIllegalLabelMatcher then 400 else 500.
Definition matchersSelector (ms : list Matcher) : string :=
  "{" +:+ Join (Matcher_String <$> ms) "," +:+ "}".
End enforce.

(** * The body of a request *)

(** [ContentLength] is the length of [r_Body] and [TransferEncoding] is set by the
    transport from it. *)
Definition dropBody (r : Request) : Request :=
  with_Header (Header_Del "Transfer-Encoding" (Header_Del "Content-Type" (Header_Del "Content-Length" (r_Header r))))
    (with_Body "" r).
Definition setBody (body contentType : string) (r : Request) : Request :=
  if body =? "" then dropBody r
  else
    with_Header (Header_Set "Content-Type" contentType
                   (Header_Set "Content-Length" (Itoa (Z.of_nat (String.length body))) (r_Header r)))
      (with_Body body r).

(** [io.ReadAll(http.MaxBytesReader(w, r.Body, maxBodyBytes))] *)
Definition readBody (r : Request) : result string :=
  fail_if (maxBodyBytes <? Z.of_nat (String.length (r_Body r)))%Z with ENew "http: request body too large" in
  Ok (r_Body r).

Section forms.
Context {Mi : Mime}.
(** The form of a request, or the status and the error it is refused with. *)
Definition readForm (r : Request) : Values + Z * error :=
  if r_Method r !=? "POST" then inl ∅
  else
    let ct := Header_Get (r_Header r) "Content-Type" in
    let unsupported := (415%Z, ErrorfA "unsupported content type %q" [ct]) in
    let read := match readBody r with
                | Err err => inr (413%Z, err)
                | Ok raw => match ParseQuery raw with
                            | Err err => inr (400%Z, err)
                            | Ok values => inl values
                            end
                end in
    if ct =? "" then read
    else match ParseMediaType ct with
         | Err _ => inr unsupported
         | Ok mediaType => if mediaType !=? formContentType then inr unsupported else read
         end.
End forms.

(** * Rewriting *)

(** What a handler does with a request: it answers, or calls [next] with the
    request and the response filter in its context. *)
Inductive handled :=
| Answered (w : Response)
| Forwarded (w : Response) (r : Request) (f : option responseFilter).

Section rewrite.
Context {P : PromLabels} {Q : PromQL} {Et : ErrorText} {Mi : Mime}.

Definition promError (w : Response) (status : Z) (err : error) : Response :=
  Write (Encode (jmap (<["status" := jstring "error"]> (<["errorType" := jstring "prom_label_proxy"]>
           (<["error" := jstring (Error_ err)]> ∅)))))
    (WriteHeader status (w_Set "Content-Type" "application/json" w)).

Definition rewrite (w : Response) (r : Request) (scope : Scope) (enf : enforcer) : handled :=
  let refuse status err := Answered (promError w status err) in
  match scope_matchers scope, newPromQLEnforcer scope with
  | Err err, _ | _, Err err => refuse 500%Z err
  | Ok matchers, Ok e =>
      match ParseQuery (u_RawQuery (r_URL r)) with
      | Err err => refuse 400%Z err
      | Ok urlValues =>
          match readForm r with
          | inr (status, err) => refuse status err
          | inl body =>
              match enf e urlValues with
              | Err err => refuse (enforceStatus err) err
              | Ok (foundURL, urlValues) =>
                  match enf e body with
                  | Err err => refuse (enforceStatus err) err
                  | Ok (foundBody, body) =>
                      let forward v := Forwarded w (setBody (Values_Encode body) formContentType
                                                      (with_RawQuery (Values_Encode v) r)) None in
                      if negb foundURL && negb foundBody then
                        if sc_Endpoint scope =? endpointQuery
                        then refuse 400%Z (ENew "missing query parameter")
                        else forward (Values_Set matchParam (matchersSelector matchers) urlValues)
                      else forward urlValues
                  end
              end
          end
      end
  end.

Definition amFilter (w : Response) (r : Request) (scope : Scope) : handled :=
  match scope_matchers scope with
  | Err err => Answered (promError w 500 err)
  | Ok matchers =>
      match ParseQuery (u_RawQuery (r_URL r)) with
      | Err err => Answered (http_Error (Error_ err) 400 w)
      | Ok q =>
          let q := foldl (λ q m, Values_Add filterParam (Matcher_String m) q) q matchers in
          Forwarded w (dropBody (with_RawQuery (Values_Encode q) r)) None
      end
  end.

Definition partialResponseHeaders : list string :=
  ["Accept-Encoding"; "Range"; "If-Range"; "If-Match"; "If-None-Match"; "If-Modified-Since"; "If-Unmodified-Since"].
Definition filteredRaw (w : Response) (r : Request) (scope : Scope) (f : bodyFilter) : handled :=
  let r := dropBody r in
  let r := with_Header (foldl (λ h name, Header_Del name h) (r_Header r) partialResponseHeaders) r in
  Forwarded w r (Some (mkFilter f (sc_Labels scope))).
Definition filtered (w : Response) (r : Request) (scope : Scope) (f : dataFilter) : handled :=
  filteredRaw w r scope (apiFilter f).
End rewrite.

(** * Lemmas *)

Lemma Inspect_selectors_ok {T} f (n n' : Node T) : Inspect_selectors f n = Ok n' →
  Forall2 (λ s s', f s = Ok s') (selectors n) (selectors n').
Proof.
  revert n'. induction n as [d s l IH] using Node_ind. intros n'. cbn [Inspect_selectors].
  intros (s' & Hs & (l' & Hl%map_result_ok & [= <-])%rbind_ok)%rbind_ok. cbn [selectors]. apply Forall2_app.
  - destruct s as [ms|]; [|by injection Hs as <-]. apply rbind_ok in Hs as (ms' & Hms & [= <-]).
    by repeat constructor.
  - clear Hs. induction Hl as [|x y l l' Hx _ IHl]; [done|]. apply Forall_cons in IH as [IHx IH].
    cbn. apply Forall2_app; auto.
Qed.

Section lemmas.
Context {P : PromLabels} {Q : PromQL}.

(** A query whose every selector carries the enforced matchers, printed. *)
Definition enforced_query (ms : list Matcher) (q : string) : Prop :=
  ∃ n, q = Expr_String n ∧ Forall (λ sel, ∀ m, m ∈ ms → m ∈ sel) (selectors n).
(** What [EnforceMatchers] promises: the enforced matchers are in the result. *)
Definition enforce_law : Prop :=
  ∀ b ms sel sel', EnforceMatchers b ms sel = Ok sel' → ∀ m, m ∈ ms → m ∈ sel'.

Lemma enforce_ok e q q' : enforce e q = Ok q' →
  ∃ n n', ParseExpr q = Ok n ∧ Inspect_selectors (EnforceMatchers true (pe_matchers e)) n = Ok n' ∧ q' = Expr_String n'.
Proof.
  unfold enforce. destruct (ParseExpr q) as [n|]; [|done]. intros (n' & Hn & [= <-])%rbind_ok. eauto.
Qed.
Lemma enforce_enforced (Hlaw : enforce_law) e q q' : enforce e q = Ok q' → enforced_query (pe_matchers e) q'.
Proof.
  intros (n & n' & _ & Hn%Inspect_selectors_ok & ->)%enforce_ok. exists n'. split; [done|].
  eapply Forall2_Forall_r; [exact Hn|]. apply Forall_forall. intros s _ s' Hs m Hm. by eapply Hlaw.
Qed.

Lemma enforceQuery_ok e v found v' : enforceQuery e v = Ok (found, v') →
  (found = false ∧ v' = v ∧ v !! queryParam = None) ∨
  (∃ q q', found = true ∧ v !! queryParam = Some [q] ∧ enforce e q = Ok q' ∧ v' = <[queryParam := [q']]> v).
Proof.
  unfold enforceQuery, Values_Has, Values_Get, Values_Set. destruct (v !! queryParam) as [xs|] eqn:E.
  - rewrite bool_decide_true by eauto. change (default [] (Some xs)) with xs. cbn [negb]. destruct (bool_decide_reflect (length xs = 1)) as [Hl|]; cbn [negb]; [|done].
    destruct xs as [|q [|]]; try done. intros (q' & Hq & [= <- <-])%rbind_ok. right. eauto 10.
  - rewrite bool_decide_false by (by intros [? ?]). intros [= <- <-]. by left.
Qed.
Lemma enforceMatch_ok e v found v' : enforceMatch e v = Ok (found, v') →
  (found = false ∧ v' = v ∧ v !! matchParam = None) ∨
  (∃ qs qs', found = (0 <? length qs) ∧ v !! matchParam = Some qs ∧ Forall2 (λ q q', enforce e q = Ok q') qs qs' ∧
     v' = <[matchParam := qs']> v).
Proof.
  unfold enforceMatch. destruct (v !! matchParam) as [xs|] eqn:E; [|intros [= <- <-]; by left].
  intros (qs' & Hq%map_result_ok & [= <- <-])%rbind_ok. right. eauto 10.
Qed.

(** One location of parameters before and after an enforcer of [param]: the values
    of [param] are those enforced, one by one, and nothing else changes. *)
Definition rewritten (e : promqlEnforcer) (param : string) (v v' : Values) : Prop :=
  Forall2 (λ q q', enforce e q = Ok q') (default [] (v !! param)) (default [] (v' !! param)) ∧
  ∀ k, k ≠ param → v' !! k = v !! k.
Definition found_in (param : string) (v : Values) : bool := 0 <? length (default [] (v !! param)).

Lemma enforceQuery_rewritten e v found v' : enforceQuery e v = Ok (found, v') →
  rewritten e queryParam v v' ∧ found = found_in queryParam v.
Proof.
  unfold rewritten, found_in. intros [(-> & -> & ->)|(q & q' & -> & -> & Hq & ->)]%enforceQuery_ok; [done|].
  rewrite lookup_insert_eq. split; [|done]. split; [by repeat constructor|]. intros k Hk. by rewrite lookup_insert_ne.
Qed.
Lemma enforceMatch_rewritten e v found v' : enforceMatch e v = Ok (found, v') →
  rewritten e matchParam v v' ∧ found = found_in matchParam v.
Proof.
  unfold rewritten, found_in. intros [(-> & -> & ->)|(q & q' & -> & -> & Hq & ->)]%enforceMatch_ok; [done|].
  rewrite lookup_insert_eq. split; [|done]. split; [done|]. intros k Hk. by rewrite lookup_insert_ne.
Qed.
End lemmas.

(** ** The body and the headers *)

Lemma r_Body_setBody b ct r : r_Body (setBody b ct r) = b.
Proof. unfold setBody. case_bool_decide as H; [by rewrite H|done]. Qed.
Lemma r_URL_setBody b ct r : r_URL (setBody b ct r) = r_URL r.
Proof. unfold setBody. by case_bool_decide. Qed.
Lemma r_ctx_setBody b ct r : r_ctx (setBody b ct r) = r_ctx r.
Proof. unfold setBody. by case_bool_decide. Qed.
Lemma r_Method_setBody b ct r : r_Method (setBody b ct r) = r_Method r.
Proof. unfold setBody. by case_bool_decide. Qed.

(** The body a request declares: its type, and its length in [Content-Length]. *)
Definition declares (ct : string) (r : Request) : Prop :=
  (r_Body r = "" ∧ Header_Values (r_Header r) "Content-Type" = [] ∧ Header_Values (r_Header r) "Content-Length" = []) ∨
  (r_Body r ≠ "" ∧ Header_Values (r_Header r) "Content-Type" = [ct] ∧
   Header_Values (r_Header r) "Content-Length" = [Itoa (Z.of_nat (String.length (r_Body r)))]).
Lemma dropBody_headers r : Header_Values (r_Header (dropBody r)) "Content-Type" = [] ∧
  Header_Values (r_Header (dropBody r)) "Content-Length" = [].
Proof.
  unfold dropBody, Header_Values, Header_Del. cbn [r_Header with_Header with_Body].
  rewrite !(lookup_delete_ne _ (CanonicalHeaderKey "Transfer-Encoding")) by (by vm_compute).
  rewrite lookup_delete_eq, (lookup_delete_ne _ (CanonicalHeaderKey "Content-Type")) by (by vm_compute).
  by rewrite lookup_delete_eq.
Qed.
Lemma setBody_declares b ct r : declares ct (setBody b ct r).
Proof.
  unfold declares. rewrite r_Body_setBody. unfold setBody. case_bool_decide as Hb.
  - left. split; [done|]. apply dropBody_headers.
  - right. split; [done|]. cbn [r_Header with_Header]. rewrite Header_Values_Set. split; [done|].
    unfold Header_Values, Header_Set. rewrite lookup_insert_ne by (by vm_compute). by rewrite lookup_insert_eq.
Qed.

(** The URL of a request with another query. *)
Definition same_target (r r' : Request) : Prop :=
  r_Method r' = r_Method r ∧ r_ctx r' = r_ctx r ∧ ∃ q, r_URL r' = r_URL (with_RawQuery q r).

(** ** Rewriting *)

Definition values (param : string) (v : Values) : list string := default [] (v !! param).

Lemma parse_field_nonempty acc field k : acc.1 !! k ≠ Some [] → (parse_field acc field).1 !! k ≠ Some [].
Proof.
  destruct acc as [m err]. intros H. unfold parse_field. destruct (Contains field ";"); [done|].
  case_bool_decide; [done|]. destruct (Cut field "=") as [[key value] ?].
  destruct (QueryUnescape key) as [key'|]; [|done]. destruct (QueryUnescape value) as [value'|]; [|done].
  cbn. unfold Values_Add. destruct (decide (key' = k)) as [->|Hk]; [|by rewrite lookup_insert_ne].
  rewrite lookup_insert_eq. intros [= E]. destruct (default [] (m !! k)); done.
Qed.
(** A key of a parsed query has a value. *)
Lemma ParseQuery_nonempty s v k : ParseQuery s = Ok v → v !! k ≠ Some [].
Proof.
  unfold ParseQuery. assert (H : (parseQuery s).1 !! k ≠ Some []).
  { unfold parseQuery. case_bool_decide; [done|]. generalize (Split s "&") as l. intros l.
    induction l as [|x l IH] using rev_ind; [done|]. rewrite foldl_app. by apply parse_field_nonempty. }
  destruct (parseQuery s) as [m [|]]; [done|]. by intros [= <-].
Qed.
(** Reading back a query of which only [param] changed. *)
Lemma nonempty_other (v0 v : Values) param k : (∀ k, v0 !! k ≠ Some []) → (k ≠ param → v !! k = v0 !! k) → k ≠ param →
  filter (λ kx : string * list string, kx.2 ≠ []) v !! k = v0 !! k.
Proof.
  intros H0 Hv Hk. rewrite map_lookup_filter, (Hv Hk). destruct (v0 !! k) as [x|] eqn:E; [|done]. cbn.
  rewrite option_guard_True; [done|]. intros ->. by apply (H0 k).
Qed.
Lemma nonempty_values (v : Values) param : values param (filter (λ kx : string * list string, kx.2 ≠ []) v) = values param v.
Proof.
  unfold values. rewrite map_lookup_filter. destruct (v !! param) as [[|x xs]|]; cbn; [|rewrite option_guard_True by done|]; done.
Qed.

Section rewrite_lemmas.
Context {P : PromLabels} {Q : PromQL} {Et : ErrorText} {Mi : Mime}.

Lemma readForm_nonempty r b k : readForm r = inl b → b !! k ≠ Some [].
Proof.
  unfold readForm. case_bool_decide; cbn [negb]; [|by intros [= <-]].
  assert (Hread : match readBody r with
    | Err err => inr (413%Z, err)
    | Ok raw => match ParseQuery raw with Err err => inr (400%Z, err) | Ok values => inl values end end = inl b →
    b !! k ≠ Some []).
  { destruct (readBody r); [|done]. destruct (ParseQuery _) eqn:E; [|done]. intros [= <-]. by eapply ParseQuery_nonempty. }
  case_bool_decide; [done|]. destruct (ParseMediaType _); [|done]. case_bool_decide; done.
Qed.

(** The endpoints that are rewritten, with their parameter. *)
Definition enforcer_of (e : Endpoint) : option (enforcer * string) :=
  match e with
  | endpointQuery => Some (enforceQuery, queryParam)
  | endpointMatch => Some (enforceMatch, matchParam)
  | _ => None
  end.
Lemma enforcer_rewritten ep enf param e v found v' : enforcer_of ep = Some (enf, param) → enf e v = Ok (found, v') →
  rewritten e param v v' ∧ found = found_in param v.
Proof.
  destruct ep; try done; intros [= <- <-]; [apply enforceQuery_rewritten|apply enforceMatch_rewritten].
Qed.

(** The forwarded form of a request that is rewritten. *)
Lemma rewrite_ok w r scope enf param w' r' f : enforcer_of (sc_Endpoint scope) = Some (enf, param) →
  rewrite w r scope enf = Forwarded w' r' f →
  ∃ ms v0 b0 v b, w' = w ∧ f = None ∧ scope_matchers scope = Ok ms ∧
    ParseQuery (u_RawQuery (r_URL r)) = Ok v0 ∧ readForm r = inl b0 ∧
    r' = setBody (Values_Encode b) formContentType (with_RawQuery (Values_Encode v) r) ∧
    rewritten (mkEnforcer ms) param b0 b ∧
    (rewritten (mkEnforcer ms) param v0 v ∧ (found_in param v0 || found_in param b0 = true) ∨
     param = matchParam ∧ values param v = [matchersSelector ms] ∧ values param b = [] ∧ ∀ k, k ≠ param → v !! k = v0 !! k).
Proof.
  intros Hep. unfold rewrite, newPromQLEnforcer. destruct (scope_matchers scope) as [ms|]; [|done]. cbn [rbind].
  destruct (ParseQuery _) as [v0|]; [|done]. destruct (readForm r) as [b0|[??]]; [|done].
  destruct (enf (mkEnforcer ms) v0) as [[fu v]|] eqn:Ev; [|done].
  destruct (enf (mkEnforcer ms) b0) as [[fb b]|] eqn:Eb; [|done].
  destruct (enforcer_rewritten _ _ _ _ _ _ _ Hep Ev) as [Hv ->], (enforcer_rewritten _ _ _ _ _ _ _ Hep Eb) as [Hb ->].
  destruct (found_in param v0) eqn:Fu; [|destruct (found_in param b0) eqn:Fb]; cbn [negb andb].
  1,2: intros [= <- <- <-]; eexists ms, v0, b0, v, b; split_and!; try done; left; by rewrite Fu, ?Fb.
  case_bool_decide as Hq; [done|]. intros [= <- <- <-].
  destruct (sc_Endpoint scope); try done; injection Hep as <- <-.
  eexists ms, v0, b0, _, b. split_and!; [done..|]. right. unfold values, Values_Set. rewrite lookup_insert_eq.
  split_and!; [done|done| |].
  - destruct Hb as [Hb _]. unfold found_in in Fb. apply Nat.ltb_ge in Fb.
    destruct (default [] (b0 !! matchParam)); [|cbn in Fb; lia]. by apply Forall2_nil_inv_l in Hb.
  - intros k Hk. rewrite lookup_insert_ne by done. by apply Hv.
Qed.
End rewrite_lemmas.

Lemma found_values param v : found_in param v = true → values param v ≠ [].
Proof. unfold found_in, values. by destruct (default [] (v !! param)). Qed.
Lemma rewritten_values `{PromLabels, PromQL} e param v v' : rewritten e param v v' →
  Forall2 (λ q q', enforce e q = Ok q') (values param v) (values param v').
Proof. by intros [? _]. Qed.

(** ** Filters of Alertmanager, filtered responses *)

Lemma add_filters_lookup `{PromLabels} (ms : list Matcher) q k :
  foldl (λ q m, Values_Add filterParam (Matcher_String m) q) q ms !! k =
  if decide (k = filterParam ∧ ms ≠ []) then Some (default [] (q !! filterParam) ++ (Matcher_String <$> ms)) else q !! k.
Proof.
  revert q. induction ms as [|m ms IH]; intros q; cbn [foldl]; [rewrite decide_False by naive_solver; done|].
  rewrite IH. unfold Values_Add. destruct (decide (k = filterParam)) as [->|Hk].
  - rewrite (decide_True (P := filterParam = filterParam ∧ m :: ms ≠ [])) by done. rewrite !lookup_insert_eq.
    change (default [] (Some ?x)) with x.
    destruct ms; [rewrite decide_False by naive_solver; done|]. rewrite decide_True by done.
    by rewrite fmap_cons, <- (assoc_L (++)).
  - rewrite !decide_False by naive_solver. by rewrite lookup_insert_ne.
Qed.

Lemma amFilter_ok `{PromLabels, ErrorText} w r scope w' r' f : amFilter w r scope = Forwarded w' r' f →
  ∃ ms v0, w' = w ∧ f = None ∧ scope_matchers scope = Ok ms ∧ ParseQuery (u_RawQuery (r_URL r)) = Ok v0 ∧
    r' = dropBody (with_RawQuery (u_RawQuery (r_URL r')) r) ∧
    ∃ v, ParseQuery (u_RawQuery (r_URL r')) = Ok v ∧
      values filterParam v = values filterParam v0 ++ (Matcher_String <$> ms) ∧ ∀ k, k ≠ filterParam → v !! k = v0 !! k.
Proof.
  unfold amFilter. destruct (scope_matchers scope) as [ms|]; [|done].
  destruct (ParseQuery (u_RawQuery (r_URL r))) as [v0|] eqn:Ev; [|done]. intros [= <- <- <-]. exists ms, v0. split_and!; try done.
  cbn [r_URL dropBody with_Header with_Body with_RawQuery u_RawQuery].
  eexists. split; [apply ParseQuery_Encode|]. split.
  - rewrite nonempty_values. unfold values. rewrite add_filters_lookup. case_decide as Hd; [done|].
    destruct ms; [by rewrite app_nil_r|]. by destruct Hd.
  - intros k Hk. apply (nonempty_other v0 _ filterParam); [intros k'; by eapply ParseQuery_nonempty| |done].
    intros _. rewrite add_filters_lookup, decide_False by naive_solver. done.
Qed.

Lemma Header_Del_other k k' h : CanonicalHeaderKey k ≠ CanonicalHeaderKey k' →
  Header_Values (Header_Del k h) k' = Header_Values h k'.
Proof. intros Hk. unfold Header_Values, Header_Del. by rewrite lookup_delete_ne. Qed.
Lemma Header_Del_none k k' h : Header_Values h k' = [] → Header_Values (Header_Del k h) k' = [].
Proof.
  intros H. destruct (decide (CanonicalHeaderKey k = CanonicalHeaderKey k')) as [E|E]; [|by rewrite Header_Del_other].
  unfold Header_Values, Header_Del in *. by rewrite E, lookup_delete_eq.
Qed.
Lemma foldl_Del_none names h k : k ∈ names ∨ Header_Values h k = [] → Header_Values (foldl (λ h name, Header_Del name h) h names) k = [].
Proof.
  revert h. induction names as [|n names IH]; intros h Hk; cbn [foldl]; [destruct Hk; set_solver|].
  apply IH. destruct Hk as [[->|?]%elem_of_cons|?]; [right; apply Header_Values_Del|by left|right; by apply Header_Del_none].
Qed.
(** A request whose whole, plain response the filter will read. *)
Definition whole_response (r : Request) : Prop :=
  r_Body r = "" ∧ Header_Values (r_Header r) "Content-Type" = [] ∧ Header_Values (r_Header r) "Content-Length" = [] ∧
  ∀ k, k ∈ partialResponseHeaders → Header_Values (r_Header r) k = [].
Lemma filteredRaw_whole w r scope f w' r' f' : filteredRaw w r scope f = Forwarded w' r' f' →
  w' = w ∧ f' = Some (mkFilter f (sc_Labels scope)) ∧ r_Method r' = r_Method r ∧ r_URL r' = r_URL r ∧ r_ctx r' = r_ctx r ∧
  whole_response r'.
Proof.
  unfold filteredRaw. intros [= <- <- <-]. cbn [r_Method r_URL r_ctx with_Header dropBody with_Body]. split_and!; try done.
  destruct (dropBody_headers r) as [Ht Hl].
  pose proof (λ k, foldl_Del_none partialResponseHeaders (r_Header (dropBody r)) k) as H.
  split_and!; [done|apply (H "Content-Type"); by right|apply (H "Content-Length"); by right|].
  intros k Hk. apply H. by left.
Qed.

(** The query or match[] parameters of the
    forwarded URL and form body, as the backend parses them, are the caller's, one
    by one, with the enforced matchers in every selector, or the selector of the
    matchers alone when a match[] endpoint was given none. *)
Lemma rewrite_enforces {P : PromLabels} {Q : PromQL} {Et : ErrorText} {Mi : Mime} w r scope enf param w' r' f
    (Hlaw : enforce_law) (Hep : enforcer_of (sc_Endpoint scope) = Some (enf, param))
    (Hf : rewrite w r scope enf = Forwarded w' r' f) :
  w' = w ∧ f = None ∧ same_target r r' ∧ declares formContentType r' ∧
  ∃ ms v0 b0 v b, scope_matchers scope = Ok ms ∧ ParseQuery (u_RawQuery (r_URL r)) = Ok v0 ∧ readForm r = inl b0 ∧
    ParseQuery (u_RawQuery (r_URL r')) = Ok v ∧ ParseQuery (r_Body r') = Ok b ∧
    (∀ q, q ∈ values param v ++ values param b →
       enforced_query ms q ∨ param = matchParam ∧ q = matchersSelector ms) ∧
    values param v ++ values param b ≠ [] ∧
    (param = queryParam → length (values param v) ≤ 1 ∧ length (values param b) ≤ 1) ∧
    (∀ k, k ≠ param → v !! k = v0 !! k ∧ b !! k = b0 !! k).
Proof.
  destruct (rewrite_ok _ _ _ _ _ _ _ _ Hep Hf) as (ms & v0 & b0 & v & b & -> & -> & Hms & Hv0 & Hb0 & -> & Hb & Hv).
  split_and!; [done|done| |apply setBody_declares|].
  { split_and!; [by rewrite r_Method_setBody|by rewrite r_ctx_setBody|].
    eexists. by rewrite r_URL_setBody. }
  eexists ms, v0, b0, _, _. rewrite r_Body_setBody, r_URL_setBody. cbn [r_URL with_RawQuery u_RawQuery].
  split_and!; [done..|apply ParseQuery_Encode|apply ParseQuery_Encode| | | |]; rewrite ?nonempty_values.
  - assert (Hall : ∀ u u', rewritten (mkEnforcer ms) param u u' → Forall (enforced_query ms) (values param u')).
    { intros u u' Hu%rewritten_values. eapply Forall2_Forall_r; [exact Hu|]. apply Forall_forall.
      intros q _ q' Hq. by apply (enforce_enforced Hlaw (mkEnforcer ms) q). }
    intros q [Hq|Hq]%elem_of_app.
    + destruct Hv as [[Hv _]|(-> & Hv & _)]; [left; eapply Forall_forall; [by eapply Hall|done]|].
      right. rewrite Hv in Hq. by apply list_elem_of_singleton in Hq.
    + left. eapply Forall_forall; [by eapply Hall|done].
  - destruct Hv as [[Hv Hf0]|(_ & -> & _)]; [|done].
    apply rewritten_values in Hv, Hb. apply Forall2_length in Hv, Hb.
    intros [E1 E2]%app_eq_nil. rewrite E1 in Hv. rewrite E2 in Hb.
    apply orb_true_iff in Hf0 as [H0|H0]; apply found_values in H0; by apply H0, nil_length_inv.
  - intros ->. destruct (sc_Endpoint scope); try done. injection Hep as <-.
    clear -Hf Hv Hb Hv0 Hb0 Hms. unfold rewrite, newPromQLEnforcer in Hf. rewrite Hms, Hv0, Hb0 in Hf. cbn [rbind] in Hf.
    assert (Hone : ∀ u x u' u'', enforceQuery (mkEnforcer ms) u = Ok (x, u') → rewritten (mkEnforcer ms) queryParam u u'' →
      length (values queryParam u'') ≤ 1).
    { intros u x u' u'' Hu H%rewritten_values%Forall2_length. rewrite <- H. unfold values.
      apply enforceQuery_ok in Hu as [(_ & _ & ->)|(? & ? & _ & -> & _)]; cbn; lia. }
    destruct (enforceQuery _ v0) as [[fu vu]|] eqn:Eu; [|done]. destruct (enforceQuery _ b0) as [[fb vb]|] eqn:Eb; [|done].
    destruct Hv as [[Hv _]|(? & _)]; [|done]. split; eauto.
  - intros k Hk. split.
    + apply (nonempty_other v0 v param); [intros k'; by eapply ParseQuery_nonempty| |done].
      intros _. destruct Hv as [[[_ Hv] _]|(_ & _ & _ & Hv)]; auto.
    + apply (nonempty_other b0 b param); [intros k'; by eapply readForm_nonempty| |done]. intros _. by apply Hb.
Qed.

(** A parser of one metric name, or of the aggregation of two of them that the
    walk of prom-label-proxy passes over. *)
Fixpoint demo_print (n : Node string) : string :=
  match n with
  | mkNode d s l =>
      d +:+ match s with Some ms => "{" +:+ Join ((λ m, m_Name m +:+ "=" +:+ m_Value m) <$> ms) "," +:+ "}" | None => "" end
      +:+ (if l =? [] then "" else "(" +:+ Join (demo_print <$> l) "," +:+ ")")
  end.
Definition demo_promql : PromQL :=
  {| NodeData := string;
     ParseExpr q :=
       if q =? "" then Err (ENew "no expression found")
       else if q =? "topk(scalar(x),y)"
       then Ok (mkNode "topk" None [mkNode "scalar" None [mkNode "x" (Some []) []]; mkNode "y" (Some []) []])
       else Ok (mkNode q (Some []) []);
     Expr_String := demo_print;
     EnforceMatchers b ms sel :=
       if existsb (λ m, existsb (λ m', (m_Name m =? m_Name m') && (m !=? m')) sel) ms
       then Err (ENew ErrIllegalLabelMatcher) else Ok (filter (λ m, m ∉ ms) sel ++ ms) |}.
Lemma demo_law : @enforce_law demo_promql.
Proof. intros b ms sel sel'. cbn. case_if; [done|]. intros [= <-] m Hm. set_solver. Qed.
Definition demo_error_text : ErrorText := {| Error_ e := match e with ENew msg => msg | EWrap f _ _ => f end |}.
Definition demo_mime : Mime := {| ParseMediaType s := Ok s |}.
Definition demo_get (path query : string) : Request :=
  mkRequest "GET" (mkURL "http" "" None "h" path "" false query "") ∅ "" (mkContext None None).

#[local] Existing Instances demo_labels demo_promql demo_error_text demo_mime.
Definition demo_query_scope : Scope := mkScope false [mkLabel "ns" ["a"]] endpointQuery "".

(** * Properties *)

(** A query sent in the URL of a request without a form is answered with the
    enforcer's error when the parser or the enforcer refuses it, 400 for an error of
    the caller and 500 for any other, and is otherwise forwarded with the enforced
    query in place of the caller's and without a body. *)
Theorem rewrite_url_query {P : PromLabels} {Q : PromQL} {Et : ErrorText} {Mi : Mime} w r scope ms v0 q
    (Hms : scope_matchers scope = Ok ms) (Hget : r_Method r ≠ "POST")
    (Hv0 : ParseQuery (u_RawQuery (r_URL r)) = Ok v0) (Hq : v0 !! queryParam = Some [q]) :
  match enforce (mkEnforcer ms) q with
  | Ok q' => ∃ r', rewrite w r scope enforceQuery = Forwarded w r' None ∧ r_Body r' = "" ∧
      ParseQuery (u_RawQuery (r_URL r')) = Ok (<[queryParam := [q']]> v0)
  | Err err => rewrite w r scope enforceQuery =
      Answered (promError w (if errors_Is err ErrQueryParse || errors_Is err ErrIllegalLabelMatcher then 400 else 500) err)
  end.
Proof.
  unfold rewrite, newPromQLEnforcer, readForm. rewrite Hms, Hv0. cbn [rbind]. rewrite bool_decide_false by done. cbn [negb].
  unfold enforceQuery at 1 3, Values_Has, Values_Get. rewrite Hq, bool_decide_true by eauto.
  change (length (default [] (Some [q]))) with 1. rewrite bool_decide_true by done. cbn [negb].
  destruct (enforce (mkEnforcer ms) q) as [q'|err]; [|done]. cbn. eexists. split; [done|].
  rewrite r_Body_setBody, r_URL_setBody. split; [done|]. cbn [r_URL with_RawQuery u_RawQuery].
  rewrite ParseQuery_Encode. f_equal. apply map_eq. intros k. change "query" with queryParam.
  rewrite map_lookup_filter. destruct (decide (k = queryParam)) as [->|Hk].
  - rewrite !lookup_insert_eq. cbn. by rewrite option_guard_True.
  - rewrite !lookup_insert_ne by done. destruct (v0 !! k) as [x|] eqn:E; [|done]. cbn. rewrite option_guard_True; [done|].
    intros ->. by apply (ParseQuery_nonempty _ _ k) in Hv0.
Qed.

Lemma rewrite_url_query_witness :
  ∃ r', rewrite new_response (demo_get "/api/v1/query" "query=up") demo_query_scope enforceQuery = Forwarded new_response r' None ∧
    r_Body r' = "" ∧ ParseQuery (u_RawQuery (r_URL r')) = Ok (<[queryParam := ["up{ns=a}"]]> {[queryParam := ["up"]]}).
Proof.
  exact (rewrite_url_query new_response (demo_get "/api/v1/query" "query=up") demo_query_scope
    [mkMatcher MatchEqual "ns" "a"] {[queryParam := ["up"]]} "up" eq_refl ltac:(discriminate)
    ltac:(vm_compute; reflexivity) ltac:(vm_compute; reflexivity)).
Defined.
