(* ===== verification/PromSilence.v ===== *)
(** [internal/promlabel/silences.go]: who owns a silence, the matchers a new silence
    is given, and the three handlers: list, create or update, delete.

    A silence is read by [encoding/json] into [silence] with its case-insensitive keys
    and its reuse of what a key of the same name left: the elements of the matcher
    slice are decoded in place, and those cut off by a shorter array are still in its
    backing store.  A lookup of a silence is one round trip of the class [Transport], the
    backend as it answers at that instant. *)
From S2P Require Import Prelude GoStrings ConfigTypes PromScope GoURL GoHTTP ConfigAuth Credentials GoJSON PromFilter PromRewrite.

(** * Silences *)

(** [matcher] of silences.go. *)
Record smatcher := mkSmatcher { sm_Name : string; sm_Value : string; sm_IsRegex : bool; sm_IsEqual : option bool }.
#[export] Instance smatcher_eq_dec : EqDecision smatcher.
Proof. solve_decision. Defined.
Definition zero_smatcher : smatcher := mkSmatcher "" "" false None.

Definition equality (m : smatcher) : bool :=
  negb (sm_IsRegex m) && match sm_IsEqual m with None => true | Some b => b end.

Record silence := mkSilence {
  sl_ID : string; sl_Matchers : list smatcher; sl_StartsAt : option json; sl_EndsAt : option json;
  sl_CreatedBy : option json; sl_Comment : option json
}.

Definition owns (ls : list Label) (ms : list smatcher) : bool :=
  forallb (λ l, existsb (λ m, (sm_Name m =? lb_Name l) && equality m && allows l (sm_Value m)) ms) ls.

(** ** Reading *)

Section decode.
Context {U : Unicode}.

Definition matcher_field (m : smatcher) (key : string) (x : json) : result smatcher :=
  if EqualFold key "name" then
    let* v := Decode_string (sm_Name m) x in Ok (mkSmatcher v (sm_Value m) (sm_IsRegex m) (sm_IsEqual m))
  else if EqualFold key "value" then
    let* v := Decode_string (sm_Value m) x in Ok (mkSmatcher (sm_Name m) v (sm_IsRegex m) (sm_IsEqual m))
  else if EqualFold key "isRegex" then
    let* b := Decode_bool (sm_IsRegex m) x in Ok (mkSmatcher (sm_Name m) (sm_Value m) b (sm_IsEqual m))
  else if EqualFold key "isEqual" then
    let* b := Decode_boolp (sm_IsEqual m) x in Ok (mkSmatcher (sm_Name m) (sm_Value m) (sm_IsRegex m) b)
  else Ok m.
Definition Decode_matcher : smatcher → json → result smatcher := Decode_struct matcher_field.

(** The elements of an array, each decoded over the one it replaces. *)
Fixpoint decode_over (old : list smatcher) (l : list json) : result (list smatcher) :=
  match l with
  | [] => Ok []
  | x :: l =>
      let* m := Decode_matcher (default zero_smatcher (head old)) x in
      let* ms := decode_over (tail old) l in
      Ok (m :: ms)
  end.
(** A slice, from its backing store: the new store and the length. *)
Definition Decode_matchers (store : list smatcher) (x : json) : result (list smatcher * nat) :=
  match x with
  | JNull | JArray [] => Ok ([], 0)
  | JArray l =>
      let* ms := decode_over store l in Ok (ms ++ drop (length l) store, length l)
  | _ => Err errType
  end.

(** A silence with the backing store of its matchers. *)
Definition silence_field (st : silence * list smatcher) (key : string) (x : json) : result (silence * list smatcher) :=
  let '(s, store) := st in
  if EqualFold key "id" then
    let* v := Decode_string (sl_ID s) x in
    Ok (mkSilence v (sl_Matchers s) (sl_StartsAt s) (sl_EndsAt s) (sl_CreatedBy s) (sl_Comment s), store)
  else if EqualFold key "matchers" then
    let* ms := Decode_matchers store x in
    Ok (mkSilence (sl_ID s) (take ms.2 ms.1) (sl_StartsAt s) (sl_EndsAt s) (sl_CreatedBy s) (sl_Comment s), ms.1)
  else if EqualFold key "startsAt" then
    Ok (mkSilence (sl_ID s) (sl_Matchers s) (Some x) (sl_EndsAt s) (sl_CreatedBy s) (sl_Comment s), store)
  else if EqualFold key "endsAt" then
    Ok (mkSilence (sl_ID s) (sl_Matchers s) (sl_StartsAt s) (Some x) (sl_CreatedBy s) (sl_Comment s), store)
  else if EqualFold key "createdBy" then
    Ok (mkSilence (sl_ID s) (sl_Matchers s) (sl_StartsAt s) (sl_EndsAt s) (Some x) (sl_Comment s), store)
  else if EqualFold key "comment" then
    Ok (mkSilence (sl_ID s) (sl_Matchers s) (sl_StartsAt s) (sl_EndsAt s) (sl_CreatedBy s) (Some x), store)
  else Ok st.
Definition Decode_silence (j : json) : result silence :=
  rmap fst (Decode_struct silence_field (mkSilence "" [] None None None None, []) j).

Fixpoint keep_owned (all : list json) (ls : list Label) : result (list json) :=
  match all with
  | [] => Ok []
  | raw :: all =>
      let* s := Decode_silence raw in
      let* kept := keep_owned all ls in
      Ok (if owns ls (sl_Matchers s) then raw :: kept else kept)
  end.
Definition filterSilences : bodyFilter := λ body ls,
  let* all := Unmarshal Decode_list body in
  let* kept := keep_owned all ls in
  Ok (Marshal (JArray kept)).
End decode.

(** ** Writing *)

(** [omitempty] *)
Definition omit (key : string) (x : option json) : list (string * json) :=
  match x with Some x => [(key, x)] | None => [] end.
Definition matcher_json (m : smatcher) : json :=
  JObject ([("name", jstring (sm_Name m)); ("value", jstring (sm_Value m)); ("isRegex", JBool (sm_IsRegex m))]
           ++ omit "isEqual" (JBool <$> sm_IsEqual m)).
Definition silence_json (s : silence) : json :=
  JObject (omit "id" (if sl_ID s =? "" then None else Some (jstring (sl_ID s)))
           ++ [("matchers", if sl_Matchers s =? [] then JNull else JArray (matcher_json <$> sl_Matchers s))]
           ++ omit "startsAt" (sl_StartsAt s) ++ omit "endsAt" (sl_EndsAt s)
           ++ omit "createdBy" (sl_CreatedBy s) ++ omit "comment" (sl_Comment s)).

(** * The rules for a new silence *)

Definition errForbidden := "forbidden".

(** The matcher of one enforced label. *)
Definition scope_matcher (ms : list smatcher) (l : Label) : result smatcher :=
  match filter (λ m, sm_Name m = lb_Name l) ms with
  | [] => match lb_Values l with
          | [v] => Ok (mkSmatcher (lb_Name l) v false None)
          | _ => Err (ErrorfA "label %q has several allowed values, name one with an equality matcher" [lb_Name l])
          end
  | [m] => if negb (equality m) || negb (allows l (sm_Value m))
           then Err (Wrapf "%w: matcher on label %q" [lb_Name l] (ENew errForbidden)) else Ok m
  | _ => Err (ErrorfA "more than one matcher on label %q" [lb_Name l])
  end.
Definition scopeMatchers (ls : list Label) (ms : list smatcher) : result (list smatcher) :=
  let out := filter (λ m, sm_Name m ∉ (lb_Name <$> ls)) ms in
  fail_if out =? [] with ENew "need at least one matcher besides the enforced labels" in
  let* named := map_result (scope_matcher ms) ls in
  Ok (out ++ named).

(** * Ownership of a stored silence *)

(** [silenceIDPattern] *)
Definition silenceIDPattern (id : string) : bool :=
  (1 <=? String.length id) && (String.length id <=? 64) &&
  forallb (λ c, is_hex c || (c =? "-"%char)) (String.list_ascii_of_string id).

(** [URL.setPath]; an error leaves the URL as it was. *)
Definition setPath (p : string) (u : URL) : URL :=
  match unescape p encodePath with
  | Err _ => u
  | Ok path => mkURL (u_Scheme u) (u_Opaque u) (u_User u) (u_Host u) path
                 (if p =? escape path encodePath then "" else p) (u_ForceQuery u) (u_RawQuery u) (u_Fragment u)
  end.
Definition JoinPath (u : URL) (elem : list string) : URL :=
  let base := EscapedPath u in
  let p := if HasPrefix base "/" then path_Join (base :: elem)
           else s_drop 1 (path_Join (("/" +:+ base) :: elem)) in
  let p := if HasSuffix (List.last elem base) "/" && negb (HasSuffix p "/") then p +:+ "/" else p in
  setPath p u.
(** [removeEmptyPort] of net/http. *)
Definition removeEmptyPort (host : string) : string :=
  let after (a b : option nat) := match a, b with
                                  | Some i, Some j => j <? i
                                  | Some _, None => true
                                  | None, _ => false
                                  end in
  if after (LastIndexByte host ":") (LastIndexByte host "]") then TrimSuffix host ":" else host.

(** A request as it is sent out. *)
Record OutRequest := mkOut { o_Method : string; o_URL : URL; o_Header : Header; o_Body : string }.
Class Transport : Type := { RoundTrip : OutRequest → result BackendResponse }.

Section handlers.
Context {N : NetURL} {U : Unicode} {Gz : Gzip} {Tr : Transport} {Et : ErrorText}.

(** [http.NewRequestWithContext(ctx, "GET", url, nil)] *)
Definition NewRequest (url : string) : result URL :=
  let* u := Parse url in
  Ok (mkURL (u_Scheme u) (u_Opaque u) (u_User u) (removeEmptyPort (u_Host u)) (u_Path u) (u_RawPath u)
        (u_ForceQuery u) (u_RawQuery u) (u_Fragment u)).
Definition lookupRequest (target : URL) (r : Request) (prefix id : string) : result OutRequest :=
  let* u := NewRequest (url_String (JoinPath target [prefix; silencePathPrefix; id])) in
  Ok (mkOut "GET" u (foldl (λ h name, Header_Del name h) (r_Header r)
                       ["Content-Length"; "Content-Type"; "Accept-Encoding"]) "").

(** [inr w]: the request was answered. *)
Definition checkOwner (target : URL) (w : Response) (r : Request) (scope : Scope) (id : string) : unit + Response :=
  let bad_gateway := inr (http_Error "bad gateway" 502 w) in
  if negb (silenceIDPattern id) then inr (http_Error "invalid silence id" 400 w)
  else
    match lookupRequest target r (sc_Prefix scope) id with
    | Err _ => bad_gateway
    | Ok req =>
        match RoundTrip req with
        | Err _ => bad_gateway
        | Ok resp =>
            if b_Status resp =? 200%Z then
              match readResponse resp with
              | Err _ => bad_gateway
              | Ok (body, _) =>
                  match Unmarshal Decode_silence body with
                  | Err _ => bad_gateway
                  | Ok s => if negb (owns (sc_Labels scope) (sl_Matchers s))
                            then inr (http_Error "forbidden" 403 w) else inl tt
                  end
              end
            else if b_Status resp =? 404%Z then inr (http_Error "forbidden" 403 w)
            else bad_gateway
        end
    end.

Definition postSilence (target : URL) (w : Response) (r : Request) (scope : Scope) : handled :=
  match readBody r with
  | Err err => Answered (http_Error (Error_ err) 413 w)
  | Ok raw =>
      match Unmarshal Decode_silence raw with
      | Err err => Answered (http_Error ("can't decode silence: " +:+ Error_ err) 400 w)
      | Ok s =>
          match (if sl_ID s !=? "" then checkOwner target w r scope (sl_ID s) else inl tt) with
          | inr w => Answered w
          | inl _ =>
              match scopeMatchers (sc_Labels scope) (sl_Matchers s) with
              | Err err => Answered (http_Error (Error_ err) (if errors_Is err errForbidden then 403 else 400) w)
              | Ok scoped =>
                  let s := mkSilence (sl_ID s) scoped (sl_StartsAt s) (sl_EndsAt s) (sl_CreatedBy s) (sl_Comment s) in
                  Forwarded w (setBody (Marshal (silence_json s)) "application/json" (with_RawQuery "" r)) None
              end
          end
      end
  end.

Definition deleteSilence (target : URL) (w : Response) (r : Request) (scope : Scope) : handled :=
  let id := TrimPrefix (TrimPrefix (r_Path r) (sc_Prefix scope)) silencePathPrefix in
  match checkOwner target w r scope id with
  | inr w => Answered w
  | inl _ => Forwarded w (dropBody (with_RawQuery "" r)) None
  end.
End handlers.

(** * Lemmas *)

Lemma equality_spec m : equality m = true ↔ sm_IsRegex m = false ∧ sm_IsEqual m ≠ Some false.
Proof. unfold equality. destruct m as [n v [] [[]|]]; cbn; naive_solver. Qed.
Lemma owns_spec ls ms : owns ls ms = true ↔
  ∀ l, l ∈ ls → ∃ m, m ∈ ms ∧ sm_Name m = lb_Name l ∧ equality m = true ∧ sm_Value m ∈ lb_Values l.
Proof.
  unfold owns. rewrite forallb_bool. setoid_rewrite existsb_bool.
  split; intros H l Hl; destruct (H l Hl) as (m & Hm & Ho); exists m.
  - apply andb_true_iff in Ho as [[?%bool_decide_eq_true ?]%andb_true_iff ?%allows_spec]. done.
  - destruct Ho as (? & He & Hv). split; [done|]. apply allows_spec in Hv. rewrite He, Hv.
    by rewrite bool_decide_true.
Qed.

(** ** The rules for a new silence *)

Lemma scope_matcher_ok ms l m : scope_matcher ms l = Ok m ↔
  (filter (λ m, sm_Name m = lb_Name l) ms = [m] ∧ equality m = true ∧ sm_Value m ∈ lb_Values l) ∨
  (filter (λ m, sm_Name m = lb_Name l) ms = [] ∧ ∃ v, lb_Values l = [v] ∧ m = mkSmatcher (lb_Name l) v false None).
Proof.
  unfold scope_matcher. rewrite <- allows_spec. destruct (filter _ ms) as [|m' [|]].
  - destruct (lb_Values l) as [|v [|]]; naive_solver.
  - destruct (equality m') eqn:E1, (allows l (sm_Value m')) eqn:E2; cbn [negb orb]; naive_solver congruence.
  - naive_solver.
Qed.
Lemma scope_matcher_name ms l m : scope_matcher ms l = Ok m →
  sm_Name m = lb_Name l ∧ equality m = true ∧ sm_Value m ∈ lb_Values l.
Proof.
  intros [(Hf & He & Hv)|(_ & v & Hv & ->)]%scope_matcher_ok; [|rewrite Hv; set_solver].
  split_and!; [|done..]. assert (m ∈ filter (λ m, sm_Name m = lb_Name l) ms) as H by (rewrite Hf; set_solver).
  apply list_elem_of_filter in H. apply H.
Qed.

Lemma scopeMatchers_ok ls ms out : scopeMatchers ls ms = Ok out ↔
  ∃ named, out = filter (λ m, sm_Name m ∉ (lb_Name <$> ls)) ms ++ named ∧
    filter (λ m, sm_Name m ∉ (lb_Name <$> ls)) ms ≠ [] ∧ Forall2 (λ l m, scope_matcher ms l = Ok m) ls named.
Proof.
  unfold scopeMatchers. case_bool_decide as H; [naive_solver|]. rewrite rbind_ok. setoid_rewrite map_result_ok. naive_solver.
Qed.

Lemma filter_name_others (ls : list string) n ms : n ∈ ls →
  filter (λ m, sm_Name m = n) (filter (λ m, sm_Name m ∉ ls) ms) = [].
Proof.
  intros Hn. rewrite list_filter_filter. induction ms as [|m ms IH]; [done|].
  rewrite filter_cons_False by (intros [-> ?]; done). done.
Qed.
Lemma filter_name_named ls named l : NoDup (lb_Name <$> ls) → l ∈ ls →
  ∀ P, Forall2 (λ l m, sm_Name m = lb_Name l ∧ P l m) ls named →
  ∃ m, filter (λ m, sm_Name m = lb_Name l) named = [m] ∧ P l m.
Proof.
  intros Hnd Hl P HF. induction HF as [|l' m ls named [Hm HP] HF IH]; [set_solver|].
  rewrite fmap_cons in Hnd. apply NoDup_cons in Hnd as [Hl' Hnd].
  assert (Hnone : ∀ n, n ∉ (lb_Name <$> ls) → filter (λ m, sm_Name m = n) named = []).
  { intros n Hn. clear -HF Hn. induction HF as [|l' m ls named [Hm _] _ IH]; [done|].
    rewrite fmap_cons, not_elem_of_cons in Hn. rewrite filter_cons_False by (destruct Hn; congruence). apply IH. by destruct Hn. }
  apply elem_of_cons in Hl as [->|Hl].
  - exists m. split; [|done]. rewrite filter_cons_True, Hnone by done. done.
  - rewrite filter_cons_False; [auto|]. intros E. apply Hl'. rewrite <- Hm, E. by apply list_elem_of_fmap_2.
Qed.

(** What is accepted is owned, whatever the labels. *)
Lemma scopeMatchers_owns ls ms out : scopeMatchers ls ms = Ok out →
  owns ls out = true ∧ out ≠ [] ∧
  ∀ m, m ∈ out → m ∈ ms ∨ ∃ l v, l ∈ ls ∧ lb_Values l = [v] ∧ m = mkSmatcher (lb_Name l) v false None.
Proof.
  intros (named & -> & Hne & HF)%scopeMatchers_ok. split_and!.
  - apply owns_spec. intros l Hl. apply list_elem_of_lookup in Hl as (i & Hi).
    destruct (Forall2_lookup_l _ _ _ _ _ HF Hi) as (m & Hm & Hsm). exists m. split; [|by eapply scope_matcher_name].
    apply elem_of_app. right. by eapply list_elem_of_lookup_2.
  - by intros [? _]%app_eq_nil.
  - intros m [Hm|Hm]%elem_of_app; [left; by apply list_elem_of_filter in Hm as [_ ?]|].
    apply list_elem_of_lookup in Hm as (i & Hi). destruct (Forall2_lookup_r _ _ _ _ _ HF Hi) as (l & Hl & Hsm).
    apply list_elem_of_lookup_2 in Hl. apply scope_matcher_ok in Hsm as [(Hf & _)|(_ & v & Hv & ->)]; [left|right; eauto 10].
    assert (m ∈ filter (λ m, sm_Name m = lb_Name l) ms) as H by (rewrite Hf; set_solver).
    by apply list_elem_of_filter in H as [_ ?].
Qed.

(** ** Reading back a silence *)

Section decode_lemmas.
Context {U : Unicode}.

Definition valid_smatcher (m : smatcher) : Prop := valid_utf8 (sm_Name m) ∧ valid_utf8 (sm_Value m).
(** The fields are found by their names. *)
Lemma matcher_field_name m x : matcher_field m "name" x =
  let* v := Decode_string (sm_Name m) x in Ok (mkSmatcher v (sm_Value m) (sm_IsRegex m) (sm_IsEqual m)).
Proof. reflexivity. Qed.
Lemma matcher_field_value m x : matcher_field m "value" x =
  let* v := Decode_string (sm_Value m) x in Ok (mkSmatcher (sm_Name m) v (sm_IsRegex m) (sm_IsEqual m)).
Proof. reflexivity. Qed.
Lemma matcher_field_isRegex m b : matcher_field m "isRegex" (JBool b) =
  Ok (mkSmatcher (sm_Name m) (sm_Value m) b (sm_IsEqual m)).
Proof. reflexivity. Qed.
Lemma matcher_field_isEqual m b : matcher_field m "isEqual" (JBool b) =
  Ok (mkSmatcher (sm_Name m) (sm_Value m) (sm_IsRegex m) (Some b)).
Proof. reflexivity. Qed.

Lemma Decode_matcher_json m : valid_smatcher m → Decode_matcher zero_smatcher (escape_json (matcher_json m)) = Ok m.
Proof.
  intros [Hn Hv]. destruct m as [n v r e]. unfold matcher_json, Decode_matcher. cbn [sm_Name sm_Value sm_IsRegex sm_IsEqual] in *.
  rewrite escape_object, !fmap_app. cbn [list_fmap fmap fst snd app]. rewrite !escape_jstring.
  rewrite !Decode_struct_cons. change (unquote (html_escape "name")) with "name".
  rewrite matcher_field_name, Decode_jstring by done. cbn [rbind]. rewrite Decode_struct_cons.
  change (unquote (html_escape "value")) with "value". rewrite matcher_field_value, Decode_jstring by done. cbn [rbind].
  rewrite Decode_struct_cons. change (unquote (html_escape "isRegex")) with "isRegex".
  change (escape_json (JBool r)) with (JBool r). rewrite matcher_field_isRegex. cbn [rbind sm_Name sm_Value sm_IsEqual].
  destruct e as [e|]; [|reflexivity]. cbn [omit fmap option_fmap option_map list_fmap fst snd]. rewrite Decode_struct_cons.
  change (unquote (html_escape "isEqual")) with "isEqual". change (escape_json (JBool e)) with (JBool e).
  rewrite matcher_field_isEqual. reflexivity.
Qed.
Lemma decode_over_json ms : Forall valid_smatcher ms → decode_over [] ((λ m, escape_json (matcher_json m)) <$> ms) = Ok ms.
Proof.
  induction 1 as [|m ms Hm _ IH]; [done|]. rewrite fmap_cons. cbn [decode_over head tail].
  change (default zero_smatcher None) with zero_smatcher. rewrite Decode_matcher_json by done. cbn [rbind]. by rewrite IH.
Qed.

Lemma Decode_struct_omit {A} (step : A → string → json → result A) a k o l :
  Decode_struct step a (JObject (((λ kv, (html_escape kv.1, escape_json kv.2)) <$> omit k o) ++ l)) =
  match o with
  | Some x => let* a' := step a (unquote (html_escape k)) (escape_json x) in Decode_struct step a' (JObject l)
  | None => Decode_struct step a (JObject l)
  end.
Proof. destruct o; [apply Decode_struct_cons|done]. Qed.

(** What escaping does to the raw messages of a silence. *)
Definition escape_silence (s : silence) : silence :=
  mkSilence (sl_ID s) (sl_Matchers s) (escape_json <$> sl_StartsAt s) (escape_json <$> sl_EndsAt s)
    (escape_json <$> sl_CreatedBy s) (escape_json <$> sl_Comment s).

Lemma silence_field_raw st x :
  silence_field st "startsAt" x = Ok (mkSilence (sl_ID st.1) (sl_Matchers st.1) (Some x) (sl_EndsAt st.1) (sl_CreatedBy st.1) (sl_Comment st.1), st.2) ∧
  silence_field st "endsAt" x = Ok (mkSilence (sl_ID st.1) (sl_Matchers st.1) (sl_StartsAt st.1) (Some x) (sl_CreatedBy st.1) (sl_Comment st.1), st.2) ∧
  silence_field st "createdBy" x = Ok (mkSilence (sl_ID st.1) (sl_Matchers st.1) (sl_StartsAt st.1) (sl_EndsAt st.1) (Some x) (sl_Comment st.1), st.2) ∧
  silence_field st "comment" x = Ok (mkSilence (sl_ID st.1) (sl_Matchers st.1) (sl_StartsAt st.1) (sl_EndsAt st.1) (sl_CreatedBy st.1) (Some x), st.2).
Proof. destruct st. by split_and!. Qed.
Lemma silence_field_id st x : silence_field st "id" x =
  let* v := Decode_string (sl_ID st.1) x in
  Ok (mkSilence v (sl_Matchers st.1) (sl_StartsAt st.1) (sl_EndsAt st.1) (sl_CreatedBy st.1) (sl_Comment st.1), st.2).
Proof. by destruct st. Qed.
Lemma silence_field_matchers st x : silence_field st "matchers" x =
  let* ms := Decode_matchers st.2 x in
  Ok (mkSilence (sl_ID st.1) (take ms.2 ms.1) (sl_StartsAt st.1) (sl_EndsAt st.1) (sl_CreatedBy st.1) (sl_Comment st.1), ms.1).
Proof. by destruct st. Qed.

(** The silence a backend reads from the body written for it. *)
Lemma Decode_silence_json s : valid_utf8 (sl_ID s) → Forall valid_smatcher (sl_Matchers s) → sl_Matchers s ≠ [] →
  Decode_silence (escape_json (silence_json s)) = Ok (escape_silence s).
Proof.
  destruct s as [id ms sa ea cb co]. cbn [sl_ID sl_Matchers]. intros Hid Hms Hne. unfold Decode_silence, silence_json.
  cbn [sl_ID sl_Matchers sl_StartsAt sl_EndsAt sl_CreatedBy sl_Comment].
  rewrite escape_object, !fmap_app. rewrite (bool_decide_false (ms = [])) by done.
  rewrite Decode_struct_omit. change (unquote (html_escape "id")) with "id".
  set (a0 := (mkSilence "" [] None None None None, [])). set (a1 := (mkSilence id [] None None None None, @nil smatcher)).
  assert (H1 : ∀ l, match (if id =? "" then None else Some (jstring id)) with
      | Some x => let* a' := silence_field a0 "id" (escape_json x) in Decode_struct silence_field a' (JObject l)
      | None => Decode_struct silence_field a0 (JObject l) end = Decode_struct silence_field a1 (JObject l)).
  { intros l. case_bool_decide as E; [by subst id|]. by rewrite escape_jstring, silence_field_id, Decode_jstring. }
  rewrite H1. clear H1. cbn [list_fmap fmap fst snd app]. rewrite Decode_struct_cons.
  change (unquote (html_escape "matchers")) with "matchers". rewrite silence_field_matchers.
  assert (H2 : Decode_matchers a1.2 (escape_json (JArray (matcher_json <$> ms))) = Ok (ms, length ms)).
  { cbn [escape_json a1 snd]. rewrite <- list_fmap_compose. unfold compose. destruct ms as [|m ms]; [done|].
    rewrite fmap_cons. cbn [Decode_matchers]. rewrite <- (fmap_cons (λ m, escape_json (matcher_json m))), decode_over_json by done.
    cbn [rbind]. by rewrite drop_nil, app_nil_r, length_fmap. }
  rewrite H2. cbn [rbind fst snd]. rewrite take_ge by done. clear H2.
  change (list_fmap _ _ ?f ?l) with (f <$> l).
  destruct sa, ea, cb, co; reflexivity.
Qed.

(** ** What was decoded *)

Lemma Decode_matcher_escape d m j : wf_json d j → Decode_matcher m (escape_json j) = Decode_matcher m j.
Proof.
  intros Hwf. unfold Decode_matcher.
  etrans; [apply (Decode_struct_escape id matcher_field d m j Hwf)|by destruct (Decode_struct _ _ _)].
  intros a k x d' Hx. unfold id, matcher_field. rewrite !(Decode_string_escape d') by done.
  assert (Hb : ∀ b, Decode_bool b (escape_json x) = Decode_bool b x) by (by destruct x).
  assert (Hbp : ∀ b, Decode_boolp b (escape_json x) = Decode_boolp b x) by (by destruct x).
  rewrite Hb, Hbp. set (r := if EqualFold k "name" then _ else _). by destruct r.
Qed.
Lemma Decode_matchers_escape d store j : wf_json d j → Decode_matchers store (escape_json j) = Decode_matchers store j.
Proof.
  intros Hwf. destruct Hwf as [| | | |d l ? Hl|d l ? Hl]; try done. cbn [escape_json].
  assert (Ho : ∀ l old, Forall (wf_json (d + 1)) l → decode_over old (escape_json <$> l) = decode_over old l).
  { intros l0. induction l0 as [|x l0 IH]; intros old Hf; [done|]. apply Forall_cons in Hf as [Hx Hf].
    rewrite fmap_cons. cbn [decode_over]. by rewrite (Decode_matcher_escape (d + 1)), IH. }
  destruct l as [|x l]; [done|]. rewrite fmap_cons. cbn [Decode_matchers]. rewrite <- fmap_cons, Ho by done.
  by rewrite length_fmap.
Qed.
Definition escape_state (st : silence * list smatcher) : silence * list smatcher := (escape_silence st.1, st.2).
Lemma Decode_silence_escape d j : wf_json d j → Decode_silence (escape_json j) = rmap escape_silence (Decode_silence j).
Proof.
  intros Hwf. unfold Decode_silence. pose proof (Decode_struct_escape escape_state silence_field d
    (mkSilence "" [] None None None None, []) j Hwf) as H.
  assert (H' : Decode_struct silence_field (mkSilence "" [] None None None None, []) (escape_json j) =
    rmap escape_state (Decode_struct silence_field (mkSilence "" [] None None None None, []) j)).
  { apply H. intros [s store] k x d' Hx. unfold escape_state, silence_field. cbn [fst snd].
    rewrite (Decode_string_escape d'), (Decode_matchers_escape d') by done. unfold escape_silence.
    cbn [sl_ID sl_Matchers sl_StartsAt sl_EndsAt sl_CreatedBy sl_Comment].
    repeat case_if; try done; [by destruct (Decode_string _ _)|by destruct (Decode_matchers _ _)]. }
  rewrite H'. clear. by destruct (Decode_struct silence_field (mkSilence "" [] None None None None, []) j).
Qed.

Definition raw_ok (o : option json) : Prop := match o with Some j => wf_json 1 j | None => True end.
Definition silence_ok (s : silence) : Prop :=
  valid_utf8 (sl_ID s) ∧ Forall valid_smatcher (sl_Matchers s) ∧
  raw_ok (sl_StartsAt s) ∧ raw_ok (sl_EndsAt s) ∧ raw_ok (sl_CreatedBy s) ∧ raw_ok (sl_Comment s).

Lemma Decode_matcher_valid d m j m' : wf_json d j → valid_smatcher m → Decode_matcher m j = Ok m' → valid_smatcher m'.
Proof.
  intros Hwf Hm. apply (Decode_struct_inv valid_smatcher matcher_field d j m m' Hwf Hm).
  intros a k x a' [Ha1 Ha2] _. unfold matcher_field.
  repeat case_if; intros H; try (apply rbind_ok in H as (v & Hv & H)); injection H as <-; split; cbn; try done;
    (eapply Decode_string_valid; [|exact Hv]); done.
Qed.
Lemma Decode_matchers_valid d store j ms : wf_json d j → Forall valid_smatcher store → Decode_matchers store j = Ok ms →
  Forall valid_smatcher ms.1.
Proof.
  intros Hwf Hs. destruct Hwf as [| | | |d l ? Hl|d l ? Hl]; try done; [by intros [= <-]|].
  assert (Ho : ∀ l old ms, Forall (wf_json (d + 1)) l → Forall valid_smatcher old → decode_over old l = Ok ms → Forall valid_smatcher ms).
  { intros l0. induction l0 as [|x l0 IH]; intros old ms0 Hf Hold; [by intros [= <-]|]. apply Forall_cons in Hf as [Hx Hf].
    cbn [decode_over]. intros (m & Hm & (ms1 & Hms1 & [= <-])%rbind_ok)%rbind_ok. constructor.
    - eapply Decode_matcher_valid; [exact Hx| |exact Hm]. by destruct Hold.
    - eapply IH; [done| |exact Hms1]. by destruct Hold. }
  destruct l as [|x l]; [by intros [= <-]|]. cbn [Decode_matchers]. intros (ms' & Hms' & [= <-])%rbind_ok. cbn [fst].
  apply Forall_app. split; [by eapply Ho|by apply Forall_drop].
Qed.
Lemma Decode_silence_ok j s : wf_json 0 j → Decode_silence j = Ok s → silence_ok s.
Proof.
  intros Hwf. unfold Decode_silence. intros ([s' store] & H & [= <-])%rbind_ok.
  apply (Decode_struct_inv (λ st, silence_ok st.1 ∧ Forall valid_smatcher st.2) silence_field 0 j
    (mkSilence "" [] None None None None, []) (s', store) Hwf) in H; [by destruct H|repeat constructor|].
  intros [a st] k x a' [(H1 & H2 & H3 & H4 & H5 & H6) Hst] Hx. cbn [fst snd] in *. unfold silence_field.
  case_if. { intros (v & Hv & [= <-])%rbind_ok. apply Decode_string_valid in Hv; [|done]. by split. }
  case_if. { intros (ms & Hms & [= <-])%rbind_ok. eapply Decode_matchers_valid in Hms; [|done..].
             split; [split_and!; cbn; try done; by apply Forall_take|done]. }
  repeat case_if; intros [= <-]; split; try done; split_and!; done.
Qed.

Lemma wf_silence_json s : silence_ok s → wf_json 0 (silence_json s).
Proof.
  assert (Homit : ∀ d k o, wf_lit k → match o with Some j => wf_json d j | None => True end →
    Forall (λ kv, wf_lit kv.1 ∧ wf_json d kv.2) (omit k o)).
  { intros d k [j|] Hk Hj; cbn; [|done]. by repeat constructor. }
  intros (Hid & Hms & H1 & H2 & H3 & H4). unfold silence_json. constructor; [done|]. rewrite !Forall_app.
  split_and!; try (apply Homit; [intros r; reflexivity|done]).
  - apply Homit; [intros r; reflexivity|]. case_bool_decide; [done|apply wf_string_plain].
  - constructor; [|done]. split; [intros r; reflexivity|]. cbn [snd]. case_bool_decide; [constructor|].
    constructor; [done|]. apply Forall_fmap, Forall_forall. intros m _. unfold compose, matcher_json. constructor; [done|].
    rewrite Forall_app. split.
    + repeat constructor; try (intros r; reflexivity); try apply wf_quote_lit.
    + apply Homit; [intros r; reflexivity|]. destruct (sm_IsEqual m); [constructor|done].
Qed.
Lemma Unmarshal_silence s : silence_ok s → sl_Matchers s ≠ [] →
  Unmarshal Decode_silence (Marshal (silence_json s)) = Ok (escape_silence s).
Proof.
  intros Hs Hne. unfold Unmarshal. rewrite Marshal_parse by (by apply wf_silence_json).
  destruct Hs as (? & ? & _). by apply Decode_silence_json.
Qed.
End decode_lemmas.

(** ** Ownership *)

Section owner.
Context {N : NetURL} {U : Unicode} {Gz : Gzip} {Tr : Transport}.

(** The silence of this ID, as the backend returns it, is the caller's. *)
Definition stored_owned (target : URL) (r : Request) (scope : Scope) (id : string) : Prop :=
  silenceIDPattern id = true ∧
  ∃ req resp body s, lookupRequest target r (sc_Prefix scope) id = Ok req ∧ RoundTrip req = Ok resp ∧
    b_Status resp = 200%Z ∧ decoded_body resp = Ok body ∧ Unmarshal Decode_silence body = Ok s ∧
    owns (sc_Labels scope) (sl_Matchers s) = true.
Lemma checkOwner_ok target w r scope id : checkOwner target w r scope id = inl tt ↔ stored_owned target r scope id.
Proof.
  unfold checkOwner, stored_owned, decoded_body. destruct (silenceIDPattern id); cbn [negb]; [|by split; [|intros [? _]]].
  destruct (lookupRequest _ _ _ _) as [req|]; [|by split; [|intros (_ & ? & ? & ? & ? & ? & _)]].
  destruct (RoundTrip req) as [resp|] eqn:Er.
  2: { split; [done|]. intros (_ & ? & ? & ? & ? & [= <-] & H & _). by rewrite Er in H. }
  destruct (bool_decide_reflect (b_Status resp = 200%Z)) as [Hs|Hs].
  2: { split; [by case_if|]. intros (_ & ? & ? & ? & ? & [= <-] & H & H2 & _). rewrite Er in H. congruence. }
  destruct (readResponse resp) as [[body r']|] eqn:Eb.
  2: { split; [done|]. intros (_ & req' & resp' & b & s & [= <-] & H & _ & Hd & _).
       rewrite Er in H. injection H as <-. by rewrite Eb in Hd. }
  assert (Hiff : (∃ s, Unmarshal Decode_silence body = Ok s ∧ owns (sc_Labels scope) (sl_Matchers s) = true) ↔
    true = true ∧ ∃ req0 resp0 body0 s, Ok req = Ok req0 ∧ RoundTrip req0 = Ok resp0 ∧ b_Status resp0 = 200%Z ∧
      rmap fst (readResponse resp0) = Ok body0 ∧ Unmarshal Decode_silence body0 = Ok s ∧
      owns (sc_Labels scope) (sl_Matchers s) = true).
  { split.
    - intros (s & Hu & Ho). split; [done|]. exists req, resp, body, s. split_and!; try done. by rewrite Eb.
    - intros (_ & req' & resp' & b & s & [= <-] & H & _ & Hd & Hu & Ho). rewrite Er in H. injection H as <-.
      rewrite Eb in Hd. injection Hd as <-. eauto. }
  rewrite <- Hiff. destruct (Unmarshal Decode_silence body) as [s|]; [|by split; [|intros (? & ? & _)]].
  destruct (owns (sc_Labels scope) (sl_Matchers s)) eqn:Eo; cbn [negb].
  - split; [eauto|done].
  - split; [done|]. intros (? & [= <-] & ?). congruence.
Qed.
(** A request is answered with an error or not at all. *)
Lemma checkOwner_answers target w r scope id w' : w_status w = None → checkOwner target w r scope id = inr w' →
  ∃ code, w_status w' = Some code ∧ (code = 400 ∨ code = 403 ∨ code = 502)%Z.
Proof.
  intros Hw. assert (He : ∀ msg c, w_status (http_Error msg c w) = Some c) by (intros; by apply http_Error_status).
  unfold checkOwner. repeat (case_if || match goal with |- context [match ?x with _ => _ end] => destruct x end);
    intros [= <-]; eexists; (split; [apply He|auto]).
Qed.
End owner.

(** * Properties *)

(** C15: the matchers a silence is given on creation: when they are accepted, for
    distinct labels, every enforced label has exactly one matcher, an equality on a
    value the caller holds; at least one other matcher is left; the matchers on other
    labels are kept in their order; every matcher is one of the caller's or the
    equality on a label's only value; and the result is accepted again unchanged, as
    an update of the silence sends it. *)
Theorem scopeMatchers_spec ls ms out (Hnd : NoDup (lb_Name <$> ls)) (Hs : scopeMatchers ls ms = Ok out) :
  owns ls out = true ∧
  (∀ l, l ∈ ls → ∃ m, filter (λ m, sm_Name m = lb_Name l) out = [m] ∧ equality m = true ∧ sm_Value m ∈ lb_Values l) ∧
  (∃ m, m ∈ out ∧ sm_Name m ∉ (lb_Name <$> ls)) ∧
  filter (λ m, sm_Name m ∉ (lb_Name <$> ls)) out = filter (λ m, sm_Name m ∉ (lb_Name <$> ls)) ms ∧
  (∀ m, m ∈ out → m ∈ ms ∨ ∃ l v, l ∈ ls ∧ lb_Values l = [v] ∧ m = mkSmatcher (lb_Name l) v false None) ∧
  scopeMatchers ls out = Ok out.
Proof.
  destruct (scopeMatchers_owns _ _ _ Hs) as (Ho & _ & Hin).
  apply scopeMatchers_ok in Hs as (named & -> & Hne & HF). set (others := filter _ ms) in *.
  assert (Hn : Forall2 (λ l m, sm_Name m = lb_Name l ∧ scope_matcher ms l = Ok m) ls named).
  { eapply Forall2_impl; [exact HF|]. intros l m Hm. split; [|done]. apply (scope_matcher_name _ _ _ Hm). }
  assert (Hone : ∀ l, l ∈ ls → ∃ m, filter (λ m, sm_Name m = lb_Name l) (others ++ named) = [m] ∧ scope_matcher ms l = Ok m).
  { intros l Hl. destruct (filter_name_named ls named l Hnd Hl _ Hn) as (m & Hm & Hsm). exists m. split; [|done].
    rewrite filter_app, Hm. unfold others. rewrite filter_name_others; [done|]. by apply list_elem_of_fmap_2. }
  assert (Hothers : filter (λ m, sm_Name m ∉ (lb_Name <$> ls)) (others ++ named) = others).
  { rewrite filter_app. assert (H0 : filter (λ m, sm_Name m ∉ (lb_Name <$> ls)) named = []).
    { assert (HN : Forall (λ m, sm_Name m ∈ (lb_Name <$> ls)) named).
      { eapply Forall2_Forall_r; [exact Hn|]. apply Forall_forall. intros l Hl m [-> _]. by apply list_elem_of_fmap_2. }
      clear -HN. induction HN as [|m named Hm _ IH]; [done|]. by rewrite filter_cons_False by tauto. }
    rewrite H0, app_nil_r. unfold others. rewrite list_filter_filter. apply list_filter_iff. tauto. }
  split_and!.
  - exact Ho.
  - intros l Hl. destruct (Hone l Hl) as (m & Hm & (_ & ? & ?)%scope_matcher_name). eauto.
  - destruct others as [|m others'] eqn:E; [done|]. exists m. split; [set_solver|].
    assert (m ∈ filter (λ m, sm_Name m ∉ (lb_Name <$> ls)) ms) as H by (fold others; rewrite E; set_solver).
    apply list_elem_of_filter in H. apply H.
  - exact Hothers.
  - exact Hin.
  - apply scopeMatchers_ok. exists named. rewrite Hothers. split_and!; [done|done|].
    clear Hothers. apply Forall2_same_length_lookup in HF as [Hlen HF]. apply Forall2_same_length_lookup. split; [done|].
    intros i l m Hl Hm. pose proof (HF i l m Hl Hm) as Hsm. destruct (Hone l) as (m' & Hm' & Hsm'); [by eapply list_elem_of_lookup_2|].
    rewrite Hsm in Hsm'. injection Hsm' as <-. apply scope_matcher_ok. left. split; [done|]. by eapply scope_matcher_name.
Qed.

Definition demo_silence_labels : list Label := [mkLabel "ns" ["a"; "b"]; mkLabel "team" ["t"]].
Lemma scopeMatchers_spec_witness :
  ∃ out, scopeMatchers demo_silence_labels [mkSmatcher "ns" "b" false (Some true); mkSmatcher "alertname" ".*" true None] = Ok out ∧
    owns demo_silence_labels out = true ∧ scopeMatchers demo_silence_labels out = Ok out.
Proof.
  exists [mkSmatcher "alertname" ".*" true None; mkSmatcher "ns" "b" false (Some true); mkSmatcher "team" "t" false None].
  destruct (scopeMatchers_spec demo_silence_labels
    [mkSmatcher "ns" "b" false (Some true); mkSmatcher "alertname" ".*" true None]
    [mkSmatcher "alertname" ".*" true None; mkSmatcher "ns" "b" false (Some true); mkSmatcher "team" "t" false None])
    as (H1 & _ & _ & _ & _ & H2); [apply (bool_decide_unpack _); vm_compute; exact I|reflexivity|].
  split; [reflexivity|split; [exact H1|exact H2]].
Defined.

(** ** The list of silences *)

Section served.
Context {U : Unicode}.

Definition body_silences (body : string) : list json := read_list (json_parse body).
Definition entry_owned (ls : list Label) (raw : json) : bool :=
  match Decode_silence raw with Ok s => owns ls (sl_Matchers s) | Err _ => false end.

Lemma entry_owned_escape d ls j : wf_json d j → entry_owned ls (escape_json j) = entry_owned ls j.
Proof.
  intros H. unfold entry_owned. rewrite (Decode_silence_escape d) by done. by destruct (Decode_silence j).
Qed.
Lemma keep_owned_ok all ls kept : keep_owned all ls = Ok kept → kept = filter (λ raw, entry_owned ls raw = true) all.
Proof.
  revert kept. induction all as [|raw all IH]; intros kept; cbn [keep_owned]; [by intros [= <-]|].
  intros (s & Hs & (kept' & Hk%IH & Hr)%rbind_ok)%rbind_ok. injection Hr as <-. subst kept'.
  assert (Hv : entry_owned ls raw = owns ls (sl_Matchers s)) by (unfold entry_owned; by rewrite Hs).
  rewrite filter_cons, Hv. destruct (owns ls (sl_Matchers s)); by case_decide.
Qed.
Lemma filterSilences_ok body ls out : filterSilences body ls = Ok out →
  Forall (wf_json 1) (body_silences body) ∧
  body_silences out = escape_json <$> filter (λ raw, entry_owned ls raw = true) (body_silences body).
Proof.
  unfold filterSilences, Unmarshal. intros (all & Ha & (kept & ->%keep_owned_ok & [= <-])%rbind_ok)%rbind_ok.
  destruct (json_parse body) as [j|] eqn:Ej; [|done].
  assert (Hall : Forall (wf_json (0 + 1)) all) by (apply (Decode_list_wf 0 j); [done|by eapply json_parse_wf|done]).
  unfold body_silences. rewrite Ej. cbn [read_list]. rewrite Ha. split; [done|].
  rewrite Marshal_parse by (constructor; [done|by apply wf_filter]). done.
Qed.
End served.

(** The labels of a scope come from the configuration and from decoded claims. *)
Definition valid_label (l : Label) : Prop := valid_utf8 (lb_Name l) ∧ Forall valid_utf8 (lb_Values l).

(** What is forwarded to create or update a silence reads back, by the decoder
    of the proxy itself with its case-insensitive keys, as a silence the caller owns. *)
Lemma postSilence_ok {N : NetURL} {U : Unicode} {Gz : Gzip} {Tr : Transport} {Et : ErrorText} target w r scope w' r' f
    (Hutf : Forall valid_label (sc_Labels scope))
    (Hf : postSilence target w r scope = Forwarded w' r' f) :
  w' = w ∧ f = None ∧ same_target r r' ∧ u_RawQuery (r_URL r') = "" ∧ declares "application/json" r' ∧
  ∃ s0 s, Unmarshal Decode_silence (r_Body r) = Ok s0 ∧ Unmarshal Decode_silence (r_Body r') = Ok s ∧
    sl_ID s = sl_ID s0 ∧ owns (sc_Labels scope) (sl_Matchers s) = true ∧
    scopeMatchers (sc_Labels scope) (sl_Matchers s0) = Ok (sl_Matchers s) ∧
    (sl_ID s ≠ "" → stored_owned target r scope (sl_ID s)).
Proof.
  unfold postSilence, readBody in Hf. destruct (_ <? _)%Z; [done|].
  destruct (Unmarshal Decode_silence (r_Body r)) as [s0|] eqn:Es; [|done].
  assert (Hs0 : silence_ok s0).
  { unfold Unmarshal in Es. destruct (json_parse (r_Body r)) as [j|] eqn:Ej; [|done].
    eapply Decode_silence_ok; [by eapply json_parse_wf|done]. }
  assert (Hid : sl_ID s0 ≠ "" → (if sl_ID s0 !=? "" then checkOwner target w r scope (sl_ID s0) else inl tt) = inl tt →
                stored_owned target r scope (sl_ID s0)).
  { intros Hne. rewrite bool_decide_false by done. apply checkOwner_ok. }
  destruct (if sl_ID s0 !=? "" then _ else _) as [[]|]; [|done].
  destruct (scopeMatchers _ _) as [ms|] eqn:Em; [|done]. injection Hf as <- <- <-.
  set (s := mkSilence (sl_ID s0) ms (sl_StartsAt s0) (sl_EndsAt s0) (sl_CreatedBy s0) (sl_Comment s0)).
  destruct (scopeMatchers_owns _ _ _ Em) as (Ho & Hne & Hin).
  assert (Hs : silence_ok s).
  { destruct Hs0 as (H1 & H2 & H3). split; [done|split; [|done]]. apply Forall_forall. intros m' Hm'.
    destruct (Hin m' Hm') as [?|(l & v & Hl & Hv & ->)]; [by eapply Forall_forall in H2|].
    eapply Forall_forall in Hutf as [? Hvs]; [|exact Hl]. rewrite Hv in Hvs. split; [done|]. rewrite Forall_singleton in Hvs. exact Hvs. }
  split_and!; [done|done| | |apply setBody_declares|].
  { split_and!; [by rewrite r_Method_setBody|by rewrite r_ctx_setBody|]. exists "". by rewrite r_URL_setBody. }
  { by rewrite r_URL_setBody. }
  exists s0, (escape_silence s). rewrite r_Body_setBody. split_and!; try done; [|auto].
  by apply Unmarshal_silence.
Qed.

Definition demo_silence_scope : Scope := mkScope false demo_silence_labels endpointSilences "".
Definition demo_post (body : string) : Request :=
  mkRequest "POST" (mkURL "http" "" None "h" "/api/v2/silences" "" false "x=1" "") ∅ body (mkContext None (Some demo_silence_scope)).
(** A backend that stores the silence "c0ffee" for [ns="a", team="t"]. *)
Definition demo_transport : Transport :=
  {| RoundTrip req := Ok (mkBackend 200 ∅ (jtext
       "{'id':'c0ffee','matchers':[{'name':'ns','value':'a','isRegex':false},{'name':'team','value':'t'}]}")) |}.
Definition demo_gzip : Gzip := {| gunzip s := Ok s |}.
Definition demo_target : URL := mkURL "http" "" None "backend" "" "" false "" "".
#[local] Existing Instances ascii_unicode demo_error_text demo_neturl demo_transport demo_gzip.

(** The second "Id" and "MATCHERS" keys of the body are gone from what is sent. *)
Definition demo_update : Request := demo_post (jtext
  "{'id':'1','MATCHERS':[{'name':'alertname','value':'Down'},{'Name':'ns','value':'a'}],'Id':'c0ffee','comment':'<x>'}").
Definition demo_updated : string := jtext
  "{'id':'c0ffee','matchers':[{'name':'alertname','value':'Down','isRegex':false},{'name':'ns','value':'a','isRegex':false},{'name':'team','value':'t','isRegex':false}],'comment':'\u003cx\u003e'}".
