(* ===== verification/PromHandler.v ===== *)
(** [internal/promlabel/handler.go], [Handler.ServeHTTP]: the table of endpoints put to
    work.  By its endpoint a request is forwarded, rewritten by [PromRewrite], given a
    filter for its response, or handed to the silence handlers; and what is guaranteed
    of the request that goes on and of the response that comes back. *)
From S2P Require Import Prelude GoStrings ConfigTypes PromScope GoURL GoHTTP ConfigAuth ConfigMain Credentials GoJSON PromFilter PromRewrite PromSilence.

Section handler.
Context {C : Crypto} {R : Regexp} {N : NetURL} {U : Unicode} {Gz : Gzip} {Tr : Transport} {Et : ErrorText} {P : PromLabels} {Q : PromQL}
  {Mi : Mime}.

(** The target of a validated configuration is not nil. *)
Definition TargetURL (cfg : Config) : URL := default empty_URL (c_targetURL cfg).

Definition ServeHTTP (cfg : Config) (w : Response) (r : Request) : handled :=
  match ctx_scope (r_ctx r) with
  | None =>
      match ob_PromLabelProxy (c_Outbound cfg) with
      | Some _ => Answered (http_Error "forbidden" 403 w)
      | None => Forwarded w r None
      end
  | Some scope =>
      if sc_Bypass scope then Forwarded w r None
      else
        match sc_Endpoint scope with
        | endpointQuery => rewrite w r scope enforceQuery
        | endpointMatch => rewrite w r scope enforceMatch
        | endpointRules => filtered w r scope filterRules
        | endpointAlerts => filtered w r scope filterAlerts
        | endpointAMFilter => amFilter w r scope
        | endpointSilences =>
            if r_Method r =? "POST" then postSilence (TargetURL cfg) w r scope
            else filteredRaw w r scope filterSilences
        | endpointSilenceID => deleteSilence (TargetURL cfg) w r scope
        | endpointNone => Answered (http_Error "forbidden" 403 w)
        end
  end.
End handler.

(** * What a handled request can be *)

Section guard.
Context {C : Crypto} {R : Regexp} {N : NetURL} {U : Unicode} {Gz : Gzip} {Tr : Transport} {Et : ErrorText} {P : PromLabels} {Q : PromQL}
  {Mi : Mime}.

(** The filters by which responses are cut down: where in a body the entries are
    found, and which of them a caller may see. *)
Inductive entries_filter : Endpoint → bodyFilter → (string → list json) → (list Label → json → bool) → Prop :=
| rules_filter : entries_filter endpointRules (apiFilter filterRules) body_rules entry_visible
| alerts_filter : entries_filter endpointAlerts (apiFilter filterAlerts) body_alerts entry_visible
| silences_filter : entries_filter endpointSilences filterSilences body_silences entry_owned.

(** The only requests that are forwarded for a scope, by its endpoint. *)
Inductive guarded (target : URL) (scope : Scope) (r r' : Request) : option responseFilter → Prop :=
| guarded_params enf param ms v0 b0 v b :
    enforcer_of (sc_Endpoint scope) = Some (enf, param) → scope_matchers scope = Ok ms →
    declares formContentType r' → ParseQuery (u_RawQuery (r_URL r)) = Ok v0 → readForm r = inl b0 →
    ParseQuery (u_RawQuery (r_URL r')) = Ok v → ParseQuery (r_Body r') = Ok b →
    (∀ q, q ∈ values param v ++ values param b → enforced_query ms q ∨ q = matchersSelector ms) →
    values param v ++ values param b ≠ [] →
    (param = queryParam → length (values param v) ≤ 1 ∧ length (values param b) ≤ 1) →
    (∀ k, k ≠ param → v !! k = v0 !! k ∧ b !! k = b0 !! k) → guarded target scope r r' None
| guarded_filter ms v :
    sc_Endpoint scope = endpointAMFilter → scope_matchers scope = Ok ms → r_Body r' = "" →
    ParseQuery (u_RawQuery (r_URL r')) = Ok v → (∀ m, m ∈ ms → Matcher_String m ∈ values filterParam v) →
    guarded target scope r r' None
| guarded_response f entries ok :
    entries_filter (sc_Endpoint scope) f entries ok → r_URL r' = r_URL r → whole_response r' →
    guarded target scope r r' (Some (mkFilter f (sc_Labels scope)))
| guarded_create s :
    sc_Endpoint scope = endpointSilences → r_Method r = "POST" → declares "application/json" r' →
    u_RawQuery (r_URL r') = "" → Unmarshal Decode_silence (r_Body r') = Ok s →
    owns (sc_Labels scope) (sl_Matchers s) = true → (sl_ID s ≠ "" → stored_owned target r scope (sl_ID s)) →
    guarded target scope r r' None
| guarded_delete :
    sc_Endpoint scope = endpointSilenceID → r_Body r' = "" → u_RawQuery (r_URL r') = "" →
    stored_owned target r scope (TrimPrefix (TrimPrefix (r_Path r) (sc_Prefix scope)) silencePathPrefix) →
    guarded target scope r r' None.
End guard.

(** * Lemmas *)

Lemma dropBody_target q r : same_target r (dropBody (with_RawQuery q r)).
Proof. split_and!; [done|done|]. by exists q. Qed.

Section lemmas.
Context {C : Crypto} {R : Regexp} {N : NetURL} {U : Unicode} {Gz : Gzip} {Tr : Transport} {Et : ErrorText} {P : PromLabels} {Q : PromQL}
  {Mi : Mime}.

Lemma rewrite_guards target w r scope enf param w' r' f : enforce_law →
  enforcer_of (sc_Endpoint scope) = Some (enf, param) → rewrite w r scope enf = Forwarded w' r' f →
  w' = w ∧ same_target r r' ∧ guarded target scope r r' f.
Proof.
  intros Hlaw Hep Hf.
  destruct (rewrite_enforces _ _ _ _ _ _ _ _ Hlaw Hep Hf) as (-> & -> & Ht & Hd & ms & v0 & b0 & v & b & H & H0 & H1 & H2 & H3 & Hq & H4 & H5 & H6).
  split_and!; [done|done|]. eapply guarded_params; try done. intros q [?|[_ ?]]%Hq; auto.
Qed.
Lemma filtered_guards target w r scope f entries ok w' r' f' : entries_filter (sc_Endpoint scope) f entries ok →
  filteredRaw w r scope f = Forwarded w' r' f' → w' = w ∧ same_target r r' ∧ guarded target scope r r' f'.
Proof.
  intros He (-> & -> & Hm & Hu & Hc & Hw)%filteredRaw_whole. split_and!; [done| |by eapply guarded_response].
  split_and!; [done|done|]. exists (u_RawQuery (r_URL r)). rewrite Hu. by destruct r as [? [] ? ? ?].
Qed.
(** What the handler forwards. *)
Lemma ServeHTTP_cases (cfg : Config) w r w' r' f : enforce_law →
  (∀ scope, ctx_scope (r_ctx r) = Some scope → Forall valid_label (sc_Labels scope)) → ServeHTTP cfg w r = Forwarded w' r' f →
  w' = w ∧ same_target r r' ∧
  match ctx_scope (r_ctx r) with
  | None => ob_PromLabelProxy (c_Outbound cfg) = None ∧ r' = r ∧ f = None
  | Some scope => if sc_Bypass scope then r' = r ∧ f = None else guarded (TargetURL cfg) scope r r' f
  end.
Proof.
  intros Hlaw Hlabels Hf.
  assert (Hself : same_target r r).
  { split_and!; [done|done|]. exists (u_RawQuery (r_URL r)). by destruct r as [? [] ? ? ?]. }
  unfold ServeHTTP in Hf. destruct (ctx_scope (r_ctx r)) as [scope|].
  2: { destruct (ob_PromLabelProxy _); [done|]. by injection Hf as <- <- <-. }
  destruct (sc_Bypass scope); [by injection Hf as <- <- <-|]. specialize (Hlabels scope eq_refl).
  destruct (sc_Endpoint scope) eqn:Ee; [done|..].
  - eapply rewrite_guards; [done| |exact Hf]. by rewrite Ee.
  - eapply rewrite_guards; [done| |exact Hf]. by rewrite Ee.
  - by eapply filtered_guards; [|exact Hf]; rewrite Ee; constructor.
  - by eapply filtered_guards; [|exact Hf]; rewrite Ee; constructor.
  - apply amFilter_ok in Hf as (ms & v0 & -> & -> & Hms & _ & Hr & v & Hv & Hin & _).
    split_and!; [done|by rewrite Hr; apply dropBody_target|].
    eapply guarded_filter; [done|done|by rewrite Hr|done|]. intros m Hm. rewrite Hin.
    apply elem_of_app. right. by apply list_elem_of_fmap_2.
  - case_bool_decide as Hp; [|by eapply filtered_guards; [|exact Hf]; rewrite Ee; constructor].
    apply postSilence_ok in Hf as (-> & -> & Ht & Hq & Hd & s0 & s & _ & Hs & _ & Ho & _ & Hid); [|done].
    split_and!; [done|done|]. by eapply guarded_create.
  - unfold deleteSilence in Hf. destruct (checkOwner _ _ _ _ _) as [[]|] eqn:Eo; [|done].
    apply checkOwner_ok in Eo. injection Hf as <- <- <-. split_and!; [done|apply dropBody_target|].
    by apply guarded_delete.
Qed.
End lemmas.

(** ** The entries of a body *)

Section entries.
Context {U : Unicode} {Gz : Gzip}.
Definition wf_somewhere (j : json) : Prop := ∃ d, wf_json d j.

Lemma read_field_wf d k j x : wf_json d j → read_field k j = Some x → wf_json (d + 1) x.
Proof.
  unfold read_field. intros Hwf. destruct (Decode_map j) as [m|] eqn:E; [|done]. intros Hx.
  eapply good_map_some; [by eapply good_map_decode|done].
Qed.
Lemma read_list_wf d o : match o with Some j => wf_json d j | None => True end → Forall (wf_json (d + 1)) (read_list o).
Proof. destruct o as [j|]; [|done]. intros Hwf. destruct j; try done. by inversion Hwf. Qed.
Lemma rules_of_wf data : wf_json 1 data → Forall wf_somewhere (rules_of data).
Proof.
  intros Hwf. unfold rules_of. apply Forall_forall. intros raw (g & Hg & Hraw)%list_elem_of_In%in_flat_map.
  assert (Hgs : Forall (wf_json 3) (read_list (read_field "groups" data))).
  { apply (read_list_wf 2). destruct (read_field "groups" data) eqn:E; [|done]. by apply (read_field_wf 1) in E. }
  apply list_elem_of_In in Hg, Hraw. eapply Forall_forall in Hgs; [|exact Hg]. exists 5%Z.
  assert (Hr : Forall (wf_json 5) (read_list (read_field "rules" g))).
  { apply (read_list_wf 4). destruct (read_field "rules" g) eqn:E; [|done]. by apply (read_field_wf 3) in E. }
  by eapply Forall_forall in Hr.
Qed.
Lemma alerts_of_wf data : wf_json 1 data → Forall wf_somewhere (alerts_of data).
Proof.
  intros Hwf. unfold alerts_of. assert (Hr : Forall (wf_json 3) (read_list (read_field "alerts" data))).
  { apply (read_list_wf 2). destruct (read_field "alerts" data) eqn:E; [|done]. by apply (read_field_wf 1) in E. }
  eapply Forall_impl; [exact Hr|]. intros j ?. by exists 3%Z.
Qed.

(** Every filter keeps exactly the entries that are [ok]. *)
Lemma filter_entries_ok e f entries ok body ls out : entries_filter e f entries ok → f body ls = Ok out →
  Forall wf_somewhere (entries body) ∧
  entries out = escape_json <$> filter (λ raw, ok ls raw = true) (entries body).
Proof.
  intros [] Hf.
  - apply apiFilter_ok in Hf as (j & data & x & Hj & Hwf & Hd & Hx & j' & Hj' & Hd' & _);
      [|done|intros ? ? ? Hx; by apply filterRules_ok in Hx as [? _]].
    unfold body_rules, body_data. rewrite Hj, Hj'. cbn [mbind option_bind]. rewrite Hd, Hd'. cbn [mbind option_bind].
    split; [by apply rules_of_wf|]. by apply filterRules_ok in Hx as [_ ?].
  - apply apiFilter_ok in Hf as (j & data & x & Hj & Hwf & Hd & Hx & j' & Hj' & Hd' & _);
      [|done|intros ? ? ? Hx; by apply filterAlerts_ok in Hx as [? _]].
    unfold body_alerts, body_data. rewrite Hj, Hj'. cbn [mbind option_bind]. rewrite Hd, Hd'. cbn [mbind option_bind].
    split; [by apply alerts_of_wf|]. by apply filterAlerts_ok in Hx as [_ ?].
  - apply filterSilences_ok in Hf as [Hwf ?]. split; [|done]. eapply Forall_impl; [exact Hwf|]. intros j ?. by exists 1%Z.
Qed.
Lemma entries_escape e f entries ok : entries_filter e f entries ok →
  ∀ ls d raw, wf_json d raw → ok ls (escape_json raw) = ok ls raw.
Proof. intros [] ls d raw H; [by eapply entry_visible_escape..|by eapply entry_owned_escape]. Qed.
Lemma ModifyResponse_cases e f entries ok ls resp resp' :
  entries_filter e f entries ok → ModifyResponse (Some (mkFilter f ls)) resp = Ok resp' →
  (400 ≤ b_Status resp)%Z ∧ resp' = resp ∨
  b_Status resp = 200%Z ∧ b_Status resp' = 200%Z ∧
  Header_Values (b_Header resp') "Content-Length" = [Itoa (Z.of_nat (String.length (b_Body resp')))] ∧
  Header_Get (b_Header resp') "Content-Encoding" ∈ [""; "identity"] ∧
  ∃ body, decoded_body resp = Ok body ∧ (Z.of_nat (String.length body) ≤ maxResponseBytes)%Z ∧
    entries (b_Body resp') = escape_json <$> filter (λ raw, ok ls raw = true) (entries body) ∧
    ∀ raw, raw ∈ entries (b_Body resp') → ok ls raw = true.
Proof.
  intros He Hm.
  apply ModifyResponse_ok in Hm as [?|(H1 & H2 & H3 & H4 & body & Hb & Hl & Hf)]; [by left|right].
  split_and!; try done. exists body. cbn [rf_filter rf_labels] in Hf.
  destruct (filter_entries_ok _ _ _ _ _ _ _ He Hf) as [Hwf Heq]. split_and!; [done|done|done|].
  rewrite Heq. intros raw (raw0 & -> & [Hok Hin]%list_elem_of_filter)%list_elem_of_fmap.
  eapply Forall_forall in Hwf as [d Hwf]; [|exact Hin]. by rewrite (entries_escape _ _ _ _ He ls d).
Qed.
End entries.

(** * Properties *)

(** C6: label enforcement. When labels are enforced, a request is forwarded only
    with a verdict. One that bypasses enforcement is forwarded as it is. Any other
    keeps its method, its path and its context, and is forwarded, with nothing
    written, only as its endpoint allows: with every PromQL query of the URL and of
    the body enforced in every selector, at least one, at most one in each place, and
    the other parameters as they were; with the enforced matchers among
    Alertmanager's filters and no body; with a filter on the whole, plain response; as
    a silence the caller owns, over one the caller owned if it names one; or as the
    deletion of a silence the caller owns. *)
Theorem ServeHTTP_guards {C : Crypto} {R : Regexp} {N : NetURL} {U : Unicode} {Gz : Gzip} {Tr : Transport} {Et : ErrorText}
    {P : PromLabels} {Q : PromQL} {Mi : Mime} (cfg : Config) w r w' r' f
    (Hlaw : enforce_law)
    (Hlabels : ∀ scope, ctx_scope (r_ctx r) = Some scope → Forall valid_label (sc_Labels scope))
    (Hf : ServeHTTP cfg w r = Forwarded w' r' f) :
  w' = w ∧ same_target r r' ∧
  match ctx_scope (r_ctx r) with
  | None => ob_PromLabelProxy (c_Outbound cfg) = None ∧ r' = r ∧ f = None
  | Some scope => if sc_Bypass scope then r' = r ∧ f = None else guarded (TargetURL cfg) scope r r' f
  end.
Proof. by apply (ServeHTTP_cases cfg). Qed.

(** C7: what a filtered response can be. Of a response to a request with a filter,
    only an error status reaches the caller as it came. Any other that reaches them
    was a 200 whose decoded body, at most 64 MiB, is a document; and the rules,
    alerts or silences a client reads in what they get are exactly those, in order,
    that it would read in what the backend sent and that carry the caller's labels, or
    are the caller's: every entry that it reads is theirs to see. The length declared
    is that of the new body, which is not encoded. *)
Theorem ModifyResponse_entries {U : Unicode} {Gz : Gzip} e f entries ok ls resp resp'
    (He : entries_filter e f entries ok) (Hm : ModifyResponse (Some (mkFilter f ls)) resp = Ok resp') :
  (400 ≤ b_Status resp)%Z ∧ resp' = resp ∨
  b_Status resp = 200%Z ∧ b_Status resp' = 200%Z ∧
  Header_Values (b_Header resp') "Content-Length" = [Itoa (Z.of_nat (String.length (b_Body resp')))] ∧
  Header_Get (b_Header resp') "Content-Encoding" ∈ [""; "identity"] ∧
  ∃ body, decoded_body resp = Ok body ∧ (Z.of_nat (String.length body) ≤ maxResponseBytes)%Z ∧
    entries (b_Body resp') = escape_json <$> filter (λ raw, ok ls raw = true) (entries body) ∧
    ∀ raw, raw ∈ entries (b_Body resp') → ok ls raw = true.
Proof. by eapply ModifyResponse_cases. Qed.

#[local] Existing Instances demo_crypto demo_regexp demo_neturl ascii_unicode demo_gzip demo_transport demo_error_text
  demo_labels demo_promql demo_mime.

Definition demo_kept : string := jtext
  "{'data':{'groups':[{'name':'g','rules':[{'name':'r1','labels':{'ns':'a'}}]}]},'status':'success'}".
Definition demo_kept_response : BackendResponse := mkBackend 200 (Header_Set "Content-Length" "97" ∅) demo_kept.
Lemma ModifyResponse_entries_witness :
  length (body_rules demo_rules) = 3 ∧ length (body_rules demo_kept) = 1 ∧
  ModifyResponse (Some (mkFilter (apiFilter filterRules) demo_labels_ab)) (mkBackend 200 ∅ demo_rules) = Ok demo_kept_response ∧
  ∀ raw, raw ∈ body_rules (b_Body demo_kept_response) → entry_visible demo_labels_ab raw = true.
Proof.
  assert (E : ModifyResponse (Some (mkFilter (apiFilter filterRules) demo_labels_ab)) (mkBackend 200 ∅ demo_rules) =
    Ok demo_kept_response) by (vm_compute; reflexivity).
  split; [vm_compute; reflexivity|split; [vm_compute; reflexivity|split; [exact E|]]].
  destruct (ModifyResponse_entries _ _ _ _ _ _ _ rules_filter E) as [[H _]|(_ & _ & _ & _ & body & _ & _ & _ & H)]; [|exact H].
  exfalso. apply H. reflexivity.
Defined.

Definition demo_forwarded : Request := setBody demo_updated "application/json" (with_RawQuery "" demo_update).
Lemma ServeHTTP_guards_witness :
  ∃ s, ServeHTTP demo_config new_response demo_update = Forwarded new_response demo_forwarded None ∧
    Unmarshal Decode_silence (r_Body demo_forwarded) = Ok s ∧ owns (sc_Labels demo_silence_scope) (sl_Matchers s) = true.
Proof.
  assert (E : ServeHTTP demo_config new_response demo_update = Forwarded new_response demo_forwarded None)
    by (vm_compute; reflexivity).
  assert (Hl : ∀ scope, ctx_scope (r_ctx demo_update) = Some scope → Forall valid_label (sc_Labels scope)).
  { intros scope [= <-]. apply (bool_decide_unpack _). vm_compute. exact I. }
  destruct (ServeHTTP_guards demo_config _ _ _ _ _ demo_law Hl E) as (_ & _ & H).
  assert (Hg : guarded (TargetURL demo_config) demo_silence_scope demo_update demo_forwarded None) by exact H.
  inversion Hg as [enf param ms v0 b0 v b H1|ms v H1|f entries ok H1|s H1 H2 H3 H4 H5 H6|H1]; try discriminate H1.
  exists s. split; [exact E|split; [exact H5|exact H6]].
Defined.
