(* ===== verification/Proxy.v ===== *)
(** [internal/proxy/proxy.go]: the reverse proxy.

    [net/http/httputil.ReverseProxy] is written out as far as [New] configures it: what
    it does to the request around [Rewrite], the round trip, [ModifyResponse] and
    [ErrorHandler].  The transport is the class [Transport].  A response is copied whole; the
    tunnel of a 101 response is not represented. *)
From S2P Require Import Prelude GoStrings ConfigTypes PromScope GoURL GoHTTP Acl ConfigAuth ConfigMain Credentials Basic Jwks Session Login Saml OAuthServer Authenticate Middleware GoJSON PromFilter PromRewrite PromSilence PromHandler.

(** * The outgoing request *)

(** [strings.EqualFold] on ASCII, [tokenEqual] of httpguts. *)
Definition tokenEqual (s t : string) : bool := ascii_lower_s s =? ascii_lower_s t.
(** [httpguts.HeaderValuesContainsToken] *)
Definition HeaderValuesContainsToken (values : list string) (token : string) : bool :=
  existsb (λ v, existsb (λ s, tokenEqual (TrimString s) token) (Split v ",")) values.
Definition upgradeType (h : Header) : string :=
  if HeaderValuesContainsToken (Header_Values h "Connection") "Upgrade" then Header_Get h "Upgrade" else "".

Definition hopHeaders : list string :=
  ["Connection"; "Proxy-Connection"; "Keep-Alive"; "Proxy-Authenticate"; "Proxy-Authorization"; "Te"; "Trailer";
   "Transfer-Encoding"; "Upgrade"].
Definition del_all (names : list string) (h : Header) : Header := foldl (λ h name, Header_Del name h) h names.
(** The headers that Connection names. *)
Definition connection_named (h : Header) : list string :=
  filter (λ s, s ≠ "") (TrimString <$> flat_map (λ f, Split f ",") (Header_Values h "Connection")).
Definition removeHopByHopHeaders (h : Header) : Header := del_all hopHeaders (del_all (connection_named h) h).

(** The first byte from which [cleanQueryParams] re-encodes. *)
Fixpoint query_unclean (s : string) : bool :=
  match s with
  | "" => false
  | String c s' =>
      if c =? ";"%char then true
      else if c =? "%"%char then
        match s' with
        | String h (String l s'') => if is_hex h && is_hex l then query_unclean s'' else true
        | _ => true
        end
      else query_unclean s'
  end.
Definition cleanQueryParams (s : string) : string :=
  if query_unclean s then Values_Encode (parseQuery s).1 else s.

Definition singleJoiningSlash (a b : string) : string :=
  match HasSuffix a "/", HasPrefix b "/" with
  | true, true => a +:+ s_drop 1 b
  | false, false => a +:+ "/" +:+ b
  | _, _ => a +:+ b
  end.
Definition joinURLPath (a b : URL) : string * string :=
  if (u_RawPath a =? "") && (u_RawPath b =? "") then (singleJoiningSlash (u_Path a) (u_Path b), "")
  else
    let apath := EscapedPath a in
    let bpath := EscapedPath b in
    match HasSuffix apath "/", HasPrefix bpath "/" with
    | true, true => (u_Path a +:+ s_drop 1 (u_Path b), apath +:+ s_drop 1 bpath)
    | false, false => (u_Path a +:+ "/" +:+ u_Path b, apath +:+ "/" +:+ bpath)
    | _, _ => (u_Path a +:+ u_Path b, apath +:+ bpath)
    end.
(** [ProxyRequest.SetURL]; the Host header becomes the target's. *)
Definition SetURL (target u : URL) : URL :=
  let '(path, rawpath) := joinURLPath target u in
  let q := if (u_RawQuery target =? "") || (u_RawQuery u =? "") then u_RawQuery target +:+ u_RawQuery u
           else u_RawQuery target +:+ "&" +:+ u_RawQuery u in
  mkURL (u_Scheme target) (u_Opaque u) (u_User u) (u_Host target) path rawpath (u_ForceQuery u) q (u_Fragment u).

(** What [SetXForwarded] reads of the connection: the address without its port,
    the host the client asked for, whether over TLS. *)
Record Inbound_conn := mkConn { cn_RemoteIP : option string; cn_Host : string; cn_TLS : bool }.
(** [Out] has no X-Forwarded-For left when [Rewrite] runs. *)
Definition SetXForwarded (cn : Inbound_conn) (h : Header) : Header :=
  let h := match cn_RemoteIP cn with
           | Some ip => Header_Set "X-Forwarded-For" ip h
           | None => Header_Del "X-Forwarded-For" h
           end in
  Header_Set "X-Forwarded-Proto" (if cn_TLS cn then "https" else "http")
    (Header_Set "X-Forwarded-Host" (cn_Host cn) h).

Definition forwardingHeaders : list string := ["Forwarded"; "X-Forwarded-For"; "X-Forwarded-Host"; "X-Forwarded-Proto"].

(** The headers of the request before [Rewrite]; [None] when the upgrade it asks
    for is not printable ASCII, an error of the proxy. *)
Definition forwardable (h : Header) : option Header :=
  let up := upgradeType h in
  if negb (forallb (λ c, in_range 32 126 (byte c)) (String.list_ascii_of_string up)) then None
  else
    let h1 := removeHopByHopHeaders h in
    let h1 := if HeaderValuesContainsToken (Header_Values h "Te") "trailers" then Header_Set "Te" "trailers" h1 else h1 in
    let h1 := if up =? "" then h1 else Header_Set "Upgrade" up (Header_Set "Connection" "Upgrade" h1) in
    Some (del_all forwardingHeaders h1).
(** [Rewrite], between the cleaning of the query and the default User-Agent. *)
Definition outgoing (target : URL) (cn : Inbound_conn) (r : Request) (h : Header) : OutRequest :=
  let u := r_URL r in
  let u := mkURL (u_Scheme u) (u_Opaque u) (u_User u) (u_Host u) (u_Path u) (u_RawPath u) (u_ForceQuery u)
             (cleanQueryParams (u_RawQuery u)) (u_Fragment u) in
  let h := SetXForwarded cn h in
  let h := if bool_decide (is_Some (h !! "User-Agent")) then h else Header_Set "User-Agent" "" h in
  mkOut (r_Method r) (SetURL target u) h (r_Body r).

(** * The proxy *)

(** A reply to the caller, or a switched protocol. *)
Inductive proxied := Replied (w : Response) | Upgraded (resp : BackendResponse).

Definition copyHeader (dst src : Header) : Header := union_with (λ a b, Some (a ++ b)) dst src.
(** [rw.WriteHeader(res.StatusCode)] after [copyHeader], then the body. *)
Definition send (resp : BackendResponse) (w : Response) : Response :=
  Write (b_Body resp) (WriteHeader (b_Status resp) (w_map_header (λ h, copyHeader h (b_Header resp)) w)).
(** [ErrorHandler] *)
Definition proxyError (w : Response) : Response := WriteHeader 502 w.

Section proxy.
Context {C : Crypto} {R : Regexp} {Gz : Gzip} {Tr : Transport}.

(** What becomes of the answer to the round trip. *)
Definition relay (w : Response) (f : option responseFilter) (resp : BackendResponse) : proxied :=
  let resp' := if b_Status resp =? 101%Z then resp
               else mkBackend (b_Status resp) (removeHopByHopHeaders (b_Header resp)) (b_Body resp) in
  match ModifyResponse f resp' with
  | Err _ => Replied (proxyError w)
  | Ok resp' => if b_Status resp =? 101%Z then Upgraded resp' else Replied (send resp' w)
  end.
(** [New(source, logger, transport).ServeHTTP] with [ModifyResponse] installed: the
    request sent to the backend, if any, and what the caller gets. *)
Definition Proxy_ServeHTTP (cfg : Config) (cn : Inbound_conn) (w : Response) (r : Request) (f : option responseFilter)
  : option OutRequest * proxied :=
  match forwardable (r_Header r) with
  | None => (None, Replied (proxyError w))
  | Some h =>
      let o := outgoing (TargetURL cfg) cn r h in
      (Some o, match RoundTrip o with
               | Err _ => Replied (proxyError w)
               | Ok resp => relay w f resp
               end)
  end.

(** [HealthzHandler] *)
Definition HealthzHandler (w : Response) : Response := Write "ok" (WriteHeader 200 w).

(** What [BuildTransport] sets: the timeouts, HTTP/2, and the roots of the target's
    TLS with its lowest version; and what it wraps that in.  [otelhttp]'s transport adds
    the trace-context headers of the propagator ([traceparent], [tracestate], [baggage])
    to the request it is handed: it is what [RoundTrip] of the class [Transport] stands
    for, and the [OutRequest] of the model is the request before it adds them. *)
Record transportConfig := mkTransport {
  tc_Dial : Z; tc_ResponseHeader : Z; tc_ForceAttemptHTTP2 : bool; tc_TLS : option (CertPool * string)
}.
Inductive roundTripper := HTTPTransport (t : transportConfig) | OTelTransport (base : roundTripper).
Definition BuildTransport (cfg : Config) : roundTripper :=
  let base := HTTPTransport (mkTransport (t_Dial (c_Timeouts cfg)) (t_ResponseHeader (c_Timeouts cfg)) true
    ((λ pool, (pool, "TLS 1.2")) <$> c_targetCAPool cfg)) in
  OTelTransport base.
End proxy.

(** * Lemmas *)

(** ** Queries *)

Lemma unescape_clean s x : unescape s encodeQueryComponent = Ok x → sep_free ";" s → query_unclean s = false.
Proof.
  remember (String.length s) as n eqn:Hn. revert s x Hn. induction n as [n IH] using lt_wf_ind. intros s x -> Hu Hs.
  destruct s as [|c s]; [done|]. apply sep_free_cons in Hs as [Hc Hs]. cbn [unescape query_unclean] in *.
  rewrite bool_decide_false by done. case_bool_decide as Hp.
  - destruct s as [|h [|l s]]; try done. destruct (unhex h) eqn:Eh; [|done]. destruct (unhex l) eqn:El; [|done].
    unfold is_hex. rewrite Eh, El, !bool_decide_true by eauto. cbn [andb].
    apply sep_free_cons in Hs as [_ Hs]. apply sep_free_cons in Hs as [_ Hs].
    apply rbind_ok in Hu as (y & Hu & _). apply (IH (String.length s)) with y; [cbn; lia|done..].
  - apply rbind_ok in Hu as (y & Hu & _). apply (IH (String.length s)) with y; [cbn; lia|done..].
Qed.
Lemma clean_app a c b : query_unclean a = false → c ≠ ";"%char → c ≠ "%"%char → query_unclean b = false →
  query_unclean (a +:+ String c b) = false.
Proof.
  intros Ha H1 H2 Hb. remember (String.length a) as n eqn:Hn. revert a Hn Ha.
  induction n as [n IH] using lt_wf_ind. intros a -> Ha. destruct a as [|d a].
  - rewrite app_nil_l'. cbn [query_unclean]. by rewrite !bool_decide_false.
  - rewrite app_cons. cbn [query_unclean] in *. case_bool_decide; [done|]. case_bool_decide.
    + destruct a as [|h [|l a]]; try done. rewrite !app_cons. destruct (is_hex h && is_hex l); [|done].
      apply (IH (String.length a)); [cbn; lia|done..].
    + apply (IH (String.length a)); [cbn; lia|done..].
Qed.
Lemma Contains_free s c : Contains s (String c "") = false → sep_free c s.
Proof.
  intros Hs Hin. enough (Contains s (String c "") = true) by congruence. clear Hs. apply Contains_spec. revert Hin.
  induction s as [|d s IH]; [by intros ?%elem_of_nil|]. intros [->|(a & b & Hab)%IH]%elem_of_cons; [by exists "", s|].
  exists (String d a), b. by rewrite Hab.
Qed.
Lemma parse_field_some m e field : ∃ e', (parse_field (m, Some e) field).2 = Some e'.
Proof.
  unfold parse_field. destruct (Contains field ";"); [by eexists|]. case_bool_decide; [by eexists|].
  destruct (Cut field "=") as [[k v] ?]. destruct (QueryUnescape k); [|by eexists]. destruct (QueryUnescape v); by eexists.
Qed.
Lemma parse_field_clean m m' field : parse_field (m, None) field = (m', None) → query_unclean field = false.
Proof.
  unfold parse_field. destruct (Contains field ";") eqn:Es; [done|].
  apply Contains_free in Es as Hf.
  case_bool_decide as He; [by subst|]. pose proof (Cut_spec field "=") as Hc.
  destruct (Cut field "=") as [[k v] b]. destruct (QueryUnescape k) eqn:Ek; [|done]. destruct (QueryUnescape v) eqn:Ev; [|done].
  intros _. destruct b.
  - destruct Hc as [-> _]. apply sep_free_app in Hf as [Hk Hv]. apply sep_free_cons in Hv as [_ Hv].
    apply clean_app; [by eapply unescape_clean|done|done|by eapply unescape_clean].
  - destruct Hc as (-> & _). by eapply unescape_clean.
Qed.
(** A query that [url.ParseQuery] accepts is sent as it is. *)
Lemma ParseQuery_clean s v : ParseQuery s = Ok v → cleanQueryParams s = s.
Proof.
  intros H. unfold cleanQueryParams. enough (E : query_unclean s = false) by (by rewrite E).
  unfold ParseQuery, parseQuery in H. case_bool_decide as Hs; [by subst|].
  assert (Hall : Forall (λ f, query_unclean f = false) (Split s "&")).
  { revert H. generalize (Split s "&") as l. intros l. generalize (∅ : Values) as m.
    assert (Herr : ∀ l m e, ∃ e', (foldl parse_field (m, Some e) l).2 = Some e').
    { induction l0 as [|f l0 IH]; intros m e; [by eexists|]. cbn [foldl].
      destruct (parse_field_some m e f) as [e' He]. destruct (parse_field (m, Some e) f) as [m' ?]. cbn in He. subst. apply IH. }
    induction l as [|f l IH]; intros m Hm; [constructor|]. cbn [foldl] in Hm.
    destruct (parse_field (m, None) f) as [m' [e|]] eqn:Ef.
    - destruct (Herr l m' e) as [e' He]. destruct (foldl parse_field (m', Some e) l) as [? ?]. cbn in He. by subst.
    - constructor; [by eapply parse_field_clean|by apply (IH m')]. }
  rewrite <- (Join_Split s "&"). clear H Hs. induction Hall as [|f l Hf Hl IH]; [done|].
  destruct l as [|g l]; [done|]. rewrite Join_cons by done. by apply clean_app.
Qed.

(** ** Headers *)

(** The headers whose values are not the client's once the proxy is through. *)
Definition proxy_header (h : Header) (k : string) : Prop :=
  CanonicalHeaderKey k ∈ CanonicalHeaderKey <$> connection_named h ++ hopHeaders ++ forwardingHeaders ++ ["User-Agent"].

Lemma Header_Set_other k k' x h : CanonicalHeaderKey k ≠ CanonicalHeaderKey k' →
  Header_Values (Header_Set k x h) k' = Header_Values h k'.
Proof. intros Hk. unfold Header_Values, Header_Set. by rewrite lookup_insert_ne. Qed.
Lemma del_all_other names h k : CanonicalHeaderKey k ∉ CanonicalHeaderKey <$> names →
  Header_Values (del_all names h) k = Header_Values h k.
Proof.
  unfold del_all. revert h. induction names as [|n names IH]; intros h Hk; [done|]. cbn [foldl].
  rewrite IH by set_solver. apply Header_Del_other. set_solver.
Qed.
Lemma not_proxy_header h k (names : list string) : ¬ proxy_header h k →
  (∀ n, n ∈ names → n ∈ connection_named h ++ hopHeaders ++ forwardingHeaders ++ ["User-Agent"]) →
  CanonicalHeaderKey k ∉ CanonicalHeaderKey <$> names.
Proof. intros Hk Hn (n & E & Hin)%list_elem_of_fmap. apply Hk. unfold proxy_header. rewrite E. apply list_elem_of_fmap_2. by apply Hn. Qed.
Lemma Set_proxy_header h k n x h' : ¬ proxy_header h k → n ∈ hopHeaders ++ forwardingHeaders ++ ["User-Agent"] →
  Header_Values (Header_Set n x h') k = Header_Values h' k.
Proof.
  intros Hk Hn. apply Header_Set_other. intros E. apply (not_proxy_header h k [n] Hk); [|by rewrite <- E; apply list_elem_of_fmap_2; left].
  intros ? ->%list_elem_of_singleton. apply elem_of_app. by right.
Qed.
Lemma Del_proxy_header h k names h' : ¬ proxy_header h k → (∀ n, n ∈ names → n ∈ hopHeaders ++ forwardingHeaders) →
  Header_Values (del_all names h') k = Header_Values h' k.
Proof.
  intros Hk Hn. apply del_all_other. apply (not_proxy_header h k names Hk). intros n Hin%Hn. apply elem_of_app. right. rewrite app_assoc.
  apply elem_of_app. by left.
Qed.
Ltac own_header Hk :=
  repeat rewrite (Set_proxy_header _ _ _ _ _ Hk) by (apply (bool_decide_unpack _); vm_compute; exact I).

Lemma removeHopByHopHeaders_other h k : ¬ proxy_header h k →
  Header_Values (removeHopByHopHeaders h) k = Header_Values h k.
Proof.
  intros Hk. unfold removeHopByHopHeaders. rewrite (Del_proxy_header h) by (done || (intros; apply elem_of_app; by left)).
  apply del_all_other, (not_proxy_header h); [done|]. intros. apply elem_of_app. by left.
Qed.
Lemma forwardable_other h h' k : forwardable h = Some h' → ¬ proxy_header h k → Header_Values h' k = Header_Values h k.
Proof.
  unfold forwardable. case_match; [done|]. intros H'%(inj Some) Hk. rewrite <- H', (Del_proxy_header h) by (done || (intros; apply elem_of_app; by right)).
  repeat case_match; own_header Hk; by apply removeHopByHopHeaders_other.
Qed.
Lemma outgoing_other t cn r h h0 k : ¬ proxy_header h0 k → Header_Values (o_Header (outgoing t cn r h)) k = Header_Values h k.
Proof.
  intros Hk. unfold outgoing, SetXForwarded. cbn [o_Header]. repeat case_match; own_header Hk; try done.
  all: by apply (Del_proxy_header h0 k ["X-Forwarded-For"]); [|intros ? ->%list_elem_of_singleton; apply (bool_decide_unpack _); vm_compute].
Qed.
(** The client's own X-Forwarded-For never reaches the backend. *)
Lemma outgoing_xff t cn r h' :
  Header_Values (o_Header (outgoing t cn r h')) "X-Forwarded-For" = from_option (λ ip, [ip]) [] (cn_RemoteIP cn).
Proof.
  unfold outgoing, SetXForwarded. cbn [o_Header]. destruct (cn_RemoteIP cn); cbn [from_option].
  all: case_match; rewrite ?Header_Set_other by (by vm_compute); rewrite ?Header_Values_Set, ?Header_Values_Del; done.
Qed.
Lemma outgoing_own t cn r h : Header_Values (o_Header (outgoing t cn r h)) "X-Forwarded-Host" = [cn_Host cn] ∧
  Header_Values (o_Header (outgoing t cn r h)) "X-Forwarded-Proto" = [if cn_TLS cn then "https" else "http"].
Proof.
  unfold outgoing, SetXForwarded. cbn [o_Header]. split; case_match; rewrite ?Header_Set_other by (by vm_compute);
    rewrite ?Header_Values_Set; rewrite ?Header_Set_other by (by vm_compute); by rewrite ?Header_Values_Set.
Qed.
Lemma joinURLPath_prefix a b : HasPrefix (joinURLPath a b).1 (u_Path a) = true.
Proof.
  unfold joinURLPath, singleJoiningSlash.
  repeat case_match; cbn [fst] in *; simplify_eq; apply HasPrefix_app.
Qed.
Lemma outgoing_URL t cn r h : u_Scheme (o_URL (outgoing t cn r h)) = u_Scheme t ∧ u_Host (o_URL (outgoing t cn r h)) = u_Host t ∧
  HasPrefix (u_Path (o_URL (outgoing t cn r h))) (u_Path t) = true.
Proof.
  unfold outgoing, SetURL. cbn [o_URL]. match goal with |- context [joinURLPath ?a ?b] => pose proof (joinURLPath_prefix a b) as H end.
  by destruct (joinURLPath _ _).
Qed.
Lemma outgoing_Forwarded t cn r h0 h : forwardable h0 = Some h → Header_Values (o_Header (outgoing t cn r h)) "Forwarded" = [].
Proof.
  intros Hh. unfold forwardable in Hh. case_match; [done|]. apply (inj Some) in Hh. subst h.
  assert (Hd : ∀ h, Header_Values (del_all forwardingHeaders h) "Forwarded" = []) by (intros h; apply foldl_Del_none; left; left).
  unfold outgoing, SetXForwarded. cbn [o_Header]. set (h := del_all _ _) in *.
  assert (Hn : Header_Values h "Forwarded" = []) by apply Hd. clearbody h.
  repeat case_match; rewrite ?Header_Set_other by (by vm_compute); try done; by rewrite Header_Del_other by (by vm_compute).
Qed.

(** * Properties *)

(** C16: where a request goes. Whatever a client writes, the request that the proxy
    sends goes to the target's scheme and host, to a path that begins with the
    target's own, with the method and the body it was given; the addresses it says it
    was forwarded for are the connection's and no other, and every header that is
    neither the proxy's own nor one the client's Connection names is as it was given.
    (The request handed to the transport, which adds the trace-context headers.) *)
Theorem Proxy_ServeHTTP_request {C : Crypto} {R : Regexp} {Gz : Gzip} {Tr : Transport} (cfg : Config) cn w r f o p
    (Hrun : Proxy_ServeHTTP cfg cn w r f = (Some o, p)) :
  let target := TargetURL cfg in
  o_Method o = r_Method r ∧ o_Body o = r_Body r ∧ u_Scheme (o_URL o) = u_Scheme target ∧ u_Host (o_URL o) = u_Host target ∧
  HasPrefix (u_Path (o_URL o)) (u_Path target) = true ∧
  Header_Values (o_Header o) "X-Forwarded-For" = from_option (λ ip, [ip]) [] (cn_RemoteIP cn) ∧
  Header_Values (o_Header o) "X-Forwarded-Host" = [cn_Host cn] ∧
  Header_Values (o_Header o) "X-Forwarded-Proto" = [if cn_TLS cn then "https" else "http"] ∧
  Header_Values (o_Header o) "Forwarded" = [] ∧
  ∀ k, ¬ proxy_header (r_Header r) k → Header_Values (o_Header o) k = Header_Values (r_Header r) k.
Proof.
  cbn zeta. unfold Proxy_ServeHTTP in Hrun. destruct (forwardable (r_Header r)) as [h|] eqn:Eh; [|done]. injection Hrun as <- _.
  pose proof (outgoing_own (TargetURL cfg) cn r h) as Ho. split_and!; [done|done|..|by apply outgoing_xff|apply Ho|apply Ho| |].
  - apply outgoing_URL.
  - apply outgoing_URL.
  - apply outgoing_URL.
  - by eapply outgoing_Forwarded.
  - intros k Hk. rewrite (outgoing_other _ cn r h _ k Hk). by apply forwardable_other.
Qed.

(** The lookup of a silence carries the headers of the request, and the request
    that is then forwarded loses those its Connection names: the two may reach
    different tenants of the backend. *)
Example lookup_headers_differ (C : Crypto) :
  let h := {["X-Scope-Orgid" := ["a"]; "Connection" := ["X-Scope-OrgID"]]} : Header in
  Header_Values (foldl (λ h name, Header_Del name h) h ["Content-Length"; "Content-Type"; "Accept-Encoding"]) "X-Scope-OrgID" = ["a"] ∧
  (λ h, Header_Values h "X-Scope-OrgID") <$> forwardable h = Some [].
Proof. vm_compute. split; reflexivity. Qed.

#[local] Existing Instances demo_crypto demo_regexp demo_gzip demo_transport.
Definition demo_spoofed : Request :=
  mkRequest "GET" (mkURL "http" "" None "elsewhere" "/a" "" false "" "")
    {["X-Forwarded-For" := ["10.0.0.1"]; "Accept" := ["*/*"]]} "" (mkContext None None).
Definition demo_backend_request : option OutRequest :=
  (Proxy_ServeHTTP demo_config (mkConn (Some "192.0.2.1") "h" true) new_response demo_spoofed None).1.
Lemma Proxy_ServeHTTP_request_witness :
  ∃ o, demo_backend_request = Some o ∧ u_Host (o_URL o) = "backend" ∧ Header_Values (o_Header o) "X-Forwarded-For" = ["192.0.2.1"].
Proof.
  destruct (Proxy_ServeHTTP demo_config (mkConn (Some "192.0.2.1") "h" true) new_response demo_spoofed None) as [[o|] p] eqn:E.
  2: { exfalso. vm_compute in E. discriminate E. }
  destruct (Proxy_ServeHTTP_request demo_config _ _ _ _ _ _ E) as (_ & _ & _ & Hh & _ & Hx & _).
  exists o. split; [unfold demo_backend_request; rewrite E; reflexivity|split; [exact Hh|exact Hx]].
Defined.
