(* ===== verification/Main.v ===== *)
(** [cmd/token-auth-proxy/main.go]: the handlers [run] puts together, and what a
    request meets between the listener and the backend.

    The rest of [run] is in [Startup], the running process in [Process]. *)
From S2P Require Import Prelude GoStrings ConfigTypes PromScope GoURL GoHTTP Acl ConfigAuth ConfigMain Credentials Basic Jwks Session Login Saml OAuthServer Authenticate Middleware GoJSON PromFilter PromRewrite PromSilence PromHandler Proxy.

(** * The mux *)

(** [net/http.cleanPath] *)
Definition mux_cleanPath (p : string) : string :=
  if p =? "" then "/"
  else
    let p := if HasPrefix p "/" then p else "/" +:+ p in
    let np := path_Clean p in
    if HasSuffix p "/" && (np !=? "/") then np +:+ "/" else np.
(** A path of one segment is matched with the segment unescaped. *)
Definition one_segment (path seg : string) : bool :=
  HasPrefix path "/" && negb (Contains (s_drop 1 path) "/") &&
  match unescape (s_drop 1 path) encodePathSegment with
  | Ok s => s =? seg
  | Err _ => s_drop 1 path =? seg
  end.
Inductive mux_handler := MuxHealthz | MuxMetrics | MuxRoot | MuxBadRequest | MuxNotFound | MuxRedirect (path query : string).
Definition mux_match (path : string) : mux_handler :=
  if one_segment path "healthz" then MuxHealthz
  else if one_segment path "metrics" then MuxMetrics
  else if HasPrefix path "/" then MuxRoot
  else MuxNotFound.
(** [mux.Handler]: paths are cleaned by a redirect, but for CONNECT. *)
Definition mux_route (r : Request) : mux_handler :=
  if r_Path r =? "*" then MuxBadRequest
  else
    let escaped := EscapedPath (r_URL r) in
    if r_Method r =? "CONNECT" then mux_match escaped
    else
      let path := mux_cleanPath escaped in
      if path !=? escaped then MuxRedirect path (u_RawQuery (r_URL r)) else mux_match path.

(** * The chain *)

(** What a request led to: the request forwarded to the backend, if one was, and
    the answer.  The lookups of silences are requests of the proxy's own. *)
Inductive answer := Handled (p : proxied) | Redirected (path query : string) | Metrics.
Record served := mkServed { sv_sent : option OutRequest; sv_answer : answer }.

Section chain.
Context {C : Crypto} {X : X509} {R : Regexp} {N : NetURL} {U : Unicode} {F : Floats} {J : JWT} {W : Network}
  {L : LoginNet} {O : OAuth2} {D : Sha256} {B : BasicCrypto} {En : Env} {M : SAMLMetadata} {SP : SAMLSP}
  {G : AEAD} {JS : OAuthJSON} {Op : OP} {LK : LocalKeys} {Gz : Gzip} {Tr : Transport} {Et : ErrorText} {P : PromLabels}
  {Q : PromQL} {Mi : Mime}.
Variable loginFont : string.

(** The configurations that [source.Current()] returns to the middleware, to the
    label handler and to the proxy: a reload may come between any two. *)
Record Currents := mkCurrents { cu_middleware : Config; cu_handler : Config; cu_proxy : Config }.

(** [forward]: the label handler in front of the reverse proxy. *)
Definition forward (cu : Currents) (cn : Inbound_conn) (w : Response) (r : Request) : option OutRequest * proxied :=
  match ServeHTTP (cu_handler cu) w r with
  | Answered w => (None, Replied w)
  | Forwarded w r f => Proxy_ServeHTTP (cu_proxy cu) cn w r f
  end.
(** [requireAuth(forward)] *)
Definition root (i : Inputs) (ptr : nat) (cu : Currents) (cn : Inbound_conn) (w : Response) (r : Request) (m : Registries)
  : option OutRequest * proxied * Registries :=
  let '(w, fwd, m) := NewMiddleware loginFont i ptr (cu_middleware cu) w r m in
  match fwd with
  | None => (None, Replied w, m)
  | Some r => (forward cu cn w r, m)
  end.
(** The handlers on the mux.  Around [root], and around it alone, [run] puts
    [otelhttp.NewMiddleware], which starts a span and records metrics, and hands on the
    request and the response it was given: it is left out. *)
Definition mux_ServeHTTP (i : Inputs) (ptr : nat) (cu : Currents) (cn : Inbound_conn) (r : Request) (m : Registries)
  : served * Registries :=
  let w := new_response in
  match mux_route r with
  | MuxHealthz => (mkServed None (Handled (Replied (HealthzHandler w))), m)
  | MuxMetrics => (mkServed None Metrics, m)
  | MuxBadRequest => (mkServed None (Handled (Replied (WriteHeader 400 w))), m)
  | MuxNotFound => (mkServed None (Handled (Replied (http_Error "404 page not found" 404 w))), m)
  | MuxRedirect path query => (mkServed None (Redirected path query), m)
  | MuxRoot =>
      let '(sent, p, m) := root i ptr cu cn w r m in
      (mkServed sent (Handled p), m)
  end.

(** The server's limits and the address it listens on, from the configuration at
    startup. *)
Record serverConfig := mkServer { sc_Addr : string; sc_ReadHeader : Z; sc_Read : Z; sc_Write : Z; sc_Idle : Z }.
Definition server_of (cfg : Config) : serverConfig :=
  let t := c_Timeouts cfg in mkServer (c_ListenAddr cfg) (t_ReadHeader t) (t_Read t) (t_Write t) (t_Idle t).
End chain.

(** * What a forwarded request is *)

Section spec.
Context {C : Crypto} {R : Regexp} {N : NetURL} {U : Unicode} {Gz : Gzip} {Tr : Transport} {Et : ErrorText} {P : PromLabels}
  {Q : PromQL} {Mi : Mime}.

(** The request [o] sent to [target] for [r]: the target's address, the path below
    its own, the queries joined, and what the proxy leaves as it is. *)
Definition relayed (target : URL) (r : Request) (o : OutRequest) : Prop :=
  o_Method o = r_Method r ∧ o_Body o = r_Body r ∧
  u_Scheme (o_URL o) = u_Scheme target ∧ u_Host (o_URL o) = u_Host target ∧
  u_Path (o_URL o) = (joinURLPath target (r_URL r)).1 ∧
  (u_RawQuery target = "" → (∃ v, ParseQuery (u_RawQuery (r_URL r)) = Ok v) → u_RawQuery (o_URL o) = u_RawQuery (r_URL r)) ∧
  ∀ k, ¬ proxy_header (r_Header r) k → Header_Values (o_Header o) k = Header_Values (r_Header r) k.

(** A body that shows only what a filter lets through. *)
Definition within (f : option responseFilter) (status : Z) (body : string) : Prop :=
  match f with
  | None => True
  | Some f => (400 ≤ status)%Z ∨ ∀ e entries ok, entries_filter e (rf_filter f) entries ok →
      ∀ raw, raw ∈ entries body → ok (rf_labels f) raw = true
  end.
(** The answer to a request that was sent: a bare 502, or the backend's, as it came
    or cut down by the filter. *)
Definition answered_for (f : option responseFilter) (o : OutRequest) (p : proxied) : Prop :=
  ∃ w, w_status w = None ∧
    (p = Replied (proxyError w) ∨
     ∃ resp h b, RoundTrip o = Ok resp ∧ within f (b_Status resp) b ∧ (f = None → b = b_Body resp) ∧
       let resp' := mkBackend (b_Status resp) h b in
       p = Replied (send resp' w) ∨ f = None ∧ b_Status resp = 101%Z ∧ p = Upgraded resp').

(** The request after the middleware, [r1], leads to [r2] and a filter under its
    scope. *)
Definition enforced (target : URL) (sc : Scope) (r1 r2 : Request) (f : option responseFilter) : Prop :=
  if sc_Bypass sc then r2 = r1 ∧ f = None
  else same_target r1 r2 ∧ guarded target sc r1 r2 f.

Lemma outgoing_relayed target cn r h : forwardable (r_Header r) = Some h → relayed target r (outgoing target cn r h).
Proof.
  intros Hh. assert (Hk : ∀ k, ¬ proxy_header (r_Header r) k →
    Header_Values (o_Header (outgoing target cn r h)) k = Header_Values (r_Header r) k).
  { intros k Hk. rewrite (outgoing_other target cn r h _ k Hk). by apply forwardable_other. }
  unfold relayed, outgoing in *. cbn [o_Method o_Body o_URL]. unfold SetURL.
  assert (Ej : ∀ q, joinURLPath target (mkURL (u_Scheme (r_URL r)) (u_Opaque (r_URL r)) (u_User (r_URL r)) (u_Host (r_URL r))
    (u_Path (r_URL r)) (u_RawPath (r_URL r)) (u_ForceQuery (r_URL r)) q (u_Fragment (r_URL r))) = joinURLPath target (r_URL r)) by done.
  rewrite Ej. destruct (joinURLPath target (r_URL r)) as [p rp]. cbn [u_Scheme u_Host u_Path u_RawQuery fst].
  split_and!; try done.
  intros -> [v Hv]. rewrite (ParseQuery_clean _ _ Hv). by rewrite bool_decide_true by done.
Qed.
Lemma relay_answered w f o resp : w_status w = None → RoundTrip o = Ok resp → answered_for f o (relay w f resp).
Proof.
  intros Hw Hr. exists w. split; [done|]. unfold relay.
  set (resp0 := if b_Status resp =? 101%Z then resp else _).
  assert (E : b_Status resp0 = b_Status resp ∧ b_Body resp0 = b_Body resp) by (by subst resp0; case_match).
  clearbody resp0. destruct E as [Es Eb]. destruct (ModifyResponse f resp0) as [resp'|err] eqn:Em; [|by left]. right.
  destruct f as [[f ls]|].
  2:{ injection Em as <-. exists resp, (b_Header resp0), (b_Body resp). split_and!; [done..|].
      replace (mkBackend (b_Status resp) (b_Header resp0) (b_Body resp)) with resp0 by (destruct resp0; cbn in *; by subst).
      case_bool_decide; [by right|by left]. }
  assert (Hst : b_Status resp' = b_Status resp ∧ b_Status resp ≠ 101%Z ∧ within (Some (mkFilter f ls)) (b_Status resp) (b_Body resp')).
  { pose proof (ModifyResponse_ok _ _ _ Em) as [[H ->]|(H1 & H2 & _)].
    - rewrite Es in *. split_and!; [done|lia|by left].
    - rewrite Es in *. split_and!; [congruence|lia|]. right. intros e entries ok He. cbn in He.
      destruct (ModifyResponse_cases _ _ _ _ _ _ _ He Em) as [[? _]|(_ & _ & _ & _ & ? & _ & _ & _ & H)]; [lia|done]. }
  destruct Hst as (Hst & Hne & Hin). exists resp, (b_Header resp'), (b_Body resp'). split_and!; [done|done|done|].
  left. rewrite bool_decide_false by done. rewrite <- Hst. by destruct resp'.
Qed.
(** What leaves the handler and the proxy. *)
Lemma forward_enforced cu cn w r sc o p : enforce_law → w_status w = None →
  ctx_scope (r_ctx r) = Some sc → Forall valid_label (sc_Labels sc) → forward cu cn w r = (Some o, p) →
  ∃ r2 f, enforced (TargetURL (cu_handler cu)) sc r r2 f ∧ relayed (TargetURL (cu_proxy cu)) r2 o ∧ answered_for f o p.
Proof.
  intros Hlaw Hw Hsc Hl Hf. unfold forward in Hf. destruct (ServeHTTP (cu_handler cu) w r) as [w1|w1 r2 f] eqn:E; [done|].
  apply ServeHTTP_cases in E as (-> & Ht & Hc); [|done|by intros ? [= <-]%(eq_trans (eq_sym Hsc))].
  rewrite Hsc in Hc. unfold Proxy_ServeHTTP in Hf. destruct (forwardable (r_Header r2)) as [h|] eqn:Eh; [|done].
  injection Hf as <- <-. exists r2, f. split_and!.
  - unfold enforced. by destruct (sc_Bypass sc).
  - by apply outgoing_relayed.
  - set (o := outgoing _ _ _ _). destruct (RoundTrip o) eqn:Er; [by apply relay_answered|]. exists w. split; [done|by left].
Qed.
End spec.

(** * Properties *)

(** C2: label enforcement from end to end. Under a validated configuration that
    enforces labels, and whatever configurations a reload puts in place while the
    request is on its way, a request is forwarded to the backend only for a principal
    that one of its credentials establishes, that the ACL lets use its method and
    path, and that has a scope: and then as that scope allows, unchanged for a
    principal that bypasses enforcement, and otherwise guarded as its endpoint
    demands, for label names and values that are valid UTF-8. What is handed to the
    transport (which adds trace-context headers) goes to the target, with the body and
    the headers that were checked, but for those the proxy sets itself or the client has
    it drop, and with the query that was checked where it parses and the target has none
    of its own. What the caller gets is a bare 502, or the backend's answer, of which a
    filtered endpoint shows an error or only the entries the scope may see. The library
    that rewrites a selector is assumed to put the matchers it is told to enforce in it. *)
Theorem label_scope_end_to_end {C : Crypto} {X : X509} {R : Regexp} {N : NetURL} {U : Unicode} {F : Floats} {J : JWT} {W : Network}
    {L : LoginNet} {O : OAuth2} {D : Sha256} {B : BasicCrypto} {En : Env} {M : SAMLMetadata} {SP : SAMLSP}
    {G : AEAD} {JS : OAuthJSON} {Op : OP} {LK : LocalKeys} {Gz : Gzip} {Tr : Transport} {Et : ErrorText} {P : PromLabels}
    {Q : PromQL} {Mi : Mime} {PM : PromModel}
    font (i : Inputs) ptr raw (cu : Currents) cn r (m : Registries) o a m' block
    (Hcfg : Config_Validate raw = Ok (cu_middleware cu)) (Hblock : ob_PromLabelProxy (c_Outbound (cu_middleware cu)) = Some block)
    (Hi : reg_inv [] (lg_jwt (ag_login (md_regs m)))) (Hlaw : enforce_law)
    (Hrun : mux_ServeHTTP font i ptr cu cn r m = (mkServed (Some o) a, m')) :
  ∃ q sc r1 p,
    identified i (cu_middleware cu) (mkState new_response r (md_regs (reconcile ptr (cu_middleware cu) m))) r1 (Some q) ∧
    granted (cu_middleware cu) r (Some q) ∧ frame r1 = frame r ∧ scoped block q r1 sc ∧ a = Handled p ∧
    (Forall valid_label (sc_Labels sc) → ∃ r2 f,
       enforced (TargetURL (cu_handler cu)) sc (with_scope sc r1) r2 f ∧ relayed (TargetURL (cu_proxy cu)) r2 o ∧
       answered_for f o p).
Proof.
  unfold mux_ServeHTTP in Hrun. destruct (mux_route r); try (by injection Hrun).
  destruct (root font i ptr cu cn new_response r m) as [[sent p] m1] eqn:Er. injection Hrun as -> <- _.
  unfold root in Er. destruct (NewMiddleware font i ptr (cu_middleware cu) new_response r m) as [[w fwd] m2] eqn:Ew.
  destruct fwd as [r'|]; [|done]. injection Er as Er _.
  pose proof (NewMiddleware_cases _ _ _ _ _ new_response _ _ _ _ _ Hcfg eq_refl Hi Ew) as H. cbn zeta in H.
  destruct (own_route _ _ _); [done|]. destruct H as (Hw & p0 & r1 & Hid & Hg & Hf & H). rewrite Hblock in H.
  destruct H as (q & sc & -> & Hsc & ->). exists q, sc, r1, p. split_and!; [done..|]. intros Hl.
  by eapply forward_enforced.
Qed.

#[local] Existing Instances demo_crypto demo_x509 demo_regexp demo_neturl ascii_unicode demo_floats demo_token_lib
  demo_network demo_loginnet demo_oauth2 demo_sha demo_bcrypto demo_env demo_prom demo_metadata demo_sp
  demo_gcm demo_oauth_json demo_op demo_local_keys demo_gzip demo_transport demo_error_text demo_labels demo_promql demo_mime.

Definition demo_cu : Currents := mkCurrents demo_mid_config demo_mid_config demo_mid_config.
Definition demo_conn : Inbound_conn := mkConn (Some "192.0.2.1") "h" true.
Definition demo_root : Request :=
  mkRequest "GET" (mkURL "" "" None "" "/x/api/v1/query" "" false "query=up" "")
    {["Authorization" := ["Bearer https://p/_tap/oauth|alice|n"]]} "" (mkContext None None).
Lemma label_scope_end_to_end_witness :
  ∃ o q sc r1, sv_sent (mux_ServeHTTP "font" demo_inputs 1 demo_cu demo_conn demo_root demo_registries).1 = Some o ∧
    u_RawQuery (o_URL o) = "query=up%7Bns%3Dalice%7D" ∧ granted demo_mid_config demo_root (Some q) ∧
    (∃ block, ob_PromLabelProxy (c_Outbound demo_mid_config) = Some block ∧ scoped block q r1 sc).
Proof.
  assert (Hq : (λ o, u_RawQuery (o_URL o)) <$>
    sv_sent (mux_ServeHTTP "font" demo_inputs 1 demo_cu demo_conn demo_root demo_registries).1 = Some "query=up%7Bns%3Dalice%7D")
    by (vm_compute; reflexivity).
  destruct (mux_ServeHTTP "font" demo_inputs 1 demo_cu demo_conn demo_root demo_registries) as [[[o|] a] m'] eqn:E; [|discriminate Hq].
  injection Hq as Hq. destruct (ob_PromLabelProxy (c_Outbound demo_mid_config)) as [block|] eqn:Eb.
  2: { exfalso. vm_compute in Eb. discriminate Eb. }
  destruct (label_scope_end_to_end "font" demo_inputs 1 demo_mid_raw demo_cu demo_conn demo_root demo_registries o a m' block
    demo_mid_valid Eb demo_reg_inv demo_law E) as (q & sc & r1 & p & _ & Hg & _ & Hs & _).
  exists o, q, sc, r1. split; [reflexivity|split; [exact Hq|split; [exact Hg|]]]. exists block. split; [reflexivity|exact Hs].
Defined.

(** The form that [setBody] declares is lost when the client's Connection header
    names Content-Type: the selectors of the body are enforced, and sent in a body
    that the backend, told nothing of its type, does not read as a form.  The request
    it reads has no selector. *)
Definition demo_labels_post : Request :=
  mkRequest "POST" (mkURL "" "" None "" "/x/api/v1/labels" "" false "" "")
    {["Authorization" := ["Bearer https://p/_tap/oauth|alice|n"]; "Content-Type" := [formContentType];
      "Connection" := ["Content-Type"]]} "match%5B%5D=up" (mkContext None None).
Lemma Connection_drops_Content_Type :
  ∃ o a m', mux_ServeHTTP "font" demo_inputs 1 demo_cu demo_conn demo_labels_post demo_registries = (mkServed (Some o) a, m') ∧
    o_Body o = "match%5B%5D=up%7Bns%3Dalice%7D" ∧ u_RawQuery (o_URL o) = "" ∧ Header_Values (o_Header o) "Content-Type" = [].
Proof.
  assert (H : (λ o, (o_Body o, u_RawQuery (o_URL o), Header_Values (o_Header o) "Content-Type")) <$>
    sv_sent (mux_ServeHTTP "font" demo_inputs 1 demo_cu demo_conn demo_labels_post demo_registries).1 =
    Some ("match%5B%5D=up%7Bns%3Dalice%7D", "", [])) by (vm_compute; reflexivity).
  destruct (mux_ServeHTTP "font" demo_inputs 1 demo_cu demo_conn demo_labels_post demo_registries) as [[[o|] a] m']; [|discriminate H].
  injection H as H1 H2 H3. by exists o, a, m'.
Qed.
