(* ===== verification/Interpolate.v ===== *)
(** [internal/config/interpolate.go]: the references of a configuration file.

    The file system and the YAML parser are the classes [FS] and [YAML].  A parsed
    document keeps the entries of a mapping in one order, where Go ranges over them in
    any: what comes out is a mapping all the same, and of several references that fail
    the one reported is the first in the order kept. *)
From S2P Require Import Prelude GoStrings GoURL ConfigTypes ConfigAuth Credentials.

(** * References *)

Definition maxReferencedFileSize : Z := Z.shiftl 1 20.
Definition refOpen : string := "${".

Record FileInfo := mkInfo { fi_IsDir : bool; fi_Size : Z }.
Class FS : Type := { os_Stat : string → result FileInfo; os_ReadFile : string → result string }.

Fixpoint ref_chars (first : bool) (s : string) : bool :=
  match s with
  | "" => true
  | String c s' =>
      (is_alpha (byte c) || negb first && ((c =? "_"%char) || is_digit (byte c))) && ref_chars false s'
  end.
Definition looksLikeRefType (kind : string) : bool := (2 <=? String.length kind) && ref_chars true kind.

Section references.
Context {En : Env} {Fs : FS}.

Definition resolveEnvRef (name : string) : result string :=
  fail_if name =? "" with ErrorfA "%senv:}: environment variable name is empty" [refOpen] in
  match LookupEnv name with
  | None => Err (ErrorfA "%senv:%s}: environment variable is not set" [refOpen; name])
  | Some v => Ok v
  end.

(** The file a path names, in a configuration of directory [dir]. *)
Definition ref_file (path dir : string) : string := if HasPrefix path "/" then path else path_Join [dir; path].
Definition crlf : string := String (char 13) (String (char 10) "").
Definition trim_newline (s : string) : string :=
  if HasSuffix s crlf then s_take (String.length s - 2) s
  else if HasSuffix s (String (char 10) "") then s_take (String.length s - 1) s
  else s.
Definition resolveFileRef (path dir : string) : result string :=
  fail_if path =? "" with ErrorfA "%sfile:}: path is empty" [refOpen] in
  let full := ref_file path dir in
  let* info := rwrap "%sfile:%s}: %w" [refOpen; path] (os_Stat full) in
  fail_if fi_IsDir info with ErrorfA "%sfile:%s}: is a directory, not a file" [refOpen; path] in
  fail_if (maxReferencedFileSize <? fi_Size info)%Z
    with ErrorfA "%sfile:%s}: file is %d bytes, over the %d byte limit" [refOpen; path; Itoa (fi_Size info); Itoa maxReferencedFileSize] in
  let* b := rwrap "%sfile:%s}: %w" [refOpen; path] (os_ReadFile full) in
  Ok (trim_newline b).

(** The value and whether the text is a reference. *)
Definition resolveRef (inner dir : string) : result (string * bool) :=
  let '(kind, arg, found) := Cut inner ":" in
  if negb found || negb (looksLikeRefType kind) then Ok ("", false)
  else if kind =? "env" then let* v := resolveEnvRef arg in Ok (v, true)
  else if kind =? "file" then let* v := resolveFileRef arg dir in Ok (v, true)
  else Err (ErrorfA "%s%s}: unknown reference type %q, want %senv:NAME} or %sfile:PATH}" [refOpen; inner; kind; refOpen; refOpen]).

(** The loop of [interpolateString] from some index on. *)
Fixpoint scan (fuel : nat) (dir s : string) : result string :=
  match fuel with
  | O => Err (ENew "out of fuel")
  | S fuel =>
      match s with
      | "" => Ok ""
      | String c s' =>
          if c !=? "$"%char then let* out := scan fuel dir s' in Ok (String c out)
          else if HasPrefix s ("$" +:+ refOpen) then let* out := scan fuel dir (s_drop 3 s) in Ok (refOpen +:+ out)
          else if negb (HasPrefix s refOpen) then let* out := scan fuel dir s' in Ok (String c out)
          else
            let '(before, after, found) := Cut s "}" in
            if negb found then Err (ErrorfA "unterminated %q reference: no closing %q" [refOpen; "}"])
            else
              let* ref := resolveRef (s_drop 2 before) dir in
              let '(val, isRef) := ref in
              let* out := scan fuel dir after in
              Ok ((if isRef then val else before +:+ "}") +:+ out)
      end
  end.
Definition interpolateString (s dir : string) : result string :=
  if negb (Contains s refOpen) then Ok s else scan (S (String.length s)) dir s.
End references.

(** * Documents *)

(** Whatever is not a string, a mapping or a sequence. *)
Inductive scalar := SNull | SBool (b : bool) | SInt (z : Z) | SOther (printed : string).
Definition Sprint (x : scalar) : string :=
  match x with
  | SNull => "<nil>"
  | SBool b => if b then "true" else "false"
  | SInt z => Itoa z
  | SOther s => s
  end.
Inductive ykey := KString (s : string) | KScalar (x : scalar).
Definition key_text (k : ykey) : string := match k with KString s => s | KScalar x => Sprint x end.
(** [YMap] is [map[string]any], [YAnyMap] is [map[any]any]. *)
Inductive yaml :=
| YString (s : string)
| YMap (m : list (string * yaml))
| YAnyMap (m : list (ykey * yaml))
| YList (l : list yaml)
| YScalar (x : scalar).

Definition keyPathOrRoot (keyPath : string) : string := if keyPath =? "" then "config" else keyPath.
Definition childKeyPath (parent key : string) : string := if parent =? "" then key else parent +:+ "." +:+ key.
Definition indexKeyPath (keyPath : string) (i : nat) : string := keyPath +:+ "[" +:+ Itoa (Z.of_nat i) +:+ "]".

(** [internal/config]'s view of the parser of [knadh/koanf]. *)
Class YAML : Type := { yaml_Unmarshal : string → result (list (string * yaml)) }.

Section interpolate.
Context {En : Env} {Fs : FS} {Y : YAML}.

Fixpoint interpolateValue (dir keyPath : string) (v : yaml) : result yaml :=
  match v with
  | YString s => let* s := rwrap "%s: %w" [keyPathOrRoot keyPath] (interpolateString s dir) in Ok (YString s)
  | YMap m =>
      let* out := map_result (λ kv, let* x := interpolateValue dir (childKeyPath keyPath kv.1) kv.2 in Ok (kv.1, x)) m in
      Ok (YMap out)
  | YAnyMap m =>
      let* out := map_result (λ kv, let* x := interpolateValue dir (childKeyPath keyPath (key_text kv.1)) kv.2 in Ok (kv.1, x)) m in
      Ok (YAnyMap out)
  | YList l =>
      let* out := (fix items i l := match l with
                                    | [] => Ok []
                                    | x :: l =>
                                        let* y := interpolateValue dir (indexKeyPath keyPath i) x in
                                        let* ys := items (S i) l in Ok (y :: ys)
                                    end) 0 l in
      Ok (YList out)
  | YScalar x => Ok v
  end.

(** [interpolatingProvider]: the cleaned path and its directory. *)
Record interpolatingProvider := mkProvider { ip_path : string; ip_dir : string }.
Definition newInterpolatingProvider (path : string) : interpolatingProvider :=
  let clean := path_Clean path in mkProvider clean (filepath_Dir clean).
Definition interpolating_Read (p : interpolatingProvider) : result (list (string * yaml)) :=
  let* b := os_ReadFile (ip_path p) in
  let* parsed := yaml_Unmarshal b in
  let* out := interpolateValue (ip_dir p) "" (YMap parsed) in
  Ok (match out with YMap m => m | _ => [] end).
Definition interpolating_ReadBytes (p : interpolatingProvider) : result string :=
  Err (ENew "interpolatingProvider requires a nil parser: load it via Read, not ReadBytes").
End interpolate.

(** * What a string is read as *)

(** A byte as it is, an escaped opening, or a text in braces. *)
Inductive part := PChar (c : ascii) | POpen | PBraces (inner : string).
(** [reads s ps rest]: the string [s] is read as the parts [ps], up to [rest]. *)
Inductive reads : string → list part → string → Prop :=
| reads_stop s : reads s [] s
| reads_char c s ps rest : c ≠ "$"%char → reads s ps rest → reads (String c s) (PChar c :: ps) rest
| reads_bare s ps rest :
    HasPrefix s "{" = false → HasPrefix s refOpen = false → reads s ps rest → reads (String "$" s) (PChar "$" :: ps) rest
| reads_escape s ps rest : reads s ps rest → reads ("$" +:+ refOpen +:+ s) (POpen :: ps) rest
| reads_braces inner s ps rest : sep_free "}" inner → reads s ps rest →
    reads (refOpen +:+ inner +:+ String "}" s) (PBraces inner :: ps) rest.

Section reading.
Context {En : Env} {Fs : FS}.
(** What a part becomes: of the text it is, and of nothing around it. *)
Inductive resolved (dir : string) : part → string → Prop :=
| resolved_char c : resolved dir (PChar c) (String c "")
| resolved_open : resolved dir POpen refOpen
| resolved_ref inner v : resolveRef inner dir = Ok (v, true) → resolved dir (PBraces inner) v
| resolved_text inner v : resolveRef inner dir = Ok (v, false) → resolved dir (PBraces inner) (refOpen +:+ inner +:+ "}").
(** Where the reading of a string fails. *)
Inductive stuck (dir : string) : string → error → Prop :=
| stuck_open rest : HasPrefix rest refOpen = true → sep_free "}" rest →
    stuck dir rest (ErrorfA "unterminated %q reference: no closing %q" [refOpen; "}"])
| stuck_ref inner after e : sep_free "}" inner → resolveRef inner dir = Err e →
    stuck dir (refOpen +:+ inner +:+ String "}" after) e.

(** ** Reading *)

Lemma prefix_cons s c t : HasPrefix s (String c t) = true → ∃ s', s = String c s' ∧ HasPrefix s' t = true.
Proof. intros [u ->]%HasPrefix_spec. exists (t +:+ u). split; [done|apply HasPrefix_app]. Qed.
Lemma prefix_dollar s t : HasPrefix (String "$" s) (String "$" t) = HasPrefix s t.
Proof. cbn. by rewrite bool_decide_true. Qed.
Lemma open_braces s before after : HasPrefix s refOpen = true → Cut s "}" = (before, after, true) →
  ∃ inner, before = refOpen +:+ inner ∧ s_drop 2 before = inner ∧ s = refOpen +:+ inner +:+ String "}" after ∧ sep_free "}" inner.
Proof.
  intros [t ->]%HasPrefix_spec Hc. pose proof (Cut_spec (refOpen +:+ t) "}") as H. rewrite Hc in H. destruct H as [He Hf].
  destruct before as [|a [|b inner]].
  - rewrite app_nil_l' in He. discriminate.
  - rewrite app_cons, app_nil_l' in He. discriminate.
  - unfold refOpen in *. rewrite !app_cons in He. injection He as <- <- He. rewrite app_nil_l' in He. subst t.
    exists inner. rewrite !app_cons, app_nil_l'. split_and!; [done..|]. by apply sep_free_cons in Hf as [_ [_ ?]%sep_free_cons].
Qed.
(** One step of the loop: a part and the string after it, or where it fails. *)
Definition steps fuel dir s (p : part) (x s' : string) : Prop :=
  String.length s' < String.length s ∧ (∀ ps rest, reads s' ps rest → reads s (p :: ps) rest) ∧ resolved dir p x ∧
  scan (S fuel) dir s = rbind (scan fuel dir s') (λ out, Ok (x +:+ out)).
Lemma scan_step fuel dir s : s ≠ "" →
  (∃ p x s', steps fuel dir s p x s') ∨ ∃ e, scan (S fuel) dir s = Err e ∧ stuck dir s e.
Proof.
  intros Hs. destruct s as [|c s']; [done|]. unfold steps. cbn [scan]. case_bool_decide as Hc; cbn [negb].
  2: { left. exists (PChar c), (String c ""), s'. split_and!; [cbn; lia|by constructor|constructor|done]. }
  subst c. destruct (HasPrefix (String "$" s') ("$" +:+ refOpen)) eqn:Ee.
  { apply HasPrefix_spec in Ee as [t Et]. rewrite Et. left. exists POpen, refOpen, t.
    change (s_drop 3 (("$" +:+ refOpen) +:+ t)) with t. change (("$" +:+ refOpen) +:+ t) with ("$" +:+ refOpen +:+ t).
    split_and!; [change ("$" +:+ refOpen +:+ t) with (String "$" (String "$" (String "{" t))); cbn; lia|by constructor|constructor|done]. }
  destruct (HasPrefix (String "$" s') refOpen) eqn:Eo; cbn [negb].
  2: { left. exists (PChar "$"), (String "$" ""), s'. split_and!; [cbn; lia| |constructor|done].
       intros ps rest H. apply reads_bare; [exact (eq_trans (eq_sym (prefix_dollar s' "{")) Eo)|exact (eq_trans (eq_sym (prefix_dollar s' refOpen)) Ee)|done]. }
  destruct (Cut (String "$" s') "}") as [[before after] found] eqn:Ec. destruct found; cbn [negb].
  2: { right. eexists. split; [done|]. constructor; [done|]. pose proof (Cut_spec (String "$" s') "}") as H. rewrite Ec in H. tauto. }
  destruct (open_braces _ _ _ Eo Ec) as (inner & -> & Hd & -> & Hf). rewrite Hd.
  destruct (resolveRef inner dir) as [[v b]|e] eqn:Er; cbn [rbind]; [left|right; exists e; split; [done|by constructor]].
  exists (PBraces inner), (if b then v else refOpen +:+ inner +:+ "}"), after. split_and!.
  - rewrite !s_length_app. cbn [String.length]. lia.
  - by constructor.
  - destruct b; by econstructor.
  - by destruct b; rewrite ?s_app_assoc.
Qed.
(** Enough fuel is any more than the length. *)
Lemma scan_fuel dir s : ∀ f f', String.length s < f → String.length s < f' → scan f dir s = scan f' dir s.
Proof.
  remember (String.length s) as n eqn:Hn. revert s Hn. induction n as [n IH] using lt_wf_ind. intros s -> f f' Hf Hf'.
  destruct f as [|f], f' as [|f']; [lia..|]. destruct (decide (s = "")) as [->|Hs]; [done|].
  assert (Hext : ∀ t, String.length t < String.length s → scan f dir t = scan f' dir t)
    by (intros t Ht; apply (IH (String.length t)); [lia|done|lia|lia]).
  destruct s as [|c s']; [done|]. cbn [scan]. pose proof (Hext s') as Hs'. rewrite Hs' by (cbn; lia).
  destruct (HasPrefix (String c s') ("$" +:+ refOpen)) eqn:Ee.
  { rewrite (Hext (s_drop 3 (String c s'))); [done|]. apply HasPrefix_spec in Ee as [t ->].
    change (("$" +:+ refOpen) +:+ t) with (String "$" (String "$" (String "{" t))). cbn. lia. }
  case_bool_decide as Hc; [cbn [negb]|done]. destruct (HasPrefix (String c s') refOpen); cbn [negb]; [|done].
  pose proof (Cut_spec (String c s') "}") as Hcut. destruct (Cut (String c s') "}") as [[before after] found].
  destruct found; cbn [negb]; [|done]. rewrite (Hext after); [done|]. destruct Hcut as [-> _]. rewrite s_length_app. cbn. lia.
Qed.
(** What the loop makes of a string, given the fuel. *)
Definition read_as dir s (r : result string) : Prop :=
  match r with
  | Ok out => ∃ ps outs, reads s ps "" ∧ Forall2 (resolved dir) ps outs ∧ out = concat_string outs
  | Err e => ∃ ps outs rest, reads s ps rest ∧ Forall2 (resolved dir) ps outs ∧ stuck dir rest e
  end.
Lemma scan_read_as dir fuel s : String.length s < fuel → read_as dir s (scan fuel dir s).
Proof.
  revert s. induction fuel as [|fuel IH]; intros s Hf; [lia|]. destruct (decide (s = "")) as [->|Hs].
  { exists [], []. by split_and!; [constructor..|]. }
  destruct (scan_step fuel dir s Hs) as [(p & x & s' & Hl & Hr & Hx & ->)|(e & -> & He)].
  2: { exists [], [], s. by split_and!; [constructor..|]. }
  specialize (IH s' ltac:(lia)). destruct (scan fuel dir s') as [out|e]; cbn [rbind read_as] in *.
  - destruct IH as (ps & outs & H1 & H2 & ->). exists (p :: ps), (x :: outs). split_and!; [by apply Hr|by constructor|done].
  - destruct IH as (ps & outs & rest & H1 & H2 & H3). exists (p :: ps), (x :: outs), rest. split_and!; [by apply Hr|by constructor|done].
Qed.
Lemma scan_plain dir fuel s : Contains s refOpen = false → String.length s < fuel → scan fuel dir s = Ok s.
Proof.
  revert s. induction fuel as [|fuel IH]; intros s Hc Hf; [lia|]. destruct s as [|c s]; [done|]. cbn [scan].
  assert (H1 : HasPrefix (String c s) refOpen = false ∧ Contains s refOpen = false).
  { unfold refOpen in *. cbn [Contains] in Hc. by apply orb_false_iff in Hc. }
  destruct H1 as [H1 H2]. cbn in Hf. rewrite (IH s H2) by lia. rewrite H1. cbn [rbind negb].
  case_bool_decide; [cbn [negb]|done]. destruct (HasPrefix (String c s) ("$" +:+ refOpen)) eqn:Ee; [|done]. subst c.
  apply HasPrefix_spec in Ee as [t Et]. injection Et as ->. rewrite app_nil_l' in H2.
  enough (Contains (refOpen +:+ t) refOpen = true) by (rewrite app_nil_l' in *; congruence). apply Contains_spec. by exists "", t.
Qed.
Lemma interpolateString_scan s dir : interpolateString s dir = scan (S (String.length s)) dir s.
Proof. unfold interpolateString. destruct (Contains s refOpen) eqn:E; [done|]. by rewrite scan_plain by (done || lia). Qed.
Lemma interpolateString_read_as s dir : read_as dir s (interpolateString s dir).
Proof. rewrite interpolateString_scan. apply scan_read_as. lia. Qed.
Lemma HasPrefix_dollar_brace s t : HasPrefix (String "{" s) (String "$" t) = false.
Proof. cbn. by rewrite bool_decide_false. Qed.
Lemma resolved_inv dir p x : resolved dir p x →
  match p with
  | PChar c => x = String c ""
  | POpen => x = refOpen
  | PBraces inner => ∃ v b, resolveRef inner dir = Ok (v, b) ∧ x = if b : bool then v else refOpen +:+ inner +:+ "}"
  end.
Proof. intros []; eauto. Qed.
Lemma reads_scan s ps rest : reads s ps rest → rest = "" → ∀ dir outs fuel, Forall2 (resolved dir) ps outs → String.length s < fuel →
  scan fuel dir s = Ok (concat_string outs).
Proof.
  induction 1 as [s|c s ps rest Hc _ IH|s ps rest H1 H2 _ IH|s ps rest _ IH|inner s ps rest Hf _ IH]; intros ->.
  all: intros dir outs [|fuel] Ho Hl; [lia|]; inversion Ho as [|? x ? outs' Hx Hos]; subst; clear Ho.
  { done. }
  all: apply resolved_inv in Hx; specialize (IH eq_refl dir outs' fuel Hos).
  - subst x. cbn [scan]. rewrite bool_decide_false by done. cbn [negb]. by rewrite IH by (cbn in Hl; lia).
  - subst x. cbn [scan]. rewrite bool_decide_true by done. change ("$" +:+ refOpen) with (String "$" refOpen).
    rewrite prefix_dollar, H2. unfold refOpen at 1. rewrite prefix_dollar, H1. cbn [negb]. by rewrite IH by (cbn in Hl; lia).
  - subst x. change ("$" +:+ refOpen +:+ s) with (String "$" (refOpen +:+ s)) in *. cbn [scan].
    rewrite bool_decide_true by done. change ("$" +:+ refOpen) with (String "$" refOpen). rewrite prefix_dollar, HasPrefix_app.
    change (s_drop 3 (String "$" (refOpen +:+ s))) with s. cbn [negb]. rewrite IH; [done|].
    change (refOpen +:+ s) with (String "$" (String "{" s)) in Hl. cbn in Hl. lia.
  - destruct Hx as (v & b & Hr & ->). rewrite <- s_app_assoc in *.
    assert (Hf' : sep_free "}" (refOpen +:+ inner)) by (rewrite sep_free_app; split; [by apply (bool_decide_unpack _); vm_compute|done]).
    pose proof (Cut_field _ s _ Hf') as Hc. rewrite !s_length_app in Hl. cbn in Hl.
    change (refOpen +:+ inner) with (String "$" (String "{" inner)) in *. rewrite app_cons in *. cbn [scan].
    rewrite bool_decide_true by done. change ("$" +:+ refOpen) with (String "$" refOpen). rewrite prefix_dollar.
    unfold refOpen at 1. rewrite app_cons, HasPrefix_dollar_brace. cbn [negb]. unfold refOpen at 1.
    rewrite prefix_dollar. rewrite app_cons in Hc. rewrite Hc. cbn.
    rewrite bool_decide_true by done. cbn [negb s_drop]. rewrite Hr. cbn [rbind]. rewrite IH by lia. cbn [rbind].
    rewrite HasPrefix_nil. by destruct b.
Qed.

(** ** Writing a text that is read as it is *)

(** Every opening escaped. *)
Fixpoint escape_refs (s : string) : string :=
  match s with
  | "" => ""
  | String c s' => if HasPrefix s refOpen then String "$" (String c (escape_refs s')) else String c (escape_refs s')
  end.
Lemma escape_refs_brace s : HasPrefix (escape_refs s) "{" = HasPrefix s "{".
Proof.
  destruct s as [|c s]; [done|]. cbn [escape_refs]. destruct (HasPrefix (String c s) refOpen) eqn:E.
  - apply prefix_cons in E as (s' & [= -> ->] & _). done.
  - cbn. by rewrite !HasPrefix_nil.
Qed.
Lemma escape_refs_open s : HasPrefix (escape_refs s) refOpen = false.
Proof.
  destruct s as [|c s]; [done|]. cbn [escape_refs]. destruct (HasPrefix (String c s) refOpen) eqn:E.
  - apply prefix_cons in E as (s' & [= -> ->] & _). done.
  - unfold refOpen in *. cbn [HasPrefix] in *. destruct (decide (c = "$"%char)) as [->|Hc]; [|by rewrite bool_decide_false].
    rewrite bool_decide_true in * by done. cbn [andb] in *. by rewrite escape_refs_brace.
Qed.
Lemma escape_refs_reads dir s : ∃ ps outs, reads (escape_refs s) ps "" ∧ Forall2 (resolved dir) ps outs ∧ concat_string outs = s.
Proof.
  remember (String.length s) as n eqn:Hn. revert s Hn. induction n as [n IH] using lt_wf_ind. intros s ->.
  destruct s as [|c s]; [exists [], []; by split_and!; [constructor..|]|].
  cbn [escape_refs]. destruct (HasPrefix (String c s) refOpen) eqn:E.
  - apply prefix_cons in E as (s' & [= -> ->] & Hs). apply prefix_cons in Hs as (s1 & -> & _).
    destruct (IH (String.length s1) ltac:(cbn; lia) s1 eq_refl) as (ps & outs & H1 & H2 & H3).
    exists (POpen :: ps), (refOpen :: outs). split_and!; [|by constructor; [constructor|]|cbn; by rewrite H3].
    cbn [escape_refs]. change (HasPrefix (String "{" s1) refOpen) with false. cbn iota. by apply (reads_escape (escape_refs s1)).
  - destruct (IH (String.length s) ltac:(cbn; lia) s eq_refl) as (ps & outs & H1 & H2 & H3).
    exists (PChar c :: ps), (String c "" :: outs). split_and!; [|by constructor; [constructor|]|cbn; by rewrite H3].
    destruct (decide (c = "$"%char)) as [->|Hc]; [|by constructor].
    apply reads_bare; [|apply escape_refs_open|done]. rewrite escape_refs_brace.
    exact (eq_trans (eq_sym (prefix_dollar s "{")) E).
Qed.
End reading.

(** * Documents *)

Section values.
Context {En : Env} {Fs : FS}.

(** The strings of a document, each under the path of its key. *)
Fixpoint strings_at (keyPath : string) (v : yaml) : list (string * string) :=
  match v with
  | YString s => [(keyPath, s)]
  | YMap m => flat_map (λ kv, strings_at (childKeyPath keyPath kv.1) kv.2) m
  | YAnyMap m => flat_map (λ kv, strings_at (childKeyPath keyPath (key_text kv.1)) kv.2) m
  | YList l => (fix items i l := match l with
                                 | [] => []
                                 | x :: l => strings_at (indexKeyPath keyPath i) x ++ items (S i) l
                                 end) 0 l
  | YScalar _ => []
  end.
(** Documents that differ in nothing but the text of their strings. *)
Inductive same_shape : yaml → yaml → Prop :=
| same_string s s' : same_shape (YString s) (YString s')
| same_map m m' : Forall2 (λ kv kv', kv.1 = kv'.1 ∧ same_shape kv.2 kv'.2) m m' → same_shape (YMap m) (YMap m')
| same_anymap m m' : Forall2 (λ kv kv', kv.1 = kv'.1 ∧ same_shape kv.2 kv'.2) m m' → same_shape (YAnyMap m) (YAnyMap m')
| same_list l l' : Forall2 same_shape l l' → same_shape (YList l) (YList l')
| same_scalar x : same_shape (YScalar x) (YScalar x).

(** One string of a document and what it becomes, at the same place. *)
Definition replaced (dir : string) (a b : string * string) : Prop := a.1 = b.1 ∧ interpolateString a.2 dir = Ok b.2.
(** [walked strs shape after r]: a walk over the strings [strs] replaced each of them, or
    failed at the first that could not be, and says where. *)
Definition walked {A} (dir : string) (strs : list (string * string)) (shape : A → Prop) (after : A → list (string * string))
    (r : result A) : Prop :=
  match r with
  | Ok x => shape x ∧ Forall2 (replaced dir) strs (after x)
  | Err e => ∃ l kp s rest err, strs = l ++ (kp, s) :: rest ∧
      Forall (λ a, ∃ out, interpolateString a.2 dir = Ok out) l ∧ interpolateString s dir = Err err ∧
      e = Wrapf "%s: %w" [keyPathOrRoot kp] err
  end.
Lemma walked_map {A B} dir strs (sh : A → Prop) af (sh' : B → Prop) af' (f : A → B) r : walked dir strs sh af r →
  (∀ x, sh x → sh' (f x) ∧ af' (f x) = af x) → walked dir strs sh' af' (rbind r (λ x, Ok (f x))).
Proof. destruct r as [x|e]; [|done]. intros [H1 H2] Hf. cbn. destruct (Hf x H1) as [H3 ->]. done. Qed.
Lemma walked_cons {A} dir s1 s2 (sh1 : A → Prop) (sh2 : list A → Prop) af1 af2 (sh : list A → Prop) af r1 r2 :
  walked dir s1 sh1 af1 r1 → walked dir s2 sh2 af2 r2 →
  (∀ y ys, sh1 y → sh2 ys → sh (y :: ys) ∧ af (y :: ys) = af1 y ++ af2 ys) →
  walked dir (s1 ++ s2) sh af (rbind r1 (λ y, rbind r2 (λ ys, Ok (y :: ys)))).
Proof.
  intros H1 H2 Hc. destruct r1 as [y|e]; cbn [rbind walked] in *.
  2: { destruct H1 as (l & kp & s & rest & err & -> & H). exists l, kp, s, (rest ++ s2), err. by rewrite <- app_assoc. }
  destruct H1 as [Hy Ha]. destruct r2 as [ys|e]; cbn [rbind walked] in *.
  - destruct H2 as [Hys Hb]. destruct (Hc y ys Hy Hys) as [? ->]. split; [done|by apply Forall2_app].
  - destruct H2 as (l & kp & s & rest & err & -> & Hl & H). exists (s1 ++ l), kp, s, rest, err. split; [by rewrite <- app_assoc|].
    split; [|done]. apply Forall_app. split; [|done]. apply Forall_forall. intros a Hin.
    apply list_elem_of_lookup in Hin as [i Hi]. destruct (Forall2_lookup_l _ _ _ _ _ Ha Hi) as (b & _ & _ & Hb). by exists b.2.
Qed.

(** Induction on a document. *)
Lemma yaml_induction (Pr : yaml → Prop) :
  (∀ s, Pr (YString s)) → (∀ m, Forall (λ kv, Pr kv.2) m → Pr (YMap m)) → (∀ m, Forall (λ kv, Pr kv.2) m → Pr (YAnyMap m)) →
  (∀ l, Forall Pr l → Pr (YList l)) → (∀ x, Pr (YScalar x)) → ∀ v, Pr v.
Proof.
  intros H1 H2 H3 H4 H5. fix IH 1. intros [s|m|m|l|x]; [apply H1|apply H2|apply H3|apply H4|apply H5].
  - induction m as [|kv m IHm]; constructor; [apply IH|done].
  - induction m as [|kv m IHm]; constructor; [apply IH|done].
  - induction l as [|v l IHl]; constructor; [apply IH|done].
Qed.
Lemma entries_walked {K} dir (path : K → string) (m : list (K * yaml)) :
  Forall (λ kv, ∀ kp, walked dir (strings_at kp kv.2) (same_shape kv.2) (strings_at kp) (interpolateValue dir kp kv.2)) m →
  walked dir (flat_map (λ kv, strings_at (path kv.1) kv.2) m) (Forall2 (λ kv kv', kv.1 = kv'.1 ∧ same_shape kv.2 kv'.2) m)
    (flat_map (λ kv, strings_at (path kv.1) kv.2))
    (map_result (λ kv, let* x := interpolateValue dir (path kv.1) kv.2 in Ok (kv.1, x)) m).
Proof.
  induction 1 as [|kv m Hkv _ IH]; [split; constructor|]. cbn [map_result flat_map].
  eapply walked_cons; [eapply (walked_map _ _ _ _ (λ kv' : K * yaml, kv.1 = kv'.1 ∧ same_shape kv.2 kv'.2)
    (λ kv', strings_at (path kv'.1) kv'.2)); [apply (Hkv (path kv.1))|done]|exact IH|].
  intros kv' m' H1 H2. split; [by constructor|done].
Qed.
Lemma interpolateValue_walked dir v : ∀ kp,
  walked dir (strings_at kp v) (same_shape v) (strings_at kp) (interpolateValue dir kp v).
Proof.
  induction v as [s|m IH|m IH|l IH|x] using yaml_induction; intros kp; cbn [interpolateValue].
  - cbn [strings_at]. destruct (interpolateString s dir) as [s'|err] eqn:E; cbn.
    + split; [constructor|]. by repeat constructor.
    + exists [], kp, s, [], err. by repeat constructor.
  - eapply walked_map; [by apply (entries_walked dir (childKeyPath kp))|]. intros m' H. by split; [constructor|].
  - eapply walked_map; [by apply (entries_walked dir (λ k, childKeyPath kp (key_text k)))|]. intros m' H. by split; [constructor|].
  - cbn [strings_at]. eapply walked_map with (sh := Forall2 same_shape l)
      (af := (fix items i l := match l with [] => [] | x :: l => strings_at (indexKeyPath kp i) x ++ items (S i) l end) 0);
      [|intros l' H; by split; [constructor|]].
    generalize 0 as i. induction IH as [|x l Hx _ IHl]; intros i; [split; constructor|].
    eapply walked_cons; [apply (Hx (indexKeyPath kp i))|apply (IHl (S i))|]. intros y ys H1 H2. split; [by constructor|done].
  - cbn. split; constructor.
Qed.
End values.

(** * Properties *)

(** ** References *)

Section refs.
Context {En : Env} {Fs : FS}.
Lemma trim_newline_spec b :
  b = trim_newline b +:+ crlf ∨
  b = trim_newline b +:+ String (char 10) "" ∧ HasSuffix b crlf = false ∨
  trim_newline b = b ∧ HasSuffix b (String (char 10) "") = false.
Proof.
  assert (Htake : ∀ t u, s_take (String.length (t +:+ u) - String.length u) (t +:+ u) = t).
  { intros t u. rewrite s_length_app. replace (String.length t + String.length u - String.length u) with (String.length t) by lia.
    apply s_take_app. }
  unfold trim_newline. destruct (HasSuffix b crlf) eqn:E1.
  { left. apply HasSuffix_spec in E1 as [t ->]. f_equal. symmetry. apply (Htake t crlf). }
  destruct (HasSuffix b (String (char 10) "")) eqn:E2; right; [left|by right].
  split; [|done]. apply HasSuffix_spec in E2 as [t ->]. f_equal. symmetry. apply (Htake t (String (char 10) "")).
Qed.
Lemma resolveRef_format inner dir e : resolveRef inner dir = Err e → ∃ f a l, e = EWrap f a l.
Proof.
  unfold resolveRef, resolveEnvRef, resolveFileRef. destruct (Cut inner ":") as [[kind arg] found].
  destruct (negb found || negb (looksLikeRefType kind)); [done|]. intros H.
  repeat (case_if_in H; cbn [rbind] in H); try (injection H as <-; by eauto).
  - destruct (LookupEnv arg); cbn [rbind] in H; [done|]. injection H as <-. by eauto.
  - destruct (os_Stat _) as [info|]; cbn [rwrap rbind] in H; [|injection H as <-; by eauto].
    repeat (case_if_in H; cbn [rbind] in H); try (injection H as <-; by eauto).
    destruct (os_ReadFile _); cbn [rwrap rbind] in H; [done|]. injection H as <-. by eauto.
Qed.
End refs.

(** A file reference. It resolves only when its path, taken from the
    configuration's own directory unless it is rooted, names something that is not a
    directory, whose reported size is at most a mebibyte and that can be read; and
    then to the content without the one newline it may end with. It fails otherwise,
    and its error names the path as it was written. *)
Theorem resolveFileRef_spec {Fs : FS} path dir :
  match resolveFileRef path dir with
  | Ok v => path ≠ "" ∧ ∃ info b, os_Stat (ref_file path dir) = Ok info ∧ fi_IsDir info = false ∧
      (fi_Size info ≤ 1048576)%Z ∧ os_ReadFile (ref_file path dir) = Ok b ∧
      (b = v +:+ crlf ∨ b = v +:+ String (char 10) "" ∧ HasSuffix b crlf = false ∨
       v = b ∧ HasSuffix b (String (char 10) "") = false)
  | Err e =>
      (path = "" ∧ ∃ f, e = EWrap f [refOpen] []) ∨
      (∃ f a l, e = EWrap f (refOpen :: path :: a) l ∧
         (is_ok (os_Stat (ref_file path dir)) = false ∨ is_ok (os_ReadFile (ref_file path dir)) = false ∨
          ∃ info, os_Stat (ref_file path dir) = Ok info ∧ (fi_IsDir info = true ∨ (1048576 < fi_Size info)%Z)))
  end.
Proof.
  unfold resolveFileRef. case_bool_decide as Hp; [left; eauto|]. change maxReferencedFileSize with 1048576%Z.
  destruct (os_Stat _) as [info|err]; cbn [rwrap rbind]; [|right; eauto 10].
  destruct (fi_IsDir info) eqn:Ed; [right; eauto 12|].
  destruct (Z.ltb_spec 1048576 (fi_Size info)); [right; eauto 12|].
  destruct (os_ReadFile _) as [b|err]; cbn [rwrap rbind]; [|right; eauto 12].
  split; [done|]. exists info, b. split_and!; [done..|]. pose proof (trim_newline_spec b). naive_solver.
Qed.

(** C31: interpolation of one string. Its value is the concatenation of what its
    parts become, read from left to right: bytes as they are, an escaped opening as
    "${", a reference as what it resolves to and any other text in braces as it was
    written. What a part becomes is determined by that part alone, so a value is never
    read again. It fails only at a reference that cannot be resolved, or that is not
    closed, after parts that could be. *)
Theorem interpolateString_spec {En : Env} {Fs : FS} s dir :
  (∀ out, interpolateString s dir = Ok out ↔
     ∃ ps outs, reads s ps "" ∧ Forall2 (resolved dir) ps outs ∧ out = concat_string outs) ∧
  (∀ e, interpolateString s dir = Err e →
     ∃ ps outs rest, reads s ps rest ∧ Forall2 (resolved dir) ps outs ∧ stuck dir rest e).
Proof.
  pose proof (interpolateString_read_as s dir) as H. split.
  - intros out. split; [by intros E; rewrite E in H|]. intros (ps & outs & H1 & H2 & ->). rewrite interpolateString_scan.
    eapply reads_scan; [done..|lia].
  - intros e E. by rewrite E in H.
Qed.

(** C32: the loop of [interpolateString] ends: with as many steps as the string has
    bytes, and one more, it has its result, more steps change nothing, and the
    shortcut for a string with no opening gives what the loop would. *)
Theorem interpolateString_terminates {En : Env} {Fs : FS} s dir :
  (∀ fuel, String.length s < fuel → scan fuel dir s = interpolateString s dir) ∧
  interpolateString s dir ≠ Err (ENew "out of fuel").
Proof.
  split; [intros fuel Hf; rewrite interpolateString_scan; apply scan_fuel; lia|].
  intros H. pose proof (interpolateString_read_as s dir) as Hr. rewrite H in Hr. destruct Hr as (ps & outs & rest & _ & _ & Hs).
  inversion Hs as [|inner after e _ Hi]; subst. apply resolveRef_format in Hi as (? & ? & ? & ?). done.
Qed.

(** Any text can be written in a configuration: with every opening escaped it
    is read as it was; and a text without an opening is its own. *)
Theorem interpolateString_escape {En : Env} {Fs : FS} s dir :
  interpolateString (escape_refs s) dir = Ok s ∧ (Contains s refOpen = false → escape_refs s = s ∧ interpolateString s dir = Ok s).
Proof.
  split.
  - destruct (escape_refs_reads dir s) as (ps & outs & H1 & H2 & <-). rewrite interpolateString_scan.
    eapply reads_scan; [done..|lia].
  - intros H. split; [|unfold interpolateString; by rewrite H]. induction s as [|c s IH]; [done|].
    cbn [Contains] in H. apply orb_false_iff in H as [H1 H2]. cbn [escape_refs]. by rewrite H1, IH.
Qed.

(** C33: a configuration file keeps its shape. What is read of one is the parsed
    document with nothing changed but the text of its strings, each of them replaced
    by its interpolation at the same place: no reference can add, remove or rename a
    key, turn a value into another kind, or change a number or a boolean. When one
    fails, the error names the place of the first that does. *)
Theorem interpolating_Read_shape {En : Env} {Fs : FS} {Y : YAML} p :
  match interpolating_Read p with
  | Ok m => ∃ b parsed, os_ReadFile (ip_path p) = Ok b ∧ yaml_Unmarshal b = Ok parsed ∧
      Forall2 (λ kv kv', kv.1 = kv'.1 ∧ same_shape kv.2 kv'.2) parsed m ∧
      Forall2 (replaced (ip_dir p)) (strings_at "" (YMap parsed)) (strings_at "" (YMap m))
  | Err e =>
      os_ReadFile (ip_path p) = Err e ∨ (∃ b, os_ReadFile (ip_path p) = Ok b ∧ yaml_Unmarshal b = Err e) ∨
      ∃ b parsed l kp s rest err, os_ReadFile (ip_path p) = Ok b ∧ yaml_Unmarshal b = Ok parsed ∧
        strings_at "" (YMap parsed) = l ++ (kp, s) :: rest ∧
        Forall (λ a, ∃ out, interpolateString a.2 (ip_dir p) = Ok out) l ∧ interpolateString s (ip_dir p) = Err err ∧
        e = Wrapf "%s: %w" [keyPathOrRoot kp] err
  end.
Proof.
  unfold interpolating_Read. destruct (os_ReadFile (ip_path p)) as [b|err]; cbn [rbind]; [|by left].
  destruct (yaml_Unmarshal b) as [parsed|err] eqn:Ep; cbn [rbind]; [|right; left; by eauto].
  pose proof (interpolateValue_walked (ip_dir p) (YMap parsed) "") as H.
  destruct (interpolateValue _ _ _) as [out|e]; cbn [rbind walked] in *.
  - destruct H as [Hs Hr]. inversion Hs; subst. by exists b, parsed.
  - right. right. destruct H as (l & kp & s & rest & err & H). by exists b, parsed, l, kp, s, rest, err.
Qed.

(** The limit is on the size that is reported: a file of no reported size, as a
    device has, is read whole, whatever it holds. *)
Lemma unreported_size {Fs : FS} path dir b : path ≠ "" → os_Stat (ref_file path dir) = Ok (mkInfo false 0) →
  os_ReadFile (ref_file path dir) = Ok b → resolveFileRef path dir = Ok (trim_newline b).
Proof. intros Hp Hs Hb. unfold resolveFileRef. rewrite bool_decide_false by done. by rewrite Hs, Hb. Qed.

(** ** Examples *)

Definition demo_env_home : Env := {| LookupEnv n := if n =? "HOME_URL" then Some "${file:/etc/shadow}" else None |}.
Definition demo_fs : FS :=
  {| os_Stat p := if p =? "/etc/tap/secret" then Ok (mkInfo false 8) else Err (ENew "not found");
     os_ReadFile p := if p =? "/etc/tap/secret" then Ok ("s3cret" +:+ crlf)
                      else if p =? "/etc/tap/config.yaml" then Ok "doc" else Err (ENew "not found") |}.
Definition demo_yaml : YAML :=
  {| yaml_Unmarshal b := Ok [("target", YString "http://${env:HOME_URL}/"); ("n", YScalar (SInt 3));
       ("users", YList [YMap [("password", YString "${file:secret}"); ("password_hash", YString "$2y$12$abc")]]);
       ("literal", YString "$${env:X} ${HOME} ${C:\x}")] |}.
#[local] Existing Instances demo_env_home demo_fs demo_yaml.

(** A variable that holds a reference is not read again; a file is found next to the
    configuration; a hash, an escape and text that only looks like a reference stay. *)
Example demo_Read : interpolating_Read (newInterpolatingProvider "/etc/tap//config.yaml") =
  Ok [("target", YString "http://${file:/etc/shadow}/"); ("n", YScalar (SInt 3));
      ("users", YList [YMap [("password", YString "s3cret"); ("password_hash", YString "$2y$12$abc")]]);
      ("literal", YString "${env:X} ${HOME} ${C:\x}")].
Proof. vm_compute. reflexivity. Qed.
Example demo_unknown : interpolateValue "/etc/tap" "" (YMap [("a", YList [YScalar SNull; YString "${vault:x}"])]) =
  Err (Wrapf "%s: %w" ["a[1]"]
    (ErrorfA "%s%s}: unknown reference type %q, want %senv:NAME} or %sfile:PATH}" ["${"; "vault:x"; "vault"; "${"; "${"])).
Proof. vm_compute. reflexivity. Qed.
