(* ===== verification/Source.v ===== *)
(** [internal/config/source.go] and [static.go]: where a configuration comes from, and
    which of its sources wins.

    The store of [knadh/koanf], with its environment and flag providers and its decoding
    into a struct, is the class [Koanf]; [koanf_laws] is what its documentation says of
    loading, as far as precedence depends on it: every load, [Set] among them, is merged
    into what is there, map into map. *)
From S2P Require Import Prelude GoStrings ConfigTypes Acl ConfigAuth ConfigMain GoJSON Interpolate.

(** * Fields *)

Record fieldSpec := mkField { f_koanfKey : string; f_flagName : string; f_envName : string; f_duration : bool }.
Definition envPrefix : string := "TAP_".
Definition fieldSpecs : list fieldSpec :=
  [mkField "config" "config" "CONFIG" false;
   mkField "listen_addr" "listen-addr" "LISTEN_ADDR" false;
   mkField "target" "target" "TARGET" false;
   mkField "target_ca_cert" "target-ca-cert" "TARGET_CA_CERT" false;
   mkField "timeouts.read_header" "timeout-read-header" "TIMEOUT_READ_HEADER" true;
   mkField "timeouts.read" "timeout-read" "TIMEOUT_READ" true;
   mkField "timeouts.write" "timeout-write" "TIMEOUT_WRITE" true;
   mkField "timeouts.idle" "timeout-idle" "TIMEOUT_IDLE" true;
   mkField "timeouts.dial" "timeout-dial" "TIMEOUT_DIAL" true;
   mkField "timeouts.response_header" "timeout-response-header" "TIMEOUT_RESPONSE_HEADER" true].
(** The maps that [init] fills. *)
Definition envToKey : gmap string string := foldl (λ m f, <[f_envName f := f_koanfKey f]> m) ∅ fieldSpecs.
Definition flagToKey : gmap string string := foldl (λ m f, <[f_flagName f := f_koanfKey f]> m) ∅ fieldSpecs.

Record jsonFieldSpec := mkJSONField { jf_koanfKey : string; jf_flagName : string; jf_envName : string }.
Definition jsonFieldSpecs : list jsonFieldSpec :=
  [mkJSONField "inbound.auth.jwt" "inbound-auth-jwt-json" "INBOUND_AUTH_JWT_JSON";
   mkJSONField "inbound.auth.saml" "inbound-auth-saml-json" "INBOUND_AUTH_SAML_JSON";
   mkJSONField "inbound.auth.basic" "inbound-auth-basic-json" "INBOUND_AUTH_BASIC_JSON";
   mkJSONField "inbound.auth.login_page" "inbound-auth-login-page-json" "INBOUND_AUTH_LOGIN_PAGE_JSON";
   mkJSONField "inbound.oauth_server" "inbound-oauth-server-json" "INBOUND_OAUTH_SERVER_JSON";
   mkJSONField "outbound.token" "outbound-token-json" "OUTBOUND_TOKEN_JSON";
   mkJSONField "outbound.prom_label_proxy" "outbound-prom-label-proxy-json" "OUTBOUND_PROM_LABEL_PROXY_JSON";
   mkJSONField "acl" "acl-json" "ACL_JSON"].

(** What a key holds, as it was loaded, or a map that several loads made. *)
Inductive kval := KString (s : string) | KDuration (d : Z) | KYaml (y : yaml) | KJson (j : json) | KMap (m : gmap string kval).
Definition kval_map (v : kval) : option (gmap string kval) :=
  match v with
  | KMap m => Some m
  | KYaml (YMap l) => Some (list_to_map ((λ kv, (kv.1, KYaml kv.2)) <$> l))
  | KYaml (YAnyMap l) => Some (list_to_map ((λ kv, (key_text kv.1, KYaml kv.2)) <$> l))
  | KJson (JObject l) => Some (KJson <$> obj_map l)
  | _ => None
  end.
(** koanf's merge: a map goes into the map that is there key by key, and anything else
    takes the place of what is there.  Of a key written twice the last counts. *)
Section merge_entries.
Context (merge : json → option kval → kval).
Fixpoint merge_entries (l : list (string * json)) (m : gmap string kval) : gmap string kval :=
  match l with
  | [] => m
  | (k, v) :: l =>
      let m' := merge_entries l m in
      if existsb (λ kv, unquote kv.1 =? unquote k) l then m' else <[unquote k := merge v (m !! unquote k)]> m'
  end.
End merge_entries.
Fixpoint merge_json (j : json) (below : option kval) : kval :=
  match j with
  | JObject l =>
      match below ≫= kval_map with
      | Some m => KMap (merge_entries merge_json l m)
      | None => KJson j
      end
  | _ => KJson j
  end.

(** A flag of a parsed set: its typed value, and the text of that value. *)
Record Flag := mkFlag { fl_Name : string; fl_Changed : bool; fl_Value : kval; fl_String : string }.
Definition FlagSet := list Flag.
Definition Flag_Lookup (fs : FlagSet) (name : string) : option Flag := find (λ f, fl_Name f =? name) fs.

(** The flags before the command line is parsed. *)
Definition RegisterFlags : FlagSet :=
  ((λ f, if f_duration f then mkFlag (f_flagName f) false (KDuration 0) "0s"
         else mkFlag (f_flagName f) false (KString "") "") <$> fieldSpecs) ++
  ((λ f, mkFlag (jf_flagName f) false (KString "") "") <$> jsonFieldSpecs).

(** An empty key is to be ignored. *)
Definition envKey (k v : string) : string * option kval :=
  match envToKey !! TrimPrefix k envPrefix with
  | Some key => (key, Some (KString v))
  | None => ("", None)
  end.
Definition flagKey (f : Flag) : string * option kval :=
  match flagToKey !! fl_Name f with
  | Some key => (key, Some (fl_Value f))
  | None => ("", None)
  end.

Class Koanf `{Crypto} `{Regexp} : Type := {
  koanf : Type;
  K_New : koanf;
  K_Load : list (string * yaml) → koanf → result koanf;                        (* a provider that read this *)
  K_LoadEnv : string → (string → string → string * option kval) → koanf → result koanf;  (* env.Provider *)
  K_LoadFlags : FlagSet → (Flag → string * option kval) → koanf → result koanf;          (* posflag.ProviderWithFlag *)
  K_Set : string → kval → koanf → result koanf;
  K_Get : string → koanf → option kval;
  K_Exists : string → koanf → bool;
  K_String : string → koanf → string;
  K_Roots : koanf → list string;                                               (* the keys of k.Raw() *)
  K_Unmarshal : koanf → result Config;
  K_UnmarshalOutbound : koanf → result OutboundConfig                          (* with ErrorUnused *)
}.
(** Is a JSON number a float64? *)
Class JSONFloat : Type := { float_ok : string → bool }.

Section sources.
Context {C : Crypto} {X : X509} {R : Regexp} {N : NetURL} {U : Unicode} {En : Env} {PM : PromModel} {Fs : FS} {Y : YAML}
  {K : Koanf} {JF : JSONFloat}.

(** * Overrides *)

Definition jsonOverrideValue (fs : option FlagSet) (spec : jsonFieldSpec) : option string :=
  let from_env := match LookupEnv (envPrefix +:+ jf_envName spec) with
                  | Some v => if v !=? "" then Some v else None
                  | None => None
                  end in
  match fs with
  | Some fs =>
      match Flag_Lookup fs (jf_flagName spec) with
      | Some f => if fl_Changed f && (fl_String f !=? "") then Some (fl_String f) else from_env
      | None => from_env
      end
  | None => from_env
  end.

(** [json.Unmarshal] into an [any]. *)
Fixpoint numbers_ok (j : json) : bool :=
  match j with
  | JNumber lit => float_ok lit
  | JArray l => forallb numbers_ok l
  | JObject l => forallb (λ kv, numbers_ok kv.2) l
  | _ => true
  end.
Definition Decode_any (j : json) : result json := if numbers_ok j then Ok j else Err errType.
Definition decodeJSONValue (spec : jsonFieldSpec) (raw : string) : result kval :=
  rmap KJson (rwrap "%s: invalid JSON: %w" [jf_koanfKey spec] (Unmarshal Decode_any raw)).

Fixpoint override_json (specs : list jsonFieldSpec) (k : koanf) (fs : option FlagSet) : result koanf :=
  match specs with
  | [] => Ok k
  | spec :: specs =>
      match jsonOverrideValue fs spec with
      | None => override_json specs k fs
      | Some raw =>
          let* parsed := decodeJSONValue spec raw in
          let* k := rwrap "%s: %w" [jf_koanfKey spec] (K_Set (jf_koanfKey spec) parsed k) in
          override_json specs k fs
      end
  end.
Definition loadJSONFieldOverrides (k : koanf) (fs : option FlagSet) : result koanf := override_json jsonFieldSpecs k fs.

Definition loadOverrides (k : koanf) (fs : FlagSet) : result koanf :=
  let* k := rwrap "read environment: %w" [] (K_LoadEnv envPrefix envKey k) in
  let* k := rwrap "read flags: %w" [] (K_LoadFlags fs flagKey k) in
  loadJSONFieldOverrides k (Some fs).

(** * Decoding *)

Definition rootKeys : list string :=
  ["config"; "listen_addr"; "target"; "target_ca_cert"; "timeouts"; "inbound"; "outbound"; "acl"].
Definition checkOutboundKeys (k : koanf) (cfg : Config) : result unit :=
  check* check_all (λ _ key, if bool_decide (key ∈ rootKeys) then Ok tt else Err (ErrorfA "unknown config key %q" [key])) 0 (K_Roots k) in
  if negb (K_Exists "outbound" k) then Ok tt
  else
    let* _ := rwrap "outbound: %w" [] (K_UnmarshalOutbound k) in
    fail_if K_Exists "outbound.prom_label_proxy" k && negb (bool_decide (is_Some (ob_PromLabelProxy (c_Outbound cfg))))
      with Errorf "outbound.prom_label_proxy: is empty, remove it or add rules" in
    Ok tt.
Definition decode (k : koanf) : result Config :=
  fail_if K_Exists "inbound.acl" k
    with Errorf "invalid config: inbound.acl is not a config key; acl belongs at the top level" in
  let* cfg := rwrap "parse config: %w" [] (K_Unmarshal k) in
  check* rwrap "invalid config: %w" [] (checkOutboundKeys k cfg) in
  rwrap "invalid config: %w" [] (Config_Validate (Config_applyDefaults cfg)).

(** The layers of [loadLayered], merged; a nil flag set is no override layer at all. *)
Definition merged (path : string) (fs : option FlagSet) : result koanf :=
  let* k := (if path !=? "" then
               let* m := rwrap "read config: %w" [] (interpolating_Read (newInterpolatingProvider path)) in
               rwrap "read config: %w" [] (K_Load m K_New)
             else Ok K_New) in
  match fs with Some fs => loadOverrides k fs | None => Ok k end.
Definition loadLayered (path : string) (fs : option FlagSet) : result Config :=
  let* k := merged path fs in decode k.

(** [ConfigPath], or the configuration that will never change. *)
Inductive Source := SourcePath (path : string) (fs : FlagSet) | SourceStatic (cfg : Config) (fs : FlagSet).
Definition Resolve (fs : FlagSet) : result Source :=
  let* k := loadOverrides K_New fs in
  let path := K_String "config" k in
  if path !=? "" then Ok (SourcePath path fs)
  else let* cfg := decode k in Ok (SourceStatic cfg fs).

Record StaticSource := NewStaticSource { ss_cfg : Config }.
Definition Static_Current (s : StaticSource) : Config := ss_cfg s.
End sources.

(** * The store, as it is documented *)

(** Keys that name different places, neither within the other. *)
Definition unrelated (a b : string) : Prop := a ≠ b ∧ HasPrefix a (b +:+ ".") = false ∧ HasPrefix b (a +:+ ".") = false.
#[export] Instance unrelated_dec a b : Decision (unrelated a b).
Proof. unfold unrelated. apply _. Defined.

Section laws.
Context {C : Crypto} {R : Regexp} {En : Env} {K : Koanf}.

(** A provider leaves the keys it does not mention as they were and sets those it
    does; a flag that was not given only fills in what is not there.  What is set at a key
    is merged with what is there. *)
Record koanf_laws : Prop := {
  law_env_absent tr k k' key : K_LoadEnv envPrefix tr k = Ok k' →
    (∀ name v, HasPrefix name envPrefix = true → LookupEnv name = Some v → (tr name v).1 = "" ∨ unrelated (tr name v).1 key) →
    K_Get key k' = K_Get key k;
  law_env_set tr k k' name v key x : K_LoadEnv envPrefix tr k = Ok k' →
    HasPrefix name envPrefix = true → LookupEnv name = Some v → tr name v = (key, Some x) → key ≠ "" →
    (∀ name' v', HasPrefix name' envPrefix = true → LookupEnv name' = Some v' → name' ≠ name →
       (tr name' v').1 = "" ∨ unrelated (tr name' v').1 key) →
    K_Get key k' = Some x;
  law_flags_absent fs cb k k' key : K_LoadFlags fs cb k = Ok k' →
    (∀ f, f ∈ fs → (cb f).1 = "" ∨ unrelated (cb f).1 key) → K_Get key k' = K_Get key k;
  law_flags_set fs cb k k' f key x : K_LoadFlags fs cb k = Ok k' → NoDup (fl_Name <$> fs) → f ∈ fs → cb f = (key, Some x) → key ≠ "" →
    (∀ f', f' ∈ fs → fl_Name f' ≠ fl_Name f → (cb f').1 = "" ∨ unrelated (cb f').1 key) →
    K_Get key k' = if fl_Changed f then Some x else match K_Get key k with Some y => Some y | None => Some x end;
  law_set_same key j k k' : K_Set key (KJson j) k = Ok k' → K_Get key k' = Some (merge_json j (K_Get key k));
  law_set_other key key' v k k' : K_Set key v k = Ok k' → unrelated key key' → K_Get key' k' = K_Get key' k
}.
End laws.

(** ** Merging *)

Lemma obj_map_absent l k : obj_map l !! k = None ↔ existsb (λ kv, unquote kv.1 =? k) l = false.
Proof.
  induction l as [|kv l IH] using rev_ind; [done|]. rewrite obj_map_snoc, existsb_app, orb_false_iff. cbn. rewrite orb_false_r.
  destruct (decide (unquote kv.1 = k)) as [E|E].
  - rewrite bool_decide_true, E, lookup_insert_eq by done. naive_solver.
  - rewrite bool_decide_false, lookup_insert_ne by done. naive_solver.
Qed.
Lemma obj_map_cons k v l : obj_map ((k, v) :: l) = match obj_map l !! unquote k with Some _ => obj_map l | None => <[unquote k := v]> (obj_map l) end.
Proof.
  induction l as [|kv l IH] using rev_ind; [done|]. rewrite app_comm_cons, !obj_map_snoc, IH.
  destruct (decide (unquote kv.1 = unquote k)) as [->|E].
  - rewrite lookup_insert_eq. destruct (obj_map l !! unquote k); [done|]. by rewrite insert_insert_eq.
  - rewrite lookup_insert_ne by done. destruct (obj_map l !! unquote k); [done|]. by rewrite insert_insert_ne.
Qed.
Lemma merge_entries_lookup merge l m k :
  merge_entries merge l m !! k = match obj_map l !! k with Some v => Some (merge v (m !! k)) | None => m !! k end.
Proof.
  induction l as [|[k0 v] l IH]; [done|]. cbn [merge_entries]. rewrite obj_map_cons.
  destruct (obj_map l !! unquote k0) as [v'|] eqn:E.
  - assert (existsb (λ kv, unquote kv.1 =? unquote k0) l = true) as ->; [|done].
    apply not_false_is_true. by intros H%obj_map_absent; rewrite E in H.
  - rewrite (proj1 (obj_map_absent _ _) E). destruct (decide (unquote k0 = k)) as [<-|Hk].
    + by rewrite !lookup_insert_eq.
    + by rewrite !lookup_insert_ne.
Qed.
(** An override of [below]: an object goes into a block key by key, and everything else
    replaces what was there. *)
Definition overlaid (j : json) (below : option kval) (v : kval) : Prop :=
  match j, below ≫= kval_map with
  | JObject l, Some m => ∃ m', v = KMap m' ∧ ∀ k, match obj_map l !! k with
      | Some x => m' !! k = Some (merge_json x (m !! k))
      | None => m' !! k = m !! k
      end
  | _, _ => v = KJson j
  end.
Lemma merge_overlaid j below : overlaid j below (merge_json j below).
Proof.
  unfold overlaid. destruct j as [| | | | |l]; try (by destruct (below ≫= kval_map)). cbn [merge_json].
  destruct (below ≫= kval_map) as [m|]; [|done]. eexists. split; [done|]. intros k. rewrite merge_entries_lookup. by destruct (obj_map l !! k).
Qed.

Lemma same_flag (fs : FlagSet) f g : NoDup (fl_Name <$> fs) → f ∈ fs → g ∈ fs → fl_Name f = fl_Name g → f = g.
Proof.
  intros Hd [i Hi]%list_elem_of_lookup [j Hj]%list_elem_of_lookup E. assert (i = j) as ->; [|congruence].
  eapply NoDup_lookup; [exact Hd|by rewrite list_lookup_fmap, Hi|]. rewrite list_lookup_fmap, Hj. cbn. congruence.
Qed.

(** ** The tables *)

Definition all_keys : list string := (f_koanfKey <$> fieldSpecs) ++ (jf_koanfKey <$> jsonFieldSpecs).
Lemma keys_unrelated a b : a ∈ all_keys → b ∈ all_keys → a = b ∨ unrelated a b.
Proof.
  assert (H : Forall (λ a, Forall (λ b, a = b ∨ unrelated a b) all_keys) all_keys)
    by (apply (bool_decide_unpack _); vm_compute; exact I).
  intros Ha Hb. eapply Forall_forall in H; [|exact Ha]. by eapply Forall_forall in H; [|exact Hb].
Qed.
Lemma field_key f : f ∈ fieldSpecs → f_koanfKey f ∈ all_keys.
Proof. intros Hf. apply elem_of_app. left. by apply list_elem_of_fmap_2. Qed.
Lemma json_key s : s ∈ jsonFieldSpecs → jf_koanfKey s ∈ all_keys.
Proof. intros Hf. apply elem_of_app. right. by apply list_elem_of_fmap_2. Qed.
Lemma field_json f s : f ∈ fieldSpecs → s ∈ jsonFieldSpecs → unrelated (jf_koanfKey s) (f_koanfKey f) ∧ unrelated (f_koanfKey f) (jf_koanfKey s).
Proof.
  assert (H : Forall (λ f, Forall (λ s, unrelated (jf_koanfKey s) (f_koanfKey f) ∧ unrelated (f_koanfKey f) (jf_koanfKey s)) jsonFieldSpecs) fieldSpecs)
    by (apply (bool_decide_unpack _); vm_compute; exact I).
  intros Ha Hb. eapply Forall_forall in H; [|exact Ha]. by eapply Forall_forall in H; [|exact Hb].
Qed.
Lemma field_key_nonempty f : f ∈ fieldSpecs → f_koanfKey f ≠ "".
Proof.
  assert (H : Forall (λ f, f_koanfKey f ≠ "") fieldSpecs) by (apply (bool_decide_unpack _); vm_compute; exact I).
  intros Hf. by eapply Forall_forall in H.
Qed.
(** A table read by name, each name once. *)
Lemma table_lookup {A} (name key : A → string) (l : list A) (m : gmap string string) n x :
  foldl (λ m f, <[name f := key f]> m) m l !! n = Some x → (∃ f, f ∈ l ∧ name f = n ∧ key f = x) ∨ m !! n = Some x.
Proof.
  revert m. induction l as [|f l IH]; intros m Hm; [by right|]. destruct (IH _ Hm) as [(g & H1 & H2)|H]; [left; set_solver|].
  destruct (decide (name f = n)) as [<-|Hn]; [|rewrite lookup_insert_ne in H by done; by right].
  rewrite lookup_insert_eq in H. left. exists f. set_solver.
Qed.
Lemma table_in {A} (name key : A → string) (l : list A) (m : gmap string string) f : NoDup (name <$> l) → f ∈ l →
  foldl (λ m f, <[name f := key f]> m) m l !! name f = Some (key f).
Proof.
  assert (Hkeep : ∀ l (m : gmap string string), name f ∉ (name <$> l) → foldl (λ m f, <[name f := key f]> m) m l !! name f = m !! name f).
  { induction l0 as [|g l0 IH]; intros m0 Hf; [done|]. cbn in *. rewrite IH by set_solver. by rewrite lookup_insert_ne by set_solver. }
  revert m. induction l as [|g l IH]; intros m Hd Hf; [by apply elem_of_nil in Hf|]. cbn in *. apply NoDup_cons in Hd as [Hg Hd].
  apply elem_of_cons in Hf as [<-|Hf]; [|by apply IH]. rewrite Hkeep by done. by rewrite lookup_insert_eq.
Qed.
Lemma env_names : NoDup (f_envName <$> fieldSpecs).
Proof. apply (bool_decide_unpack _). vm_compute. exact I. Qed.
Lemma flag_names : NoDup (f_flagName <$> fieldSpecs).
Proof. apply (bool_decide_unpack _). vm_compute. exact I. Qed.
Lemma koanf_keys f g : f ∈ fieldSpecs → g ∈ fieldSpecs → f_koanfKey f = f_koanfKey g → f = g.
Proof.
  assert (H : Forall (λ f, Forall (λ g, f_koanfKey f = f_koanfKey g →
      f_flagName f = f_flagName g ∧ f_envName f = f_envName g ∧ f_duration f = f_duration g) fieldSpecs) fieldSpecs)
    by (apply (bool_decide_unpack _); vm_compute; exact I).
  intros Hf Hg E. eapply Forall_forall in H; [|exact Hf]. eapply Forall_forall in H; [|exact Hg].
  destruct (H E) as (? & ? & ?), f, g; cbn in *; by subst.
Qed.
Lemma envKey_spec name v : (envKey name v).1 = "" ∨
  ∃ f, f ∈ fieldSpecs ∧ f_envName f = TrimPrefix name envPrefix ∧ envKey name v = (f_koanfKey f, Some (KString v)).
Proof.
  unfold envKey. destruct (envToKey !! _) as [key|] eqn:E; [right|by left].
  apply table_lookup in E as [(f & H1 & H2 & H3)|E]; [|done]. exists f. by rewrite H3.
Qed.
Lemma envKey_field f v : f ∈ fieldSpecs → envKey (envPrefix +:+ f_envName f) v = (f_koanfKey f, Some (KString v)).
Proof.
  intros Hf. unfold envKey, envToKey. rewrite TrimPrefix_app. by rewrite (table_in f_envName f_koanfKey _ _ _ env_names Hf).
Qed.
Lemma flagKey_spec f : (flagKey f).1 = "" ∨
  ∃ s, s ∈ fieldSpecs ∧ f_flagName s = fl_Name f ∧ flagKey f = (f_koanfKey s, Some (fl_Value f)).
Proof.
  unfold flagKey. destruct (flagToKey !! _) as [key|] eqn:E; [right|by left].
  apply table_lookup in E as [(s & H1 & H2 & H3)|E]; [|done]. exists s. by rewrite H3.
Qed.
Lemma flagKey_field f g : f ∈ fieldSpecs → fl_Name g = f_flagName f → flagKey g = (f_koanfKey f, Some (fl_Value g)).
Proof.
  intros Hf Hn. unfold flagKey, flagToKey. rewrite Hn. by rewrite (table_in f_flagName f_koanfKey _ _ _ flag_names Hf).
Qed.

(** * Which source wins *)

Section precedence.
Context {C : Crypto} {X : X509} {R : Regexp} {N : NetURL} {U : Unicode} {En : Env} {PM : PromModel} {Fs : FS} {Y : YAML}
  {K : Koanf} {JF : JSONFloat}.
Context (Hlaws : koanf_laws).

(** The environment over what is there. *)
Definition env_over (f : fieldSpec) (below : option kval) : option kval :=
  match LookupEnv (envPrefix +:+ f_envName f) with Some v => Some (KString v) | None => below end.
(** A flag over what is there: always when it was given, else only over nothing. *)
Definition flag_over (g : Flag) (below : option kval) : option kval :=
  if fl_Changed g then Some (fl_Value g) else match below with Some y => Some y | None => Some (fl_Value g) end.

Lemma env_layer k k' f : f ∈ fieldSpecs → K_LoadEnv envPrefix envKey k = Ok k' →
  K_Get (f_koanfKey f) k' = env_over f (K_Get (f_koanfKey f) k).
Proof.
  intros Hf Hk. unfold env_over. assert (Hother : ∀ name v, HasPrefix name envPrefix = true → name ≠ envPrefix +:+ f_envName f →
    (envKey name v).1 = "" ∨ unrelated (envKey name v).1 (f_koanfKey f)).
  { intros name v Hp Hne. destruct (envKey_spec name v) as [?|(g & Hg & Hn & ->)]; [by left|right]. cbn.
    destruct (keys_unrelated _ _ (field_key _ Hg) (field_key _ Hf)) as [E|?]; [|done].
    destruct Hne. apply HasPrefix_spec in Hp as [t ->]. rewrite TrimPrefix_app in Hn. by rewrite <- Hn, (koanf_keys g f). }
  destruct (LookupEnv (envPrefix +:+ f_envName f)) as [v|] eqn:E.
  - eapply (law_env_set Hlaws); [done|apply HasPrefix_app|done|by apply envKey_field|by apply field_key_nonempty|]. auto.
  - eapply (law_env_absent Hlaws); [done|]. intros name v Hp Hv. apply Hother; [done|congruence].
Qed.
Lemma env_layer_json k k' s : s ∈ jsonFieldSpecs → K_LoadEnv envPrefix envKey k = Ok k' →
  K_Get (jf_koanfKey s) k' = K_Get (jf_koanfKey s) k.
Proof.
  intros Hs Hk. eapply (law_env_absent Hlaws); [done|]. intros name v _ _.
  destruct (envKey_spec name v) as [?|(g & Hg & _ & ->)]; [by left|right]. by apply field_json.
Qed.
Lemma flag_layer fs k k' f g : NoDup (fl_Name <$> fs) → f ∈ fieldSpecs → g ∈ fs → fl_Name g = f_flagName f →
  K_LoadFlags fs flagKey k = Ok k' → K_Get (f_koanfKey f) k' = flag_over g (K_Get (f_koanfKey f) k).
Proof.
  intros Hd Hf Hg Hn Hk. unfold flag_over. eapply (law_flags_set Hlaws); [done..|by apply flagKey_field|by apply field_key_nonempty|].
  intros g' Hg' Hne. destruct (flagKey_spec g') as [?|(f' & Hf' & Hn' & ->)]; [by left|right]. cbn.
  destruct (keys_unrelated _ _ (field_key _ Hf') (field_key _ Hf)) as [E|?]; [|done]. destruct Hne.
  rewrite (koanf_keys f' f Hf' Hf E) in Hn'. congruence.
Qed.
Lemma flag_layer_json fs k k' s : s ∈ jsonFieldSpecs → K_LoadFlags fs flagKey k = Ok k' →
  K_Get (jf_koanfKey s) k' = K_Get (jf_koanfKey s) k.
Proof.
  intros Hs Hk. eapply (law_flags_absent Hlaws); [done|]. intros g _.
  destruct (flagKey_spec g) as [?|(f & Hf & _ & ->)]; [by left|right]. by apply field_json.
Qed.
(** What a structured field holds after its override. *)
Definition json_over (fs : option FlagSet) (s : jsonFieldSpec) (below : option kval) (got : option kval) : Prop :=
  match jsonOverrideValue fs s with
  | Some raw => ∃ j, Unmarshal Decode_any raw = Ok j ∧ got = Some (merge_json j below)
  | None => got = below
  end.
Lemma json_layer fs specs k k' key : override_json specs k fs = Ok k' →
  (∀ s, s ∈ specs → unrelated (jf_koanfKey s) key) → K_Get key k' = K_Get key k.
Proof.
  revert k. induction specs as [|s specs IH]; intros k Hk Hu; cbn [override_json] in Hk; [by injection Hk as ->|].
  destruct (jsonOverrideValue fs s) as [raw|]; [|apply IH; [done|set_solver]].
  apply rbind_ok in Hk as (v & _ & Hk). apply rbind_ok in Hk as (k1 & Hk1%rwrap_ok & Hk).
  rewrite (IH k1 Hk) by set_solver. eapply (law_set_other Hlaws); [done|set_solver].
Qed.
Lemma json_layer_in fs specs k k' s : NoDup (jf_koanfKey <$> specs) → (∀ s, s ∈ specs → s ∈ jsonFieldSpecs) → s ∈ specs →
  override_json specs k fs = Ok k' → json_over fs s (K_Get (jf_koanfKey s) k) (K_Get (jf_koanfKey s) k').
Proof.
  revert k. induction specs as [|s0 specs IH]; intros k Hd Hin Hs Hk; [by apply elem_of_nil in Hs|].
  cbn [override_json] in Hk. cbn in Hd. apply NoDup_cons in Hd as [Hs0 Hd].
  assert (Hrest : ∀ s1, s1 ∈ specs → unrelated (jf_koanfKey s1) (jf_koanfKey s0) ∧ unrelated (jf_koanfKey s0) (jf_koanfKey s1)).
  { intros s1 H1. split.
    - destruct (keys_unrelated _ _ (json_key s1 ltac:(set_solver)) (json_key s0 ltac:(set_solver))) as [E|?]; [|done].
      destruct Hs0. rewrite <- E. by apply list_elem_of_fmap_2.
    - destruct (keys_unrelated _ _ (json_key s0 ltac:(set_solver)) (json_key s1 ltac:(set_solver))) as [E|?]; [|done].
      destruct Hs0. rewrite E. by apply list_elem_of_fmap_2. }
  unfold json_over in *. apply elem_of_cons in Hs as [->|Hs].
  - destruct (jsonOverrideValue fs s0) as [raw|]; [|eapply json_layer; [done|intros s1 H1; by apply Hrest]].
    apply rbind_ok in Hk as (v & Hv & Hk). apply rbind_ok in Hk as (k1 & Hk1%rwrap_ok & Hk).
    unfold decodeJSONValue, rmap in Hv. apply rbind_ok in Hv as (j & Hj%rwrap_ok & [= <-]). exists j. split; [done|].
    rewrite (json_layer _ _ _ _ _ Hk) by (intros s1 H1; by apply Hrest). by eapply (law_set_same Hlaws).
  - destruct (jsonOverrideValue fs s0) as [raw|]; [|apply IH; [done|set_solver|done|done]].
    apply rbind_ok in Hk as (v & Hv & Hk). apply rbind_ok in Hk as (k1 & Hk1%rwrap_ok & Hk).
    rewrite <- (law_set_other Hlaws _ (jf_koanfKey s) _ _ _ Hk1) by (by apply Hrest). apply IH; [done|set_solver|done|done].
Qed.
Lemma json_names : NoDup (jf_koanfKey <$> jsonFieldSpecs).
Proof. apply (bool_decide_unpack _). vm_compute. exact I. Qed.
Lemma register_names : NoDup (fl_Name <$> RegisterFlags).
Proof. apply (bool_decide_unpack _). vm_compute. exact I. Qed.
End precedence.

(** * What is decoded *)

Section decoded.
Context {C : Crypto} {X : X509} {R : Regexp} {N : NetURL} {U : Unicode} {En : Env} {PM : PromModel} {Fs : FS} {Y : YAML}
  {K : Koanf} {JF : JSONFloat}.

Lemma Config_Validate_prom c c' : Config_Validate c = Ok c' →
  is_Some (ob_PromLabelProxy (c_Outbound c)) → is_Some (ob_PromLabelProxy (c_Outbound c')).
Proof.
  unfold Config_Validate. intros H [p Hp]. rewrite Hp in H. run_checks H. cbn.
  match goal with E : rmap Some _ = Ok _ |- _ => unfold rmap in E; apply rbind_ok in E as (? & _ & [= <-]) end. by eexists.
Qed.
(** What [decode] accepts. *)
Lemma decode_ok k cfg : decode k = Ok cfg → ∃ raw, K_Unmarshal k = Ok raw ∧ Config_Validate (Config_applyDefaults raw) = Ok cfg ∧
  K_Exists "inbound.acl" k = false ∧ checkOutboundKeys k raw = Ok tt.
Proof.
  unfold decode. destruct (K_Exists "inbound.acl" k); [done|].
  intros (raw & Hr%rwrap_ok & ([] & Hc%rwrap_ok & Hv%rwrap_ok)%rbind_ok)%rbind_ok. by exists raw.
Qed.
Lemma checkOutboundKeys_ok k cfg : checkOutboundKeys k cfg = Ok tt →
  Forall (λ key, key ∈ rootKeys) (K_Roots k) ∧
  (K_Exists "outbound" k = true → (∃ o, K_UnmarshalOutbound k = Ok o) ∧
     (K_Exists "outbound.prom_label_proxy" k = true → is_Some (ob_PromLabelProxy (c_Outbound cfg)))).
Proof.
  unfold checkOutboundKeys. intros ([] & Hroots & H)%rbind_ok. split.
  - apply check_all_Forall in Hroots. eapply Forall_impl; [exact Hroots|]. intros key Hk. cbn in Hk. by case_bool_decide.
  - intros Ho. rewrite Ho in H. cbn [negb] in H. apply rbind_ok in H as (o & Hu%rwrap_ok & H). split; [by exists o|].
    intros Hp. rewrite Hp in H. cbn [andb] in H. by case_bool_decide.
Qed.
End decoded.

(** * Properties *)

(** C29: which source wins. Of a field of the table, the merged store holds the
    flag's value when the flag was given; else its environment variable, when it is
    set; else what was there, of the file; else the flag's default. Of a structured
    field it holds what was there unless there is an override, a flag given with a text or
    else a variable that is not empty; an override is JSON, or the load fails. A list, and
    an object where there was no block, replace what was there; an object is merged into
    the block that was, the keys it does not mention staying as they were. *)
Theorem loadOverrides_precedence {C : Crypto} {X : X509} {R : Regexp} {N : NetURL} {U : Unicode} {En : Env} {PM : PromModel}
    {Fs : FS} {Y : YAML} {K : Koanf} {JF : JSONFloat} fs k k'
    (Hlaws : koanf_laws) (Hfs : fl_Name <$> fs = fl_Name <$> RegisterFlags) (Hrun : loadOverrides k fs = Ok k') :
  (∀ f, f ∈ fieldSpecs → ∃ g, g ∈ fs ∧ fl_Name g = f_flagName f ∧
     K_Get (f_koanfKey f) k' = flag_over g (env_over f (K_Get (f_koanfKey f) k))) ∧
  (∀ s, s ∈ jsonFieldSpecs → let below := K_Get (jf_koanfKey s) k in
     match jsonOverrideValue (Some fs) s with
     | Some raw => ∃ j v, Unmarshal Decode_any raw = Ok j ∧ K_Get (jf_koanfKey s) k' = Some v ∧ overlaid j below v
     | None => K_Get (jf_koanfKey s) k' = below
     end).
Proof.
  apply rbind_ok in Hrun as (k1 & H1%rwrap_ok & (k2 & H2%rwrap_ok & H3)%rbind_ok). split.
  - intros f Hf. assert (Hin : f_flagName f ∈ fl_Name <$> fs).
    { rewrite Hfs. apply list_elem_of_fmap. eexists. split; [|apply elem_of_app; left; by apply list_elem_of_fmap_2].
      cbn beta. by case_match. }
    apply list_elem_of_fmap in Hin as (g & Hn & Hg). exists g. split_and!; [done|done|].
    rewrite (json_layer Hlaws _ _ _ _ _ H3) by (intros; by apply field_json).
    rewrite (flag_layer Hlaws fs _ _ f g) by (rewrite ?Hfs; done || apply register_names). by rewrite (env_layer Hlaws k k1 f).
  - intros s Hs. cbn zeta. rewrite <- (env_layer_json Hlaws _ _ _ Hs H1), <- (flag_layer_json Hlaws _ _ _ _ Hs H2).
    assert (Hj : json_over (Some fs) s (K_Get (jf_koanfKey s) k2) (K_Get (jf_koanfKey s) k'))
      by (eapply json_layer_in; [done|apply json_names|done|done|exact H3]).
    unfold json_over in Hj. destruct (jsonOverrideValue (Some fs) s) as [raw|]; [|done]. destruct Hj as (j & Hj & ->).
    exists j, (merge_json j (K_Get (jf_koanfKey s) k2)). split_and!; [done..|]. apply merge_overlaid.
Qed.

(** C28: what a configuration is decoded from. Whatever the sources, one is
    published only if the document's decoding, with its defaults, passed validation,
    its access rules are not where they would be ignored, every key at the top is
    known, and every key under outbound is: and when label enforcement is mentioned
    there it is on. *)
Theorem decode_enforces {C : Crypto} {X : X509} {R : Regexp} {N : NetURL} {U : Unicode} {En : Env} {PM : PromModel} {Fs : FS}
    {Y : YAML} {K : Koanf} {JF : JSONFloat} k cfg (Hdecode : decode k = Ok cfg) :
  (∃ raw, K_Unmarshal k = Ok raw ∧ Config_Validate (Config_applyDefaults raw) = Ok cfg) ∧
  K_Exists "inbound.acl" k = false ∧ Forall (λ key, key ∈ rootKeys) (K_Roots k) ∧
  (K_Exists "outbound" k = true → (∃ o, K_UnmarshalOutbound k = Ok o) ∧
     (K_Exists "outbound.prom_label_proxy" k = true → is_Some (ob_PromLabelProxy (c_Outbound cfg)))).
Proof.
  apply decode_ok in Hdecode as (raw & Hu & Hv & Ha & (Hr & Ho)%checkOutboundKeys_ok).
  split_and!; [by exists raw|done|done|]. intros [H1 H2]%Ho. split; [done|]. intros Hp%H2. by eapply Config_Validate_prom.
Qed.

(** ** A concrete store *)

(** Flat keys; one variable is set, to "https://env". *)
Definition demo_var_env : Env := {| LookupEnv n := if n =? "TAP_TARGET" then Some "https://env" else @LookupEnv demo_env n |}.
Definition demo_flag (cb : Flag → string * option kval) (k : gmap string kval) (f : Flag) : option (string * kval) :=
  match cb f with
  | (key, Some x) => if negb (key =? "") && (fl_Changed f || negb (bool_decide (is_Some (k !! key)))) then Some (key, x) else None
  | _ => None
  end.
Definition demo_koanf : @Koanf demo_crypto demo_regexp :=
  {| koanf := gmap string kval;
     K_New := ∅;
     K_Load m k := Ok (foldl (λ k kv, <[kv.1 := KYaml kv.2]> k) k m);
     K_LoadEnv pre tr k := Ok (match tr "TAP_TARGET" "https://env" with
                               | (key, Some x) => if HasPrefix "TAP_TARGET" pre && (key !=? "") then <[key := x]> k else k
                               | _ => k
                               end);
     K_LoadFlags fs cb k := Ok (list_to_map (omap (demo_flag cb k) fs) ∪ k);
     K_Set key v k := Ok (<[key := match v with KJson j => merge_json j (k !! key) | _ => v end]> k);
     K_Get key k := k !! key;
     K_Exists key k := bool_decide (is_Some (k !! key));
     K_String key k := match k !! key with Some (KString s) => s | _ => "" end;
     K_Roots k := (λ kv, (Cut kv.1 ".").1.1) <$> map_to_list k;
     K_Unmarshal k := Ok demo_raw;
     K_UnmarshalOutbound k := Ok (@c_Outbound demo_crypto demo_regexp demo_raw) |}.
Lemma demo_flag_some cb k f key x : demo_flag cb k f = Some (key, x) ↔
  cb f = (key, Some x) ∧ key ≠ "" ∧ (fl_Changed f = true ∨ k !! key = None).
Proof.
  unfold demo_flag. destruct (cb f) as [key' [x'|]]; [|naive_solver].
  destruct (decide (key' = "")) as [->|Hk]; [rewrite bool_decide_true by done; cbn; naive_solver|].
  rewrite bool_decide_false by done. cbn [negb andb]. destruct (fl_Changed f) eqn:Ec; cbn [orb]; [naive_solver|].
  destruct (k !! key') eqn:E; [rewrite bool_decide_true by eauto|rewrite bool_decide_false by (by intros [? ?])]; cbn [negb].
  - split; [done|]. intros ([= <- <-] & _ & [?|?]); congruence.
  - split; [intros [= <- <-]; auto|]. by intros ([= <- <-] & _).
Qed.
#[local] Arguments HasPrefix : simpl never.
Lemma demo_laws : @koanf_laws demo_crypto demo_regexp demo_var_env demo_koanf.
Proof.
  constructor; cbn [K_LoadEnv K_LoadFlags K_Set K_Get demo_koanf LookupEnv demo_var_env].
  - intros tr k k' key [= <-] H. destruct (tr "TAP_TARGET" "https://env") as [key' [x|]] eqn:E; [|done].
    destruct (H "TAP_TARGET" "https://env" eq_refl eq_refl) as [H1|[H1 _]]; rewrite E in H1; cbn in H1;
      [subst; by rewrite bool_decide_true|]. case_match; [by rewrite lookup_insert_ne|done].
  - intros tr k k' name v key x [= <-] Hp Hv Ht Hne _. case_bool_decide as Hn.
    + subst name. injection Hv as <-. rewrite Ht, bool_decide_false by done.
      change (HasPrefix "TAP_TARGET" envPrefix) with true. cbn [andb negb]. by rewrite lookup_insert_eq.
    + cbn in Hv. case_bool_decide as Hk; [by subst name|done].
  - intros fs cb k k' key [= <-] H. rewrite lookup_union_r; [done|]. apply not_elem_of_list_to_map_1.
    intros ([key' x] & -> & (f & Hf & (Hc & Hne & _)%demo_flag_some)%list_elem_of_omap)%list_elem_of_fmap.
    destruct (H f Hf) as [E|[E _]]; by rewrite Hc in E.
  - intros fs cb k k' f key x [= <-] Hd Hf Hc Hne Ho.
    assert (Hin : ∀ x', (key, x') ∈ omap (demo_flag cb k) fs → x' = x ∧ (fl_Changed f = true ∨ k !! key = None)).
    { intros x' (g & Hg & (Hgc & _ & Hga)%demo_flag_some)%list_elem_of_omap.
      destruct (decide (fl_Name g = fl_Name f)) as [E|E].
      - apply (same_flag fs) in E as ->; [|done..]. split; [congruence|done].
      - by destruct (Ho g Hg E) as [H|[H _]]; rewrite Hgc in H. }
    assert (Hout : fl_Changed f = true ∨ k !! key = None → ((list_to_map (omap (demo_flag cb k) fs) : gmap string kval) ∪ (k : gmap string kval)) !! key = Some x).
    { intros Ha. apply lookup_union_Some_l, elem_of_list_to_map_1'; [by intros x' [-> _]%Hin|].
      apply list_elem_of_omap. exists f. split; [done|]. by apply demo_flag_some. }
    destruct (fl_Changed f); [by apply Hout; left|]. clear Hc.
    match goal with |- _ = match ?o with _ => _ end => destruct o as [y|] eqn:E; [|apply Hout; right; exact E] end.
    rewrite lookup_union_r; [done|]. apply not_elem_of_list_to_map_1. intros ([key' x'] & -> & [_ [?|Hn]]%Hin)%list_elem_of_fmap; [done|].
    pose proof (eq_trans (eq_sym E) Hn). done.
  - intros key j k k' [= <-]. by rewrite lookup_insert_eq.
  - intros key key' v k k' [= <-] [Hne _]. by rewrite lookup_insert_ne.
Qed.
#[local] Existing Instances demo_crypto demo_x509 demo_regexp demo_neturl ascii_unicode demo_var_env demo_prom demo_fs demo_yaml
  demo_koanf.
Definition demo_float : JSONFloat := {| float_ok _ := true |}.
#[local] Existing Instance demo_float.

(** A target on the command line beats the variable, which beats the file; the
    ACL of the command line replaces the file's, and its Basic source is merged into the
    file's. *)
Definition demo_override : json := JObject [("realm", JString "new")].
Definition demo_flags (given : bool) : FlagSet :=
  (λ f, if fl_Name f =? "target" then mkFlag (fl_Name f) given (KString (if given then "https://flag" else "")) ""
        else if fl_Name f =? "acl-json" then mkFlag (fl_Name f) true (KString "[]") "[]"
        else if fl_Name f =? "inbound-auth-basic-json"
        then mkFlag (fl_Name f) true (KString (Marshal demo_override)) (Marshal demo_override)
        else f) <$> RegisterFlags.
Definition demo_users : yaml := YList [YMap [("username", YString "bob")]].
Definition demo_file : koanf :=
  ({["target" := KYaml (YString "https://file"); "listen_addr" := KYaml (YString ":1"); "acl" := KYaml (YList []);
     "inbound.auth.basic" := KYaml (YMap [("realm", YString "old"); ("users", demo_users)])]} : gmap string kval).
Definition demo_merged (given : bool) : koanf :=
  match loadOverrides demo_file (demo_flags given) with Ok k => k | Err _ => demo_file end.
Lemma loadOverrides_precedence_witness :
  K_Get "target" (demo_merged true) = Some (KString "https://flag") ∧
  K_Get "target" (demo_merged false) = Some (KString "https://env") ∧
  K_Get "listen_addr" (demo_merged false) = Some (KYaml (YString ":1")) ∧
  (∃ v, K_Get "inbound.auth.basic" (demo_merged true) = Some v ∧
     overlaid demo_override (Some (KYaml (YMap [("realm", YString "old"); ("users", demo_users)]))) v).
Proof.
  split; [vm_compute; reflexivity|split; [vm_compute; reflexivity|split; [vm_compute; reflexivity|]]].
  assert (E : loadOverrides demo_file (demo_flags true) = Ok (demo_merged true)) by (vm_compute; reflexivity).
  destruct (loadOverrides_precedence (demo_flags true) demo_file (demo_merged true) demo_laws ltac:(vm_compute; reflexivity) E) as [_ H].
  assert (Hin : mkJSONField "inbound.auth.basic" "inbound-auth-basic-json" "INBOUND_AUTH_BASIC_JSON" ∈ jsonFieldSpecs)
    by (unfold jsonFieldSpecs; do 2 right; left).
  specialize (H _ Hin). cbn zeta in H.
  destruct (jsonOverrideValue _ _) as [raw|] eqn:Hraw in H; [|vm_compute in Hraw; discriminate Hraw].
  assert (raw = Marshal demo_override) as -> by (vm_compute in Hraw |- *; congruence).
  destruct H as (j & v & Hj & Hv & Ho).
  assert (Ej : Unmarshal Decode_any (Marshal demo_override) = Ok demo_override) by (vm_compute; reflexivity).
  rewrite Ej in Hj. injection Hj as <-. exists v. split; [exact Hv|exact Ho].
Defined.
(** What [Set] is given for a block is not all that the block then holds: the override
    says nothing of users, and those of the file are still there. *)
Lemma override_merges :
  (K_Get "inbound.auth.basic" (demo_merged true) ≫= kval_map) =
    Some {["realm" := KJson (JString "new"); "users" := KYaml demo_users]}.
Proof. vm_compute. reflexivity. Qed.
Lemma decode_enforces_witness : decode (demo_merged false) = Ok demo_config ∧ ∃ raw, Config_Validate (Config_applyDefaults raw) = Ok demo_config.
Proof.
  assert (E : decode (demo_merged false) = Ok demo_config) by (vm_compute; reflexivity).
  split; [exact E|]. destruct (decode_enforces _ _ E) as [(raw & _ & H) _]. exists raw. exact H.
Defined.
