(* ===== verification/Watcher.v ===== *)
(** [internal/config/watcher.go]: the configuration that is live, and the loop that
    keeps it so.

    The loop is a transition system over time.  What the disk holds is a function of
    time, and so is whether the directory can be watched; loading takes no time.  Time
    passes only while no case of the [select] is ready.  Events of the directory wait
    in the watch until they are taken. *)
From S2P Require Import Prelude GoStrings ConfigTypes ConfigAuth ConfigMain GoJSON Interpolate Source.

Definition defaultDebounce : Z := 150000000.
Definition dirRetryBackoff : Z := 1000000000.

Section watcher.
Context {C : Crypto} {X : X509} {R : Regexp} {N : NetURL} {U : Unicode} {En : Env} {PM : PromModel} {Y : YAML} {K : Koanf}
  {JF : JSONFloat}.
(** The disk, [fsnotify.NewWatcher], and [fsw.Add(dir)] at a time. *)
Variables (disk : Z → FS) (fsnotify_New : result unit) (fsw_Add : Z → result unit).
Variables (path : string) (fs : option FlagSet).

Definition load_at (t : Z) : result Config := @loadLayered _ _ _ _ _ _ _ (disk t) _ _ _ path fs.

(** Where the loop is: at its [select], in [retryAddDir] until a tick, or returned. *)
Inductive loop := Selecting | Retrying (tick : Z) | Stopped.
Record Watcher := mkWatcher {
  wt_now : Z; wt_current : Config; wt_reloadN : Z;
  wt_warned : bool;                (* a restart was asked for *)
  wt_timerC : option Z;            (* when the timer fires, if its channel is selected on *)
  wt_events : nat; wt_canceled : bool; wt_closed : bool; wt_loop : loop
}.

(** Loading comes first, then the watch. *)
Definition NewWatcher (t : Z) : result Watcher :=
  let* cfg := load_at t in
  check* rwrap "create file watcher: %w" [] fsnotify_New in
  check* rwrap "watch config directory %s: %w" [filepath_Dir path] (fsw_Add t) in
  Ok (mkWatcher t cfg 0 false None 0 false false Selecting).
Definition Watcher_Current (w : Watcher) : Config := wt_current w.
Definition ReloadCount (w : Watcher) : Z := wt_reloadN w.

#[global] Instance TimeoutConfig_dec : EqDecision TimeoutConfig.
Proof. solve_decision. Defined.
(** Changes that only a restart applies. *)
Definition restart_needed (prev next : Config) : bool :=
  (c_ListenAddr prev !=? c_ListenAddr next) || (c_Timeouts prev !=? c_Timeouts next) ||
  (c_TargetCACert prev !=? c_TargetCACert next).
Definition reload (w : Watcher) : Watcher :=
  match load_at (wt_now w) with
  | Err _ => w
  | Ok next =>
      mkWatcher (wt_now w) next (wt_reloadN w + 1) (wt_warned w || restart_needed (wt_current w) next)
        (wt_timerC w) (wt_events w) (wt_canceled w) (wt_closed w) (wt_loop w)
  end.

Definition with_timer (d : option Z) (n : nat) (w : Watcher) : Watcher :=
  mkWatcher (wt_now w) (wt_current w) (wt_reloadN w) (wt_warned w) d n (wt_canceled w) (wt_closed w) (wt_loop w).
Definition with_loop (l : loop) (w : Watcher) : Watcher :=
  mkWatcher (wt_now w) (wt_current w) (wt_reloadN w) (wt_warned w) (wt_timerC w) (wt_events w) (wt_canceled w) (wt_closed w) l.
Definition with_now (t : Z) (w : Watcher) : Watcher :=
  mkWatcher t (wt_current w) (wt_reloadN w) (wt_warned w) (wt_timerC w) (wt_events w) (wt_canceled w) (wt_closed w) (wt_loop w).
Definition cancel (w : Watcher) : Watcher :=
  mkWatcher (wt_now w) (wt_current w) (wt_reloadN w) (wt_warned w) (wt_timerC w) (wt_events w) true (wt_closed w) (wt_loop w).
(** [Close]: the channels of the watch are closed. *)
Definition Watcher_Close (w : Watcher) : Watcher :=
  mkWatcher (wt_now w) (wt_current w) (wt_reloadN w) (wt_warned w) (wt_timerC w) (wt_events w) (wt_canceled w) true (wt_loop w).

(** The case of an event: it is taken, and the timer starts over. *)
Definition resetDebounce (w : Watcher) : Watcher := with_timer (Some (wt_now w + defaultDebounce)%Z) (pred (wt_events w)) w.
(** [fsw.Add(dir)]: a closed watch cannot be added to. *)
Definition watched (w : Watcher) : bool := negb (wt_closed w) && is_ok (fsw_Add (wt_now w)).
(** The case of the timer. *)
Definition fire (w : Watcher) : Watcher :=
  let w := reload (with_timer None (wt_events w) w) in
  if watched w then w else with_loop (Retrying (wt_now w + dirRetryBackoff)%Z) w.
(** A tick of [retryAddDir]. *)
Definition retryAddDir (tick : Z) (w : Watcher) : Watcher :=
  with_loop (if watched w then Selecting else Retrying (tick + dirRetryBackoff)%Z) w.

(** No case is ready before [t]. *)
Definition quiet_until (w : Watcher) (t : Z) : Prop :=
  match wt_loop w with
  | Stopped => True
  | Retrying tick => wt_canceled w = false ∧ (t ≤ tick)%Z
  | Selecting => wt_canceled w = false ∧ wt_closed w = false ∧ wt_events w = 0 ∧ ∀ d, wt_timerC w = Some d → (t ≤ d)%Z
  end.

Inductive label := Passes | Arrives | Taken | Warned | Fired (t : Z) | Retried | Canceled | Closed | Returned.
(** The steps of [Start], of time and of what happens around it. *)
Inductive wstep : Watcher → label → Watcher → Prop :=
| step_pass w t : (wt_now w < t)%Z → quiet_until w t → wstep w Passes (with_now t w)
| step_arrive w : wstep w Arrives (with_timer (wt_timerC w) (S (wt_events w)) w)
| step_event w : wt_loop w = Selecting → 0 < wt_events w → wstep w Taken (resetDebounce w)
| step_warn w : wt_loop w = Selecting → wstep w Warned w
| step_fire w d : wt_loop w = Selecting → wt_timerC w = Some d → (d ≤ wt_now w)%Z → wstep w (Fired (wt_now w)) (fire w)
| step_retry w tick : wt_loop w = Retrying tick → (tick ≤ wt_now w)%Z → wstep w Retried (retryAddDir tick w)
| step_cancel w : wstep w Canceled (cancel w)
| step_leave w tick : wt_loop w = Retrying tick → wt_canceled w = true → wstep w Retried (with_loop Selecting w)
| step_close w : wstep w Closed (Watcher_Close w)
| step_return w : wt_loop w = Selecting → wt_canceled w = true ∨ wt_closed w = true →
    wstep w Returned (Watcher_Close (with_loop Stopped w)).
Inductive run (w : Watcher) : list label → Watcher → Prop :=
| run_nil : run w [] w
| run_snoc tr w1 l w2 : run w tr w1 → wstep w1 l w2 → run w (tr ++ [l]) w2.

(** * Lemmas *)

(** What a sequence of reloads publishes over a configuration. *)
Definition publish (cfg : Config) (l : label) : Config :=
  match l with Fired t => match load_at t with Ok c => c | Err _ => cfg end | _ => cfg end.
Definition counted (n : Z) (l : label) : Z :=
  match l with Fired t => if is_ok (load_at t) then n + 1 else n | _ => n end.

(** The timer is due within the debounce, the next tick within the backoff. *)
Definition timely (w : Watcher) : Prop :=
  (∀ d, wt_timerC w = Some d → wt_loop w ≠ Stopped → (wt_now w ≤ d ≤ wt_now w + defaultDebounce)%Z) ∧
  ∀ tick, wt_loop w = Retrying tick → wt_timerC w = None ∧ (wt_now w ≤ tick ≤ wt_now w + dirRetryBackoff)%Z.

Lemma fire_fields w : wt_now (fire w) = wt_now w ∧ wt_timerC (fire w) = None ∧ wt_events (fire w) = wt_events w ∧
  wt_canceled (fire w) = wt_canceled w ∧ wt_closed (fire w) = wt_closed w ∧ wt_current (fire w) = publish (wt_current w) (Fired (wt_now w)) ∧
  wt_reloadN (fire w) = counted (wt_reloadN w) (Fired (wt_now w)) ∧
  wt_loop (fire w) = if watched w then wt_loop w else Retrying (wt_now w + dirRetryBackoff)%Z.
Proof.
  unfold fire, reload, publish, counted. change (wt_now (with_timer None (wt_events w) w)) with (wt_now w).
  destruct (load_at (wt_now w)); unfold watched; cbn [wt_now wt_closed is_ok with_timer]; destruct (negb _ && _); done.
Qed.
Lemma wstep_published w l w' : wstep w l w' → wt_current w' = publish (wt_current w) l ∧ wt_reloadN w' = counted (wt_reloadN w) l ∧
  (wt_now w ≤ wt_now w')%Z.
Proof.
  destruct 1; cbn; try (split_and!; [done|done|lia]). destruct (fire_fields w) as (-> & _ & _ & _ & _ & -> & -> & _).
  split_and!; [done|done|lia].
Qed.
Lemma run_published w tr w' : run w tr w' → wt_current w' = foldl publish (wt_current w) tr ∧
  wt_reloadN w' = foldl counted (wt_reloadN w) tr ∧ (wt_now w ≤ wt_now w')%Z.
Proof.
  induction 1 as [|tr w1 l w2 _ (IH1 & IH2 & IH3) Hs]; [done|]. apply wstep_published in Hs as (H1 & H2 & H3).
  rewrite !foldl_app. cbn. rewrite <- IH1, <- IH2. split_and!; [done|done|lia].
Qed.
Lemma wstep_timely w l w' : timely w → wstep w l w' → timely w'.
Proof.
  intros [Ht Hr] Hs. destruct Hs as [w t Hlt Hq|w|w Hl Hn|w Hl|w d Hl Hd Hle|w tick Hl Hle|w|w tick Hl Hc|w|w Hl Hc]; split; cbn in *; try done.
  - intros d Hd Hl. destruct (Ht d Hd Hl) as [H1 H2]. unfold quiet_until in Hq. destruct (wt_loop w) eqn:El; [|by destruct (Hr _ eq_refl); congruence|done].
    destruct Hq as (_ & _ & _ & Hq). specialize (Hq d Hd). lia.
  - intros tick El. destruct (Hr _ El) as [H1 H2]. unfold quiet_until in Hq. rewrite El in Hq. split; [done|]. lia.
  - intros d [= <-] _. unfold defaultDebounce. lia.
  - intros tick El. congruence.
  - destruct (fire_fields w) as (_ & -> & _). done.
  - destruct (fire_fields w) as (-> & -> & _ & _ & _ & _ & _ & ->). intros tick E. destruct (watched _); [congruence|].
    injection E as <-. unfold dirRetryBackoff. split; [done|lia].
  - intros d Hd. destruct (Hr _ Hl). congruence.
  - intros tick' E. destruct (Hr _ Hl) as [H1 H2]. destruct (watched _); [done|]. injection E as <-. unfold dirRetryBackoff in *. split; [done|lia].
  - intros d Hd. destruct (Hr _ Hl). congruence.
Qed.
Lemma run_timely w tr w' : timely w → run w tr w' → timely w'.
Proof. induction 2; [done|]. by eapply wstep_timely. Qed.
(** The loop has something to reload for, at [due]. *)
Definition waiting (due : Z) (w : Watcher) : Prop :=
  wt_loop w = Selecting ∧ wt_canceled w = false ∧ wt_closed w = false ∧ timely w ∧ (wt_now w ≤ due)%Z ∧
  (0 < wt_events w ∧ due = (wt_now w + defaultDebounce)%Z ∨ wt_events w = 0 ∧ wt_timerC w = Some due).
(** And nothing any more. *)
Definition settled (w : Watcher) : Prop :=
  wt_loop w = Selecting ∧ wt_canceled w = false ∧ wt_closed w = false ∧ wt_events w = 0 ∧ wt_timerC w = None.

Definition disturbs (l : label) : bool := match l with Arrives | Canceled | Closed => true | _ => false end.
Definition undisturbed (tr : list label) : Prop := Forall (λ l, disturbs l = false) tr.

Section watched.
(** The directory can be watched. *)
Hypothesis Hwatch : ∀ t, is_ok (fsw_Add t) = true.

Lemma waiting_step due w l w' : waiting due w → wstep w l w' → disturbs l = false →
  waiting due w' ∨ settled w' ∧ l = Fired due.
Proof.
  intros Hw Hs Hu. pose proof Hw as (Hl & Hc & Hcl & Ht & Hn & Hd). pose proof (wstep_timely _ _ _ Ht Hs) as Ht'.
  destruct Hs as [w t Hlt Hq|w|w _ Hn'|w _|w d _ Hdd Hle|w tick Hl' Hle|w|w tick Hl' Hc'|w|w _ [Hc'|Hc']]; try congruence; try done.
  - left. unfold quiet_until in Hq. rewrite Hl in Hq. destruct Hq as (_ & _ & He & Hq).
    destruct Hd as [[? _]|[_ Hd]]; [lia|]. specialize (Hq _ Hd). split_and!; [done|done|done|done|cbn; lia|]. by right.
  - left. destruct Hd as [[Hd ->]|[? _]]; [|lia].
    split_and!; [done|done|done|done|cbn; unfold defaultDebounce; lia|]. cbn.
    destruct (wt_events w) as [|[|n]]; [lia|by right|left; split; [lia|done]].
  - by left.
  - destruct (fire_fields w) as (Enow & Et & Ee & Ec & Ecl & _ & _ & El).
    unfold watched in El. rewrite Hcl, Hwatch, Hl in El. cbn in El.
    destruct Hd as [[Hd ->]|[Hd Hdue]].
    + left. split_and!; [done|congruence|congruence|done|lia|]. left. rewrite Ee, Enow. done.
    + right. split; [split_and!; congruence|]. f_equal. assert (d = due) as -> by congruence. lia.
Qed.
Lemma settled_step w l w' : settled w → wstep w l w' → disturbs l = false → settled w' ∧ ∀ t, l ≠ Fired t.
Proof.
  intros (Hl & Hc & Hcl & He & Ht) Hs Hu. destruct Hs as [| | | | | | | | |w _ [H|H]]; try congruence; try lia; try done.
Qed.
Lemma waiting_run due w tr w' : waiting due w → run w tr w' → undisturbed tr →
  waiting due w' ∨ settled w' ∧ ∃ tr1 tr2, tr = tr1 ++ Fired due :: tr2 ∧ ∀ t, Fired t ∉ tr2.
Proof.
  intros Hw. induction 1 as [|tr w1 l w2 Hr IH Hs]; [by left|]. intros [Hu Hl0]%Forall_app.
  assert (Hl : disturbs l = false) by by inversion Hl0. clear Hl0.
  destruct (IH Hu) as [IH'|(IH' & tr1 & tr2 & -> & Hf)].
  - destruct (waiting_step _ _ _ _ IH' Hs Hl) as [?|[? ->]]; [by left|right]. split; [done|].
    exists tr, []. split; [done|]. intros t ?%elem_of_nil. done.
  - right. destruct (settled_step _ _ _ IH' Hs Hl) as [? Hn]. split; [done|]. exists tr1, (tr2 ++ [l]).
    split; [by rewrite <- app_assoc|]. intros t [?|E%list_elem_of_singleton]%elem_of_app; [by apply (Hf t)|by apply (Hn t)].
Qed.
(** The reload is reached. *)
Lemma run_app w tr1 w1 tr2 w2 : run w tr1 w1 → run w1 tr2 w2 → run w (tr1 ++ tr2) w2.
Proof. intros H1. induction 1; [by rewrite app_nil_r|]. rewrite app_assoc. by econstructor. Qed.
Lemma waiting_reaches due w : waiting due w → ∃ tr w', run w tr w' ∧ undisturbed tr ∧ settled w' ∧ wt_now w' = due.
Proof.
  remember (wt_events w) as n eqn:Hn. revert w Hn. induction n as [|n IH]; intros w Hn Hw.
  - destruct Hw as (Hl & Hc & Hcl & Ht & Hle & [[? _]|[_ Hd]]); [lia|].
    assert (Hfire : ∀ w0, wt_loop w0 = Selecting → wt_canceled w0 = false → wt_closed w0 = false → wt_events w0 = 0 → wt_timerC w0 = Some due → wt_now w0 = due →
      ∃ w', wstep w0 (Fired due) w' ∧ settled w' ∧ wt_now w' = due).
    { intros w0 H1 H2 Hcl0 H3 H4 H5. exists (fire w0). destruct (fire_fields w0) as (Enow & Et & Ee & Ec & Ecl & _ & _ & El).
      unfold watched in El. rewrite Hcl0, Hwatch in El. cbn in El. split_and!; [rewrite <- H5 at 1; eapply step_fire; [done..|lia]|split_and!; congruence|congruence]. }
    destruct (decide (wt_now w = due)) as [Hnow|Hnow].
    + destruct (Hfire w Hl Hc Hcl (eq_sym Hn) Hd Hnow) as (w' & Hs & H1 & H2). exists ([] ++ [Fired due]), w'.
      split_and!; [by econstructor; [constructor|]|by repeat constructor|done|done].
    + destruct (Hfire (with_now due w) Hl Hc Hcl (eq_sym Hn) Hd eq_refl) as (w' & Hs & H1 & H2).
      exists (([] ++ [Passes]) ++ [Fired due]), w'. split_and!; [|by repeat constructor|done|done].
      econstructor; [|done]. econstructor; [constructor|]. apply step_pass; [lia|]. unfold quiet_until. rewrite Hl.
      split_and!; [done..|]. intros d Hd'. assert (d = due) by congruence. lia.
  - assert (Hs : wstep w Taken (resetDebounce w)) by (apply step_event; [apply Hw|lia]).
    destruct (waiting_step due w _ _ Hw Hs) as [Hw'|[_ ?]]; [done| |done].
    destruct (IH (resetDebounce w)) as (tr & w' & Hr & Hu & H); [cbn; lia|done|].
    exists (([] ++ [Taken]) ++ tr), w'. split; [eapply run_app; [econstructor; [constructor|done]|done]|]. split; [by constructor|done].
Qed.
End watched.

(** ** Reloads and events *)

Lemma run_split w a b w' : run w (a ++ b) w' → ∃ w1, run w a w1 ∧ run w1 b w'.
Proof.
  revert w'. induction b as [|l b IH] using rev_ind; intros w' Hr; [rewrite app_nil_r in Hr; exists w'; by split; [|constructor]|].
  rewrite app_assoc in Hr. inversion Hr as [E|tr w1 l' w2 H1 H2 E]; [by destruct (a ++ b)|].
  apply app_inj_tail in E as [-> ->]. destruct (IH _ H1) as (w3 & H3 & H4). exists w3. split; [done|by econstructor].
Qed.
Lemma run_cons w l tr w' : run w (l :: tr) w' → ∃ w1, wstep w l w1 ∧ run w1 tr w'.
Proof.
  intros (w1 & H1 & H2)%(run_split w [l] tr). exists w1. split; [|done].
  inversion H1 as [|tr' w0 l' w2 H3 H4 E]. apply (app_inj_tail tr' [] l' l) in E as [-> ->]. inversion H3 as [|tr'' ? ? ? ? ? E]; [by subst|].
  by destruct tr''.
Qed.
(** No reload is due before [t]. *)
Definition not_before (t : Z) (w : Watcher) : Prop := (t ≤ wt_now w + defaultDebounce)%Z ∧ ∀ d, wt_timerC w = Some d → (t ≤ d)%Z.
Lemma not_before_step t w l w' : not_before t w → wstep w l w' → not_before t w' ∧ ∀ t', l = Fired t' → (t ≤ t')%Z.
Proof.
  intros [Hn Hd] Hs. destruct Hs; unfold not_before; cbn; try (split; [split; [lia|done]|done]).
  - split; [|done]. split; [done|]. intros ? [= <-]. done.
  - destruct (fire_fields w) as (-> & -> & _). split; [split; [lia|done]|]. intros t' [= <-]. specialize (Hd _ H0). lia.
Qed.
Lemma not_before_run t w tr w' : not_before t w → run w tr w' → not_before t w' ∧ ∀ t', Fired t' ∈ tr → (t ≤ t')%Z.
Proof.
  intros Hn. induction 1 as [|tr w1 l w2 _ [IH1 IH2] Hs]; [by split; [|intros ? ?%elem_of_nil]|].
  destruct (not_before_step _ _ _ _ IH1 Hs) as [H1 H2]. split; [done|].
  intros t' [?|<-%list_elem_of_singleton]%elem_of_app; auto.
Qed.
Definition is_fired (l : label) : bool := match l with Fired _ => true | _ => false end.
Definition is_arrival (l : label) : bool := match l with Arrives => true | _ => false end.
Definition count (p : label → bool) (tr : list label) : nat := length (List.filter p tr).
Lemma count_snoc p tr l : count p (tr ++ [l]) = count p tr + if p l then 1 else 0.
Proof. unfold count. rewrite List.filter_app, length_app. cbn. by destruct (p l). Qed.
(** Events yet to be answered by a reload. *)
Definition pending (w : Watcher) : nat := wt_events w + match wt_timerC w with Some _ => 1 | None => 0 end.
Lemma wstep_pending w l w' : wstep w l w' →
  pending w' + (if is_fired l then 1 else 0) ≤ pending w + (if is_arrival l then 1 else 0).
Proof.
  unfold pending. destruct 1; cbn; try lia.
  destruct (fire_fields w) as (_ & -> & -> & _). rewrite H0. lia.
Qed.
Lemma run_pending w tr w' : run w tr w' → pending w' + count is_fired tr ≤ pending w + count is_arrival tr.
Proof.
  induction 1 as [|tr w1 l w2 _ IH Hs]; [done|]. rewrite !count_snoc. apply wstep_pending in Hs. lia.
Qed.
Lemma NewWatcher_ok t w : NewWatcher t = Ok w → load_at t = Ok (wt_current w) ∧ wt_now w = t ∧ wt_reloadN w = 0%Z ∧
  wt_timerC w = None ∧ wt_events w = 0 ∧ wt_canceled w = false ∧ wt_closed w = false ∧ wt_loop w = Selecting.
Proof. intros (cfg & Hc & ([] & _ & ([] & _ & [= <-])%rbind_ok)%rbind_ok)%rbind_ok. done. Qed.
Lemma NewWatcher_timely t w : NewWatcher t = Ok w → timely w.
Proof. intros (_ & _ & _ & Ht & _ & _ & _ & Hl)%NewWatcher_ok. split; intros ? E; congruence. Qed.
(** What is published is one of the loads. *)
Lemma published_load tr cfg : foldl publish cfg tr = cfg ∨ ∃ t, Fired t ∈ tr ∧ load_at t = Ok (foldl publish cfg tr).
Proof.
  revert cfg. induction tr as [|l tr IH]; intros cfg; [by left|]. cbn [foldl].
  destruct (IH (publish cfg l)) as [E|(t & Ht & E)]; [|right; exists t; split; [by right|done]].
  rewrite E. destruct l as [| | | |t| | | |]; cbn; try by left. destruct (load_at t) eqn:El; [right|by left]. exists t. split; [left|done].
Qed.
Lemma Fired_between w tr w' t : run w tr w' → Fired t ∈ tr → (wt_now w ≤ t ≤ wt_now w')%Z.
Proof.
  induction 1 as [|tr w1 l w2 Hr IH Hs]; [by intros ?%elem_of_nil|]. apply run_published in Hr as (_ & _ & Hn).
  pose proof (wstep_published _ _ _ Hs) as (_ & _ & Hn').
  intros [?%IH|<-%list_elem_of_singleton]%elem_of_app; [lia|]. inversion Hs; subst; lia.
Qed.
Lemma load_at_valid t cfg : load_at t = Ok cfg → ∃ raw, Config_Validate raw = Ok cfg.
Proof. intros (k & _ & (raw & _ & Hv & _)%decode_ok)%rbind_ok. by eexists. Qed.

(** The time of the next reload, if nothing more happens. *)
Definition due_of (w : Watcher) : option Z := if 0 <? wt_events w then Some (wt_now w + defaultDebounce)%Z else wt_timerC w.
Lemma due_waiting w due : timely w → wt_loop w = Selecting → wt_canceled w = false → wt_closed w = false → due_of w = Some due → waiting due w.
Proof.
  intros Ht Hl Hc Hcl Hd. unfold due_of in Hd. destruct (Nat.ltb_spec 0 (wt_events w)) as [He|He].
  - injection Hd as <-. split_and!; [done..|unfold defaultDebounce; lia|]. by left.
  - split_and!; [done|done|done|done| |right; split; [lia|done]]. destruct Ht as [Ht _]. specialize (Ht due Hd). rewrite Hl in Ht.
    specialize (Ht ltac:(done)). lia.
Qed.
End watcher.

(** * Properties *)

(** C17: the live configuration. At any time of any run of the watcher the
    configuration that is live was read and validated whole at some moment since the
    start, by the initial load or by a reload that succeeded: it is the last of these,
    a reload that fails leaves it as it was, and the count of reloads is that of those
    that succeeded. *)
Theorem Current_valid {C : Crypto} {X : X509} {R : Regexp} {N : NetURL} {U : Unicode} {En : Env} {PM : PromModel} {Y : YAML}
    {K : Koanf} {JF : JSONFloat} disk new add path fs t0 w0 tr w
    (Hnew : NewWatcher disk new add path fs t0 = Ok w0) (Hrun : run disk add path fs w0 tr w) :
  (∃ raw, Config_Validate raw = Ok (Watcher_Current w)) ∧
  (∃ t, (t = t0 ∨ Fired t ∈ tr) ∧ (t0 ≤ t ≤ wt_now w)%Z ∧ load_at disk path fs t = Ok (Watcher_Current w)) ∧
  Watcher_Current w = foldl (publish disk path fs) (Watcher_Current w0) tr ∧
  ReloadCount w = foldl (counted disk path fs) 0%Z tr.
Proof.
  apply NewWatcher_ok in Hnew as (Hload & <- & Hn & _). pose proof (run_published _ _ _ _ _ _ _ Hrun) as (Hc & Hr & Hnow).
  unfold Watcher_Current, ReloadCount. rewrite Hn in Hr.
  assert (Hex : ∃ t, (t = wt_now w0 ∨ Fired t ∈ tr) ∧ (wt_now w0 ≤ t ≤ wt_now w)%Z ∧ load_at disk path fs t = Ok (wt_current w)).
  { rewrite Hc. destruct (published_load disk path fs tr (wt_current w0)) as [->|(t & Ht & E)].
    - exists (wt_now w0). split_and!; [by left|lia|lia|done].
    - exists t. pose proof (Fired_between _ _ _ _ _ _ _ _ Hrun Ht). split_and!; [by right|lia|lia|done]. }
  split_and!; [|done|done|done]. destruct Hex as (t & _ & _ & Hl). by eapply load_at_valid.
Qed.

(** C26: a change is followed by a reload. While the directory can be watched, in
    every state of a run in which the loop is at its [select], neither canceled nor
    closed, and has an event to take or its timer set, a reload is due, no later than the debounce
    after now; the loop can get there, and cannot get past it otherwise: unless another
    event, the cancellation or [Close] comes first, any run that outlasts that moment has
    reloaded exactly then, not since, and what the disk held then, if it is valid, is
    the live configuration. *)
Theorem reload_follows {C : Crypto} {X : X509} {R : Regexp} {N : NetURL} {U : Unicode} {En : Env} {PM : PromModel} {Y : YAML}
    {K : Koanf} {JF : JSONFloat} disk new add path fs t0 w0 tr0 w due
    (Hnew : NewWatcher disk new add path fs t0 = Ok w0) (Hwatch : ∀ t, is_ok (add t) = true)
    (Hrun : run disk add path fs w0 tr0 w) (Hl : wt_loop w = Selecting) (Hc : wt_canceled w = false) (Hcl : wt_closed w = false)
    (Hdue : due_of w = Some due) :
  (wt_now w ≤ due ≤ wt_now w + defaultDebounce)%Z ∧
  (∃ tr w', run disk add path fs w tr w' ∧ undisturbed tr ∧ settled w' ∧ wt_now w' = due) ∧
  ∀ tr w', run disk add path fs w tr w' → undisturbed tr → (due < wt_now w')%Z →
    ∃ tr1 tr2, tr = tr1 ++ Fired due :: tr2 ∧ (∀ t, Fired t ∉ tr2) ∧
      ∀ cfg, load_at disk path fs due = Ok cfg → Watcher_Current w' = cfg.
Proof.
  apply NewWatcher_timely in Hnew. pose proof (run_timely _ _ _ _ _ _ _ Hnew Hrun) as Ht.
  pose proof (due_waiting w due Ht Hl Hc Hcl Hdue) as Hw. split_and!.
  - apply Hw.
  - unfold due_of in Hdue. destruct (0 <? wt_events w); [injection Hdue as <-; lia|]. destruct Ht as [Ht _].
    specialize (Ht due Hdue). rewrite Hl in Ht. specialize (Ht ltac:(done)). lia.
  - by apply waiting_reaches.
  - intros tr w' Hr Hu Hnow. destruct (waiting_run _ _ _ _ Hwatch _ _ _ _ Hw Hr Hu) as [Hw'|(Hs & tr1 & tr2 & -> & Hf)].
    { destruct Hw' as (_ & _ & _ & _ & ? & _). lia. }
    exists tr1, tr2. split_and!; [done|done|]. intros cfg Hcfg. apply run_published in Hr as (Hp & _). unfold Watcher_Current.
    rewrite Hp, foldl_app. cbn [foldl publish]. rewrite Hcfg. revert Hf. clear. revert cfg.
    induction tr2 as [|l tr2 IH]; intros cfg Hf; [done|]. cbn [foldl].
    replace (publish disk path fs cfg l) with cfg; [apply IH; set_solver|]. destruct l as [| | | |t| | | |]; try done. destruct (Hf t). left.
Qed.

(** C27: bursts are coalesced. In any run of the watcher two reloads are at least
    the debounce apart, however many events there are, and there are no more reloads
    than events. *)
Theorem reloads_coalesced {C : Crypto} {X : X509} {R : Regexp} {N : NetURL} {U : Unicode} {En : Env} {PM : PromModel} {Y : YAML}
    {K : Koanf} {JF : JSONFloat} disk new add path fs t0 w0 tr w
    (Hnew : NewWatcher disk new add path fs t0 = Ok w0) (Hrun : run disk add path fs w0 tr w) :
  (∀ tr1 tr2 tr3 t1 t2, tr = tr1 ++ Fired t1 :: tr2 ++ Fired t2 :: tr3 → (t1 + defaultDebounce ≤ t2)%Z) ∧
  count is_fired tr ≤ count is_arrival tr.
Proof.
  split.
  - intros tr1 tr2 tr3 t1 t2 ->. apply run_split in Hrun as (w1 & _ & (w2 & Hs & Hr)%run_cons).
    assert (Hn : not_before (t1 + defaultDebounce) w2).
    { inversion Hs; subst. destruct (fire_fields disk add path fs w1) as (En' & Et & _). split; [lia|congruence]. }
    destruct (not_before_run _ _ _ _ _ _ _ _ Hn Hr) as [_ H]. apply H. set_solver.
  - apply NewWatcher_ok in Hnew as (_ & _ & _ & Ht & He & _). apply run_pending in Hrun. unfold pending in Hrun.
    rewrite Ht, He in Hrun. lia.
Qed.

(** ** A concrete run *)

(** A file that names its target. *)
Definition demo_document : YAML := {| yaml_Unmarshal b := Ok [("target", YString "https://backend/")] |}.
#[local] Existing Instances demo_crypto demo_x509 demo_regexp demo_neturl ascii_unicode demo_var_env demo_prom demo_fs demo_document
  demo_koanf demo_float.
Definition demo_path : string := "/etc/tap/config.yaml".
Definition demo_disk (t : Z) : FS := demo_fs.
Definition demo_add (t : Z) : result unit := Ok tt.
Definition demo_watcher : Watcher := mkWatcher 0 demo_config 0 false None 0 false false Selecting.
Lemma demo_NewWatcher : NewWatcher demo_disk (Ok tt) demo_add demo_path None 0 = Ok demo_watcher.
Proof. vm_compute. reflexivity. Qed.
(** An event that has been taken. *)
Definition demo_touched : Watcher := resetDebounce (with_timer None 1 demo_watcher).
Definition demo_events : list label := [Arrives; Taken].
Lemma demo_run : run demo_disk demo_add demo_path None demo_watcher demo_events demo_touched.
Proof.
  change demo_events with (([] ++ [Arrives]) ++ [Taken]). econstructor; [econstructor; [constructor|apply step_arrive]|].
  apply (step_event demo_disk demo_add demo_path None (with_timer None 1 demo_watcher)); [reflexivity|apply Nat.lt_0_1].
Qed.
(** And the reload it leads to. *)
Definition demo_due : Watcher := with_now defaultDebounce demo_touched.
Definition demo_done : Watcher := fire demo_disk demo_add demo_path None demo_due.
Definition demo_reload : list label := demo_events ++ [Passes; Fired defaultDebounce].
Lemma demo_run_reload : run demo_disk demo_add demo_path None demo_watcher demo_reload demo_done.
Proof.
  change demo_reload with ((demo_events ++ [Passes]) ++ [Fired defaultDebounce]).
  econstructor; [econstructor; [apply demo_run|]|].
  - apply (step_pass demo_disk demo_add demo_path None demo_touched defaultDebounce); [reflexivity|].
    do 3 (split; [reflexivity|]). intros d [= <-]. apply Z.le_refl.
  - exact (step_fire demo_disk demo_add demo_path None demo_due defaultDebounce eq_refl eq_refl (Z.le_refl _)).
Qed.
Lemma Current_valid_witness : ReloadCount demo_done = 1%Z ∧ ∃ raw, Config_Validate raw = Ok (Watcher_Current demo_done).
Proof.
  split; [vm_compute; reflexivity|].
  destruct (Current_valid demo_disk (Ok tt) demo_add demo_path None 0 demo_watcher demo_reload demo_done demo_NewWatcher demo_run_reload)
    as [H _]. exact H.
Defined.
Lemma reload_follows_witness :
  ∃ tr w', run demo_disk demo_add demo_path None demo_touched tr w' ∧ settled w' ∧ wt_now w' = defaultDebounce.
Proof.
  destruct (reload_follows demo_disk (Ok tt) demo_add demo_path None 0 demo_watcher demo_events demo_touched defaultDebounce
    demo_NewWatcher (λ _, eq_refl) demo_run eq_refl eq_refl eq_refl eq_refl) as (_ & (tr & w' & H1 & _ & H2 & H3) & _).
  exists tr, w'. split; [exact H1|split; [exact H2|exact H3]].
Defined.
Lemma reloads_coalesced_witness : count is_fired demo_reload = 1 ∧ count is_fired demo_reload ≤ count is_arrival demo_reload.
Proof.
  split; [reflexivity|].
  destruct (reloads_coalesced demo_disk (Ok tt) demo_add demo_path None 0 demo_watcher demo_reload demo_done demo_NewWatcher
    demo_run_reload) as [_ H]. exact H.
Defined.
