(* ===== verification/Telemetry.v ===== *)
(** [internal/telemetry]: the fan-out of log records ([multi_handler.go]) and what
    [Setup] builds, per signal, and gives [Shutdown] to stop ([telemetry.go]).

    log/slog's Handler interface is the class [Handler]: handlers write to a world, and
    one derived from another writes to the same.  Exporters, readers and the resource
    are what the SDK's constructors return, parameters here.  The global providers, and
    what runs in the background, are a record. *)
From S2P Require Import Prelude GoStrings ConfigTypes ConfigAuth.

(** * log/slog *)

Section slog.
Context {Attr : Type}.
Record slog_record := mkLogRecord { rec_Level : Z; rec_Message : string; rec_Attrs : list Attr }.
End slog.
Arguments slog_record : clear implicits.

(** A handler of type [H] that writes to [W]. *)
Class Handler (Attr H W : Type) : Type := {
  h_Enabled : H → Z → bool;
  h_Handle : H → slog_record Attr → W → option error * W;
  h_WithAttrs : H → list Attr → H;
  h_WithGroup : H → string → H
}.
(** A handler is one of two kinds. *)
#[export] Instance either_handler {Attr A B W} `{Handler Attr A W} `{Handler Attr B W} : Handler Attr (A + B) W := {
  h_Enabled h := match h with inl a => h_Enabled a | inr b => h_Enabled b end;
  h_Handle h := match h with inl a => h_Handle a | inr b => h_Handle b end;
  h_WithAttrs h l := match h with inl a => inl (h_WithAttrs a l) | inr b => inr (h_WithAttrs b l) end;
  h_WithGroup h n := match h with inl a => inl (h_WithGroup a n) | inr b => inr (h_WithGroup b n) end
}.

Section logger.
Context {Attr H W : Type} `{HH : Handler Attr H W}.
(** [Logger.With], [Logger.WithGroup] and a log call, whose error is dropped. *)
Inductive derivation := With (attrs : list Attr) | WithGroup (name : string).
Definition derive_one (h : H) (d : derivation) : H :=
  match d with
  | With [] => h
  | With attrs => h_WithAttrs h attrs
  | WithGroup name => if (name =? "")%go then h else h_WithGroup h name
  end.
Definition derive : H → list derivation → H := foldl derive_one.
Definition Log (h : H) (r : slog_record Attr) (w : W) : W :=
  if h_Enabled h (rec_Level r) then (h_Handle h r w).2 else w.
(** What a program logs: each record by a logger derived in its way. *)
Definition logs (h : H) (l : list (list derivation * slog_record Attr)) (w : W) : W :=
  foldl (λ w x, Log (derive h x.1) x.2 w) w l.
End logger.
Arguments derivation : clear implicits.

(** * multi_handler.go *)

(** [errors.Join] *)
Definition errors_Join (errs : list error) : option error :=
  match errs with [] => None | _ => Some (EWrap "join" [] errs) end.

Section multi.
Context {Attr H W : Type} `{HH : Handler Attr H W}.
Record multiHandler := newMultiHandler { mh_handlers : list H }.
Definition multi_Enabled (m : multiHandler) (level : Z) : bool := existsb (λ h, h_Enabled h level) (mh_handlers m).
(** One handler's turn. *)
Definition multi_turn (r : slog_record Attr) (acc : list error * W) (h : H) : list error * W :=
  let '(errs, w) := acc in
  if negb (h_Enabled h (rec_Level r)) then (errs, w)
  else let '(err, w) := h_Handle h r w in
       (match err with Some e => errs ++ [e] | None => errs end, w).
Definition multi_Handle (m : multiHandler) (r : slog_record Attr) (w : W) : option error * W :=
  let '(errs, w) := foldl (multi_turn r) ([], w) (mh_handlers m) in
  (errors_Join errs, w).
Definition multi_WithAttrs (m : multiHandler) (attrs : list Attr) : multiHandler :=
  newMultiHandler ((λ h, h_WithAttrs h attrs) <$> mh_handlers m).
Definition multi_WithGroup (m : multiHandler) (name : string) : multiHandler :=
  newMultiHandler ((λ h, h_WithGroup h name) <$> mh_handlers m).
#[export] Instance multi_handler : Handler Attr multiHandler W := {
  h_Enabled := multi_Enabled; h_Handle := multi_Handle; h_WithAttrs := multi_WithAttrs; h_WithGroup := multi_WithGroup
}.
End multi.
Arguments multiHandler : clear implicits.
Arguments newMultiHandler {H} _.

(** * telemetry.go *)

Definition serviceName : string := "token-auth-proxy".
(** What the SDK's constructors return, and what shutting a provider down does. *)
Class OTel (Attr W : Type) : Type := {
  Resource : Type; SpanExporter : Type; MetricReader : Type; LogExporter : Type; otelHandler : Type;
  resource_New : string → result Resource;         (* the service's name, then the environment's say *)
  newSpanExporter : result SpanExporter;
  prometheus_New : result MetricReader;
  newMetricReader : result MetricReader;
  newLogExporter : result LogExporter;
  otelslog_NewHandler : string → LogExporter → Resource → otelHandler;
  otelslog_handler :: Handler Attr otelHandler W
}.

Section setup.
Open Scope go_scope.
Context {Attr W : Type} {En : Env} {OT : OTel Attr W} {Base : Type} `{HB : Handler Attr Base W}.

Inductive provider :=
| TracerProvider (exp : SpanExporter) (res : Resource)
| MeterProvider (readers : list MetricReader) (res : Resource)
| LoggerProvider (exp : LogExporter) (res : Resource).
(** The API's globals, [None] for its no-op default, and the providers that run. *)
Record otel := mkOTel {
  ot_propagator : option string; ot_tracer : option provider; ot_meter : option provider; ot_logger : option provider;
  ot_running : list provider
}.
Definition otel_default : otel := mkOTel None None None None [].
Definition SetTextMapPropagator (o : otel) : otel :=
  mkOTel (Some "tracecontext") (ot_tracer o) (ot_meter o) (ot_logger o) (ot_running o).
Definition SetTracerProvider (p : provider) (o : otel) : otel :=
  mkOTel (ot_propagator o) (Some p) (ot_meter o) (ot_logger o) (ot_running o ++ [p]).
Definition SetMeterProvider (p : provider) (o : otel) : otel :=
  mkOTel (ot_propagator o) (ot_tracer o) (Some p) (ot_logger o) (ot_running o ++ [p]).
Definition SetLoggerProvider (p : provider) (o : otel) : otel :=
  mkOTel (ot_propagator o) (ot_tracer o) (ot_meter o) (Some p) (ot_running o ++ [p]).

Definition Getenv (name : string) : string := default "" (LookupEnv name).
Definition otelConfigured (signal : string) : bool :=
  (Getenv "OTEL_EXPORTER_OTLP_ENDPOINT" !=? "") || (Getenv ("OTEL_EXPORTER_OTLP_" +:+ signal +:+ "_ENDPOINT") !=? "").

(** The logger stays the one given, or fans out to it and to the SDK. *)
Definition setup_logger : Type := Base + multiHandler (Base + otelHandler).
Record Providers := mkProviders { pv_Logger : setup_logger; pv_MetricsHandler : MetricReader; pv_shutdowns : list provider }.

Definition setup_traces (res : Resource) (x : list provider * otel) : result (list provider) * otel :=
  let '(shutdowns, o) := x in
  if otelConfigured "TRACES" then
    match rwrap "telemetry: build trace exporter: %w" [] newSpanExporter with
    | Err e => (Err e, o)
    | Ok exp => let tp := TracerProvider exp res in (Ok (shutdowns ++ [tp]), SetTracerProvider tp o)
    end
  else (Ok shutdowns, o).
Definition setup_metrics (res : Resource) (x : list provider * otel) : result (list provider * MetricReader) * otel :=
  let '(shutdowns, o) := x in
  match rwrap "telemetry: build prometheus exporter: %w" [] prometheus_New with
  | Err e => (Err e, o)
  | Ok promExp =>
      match (if otelConfigured "METRICS" then
               rmap (λ reader, [promExp; reader]) (rwrap "telemetry: build metric reader: %w" [] newMetricReader)
             else Ok [promExp]) with
      | Err e => (Err e, o)
      | Ok readers => let mp := MeterProvider readers res in (Ok (shutdowns ++ [mp], promExp), SetMeterProvider mp o)
      end
  end.
Definition setup_logs (res : Resource) (base : Base) (x : list provider * otel) : result (list provider * setup_logger) * otel :=
  let '(shutdowns, o) := x in
  if otelConfigured "LOGS" then
    match rwrap "telemetry: build log exporter: %w" [] newLogExporter with
    | Err e => (Err e, o)
    | Ok exp =>
        let lp := LoggerProvider exp res in
        (Ok (shutdowns ++ [lp], inr (newMultiHandler [inl base; inr (otelslog_NewHandler serviceName exp res)])),
         SetLoggerProvider lp o)
    end
  else (Ok (shutdowns, inl base), o).
Definition Setup (base : Base) (o : otel) : result Providers * otel :=
  match rwrap "telemetry: build resource: %w" [] (resource_New serviceName) with
  | Err e => (Err e, o)
  | Ok res =>
      match setup_traces res ([], SetTextMapPropagator o) with
      | (Err e, o) => (Err e, o)
      | (Ok shutdowns, o) =>
          match setup_metrics res (shutdowns, o) with
          | (Err e, o) => (Err e, o)
          | (Ok (shutdowns, prom), o) =>
              match setup_logs res base (shutdowns, o) with
              | (Err e, o) => (Err e, o)
              | (Ok (shutdowns, logger), o) => (Ok (mkProviders logger prom shutdowns), o)
              end
          end
      end
  end.

(** The providers shut down, in order, and the errors they give. *)
Definition Shutdown (provider_Shutdown : provider → option error) (ps : Providers) : list provider * option error :=
  (pv_shutdowns ps, errors_Join (omap provider_Shutdown (pv_shutdowns ps))).
End setup.

(** * Lemmas *)

Lemma errors_Join_Is errs e target : errors_Join errs = Some e → errors_Is e target = existsb (λ e', errors_Is e' target) errs.
Proof. destruct errs; [done|]. by intros [= <-]. Qed.

Section multi_lemmas.
Context {Attr H W : Type} `{HH : Handler Attr H W}.

Lemma derive_multi (ds : list (derivation Attr)) (hs : list H) :
  derive (W := W) (newMultiHandler hs) ds = newMultiHandler ((λ h, derive (W := W) h ds) <$> hs).
Proof.
  revert hs. induction ds as [|d ds IH]; intros hs; [cbn; by rewrite list_fmap_id|]. cbn [derive foldl].
  change (derive (derive_one (newMultiHandler hs) d) ds = newMultiHandler ((λ h, derive (derive_one h d) ds) <$> hs)).
  assert (E : derive_one (newMultiHandler hs) d = newMultiHandler ((λ h, derive_one (W := W) h d) <$> hs)).
  { destruct d as [[|a l]|name]; cbn; [by rewrite list_fmap_id|done|]. case_bool_decide; [by rewrite list_fmap_id|done]. }
  rewrite E, IH. by rewrite <- list_fmap_compose.
Qed.
(** The turns, one handler after another. *)
Lemma turns_world r errs w (hs : list H) : (foldl (multi_turn r) (errs, w) hs).2 = foldl (λ w h, Log h r w) w hs.
Proof.
  revert errs w. induction hs as [|h hs IH]; intros errs w; [done|]. cbn [foldl]. unfold multi_turn at 2, Log at 2.
  destruct (h_Enabled h (rec_Level r)); cbn [negb]; [|apply IH]. destruct (h_Handle h r w) as [err w']. apply IH.
Qed.
(** Who handled the record, in which world, with what error. *)
Fixpoint handled (r : slog_record Attr) (w : W) (hs : list H) : list (H * W) :=
  match hs with
  | [] => []
  | h :: hs => if h_Enabled h (rec_Level r) then (h, w) :: handled r (h_Handle h r w).2 hs else handled r w hs
  end.
Lemma turns_errors r errs w (hs : list H) :
  (foldl (multi_turn r) (errs, w) hs).1 = errs ++ omap (λ x, (h_Handle x.1 r x.2).1) (handled r w hs).
Proof.
  revert errs w. induction hs as [|h hs IH]; intros errs w; [cbn; by rewrite app_nil_r|]. cbn [foldl handled]. unfold multi_turn at 2.
  destruct (h_Enabled h (rec_Level r)); cbn [negb]; [|apply IH].
  destruct (h_Handle h r w) as [err w'] eqn:E. rewrite IH. cbn. rewrite E. cbn. destruct err; [by rewrite <- app_assoc|done].
Qed.
Lemma handled_enabled r w (hs : list H) : Forall (λ x, x.1 ∈ hs ∧ h_Enabled x.1 (rec_Level r) = true) (handled r w hs).
Proof.
  revert w. induction hs as [|h hs IH]; intros w; [constructor|]. cbn. destruct (h_Enabled h _) eqn:E.
  - constructor; [split; [by left|done]|]. eapply Forall_impl; [apply IH|]. intros x [? ?]. split; [by right|done].
  - eapply Forall_impl; [apply IH|]. intros x [? ?]. split; [by right|done].
Qed.
Lemma Log_multi r w (hs : list H) : Log (newMultiHandler hs) r w = foldl (λ w h, Log h r w) w hs.
Proof.
  unfold Log at 1. cbn [h_Enabled h_Handle multi_handler]. unfold multi_Enabled, multi_Handle. cbn [mh_handlers].
  pose proof (turns_world r [] w hs) as Ht. destruct (foldl (multi_turn r) ([], w) hs) as [errs w']. cbn [snd] in *.
  destruct (existsb _ hs) eqn:E; [done|]. clear Ht. revert w E. induction hs as [|h hs IH]; intros w E; [done|].
  cbn in E. apply orb_false_iff in E as [E1 E2]. cbn [foldl]. unfold Log at 2. rewrite E1. by apply IH.
Qed.
Lemma Log_derive_multi ds r w (hs : list H) :
  Log (derive (W := W) (newMultiHandler hs) ds) r w = foldl (λ w h, Log (derive (W := W) h ds) r w) w hs.
Proof. rewrite derive_multi, Log_multi. clear. revert w. induction hs as [|h hs IH]; intros w; [done|]. cbn. by rewrite IH. Qed.
End multi_lemmas.

(** Deriving goes through a handler made of another. *)
Lemma derive_embed {Attr A B W} `{HA : Handler Attr A W} `{HB : Handler Attr B W} (f : A → B)
    (Hattrs : ∀ a l, h_WithAttrs (W := W) (f a) l = f (h_WithAttrs (W := W) a l))
    (Hgroup : ∀ a n, h_WithGroup (Attr := Attr) (W := W) (f a) n = f (h_WithGroup (Attr := Attr) (W := W) a n)) a (ds : list (derivation Attr)) :
  derive (W := W) (f a) ds = f (derive (W := W) a ds).
Proof.
  revert a. induction ds as [|d ds IH]; intros a; [done|]. cbn [derive foldl].
  change (derive (W := W) (derive_one (W := W) (f a) d) ds = f (derive (W := W) (derive_one (W := W) a d) ds)).
  rewrite <- IH. f_equal. destruct d as [[|x l]|name]; cbn; [done|by rewrite Hattrs|]. case_bool_decide; [done|by rewrite Hgroup].
Qed.

Section setup_lemmas.
Context {Attr W : Type} {En : Env} {OT : OTel Attr W} {Base : Type} `{HB : Handler Attr Base W}.

(** A part of the world that the SDK's handlers leave alone, and that the given one
    reads and writes by itself. *)
Record output_of {V : Type} (view : W → V) : Prop := {
  vw_otel : ∀ (h : otelHandler) r w, view (h_Handle h r w).2 = view w;
  vw_base : ∀ (h : Base) r w w', view w = view w' → view (h_Handle h r w).2 = view (h_Handle h r w').2
}.
(** A logger writes to that part what the given one would. *)
Definition same_output {V : Type} (view : W → V) (base : Base) (logger : setup_logger (Base := Base)) : Prop :=
  ∀ l w w', view w = view w' → view (logs logger l w) = view (logs base l w').
Lemma Log_base_view {V : Type} (view : W → V) (Hv : output_of view) (b : Base) r w w' :
  view w = view w' → view (Log b r w) = view (Log b r w').
Proof. intros E. unfold Log. destruct (h_Enabled b _); [by apply Hv|done]. Qed.
Lemma Log_setup_view {V : Type} (view : W → V) (Hv : output_of view) (b : Base) (h : otelHandler) ds r w w' :
  view w = view w' →
  view (Log (derive (W := W) (newMultiHandler [inl b; inr h]) ds) r w) = view (Log (derive (W := W) b ds) r w').
Proof.
  intros E. rewrite Log_derive_multi. cbn [foldl].
  rewrite (derive_embed (W := W) (A := Base) inl) by done. rewrite (derive_embed (W := W) (A := otelHandler) inr) by done.
  set (w1 := Log (inl _) r w). assert (E1 : view w1 = view (Log (derive (W := W) b ds) r w')).
  { subst w1. change (view (Log (derive (W := W) b ds) r w) = view (Log (derive (W := W) b ds) r w')). by apply Log_base_view. }
  rewrite <- E1. unfold Log. cbn [h_Enabled h_Handle either_handler]. destruct (h_Enabled _ _); [|done]. apply Hv.
Qed.
Lemma logger_same_output {V : Type} (view : W → V) (Hv : output_of view) (b : Base) logger :
  logger = inl b ∨ (∃ h, logger = inr (newMultiHandler [inl b; inr h])) → same_output view b logger.
Proof.
  intros Hl l. induction l as [|[ds r] l IH]; intros w w' E; [done|]. unfold logs in *. cbn [foldl]. apply IH.
  destruct Hl as [->|[h ->]].
  - rewrite (derive_embed (W := W) (A := Base) (B := setup_logger) inl) by done.
    change (view (Log (derive (W := W) b ds) r w) = view (Log (derive (W := W) b ds) r w')). by apply Log_base_view.
  - rewrite (derive_embed (W := W) (A := multiHandler (Base + otelHandler)) (B := setup_logger) inr) by done.
    change (view (Log (derive (W := W) (newMultiHandler [inl b; inr h]) ds) r w) = view (Log (derive (W := W) b ds) r w')).
    by apply Log_setup_view.
Qed.

(** What each part of [Setup] does. *)
Definition given {A} (signal : string) (r : result A) (o : option A) : Prop :=
  if otelConfigured signal then ∃ a, r = Ok a ∧ o = Some a else o = None.
Definition failed {A} (what : string) (r : result A) (e : error) : Prop := ∃ e0, r = Err e0 ∧ e = Wrapf what [] e0.
Lemma rwrap_failed {A} what (r : result A) e : rwrap what [] r = Err e → failed what r e.
Proof. destruct r; cbn; [done|]. intros [= <-]. by eexists. Qed.
End setup_lemmas.

Lemma Join_none {A} (f : A → option error) l : errors_Join (omap f l) = None ↔ Forall (λ x, f x = None) l.
Proof.
  induction l as [|x l IH]; [by split; [constructor|]|]. cbn. destruct (f x) as [e|] eqn:E.
  - split; [done|]. intros H. inversion H. congruence.
  - rewrite IH. split; [by constructor|by inversion 1].
Qed.

(** [Shutdown] is given all that runs. *)
Lemma Setup_shutdowns {Attr W Base} {En : Env} {OT : OTel Attr W} (base : Base) ps o :
  Setup base otel_default = (Ok ps, o) → pv_shutdowns ps = ot_running o.
Proof.
  unfold Setup, setup_traces, setup_metrics, setup_logs. intros H.
  repeat (match type of H with context [match ?x with Ok _ => _ | Err _ => _ end] => destruct x eqn:? end; cbn in H; try done).
  all: repeat case_if_in H; simplify_eq; try done.
Qed.

(** * Properties *)

(** The fan-out. Logging through it, by a logger derived in any way, does to the
    world what logging by each handler's own logger, derived in the same way, does, one
    after the other: no handler sees a record it does not want, and none is left out for
    another's error. The error is that of every handler that handled the record and
    failed, joined, and none when none did. *)
Theorem multi_Handle_spec {Attr H W} `{HH : Handler Attr H W} (hs : list H) (ds : list (derivation Attr)) (r : slog_record Attr) (w : W) :
  Log (derive (W := W) (newMultiHandler hs) ds) r w = foldl (λ w h, Log (derive (W := W) h ds) r w) w hs ∧
  let errs := omap (λ x, (h_Handle x.1 r x.2).1) (handled r w hs) in
  (h_Handle (newMultiHandler hs) r w).1 = errors_Join errs ∧
  (errs = [] ↔ Forall (λ x, (h_Handle x.1 r x.2).1 = None) (handled r w hs)) ∧
  Forall (λ x, x.1 ∈ hs ∧ h_Enabled x.1 (rec_Level r) = true) (handled r w hs) ∧
  ∀ e target, errors_Join errs = Some e → errors_Is e target = existsb (λ e', errors_Is e' target) errs.
Proof.
  split; [apply Log_derive_multi|]. cbn zeta. split_and!.
  - cbn [h_Handle multi_handler]. unfold multi_Handle. cbn [mh_handlers]. pose proof (turns_errors r [] w hs) as E.
    destruct (foldl (multi_turn r) ([], w) hs) as [errs w']. cbn in *. by rewrite E.
  - rewrite <- Join_none. by destruct (omap _ _).
  - apply handled_enabled.
  - intros e target. apply errors_Join_Is.
Qed.

(** C30: what [Setup] gives. When it succeeds, each signal has a provider of its own
    exactly when it is configured, but for metrics, which always have one, with the
    reader that /metrics serves; the logger stays the one given unless logs are
    configured, and then writes, to any output the SDK leaves alone, exactly what the
    one given would; and [Shutdown] stops every provider that runs, in the order they
    were started, whatever errors come, and reports one if any did. It fails only as one
    of the constructors it needed did. *)
Theorem Setup_spec {Attr W Base} {En : Env} {OT : OTel Attr W} `{HB : Handler Attr Base W} (base : Base) :
  let '(res, o) := Setup base otel_default in
  match res with
  | Ok ps => ∃ r, resource_New serviceName = Ok r ∧
      match ot_tracer o with
      | Some p => otelConfigured "TRACES" = true ∧ ∃ exp, newSpanExporter = Ok exp ∧ p = TracerProvider exp r
      | None => otelConfigured "TRACES" = false
      end ∧
      prometheus_New = Ok (pv_MetricsHandler ps) ∧
      (∃ more, ot_meter o = Some (MeterProvider (pv_MetricsHandler ps :: more) r) ∧
         if otelConfigured "METRICS" then ∃ reader, newMetricReader = Ok reader ∧ more = [reader] else more = []) ∧
      match ot_logger o with
      | Some p => otelConfigured "LOGS" = true ∧ ∃ exp, newLogExporter = Ok exp ∧ p = LoggerProvider exp r
      | None => otelConfigured "LOGS" = false ∧ pv_Logger ps = inl base
      end ∧
      (∀ V (view : W → V), output_of (Base := Base) view → same_output view base (pv_Logger ps)) ∧
      ot_running o = option_list (ot_tracer o) ++ option_list (ot_meter o) ++ option_list (ot_logger o) ∧
      ∀ stop, (Shutdown stop ps).1 = ot_running o ∧ ((Shutdown stop ps).2 = None ↔ Forall (λ p, stop p = None) (ot_running o))
  | Err e =>
      failed "telemetry: build resource: %w" (resource_New serviceName) e ∨
      otelConfigured "TRACES" = true ∧ failed "telemetry: build trace exporter: %w" newSpanExporter e ∨
      failed "telemetry: build prometheus exporter: %w" prometheus_New e ∨
      otelConfigured "METRICS" = true ∧ failed "telemetry: build metric reader: %w" newMetricReader e ∨
      otelConfigured "LOGS" = true ∧ failed "telemetry: build log exporter: %w" newLogExporter e
  end.
Proof.
  unfold Setup. destruct (resource_New serviceName) as [r|e0]; cbn [rwrap]; [|left; by eexists].
  unfold setup_traces. destruct (otelConfigured "TRACES") eqn:Et; [destruct newSpanExporter as [exp|e0] eqn:Ex; cbn [rwrap]|].
  2: { right. left. split; [done|by eexists]. }
  all: unfold setup_metrics; destruct prometheus_New as [prom|e0] eqn:Ep; cbn [rwrap]; [|right; right; left; by eexists].
  all: destruct (otelConfigured "METRICS") eqn:Em; [destruct newMetricReader as [reader|e0] eqn:Er; cbn [rwrap rmap rbind]|].
  all: try (right; right; right; left; split; [done|by eexists]).
  all: unfold setup_logs; destruct (otelConfigured "LOGS") eqn:El; [destruct newLogExporter as [lexp|e0] eqn:Ele; cbn [rwrap]|].
  all: try (right; right; right; right; split; [done|by eexists]).
  all: exists r; cbn; split_and!; eauto.
  all: try (intros V view Hv; apply logger_same_output; [done|eauto]).
  all: intros stop; split; [done|]; first [exact (Join_none stop [_; _; _])|exact (Join_none stop [_; _])|exact (Join_none stop [_])].
Qed.

(** ** Concrete values *)

(** Two writers: each message goes to one, from the level a handler takes. *)
Definition demo_world : Type := list string * list string.
Definition demo_stdout : Handler string Z demo_world :=
  {| h_Enabled h l := (h <=? l)%Z; h_Handle h r w := (None, (w.1 ++ [rec_Message r], w.2)); h_WithAttrs h _ := h; h_WithGroup h _ := h |}.
Definition demo_sdk_handler : Handler string unit demo_world :=
  {| h_Enabled h l := true; h_Handle h r w := (Some (ENew "queue full"), (w.1, w.2 ++ [rec_Message r]));
     h_WithAttrs h _ := h; h_WithGroup h _ := h |}.
Definition demo_otel (logs : result unit) : OTel string demo_world :=
  {| Resource := string; SpanExporter := unit; MetricReader := string; LogExporter := unit; otelHandler := unit;
     resource_New n := Ok n; newSpanExporter := Ok tt; prometheus_New := Ok "prometheus"; newMetricReader := Ok "otlp";
     newLogExporter := logs; otelslog_NewHandler _ _ _ := tt; otelslog_handler := demo_sdk_handler |}.
Definition demo_otlp_env : Env := {| LookupEnv n := if bool_decide (n = "OTEL_EXPORTER_OTLP_ENDPOINT") then Some "http://collector" else None |}.
Definition demo_records : list (list (derivation string) * slog_record string) :=
  [([], mkLogRecord 0 "started" []); ([With ["k"]; WithGroup "g"], mkLogRecord (-4) "debug" [])].
#[local] Existing Instances demo_stdout demo_otlp_env.
Definition demo_setup (l : result unit) := Setup (OT := demo_otel l) 0%Z otel_default.
Lemma demo_output : @output_of string demo_world (demo_otel (Ok tt)) Z demo_stdout (list string) fst.
Proof. by split; [|intros h r w w' E; cbn; rewrite E]. Qed.
Lemma demo_setup_logs :
  match (demo_setup (Ok tt)).1 with
  | Ok ps => logs (HH := @either_handler _ _ _ _ demo_stdout (@multi_handler _ _ _ (@either_handler _ _ _ _ demo_stdout demo_sdk_handler)))
               (pv_Logger ps) demo_records ([], []) = (["started"], ["started"; "debug"])
  | Err _ => False
  end.
Proof. vm_compute. reflexivity. Qed.
(** A failure of the last exporter leaves what was started before it running, with
    nothing to stop it by. *)
Lemma Setup_leaves_running :
  is_ok (demo_setup (Err (ENew "no exporter"))).1 = false ∧ length (ot_running (demo_setup (Err (ENew "no exporter"))).2) = 2.
Proof. vm_compute. by split. Qed.
