(* ===== verification/Startup.v ===== *)
(** [run] of [cmd/token-auth-proxy/main.go]: what the process starts, in which order,
    and what it stops, on every path out.

    A Go function with [defer] is a [body]: it runs until it returns, and its deferred
    calls run then, the last first.  The operating system and the network are what
    starting each part came to; a shutdown that is waited for takes place.  Log lines are
    left out. *)
From S2P Require Import Prelude GoStrings ConfigTypes ConfigAuth ConfigMain GoJSON Interpolate Source Watcher Telemetry.

(** * Functions that defer *)

Section defers.
(** What can be started and stopped; the steps, with the serving in between. *)
Context {resource : Type}.
Inductive step := Acquire (r : resource) | Release (r : resource) | Serve (addr : string) | Drain.

Record frame_ := mkFrame { fr_trace : list step; fr_defers : list (list step) }.
(** Go on with a value, or return an error, [None] for nil. *)
Inductive flow (A : Type) := Next (a : A) | Return (err : option error).
#[global] Arguments Next {A} a.
#[global] Arguments Return {A} err.
Definition body (A : Type) : Type := frame_ → flow A * frame_.
Definition bind_body {A B} (b : body A) (k : A → body B) : body B := λ fr,
  match b fr with
  | (Next a, fr) => k a fr
  | (Return err, fr) => (Return err, fr)
  end.
Definition go_on {A} (a : A) : body A := λ fr, (Next a, fr).
Definition return_ {A} (err : option error) : body A := λ fr, (Return err, fr).
Definition perform (l : list step) : body unit := λ fr, (Next tt, mkFrame (fr_trace fr ++ l) (fr_defers fr)).
Definition defer (l : list step) : body unit := λ fr, (Next tt, mkFrame (fr_trace fr) (l :: fr_defers fr)).
(** [if err != nil { return fmt.Errorf(what, err) }] *)
Definition or_return {A} (what : string) (r : result A) : body A := λ fr,
  (match r with Ok a => Next a | Err e => Return (Some (Wrapf what [] e)) end, fr).
Definition call (b : body unit) : list step * option error :=
  let '(fl, fr) := b (mkFrame [] []) in
  (fr_trace fr ++ concat (fr_defers fr), match fl with Next _ => None | Return err => err end).
End defers.
#[global] Arguments step : clear implicits.
#[global] Arguments frame_ : clear implicits.
#[global] Arguments body : clear implicits.
Notation "'do*' x := b 'in' k" := (bind_body b (λ x, k)) (at level 10, x pattern, b at level 100, k at level 200) : go_scope.
Notation "'step*' b 'in' k" := (bind_body b (λ _ : unit, k)) (at level 10, b at level 100, k at level 200) : go_scope.

(** Starting what a deferred call will stop, all of it in the same order. *)
Definition acquire_all {R} (rs : list R) : body R unit := (step* perform (Acquire <$> rs) in defer (Release <$> rs))%go.
Definition acquire {R} (r : R) : body R unit := acquire_all [r].

(** * run *)

(** How parsing the command line ends. *)
Inductive parsed := ParsedHelp | ParsedError (e : error) | Parsed (fs : FlagSet).

Section run.
Context {C : Crypto} {X : X509} {R : Regexp} {N : NetURL} {U : Unicode} {En : Env} {PM : PromModel} {Y : YAML} {K : Koanf}
  {JF : JSONFloat} {Attr W : Type} {OT : OTel Attr W} {Base : Type}.
Variables (disk : Z → FS) (fsnotify_New : result unit) (fsw_Add : Z → result unit).

(** What a process has running: the signals it is told of, the providers of its
    telemetry, the watch of its configuration, and what renews keys and metadata. *)
Inductive resource := Signals | Telemetry_ (p : provider) | ConfigWatch | JWTRefreshers | SAMLRefreshers.

(** What the world answers: the command line, the base logger, the time of the first
    load, [lc.Listen], what ended the serving ([None]: a signal), [srv.Shutdown]. *)
Record outside := mkOutside {
  ou_parsed : parsed; ou_logger : Base; ou_now : Z; ou_listen : string → result unit;
  ou_served : option error; ou_shutdown : result unit
}.

(** The configuration's source, and whether there is a watch to cancel. *)
Definition open_source (x : outside) (src : Source) : body resource (Config * bool) :=
  match src with
  | SourcePath path fs => (do* w := or_return "load initial config: %w" (NewWatcher disk fsnotify_New fsw_Add path (Some fs) (ou_now x)) in
                           step* perform [Acquire ConfigWatch] in
                           go_on (Watcher_Current w, true))%go
  | SourceStatic cfg fs => go_on (Static_Current (NewStaticSource cfg), false)
  end.
Definition cancelWatch (watching : bool) : list (step resource) := if watching then [Release ConfigWatch] else [].

(** The [select]: a signal, or the server's own end, which is logged. *)
Definition await (x : outside) : body resource unit :=
  match ou_served x with
  | None => go_on tt
  | Some err => go_on tt
  end.

(** [telemetry.Setup]: what it has started runs, whether it succeeds or not; only when it
    does is there a [Shutdown] to defer. *)
Definition set_up (x : outside) : body resource Providers := (
  let '(res, o) := Setup (ou_logger x) otel_default in
  step* perform (Acquire ∘ Telemetry_ <$> ot_running o) in
  do* ps := or_return "set up telemetry: %w" res in
  step* defer (Release ∘ Telemetry_ <$> (Shutdown (λ _, None) ps).1) in
  go_on ps)%go.

Definition run_body (x : outside) : body resource unit := (
  do* fs := (match ou_parsed x with
             | ParsedHelp => return_ None
             | ParsedError e => return_ (Some e)
             | Parsed fs => go_on fs
             end) in
  step* acquire Signals in
  do* providers := set_up x in
  do* src := or_return "resolve config: %w" (Resolve fs) in
  do* (cfg, watching) := open_source x src in
  step* defer (cancelWatch watching) in
  step* perform [Acquire JWTRefreshers; Acquire SAMLRefreshers] in
  step* defer [Release JWTRefreshers] in
  step* defer [Release SAMLRefreshers] in
  step* or_return "bind listener on %s: %w" (ou_listen x (c_ListenAddr cfg)) in
  step* perform [Serve (c_ListenAddr cfg)] in
  step* await x in
  step* perform (cancelWatch watching) in
  step* perform [Drain] in
  step* or_return "graceful shutdown: %w" (ou_shutdown x) in
  return_ None)%go.
Definition run_ (x : outside) : list (step resource) * option error := call (run_body x).
(** The exit status of [main]. *)
Definition main_ (x : outside) : Z := match (run_ x).2 with Some _ => 1 | None => 0 end.
End run.

(** * Lemmas *)

Section run_lemmas.
Context {C : Crypto} {X : X509} {R : Regexp} {N : NetURL} {U : Unicode} {En : Env} {PM : PromModel} {Y : YAML} {K : Koanf}
  {JF : JSONFloat} {Attr W : Type} {OT : OTel Attr W} {Base : Type}.
Variables (disk : Z → FS) (fsnotify_New : result unit) (fsw_Add : Z → result unit).

Lemma Resolve_static fs cfg fs' : Resolve fs = Ok (SourceStatic cfg fs') → ∃ raw, Config_Validate raw = Ok cfg.
Proof.
  intros (k & _ & H)%rbind_ok. cbn zeta in H. case_if_in H; [done|]. apply rbind_ok in H as (cfg' & (raw & _ & Hv & _)%decode_ok & [= -> _]). eauto.
Qed.
(** The source is opened, or the error says why not. *)
Lemma open_source_cases (x : outside (Base := Base)) src fr :
  match open_source disk fsnotify_New fsw_Add x src fr with
  | (Next (cfg, watching), fr') =>
      (match src with
       | SourcePath path fs => watching = true ∧ ∃ raw, Config_Validate raw = Ok cfg
       | SourceStatic cfg' _ => watching = false ∧ cfg = cfg'
       end) ∧ fr' = mkFrame (fr_trace fr ++ if watching then [Acquire ConfigWatch] else []) (fr_defers fr)
  | (Return err, fr') => (∃ e, err = Some e) ∧ fr' = fr
  end.
Proof.
  destruct src as [path fs|cfg fs]; unfold open_source, bind_body, or_return, go_on; cbn.
  - destruct (NewWatcher _ _ _ _ _ _) as [w|e] eqn:E; [|by eauto].
    apply NewWatcher_ok in E as (E & _). apply load_at_valid in E. cbn. by split.
  - rewrite app_nil_r. by destruct fr.
Qed.

Lemma await_next (x : outside (Base := Base)) fr : await x fr = (Next tt, fr).
Proof. unfold await. by destruct (ou_served x). Qed.

(** What is started, in order, with [ps] running for telemetry; what is started together
    is stopped together. *)
Definition started (ps : list provider) (watching : bool) : list (list resource) :=
  [[Signals]; Telemetry_ <$> ps] ++ (if watching then [[ConfigWatch]] else []) ++ [[JWTRefreshers]; [SAMLRefreshers]].
Definition serving (cfg : Config) (watching : bool) : list (step resource) :=
  [Serve (c_ListenAddr cfg)] ++ cancelWatch watching ++ [Drain].
End run_lemmas.
(** Traces that differ in how their parts are grouped. *)
Ltac life := try match goal with |- context [cancelWatch ?b] => destruct b end; unfold serving, started; cbn;
  rewrite ?fmap_app, ?list_fmap_compose, ?app_nil_r, <- ?app_assoc; done.

(** * Properties *)

(** C23: the process's life. On every path, with every failure the world may answer
    with, what [run] does is to start a part of its resources in their order, serve or
    not, and stop, the last first, all it started; with one exception: when telemetry
    cannot be set up, the providers that its setup had started by then, and they alone,
    are left running, nothing else but the handling of signals having been started. It
    serves only with everything started, on the address of a validated configuration;
    then it stops watching the configuration and drains the requests before anything else
    is stopped, so that a request still on its way has its keys and its providers. It
    ends without an error exactly when it was asked for help, or has served and drained. *)
Theorem run_spec {C : Crypto} {X : X509} {R : Regexp} {N : NetURL} {U : Unicode} {En : Env} {PM : PromModel} {Y : YAML} {K : Koanf}
    {JF : JSONFloat} {Attr W Base} {OT : OTel Attr W} disk new add (x : outside (Base := Base)) :
  let '(tr, err) := run_ disk new add x in
  let '(setup, o) := Setup (ou_logger x) otel_default in
  ∃ rs left_ middle watching, tr = (Acquire <$> concat rs ++ left_) ++ middle ++ (Release <$> concat (rev rs)) ∧
    rs `prefix_of` started (ot_running o) watching ∧
    (left_ = [] ∨ left_ = Telemetry_ <$> ot_running o ∧ rs = [[Signals]] ∧ is_ok setup = false) ∧
    (middle = [] ∨ rs = started (ot_running o) watching ∧ left_ = [] ∧
       ∃ cfg, (∃ raw, Config_Validate raw = Ok cfg) ∧ middle = serving cfg watching) ∧
    (err = None ↔ ou_parsed x = ParsedHelp ∨ middle ≠ [] ∧ is_ok (ou_shutdown x) = true).
Proof.
  destruct (Setup (ou_logger x) otel_default) as [setup o] eqn:Es.
  unfold run_, call, run_body, set_up, acquire, acquire_all, or_return, return_, go_on. rewrite Es. unfold bind_body at 1.
  destruct (ou_parsed x) as [|e|fs] eqn:Ep; cbn.
  { exists [], [], [], false. split_and!; [done|by apply prefix_nil|by left|by left|tauto]. }
  { exists [], [], [], false. split_and!; [done|by apply prefix_nil|by left..|]. split; [done|]. intros [?|[? _]]; done. }
  assert (Hno : ∀ e : error, Some e = None ↔ Parsed fs = ParsedHelp ∨ (@nil (step resource)) ≠ [] ∧ is_ok (ou_shutdown x) = true)
    by (intros e; split; [done|]; by intros [?|[? _]]).
  destruct setup as [ps|e]; cbn.
  2: { exists [[Signals]], (Telemetry_ <$> ot_running o), [], false.
       split_and!; [life|by eexists|by right|by left|apply Hno]. }
  rewrite (Setup_shutdowns _ _ _ Es). set (run := ot_running o).
  destruct (Resolve fs) as [src|e] eqn:Er; cbn.
  2: { exists [[Signals]; Telemetry_ <$> run], [], [], false. split_and!; [life|by eexists|by left..|apply Hno]. }
  set (fr := mkFrame _ _). pose proof (open_source_cases disk new add x src fr) as Ho.
  unfold bind_body. destruct (open_source disk new add x src fr) as [[[cfg watching]|err] fr']; destruct Ho as [Ho ->].
  2: { destruct Ho as [e ->]. cbn. exists [[Signals]; Telemetry_ <$> run], [], [], false.
       split_and!; [life|by eexists|by left..|apply Hno]. }
  assert (Hv : ∃ raw, Config_Validate raw = Ok cfg).
  { destruct src as [path fs'|cfg' fs']; [apply Ho|]. destruct Ho as [_ ->]. by eapply Resolve_static. }
  clear Ho Er. subst fr. cbn. destruct (ou_listen x (c_ListenAddr cfg)) as [[]|e]; cbn.
  2: { exists (started run watching), [], [], watching. split_and!; [life|done|by left..|apply Hno]. }
  rewrite await_next. destruct (ou_shutdown x) as [[]|e] eqn:Eh; cbn.
  all: exists (started run watching), [], (serving cfg watching), watching.
  all: split_and!; [life|done|by left|right; split_and!; eauto|].
  - split; [intros _; by right|done].
  - split; [done|]. intros [?|[_ ?]]; done.
Qed.

(** ** Concrete lives *)

#[local] Existing Instances demo_crypto demo_x509 demo_regexp demo_neturl ascii_unicode demo_var_env demo_prom demo_fs demo_document
  demo_koanf demo_float.
#[local] Instance demo_telemetry : OTel string demo_world := demo_otel (Ok tt).
(** No configuration file; the server ends as [served] says. *)
Definition demo_outside (served : option error) : outside (Base := Z) :=
  mkOutside (Parsed RegisterFlags) 0%Z 0 (λ _, Ok tt) served (Ok tt).
Definition demo_life := run_ demo_disk (Ok tt) demo_add (demo_outside None).
Definition demo_meter : provider (OT := demo_telemetry) := MeterProvider (OT := demo_telemetry) ["prometheus"] serviceName.
Lemma demo_life_trace : demo_life = ([Acquire Signals; Acquire (Telemetry_ demo_meter); Acquire JWTRefreshers; Acquire SAMLRefreshers;
  Serve (c_ListenAddr demo_config); Drain; Release SAMLRefreshers; Release JWTRefreshers; Release (Telemetry_ demo_meter);
  Release Signals], None).
Proof. vm_compute. reflexivity. Qed.
(** An exporter of logs that cannot be built: two providers are left running. *)
Lemma telemetry_left_running :
  let '(tr, err) := run_ (En := demo_otlp_env) (OT := demo_otel (Err (ENew "no exporter"))) (Base := Z) demo_disk (Ok tt) demo_add
                      (mkOutside (Parsed RegisterFlags) 0%Z 0 (λ _, Ok tt) None (Ok tt)) in
  bool_decide (is_Some err) = true ∧ length tr = 4 ∧
  match tr with [Acquire Signals; Acquire (Telemetry_ _); Acquire (Telemetry_ _); Release Signals] => True | _ => False end.
Proof. vm_compute. by split_and!. Qed.
(** The end of a server that failed is the end of one that was told to stop: the
    process exits with status 0. *)
Lemma server_error_exits_0 e : main_ demo_disk (Ok tt) demo_add (demo_outside (Some e)) = 0%Z.
Proof. vm_compute. reflexivity. Qed.
