(* ===== verification/Process.v ===== *)
(** The process as a whole: the watcher that reloads the configuration, the registries
    all requests share, and the requests on their way, in any interleaving.

    A request reads the configuration that is live three times, in the middleware, in
    the label handler and in the proxy; each of the three runs in one step here, so a
    reload, or another request, comes between them but not inside.  ([Threads] has the
    requests inside the middleware at once.)  The
    registries tell configurations apart by their address, which is here the number of
    reloads before it.  Without a configuration file there is no watcher, and the runs
    are those without [Watch]. *)
From S2P Require Import Prelude GoStrings ConfigTypes PromScope GoURL GoHTTP Acl ConfigAuth ConfigMain Credentials Basic Jwks Session Login Saml OAuthServer Authenticate Middleware Registries GoJSON PromFilter PromRewrite PromSilence PromHandler Proxy Main Interpolate Source Watcher.

Section process.
Context {C : Crypto} {X : X509} {R : Regexp} {N : NetURL} {U : Unicode} {F : Floats} {J : JWT} {W : Network}
  {L : LoginNet} {O : OAuth2} {D : Sha256} {B : BasicCrypto} {En : Env} {M : SAMLMetadata} {SP : SAMLSP}
  {G : AEAD} {JS : OAuthJSON} {Op : OP} {LK : LocalKeys} {Gz : Gzip} {Tr : Transport} {Et : ErrorText} {P : PromLabels}
  {Q : PromQL} {Mi : Mime} {PM : PromModel} {Y : YAML} {K : Koanf} {JF : JSONFloat}.
Variables (disk : Z → FS) (fsw_Add : Z → result unit) (path : string) (fs : option FlagSet) (loginFont : string).

(** A request past the middleware, and past the label handler. *)
Inductive stage := Passed (w : Response) (r : Request) | Checked (w : Response) (r : Request) (f : option responseFilter).
Record flight := mkFlying { fl_id : nat; fl_conn : Inbound_conn; fl_stage : stage }.
Record process := mkProcess { pr_watch : Watcher; pr_regs : Registries; pr_flights : list flight; pr_next : nat }.
Inductive event :=
| Watch (l : label)
| Arrive (id : nat) (i : Inputs) (r : Request)
| Check_ (id : nat)
| Send (id : nat) (o : option OutRequest) (p : proxied).

(** What [run] starts with. *)
Definition start (w : Watcher) : process :=
  mkProcess w (mkRegistries (mkRegs NewSAMLRegistry NewBasicRegistry (NewLoginRegistry NewRegistry)) (Some NewORegistry)) [] 0.
(** The configuration that [source.Current()] returns, and its identity. *)
Definition Current (p : process) : Config := Watcher_Current (pr_watch p).
Definition ptr (p : process) : nat := Z.to_nat (ReloadCount (pr_watch p)).

Inductive pstep (p : process) : event → process → Prop :=
| p_watch l w : wstep disk fsw_Add path fs (pr_watch p) l w →
    pstep p (Watch l) (mkProcess w (pr_regs p) (pr_flights p) (pr_next p))
| p_arrive i cn r w fwd m :
    in_now i = wt_now (pr_watch p) → mux_route r = MuxRoot →
    NewMiddleware loginFont i (ptr p) (Current p) new_response r (pr_regs p) = (w, fwd, m) →
    pstep p (Arrive (pr_next p) i r)
      (mkProcess (pr_watch p) m
         (match fwd with Some r' => mkFlying (pr_next p) cn (Passed w r') :: pr_flights p | None => pr_flights p end)
         (Datatypes.S (pr_next p)))
| p_check before id cn w r after :
    pr_flights p = before ++ mkFlying id cn (Passed w r) :: after →
    pstep p (Check_ id)
      (mkProcess (pr_watch p) (pr_regs p)
         (before ++ (match ServeHTTP (Current p) w r with
                     | Forwarded w r f => [mkFlying id cn (Checked w r f)]
                     | Answered _ => []
                     end) ++ after) (pr_next p))
| p_send before id cn w r f after o a :
    pr_flights p = before ++ mkFlying id cn (Checked w r f) :: after →
    Proxy_ServeHTTP (Current p) cn w r f = (o, a) →
    pstep p (Send id o a) (mkProcess (pr_watch p) (pr_regs p) (before ++ after) (pr_next p)).
Inductive pruns (p : process) : list event → process → Prop :=
| pruns_nil : pruns p [] p
| pruns_snoc tr p1 e p2 : pruns p tr p1 → pstep p1 e p2 → pruns p (tr ++ [e]) p2.

(** The configuration live after a trace. *)
Definition watch_label (e : event) : option label := match e with Watch l => Some l | _ => None end.
Definition live_config (cfg0 : Config) (tr : list event) : Config := foldl (publish disk path fs) cfg0 (omap watch_label tr).

(** A configuration read from the disk and validated. *)
Definition loaded (cfg : Config) : Prop := ∃ t, load_at disk path fs t = Ok cfg.
(** What [run] tells a request by before it is forwarded, under [cfg]. *)
Definition passed (cfg : Config) : Z → Request → Request → Prop := passed_by (vouched_by cfg) cfg.

(** * Lemmas *)

Lemma pruns_app p tr p1 : pruns p tr p1 → ∀ e p2, pstep p1 e p2 → pruns p (tr ++ [e]) p2.
Proof. intros. by econstructor. Qed.
Lemma live_app cfg0 tr tr' : live_config cfg0 (tr ++ tr') = live_config (live_config cfg0 tr) tr'.
Proof. unfold live_config. by rewrite omap_app, foldl_app. Qed.
Lemma publish_loaded cfg l : loaded cfg → loaded (publish disk path fs cfg l).
Proof. intros Hc. destruct l as [| | | |t| | | |]; cbn; try done. destruct (load_at disk path fs t) eqn:E; [by exists t|done]. Qed.
Lemma live_loaded cfg0 tr : loaded cfg0 → loaded (live_config cfg0 tr).
Proof.
  unfold live_config. generalize (omap watch_label tr). intros ls. revert cfg0.
  induction ls as [|l ls IH]; intros cfg0 Hc; [done|]. cbn. by apply IH, publish_loaded.
Qed.
Lemma loaded_valid cfg : loaded cfg → ∃ raw, Config_Validate raw = Ok cfg.
Proof. intros [t H]. by eapply load_at_valid. Qed.

(** A reload changes the identity with the configuration. *)
Lemma wstep_identity w l w' m : (0 ≤ wt_reloadN w)%Z → wstep disk fsw_Add path fs w l w' →
  mids_ok loaded (Z.to_nat (wt_reloadN w)) (wt_current w) m →
  (0 ≤ wt_reloadN w')%Z ∧ mids_ok loaded (Z.to_nat (wt_reloadN w')) (wt_current w') m.
Proof.
  intros Hn (-> & -> & _)%wstep_published Hm. destruct l as [| | | |t| | | |]; cbn; try done.
  destruct (load_at disk path fs t); cbn; [|done]. split; [lia|]. rewrite Z2Nat.inj_add, Nat.add_1_r by lia.
  by apply mids_ok_reload with (wt_current w).
Qed.
Lemma NewMiddleware_oauth i n cfg w r m : md_oauth (NewMiddleware loginFont i n cfg w r m).2 = OAuth_Reconcile n cfg <$> md_oauth m.
Proof.
  unfold NewMiddleware. cbn zeta. destruct (serve_route _ _ _ _ _); [done|]. destruct (authenticate _ _ _) as [[] s]; [done..|].
  destruct (authorize _ _ _ _) as [w1 []]; [|done]. by destruct (resolvePromLabels _ _ _ _).
Qed.

Section runs.
Hypothesis Hshort : ∀ cfg srv tok, loaded cfg → settings (Some cfg) = Ok (srv, tok) → Forall short (fingerprint_parts srv tok).
Hypothesis Hsha : ∀ a b : string, sha256_hex a = sha256_hex b → a = b.
Hypothesis Hmac : ∀ a b : string, hmac_sum a = hmac_sum b → a = b.
Variables (cfg0 : Config).

(** Every request that arrived presents credentials free of the separator. *)
Definition plain_trace (tr : list event) : Prop :=
  ∀ tra id i r trb, tr = tra ++ Arrive id i r :: trb → cred_plain (live_config cfg0 tra) r.
Lemma plain_trace_app tr tr' : plain_trace (tr ++ tr') → plain_trace tr.
Proof. intros H tra id i r trb ->. apply (H tra id i r (trb ++ tr')). by rewrite <- app_assoc. Qed.

(** How far a request has come. *)
Definition come (tr : list event) (id : nat) (w : Response) (r2 : Request) : Prop :=
  ∃ tra i r trb, tr = tra ++ Arrive id i r :: trb ∧ passed (live_config cfg0 tra) (in_now i) r r2 ∧ w_status w = None.
Definition flight_ok (tr : list event) (fl : flight) : Prop :=
  match fl_stage fl with
  | Passed w r2 => come tr (fl_id fl) w r2
  | Checked w' r' f => ∃ trb w r2 trc, tr = trb ++ Check_ (fl_id fl) :: trc ∧ come trb (fl_id fl) w r2 ∧
      ServeHTTP (live_config cfg0 trb) w r2 = Forwarded w' r' f
  end.
Lemma come_app tr tr' id w r2 : come tr id w r2 → come (tr ++ tr') id w r2.
Proof. intros (tra & i & r & trb & -> & H). exists tra, i, r, (trb ++ tr'). by rewrite <- app_assoc. Qed.
Lemma flight_ok_app tr tr' fl : flight_ok tr fl → flight_ok (tr ++ tr') fl.
Proof.
  unfold flight_ok. destruct (fl_stage fl); [apply come_app|]. intros (trb & w0 & r2 & trc & -> & H).
  exists trb, w0, r2, (trc ++ tr'). by rewrite <- app_assoc.
Qed.
Record process_ok (tr : list event) (p : process) : Prop := {
  po_live : Current p = live_config cfg0 tr;
  po_count : (0 ≤ ReloadCount (pr_watch p))%Z;
  po_regs : mids_ok loaded (ptr p) (Current p) (pr_regs p);
  po_oauth : ∃ o, md_oauth (pr_regs p) = Some o;
  po_flights : Forall (flight_ok tr) (pr_flights p)
}.

Lemma start_ok_ w0 : wt_current w0 = cfg0 → wt_reloadN w0 = 0%Z → process_ok [] (start w0).
Proof. intros H1 H2. split; cbn; [done|unfold ReloadCount; by rewrite H2|apply mids_ok_new; by right|eauto|constructor]. Qed.

(** The middleware lets through what the configuration does. *)
Lemma NewMiddleware_passed i n cfg r m w r2 m' : loaded cfg → mids_ok loaded n cfg m → (∃ o, md_oauth m = Some o) →
  cred_plain cfg r → NewMiddleware loginFont i n cfg new_response r m = (w, Some r2, m') →
  w_status w = None ∧ passed cfg (in_now i) r r2.
Proof.
  intros Hc Hm Ho Hr Hrun. destruct (loaded_valid cfg Hc) as [raw Hv].
  pose proof (NewMiddleware_cases _ _ _ _ _ new_response _ _ _ _ _ Hv eq_refl (ro_jwt _ _ (mo_regs _ _ _ _ Hm)) Hrun) as H.
  cbn zeta in H. destruct (own_route _ _ _); [done|]. destruct H as (Hw & p & r1 & Hid & Hg & Hf & Hs). split; [done|].
  exists p, r1. split_and!; [|done..]. destruct p as [q|]; [|exact Hid].
  by eapply (identified_authentic loaded loaded_valid Hshort Hsha Hmac).
Qed.
Lemma pstep_ok tr p e p' : loaded cfg0 → plain_trace (tr ++ [e]) → process_ok tr p → pstep p e p' → process_ok (tr ++ [e]) p'.
Proof.
  intros Hc0 Hpl [Hl Hn Hm Ho Hf] Hs.
  assert (Hf' : Forall (flight_ok (tr ++ [e])) (pr_flights p)) by (eapply Forall_impl; [exact Hf|intros fl; apply flight_ok_app]).
  assert (Hlive : live_config cfg0 (tr ++ [e]) = live_config (Current p) [e]) by (rewrite Hl; apply live_app).
  destruct Hs as [l w Hw|i cn r w fwd m Hnow Hroute Hrun|before id cn w r after Hfl|before id cn w r f after o a Hfl Hsend].
  - destruct (wstep_identity _ _ _ _ Hn Hw Hm) as [H1 H2]. apply wstep_published in Hw as (Hc & _).
    split; cbn; [by rewrite Hlive|done|done|done|done].
  - assert (Hcl : loaded (Current p)) by (rewrite Hl; by apply live_loaded).
    assert (Hr : cred_plain (Current p) r) by (rewrite Hl; by apply (Hpl tr (pr_next p) i r [])).
    pose proof (NewMiddleware_keeps loaded loginFont i (ptr p) (Current p) new_response r (pr_regs p) Hcl Hr Hm) as Hk.
    pose proof (NewMiddleware_oauth i (ptr p) (Current p) new_response r (pr_regs p)) as Hmo. rewrite Hrun in Hk, Hmo.
    split; cbn; [by rewrite Hlive|done|done| |].
    + destruct Ho as [o Ho]. cbn in Hmo. rewrite Hmo, Ho. eauto.
    + destruct fwd as [r'|]; [|done]. constructor; [|done]. cbn.
      destruct (NewMiddleware_passed _ _ _ _ _ _ _ _ Hcl Hm Ho Hr Hrun) as [Hw Hp]. exists tr, i, r, [].
      split_and!; [done|by rewrite <- Hl|done].
  - rewrite Hfl in Hf, Hf'. apply Forall_app in Hf' as [H1 H2]. apply Forall_app in Hf as [_ H3]. inversion H2; inversion H3; subst.
    split; cbn; [by rewrite Hlive|done|done|done|]. apply Forall_app. split; [done|]. apply Forall_app. split; [|done].
    destruct (ServeHTTP (Current p) w r) as [|w' r' f] eqn:E; constructor; [|constructor]. cbn.
    exists tr, w, r, []. split_and!; [done|done|by rewrite <- Hl].
  - rewrite Hfl in Hf'. apply Forall_app in Hf' as [H1 H2]. inversion H2; subst.
    split; cbn; [by rewrite Hlive|done|done|done|]. by apply Forall_app.
Qed.
Lemma pruns_ok w0 tr p : loaded cfg0 → plain_trace tr → wt_current w0 = cfg0 → wt_reloadN w0 = 0%Z →
  pruns (start w0) tr p → process_ok tr p.
Proof.
  intros Hc Hpl H1 H2. induction 1 as [|tr p1 e p2 Hr IH Hs]; [by apply start_ok_|].
  eapply pstep_ok; [done..| |done]. apply IH. by eapply plain_trace_app.
Qed.
Lemma pruns_split p0 tr p tr1 e tr2 : pruns p0 tr p → tr = tr1 ++ e :: tr2 → ∃ p1 p2, pruns p0 tr1 p1 ∧ pstep p1 e p2.
Proof.
  intros Hr. revert tr2. induction Hr as [|tr p1 e' p2 Hr IH Hs]; intros tr2 E; [by destruct tr1|].
  induction tr2 as [|e2 tr2 _] using rev_ind.
  - apply app_inj_tail in E as [-> ->]. eauto.
  - change (tr1 ++ e :: tr2 ++ [e2]) with (tr1 ++ (e :: tr2) ++ [e2]) in E. rewrite app_assoc in E.
    apply app_inj_tail in E as [E _]. by eapply IH.
Qed.
End runs.
End process.

(** * Properties *)


(** ** A concrete run *)

(** The demonstration file system and decoder, for a configuration with an OAuth
    server, a password source and label rules. *)
Definition demo_mid_koanf : @Koanf demo_crypto demo_regexp :=
  {| koanf := gmap string kval; K_New := ∅; K_Load m k := Ok (foldl (λ k kv, <[kv.1 := KYaml kv.2]> k) k m);
     K_LoadEnv pre tr k := Ok k; K_LoadFlags fs cb k := Ok k; K_Set key v k := Ok (<[key := match v with KJson j => merge_json j (k !! key) | _ => v end]> k); K_Get key k := k !! key;
     K_Exists key k := bool_decide (is_Some (k !! key)); K_String key k := match k !! key with Some (KString s) => s | _ => "" end;
     K_Roots k := (λ kv, (Cut kv.1 ".").1.1) <$> map_to_list k;
     K_Unmarshal k := Ok demo_mid_raw; K_UnmarshalOutbound k := Ok (@c_Outbound demo_crypto demo_regexp demo_mid_raw) |}.
#[local] Existing Instances demo_crypto demo_x509 demo_regexp demo_neturl ascii_unicode demo_floats demo_token_lib
  demo_network demo_loginnet demo_oauth2 demo_sha demo_bcrypto demo_env demo_prom demo_metadata demo_sp
  demo_gcm demo_oauth_json demo_op demo_local_keys demo_gzip demo_transport demo_error_text demo_labels demo_promql demo_mime
  demo_fs demo_document demo_mid_koanf demo_float.

Definition demo_source_watcher : Watcher := mkWatcher 0 demo_mid_config 0 false None 0 false false Selecting.
Lemma demo_source : NewWatcher demo_disk (Ok tt) demo_add demo_path None 0 = Ok demo_source_watcher.
Proof. vm_compute. reflexivity. Qed.
Definition demo_start : process := start demo_source_watcher.
Definition demo_mid : Response * option Request * Registries :=
  NewMiddleware "font" demo_inputs 0 demo_mid_config new_response demo_root (pr_regs demo_start).
Definition demo_passed : Request := match demo_mid.1.2 with Some r => r | None => demo_root end.
Definition demo_checked : Response * Request * option responseFilter :=
  match ServeHTTP demo_mid_config demo_mid.1.1 demo_passed with Forwarded w r f => (w, r, f) | Answered w => (w, demo_root, None) end.
Definition demo_sent : option OutRequest * proxied :=
  Proxy_ServeHTTP demo_mid_config demo_conn demo_checked.1.1 demo_checked.1.2 demo_checked.2.
Definition demo_at (fls : list flight) : process := mkProcess demo_source_watcher demo_mid.2 fls 1.
Definition demo_trace : list event := [Arrive 0 demo_inputs demo_root; Check_ 0; Send 0 demo_sent.1 demo_sent.2].
Lemma demo_pruns : pruns demo_disk demo_add demo_path None "font" demo_start demo_trace (demo_at []).
Proof.
  assert (H1 : demo_mid.1.2 = Some demo_passed) by (vm_compute; reflexivity).
  assert (H2 : ServeHTTP demo_mid_config demo_mid.1.1 demo_passed = Forwarded demo_checked.1.1 demo_checked.1.2 demo_checked.2)
    by (vm_compute; reflexivity).
  change demo_trace with ((([] ++ [Arrive 0 demo_inputs demo_root]) ++ [Check_ 0]) ++ [Send 0 demo_sent.1 demo_sent.2]).
  apply pruns_snoc with (demo_at [mkFlying 0 demo_conn (Checked demo_checked.1.1 demo_checked.1.2 demo_checked.2)]).
  2: { exact (p_send demo_disk demo_add demo_path None "font" (demo_at [mkFlying 0 demo_conn (Checked demo_checked.1.1 demo_checked.1.2 demo_checked.2)])
         [] 0 demo_conn demo_checked.1.1 demo_checked.1.2 demo_checked.2 [] demo_sent.1 demo_sent.2 eq_refl (surjective_pairing demo_sent)). }
  apply pruns_snoc with (demo_at [mkFlying 0 demo_conn (Passed demo_mid.1.1 demo_passed)]).
  2: { pose proof (p_check demo_disk demo_add demo_path None "font" (demo_at [mkFlying 0 demo_conn (Passed demo_mid.1.1 demo_passed)])
         [] 0 demo_conn demo_mid.1.1 demo_passed [] eq_refl) as H. cbn [pr_watch demo_at pr_regs pr_next] in H.
       change (Current (demo_at _)) with demo_mid_config in H. rewrite H2 in H. exact H. }
  apply pruns_snoc with demo_start; [constructor|].
  pose proof (p_arrive demo_disk demo_add demo_path None "font" demo_start demo_inputs demo_conn demo_root demo_mid.1.1 demo_mid.1.2 demo_mid.2
    eq_refl ltac:(vm_compute; reflexivity)) as H. rewrite H1 in H. apply H. rewrite <- H1.
  change (demo_mid = (demo_mid.1.1, demo_mid.1.2, demo_mid.2)). by destruct demo_mid as [[? ?] ?].
Qed.
Definition arrives (e : event) : bool := match e with Arrive _ _ _ => true | _ => false end.
Lemma sole_arrival id0 i0 r0 es tra id i r trb : existsb arrives es = false →
  Arrive id0 i0 r0 :: es = tra ++ Arrive id i r :: trb → tra = [] ∧ i = i0 ∧ r = r0.
Proof.
  intros Hes E. destruct tra as [|e tra]; [by injection E|]. exfalso. injection E as _ ->. rewrite existsb_app in Hes.
  cbn in Hes. by rewrite orb_true_r in Hes.
Qed.
Lemma demo_arrival_plain : plain_trace demo_disk demo_path None demo_mid_config demo_trace.
Proof.
  intros tra id i r trb E. apply sole_arrival in E as (-> & _ & ->); [|reflexivity].
  intros src u pw _ He. assert (Hb : extractBasic demo_root = basicAbsent) by (vm_compute; reflexivity). congruence.
Qed.
Lemma demo_short cfg srv tok : loaded demo_disk demo_path None cfg → settings (Some cfg) = Ok (srv, tok) →
  Forall short (fingerprint_parts srv tok).
Proof.
  intros [t H] Hs. change (load_at demo_disk demo_path None t) with (load_at demo_disk demo_path None 0) in H.
  assert (E : load_at demo_disk demo_path None 0 = Ok demo_mid_config) by (vm_compute; reflexivity).
  rewrite E in H. injection H as <-.
  assert (Hall : match settings (Some demo_mid_config) with
    | Ok (srv, tok) => bool_decide (Forall (λ p, (Z.of_nat (String.length p) < 10 ^ 20)%Z) (fingerprint_parts srv tok))
    | Err _ => true end = true) by (vm_compute; reflexivity).
  rewrite Hs in Hall. by apply bool_decide_eq_true in Hall.
Qed.
