(* ===== verification/Threads.v ===== *)
(** The process with its requests inside the middleware at once: the watcher that
    reloads the configuration, and any number of requests, each of which takes its next
    atomic step ([Interleaved]) whenever it is its turn.

    [Process] has the same watcher, and runs the middleware in one step; here what is
    before and after the middleware is left out.  A request is told by its number, which
    also says whose turn and whose lock it is; it reads the configuration when it
    arrives. *)
From S2P Require Import Prelude GoStrings ConfigTypes PromScope GoURL GoHTTP Acl ConfigAuth ConfigMain Credentials Basic Jwks JwksConcurrent Session Login Saml OAuthServer Authenticate Middleware Registries Atomic Interleaved Interference PromFilter GoJSON PromRewrite PromSilence PromHandler Proxy Main Interpolate Source Watcher Process.
#[local] Open Scope prog_scope.

Section threads.
Context {C : Crypto} {X : X509} {R : Regexp} {N : NetURL} {U : Unicode} {F : Floats} {J : JWT} {W : Network}
  {L : LoginNet} {O : OAuth2} {D : Sha256} {B : BasicCrypto} {En : Env} {M : SAMLMetadata} {SP : SAMLSP}
  {G : AEAD} {JS : OAuthJSON} {Op : OP} {LK : LocalKeys} {PM : PromModel} {Y : YAML} {K : Koanf} {JF : JSONFloat}.
Variables (disk : Z → FS) (fsw_Add : Z → result unit) (path : string) (fs : option FlagSet) (loginFont : string).

(** A request in the middleware: its number, the identity of its configuration, and
    what it has still to do. *)
Record thread := mkThread { th_id : nat; th_ptr : nat; th_prog : prog Shared (Response * option Request) }.
Record system := mkSystem { sy_watch : Watcher; sy_shared : Shared; sy_threads : list thread; sy_next : nat }.
Inductive tevent :=
| TWatch (l : label)
| TArrive (id : nat) (i : Inputs) (r : Request)
| TAct (id : nat)
| TDone (id : nat) (w : Response) (fwd : option Request).

(** What [run] starts with: [SetLocalSource] is called before the proxy serves. *)
Definition boot (w : Watcher) : system :=
  mkSystem w (mkShared (oauth_write id (pr_regs (start w))) None) [] 0.
Inductive tstep (s : system) : tevent → system → Prop :=
| t_watch l w : wstep disk fsw_Add path fs (sy_watch s) l w →
    tstep s (TWatch l) (mkSystem w (sy_shared s) (sy_threads s) (sy_next s))
| t_arrive i r : in_now i = wt_now (sy_watch s) → mux_route r = MuxRoot →
    let ptr := Z.to_nat (ReloadCount (sy_watch s)) in
    tstep s (TArrive (sy_next s) i r)
      (mkSystem (sy_watch s) (sy_shared s)
         (mkThread (sy_next s) ptr
            (middleware_p loginFont (sy_next s) i ptr (Watcher_Current (sy_watch s)) new_response r) :: sy_threads s)
         (Datatypes.S (sy_next s)))
| t_act before th after p sh : sy_threads s = before ++ th :: after → step (th_prog th) (sy_shared s) = Some (p, sh) →
    tstep s (TAct (th_id th)) (mkSystem (sy_watch s) sh (before ++ mkThread (th_id th) (th_ptr th) p :: after) (sy_next s))
| t_done before th after w fwd : sy_threads s = before ++ th :: after → th_prog th = Ret (w, fwd) →
    tstep s (TDone (th_id th) w fwd) (mkSystem (sy_watch s) (sy_shared s) (before ++ after) (sy_next s)).
Inductive truns (s : system) : list tevent → system → Prop :=
| truns_nil : truns s [] s
| truns_snoc tr s1 e s2 : truns s tr s1 → tstep s1 e s2 → truns s (tr ++ [e]) s2.

(** ** The configurations of a trace *)

Definition tlabel (e : tevent) : option label := match e with TWatch l => Some l | _ => None end.
Definition live_at (cfg0 : Config) (tr : list tevent) : Config := foldl (publish disk path fs) cfg0 (omap tlabel tr).
Definition reloads (l : label) : bool := match l with Fired t => is_ok (load_at disk path fs t) | _ => false end.
Definition reload_count (ls : list label) : nat := length (List.filter reloads ls).
Definition identity (tr : list tevent) : nat := reload_count (omap tlabel tr).
(** All that are published, in order. *)
Fixpoint published (cfg : Config) (ls : list label) : list Config :=
  match ls with
  | [] => [cfg]
  | l :: ls => if reloads l then cfg :: published (publish disk path fs cfg l) ls else published cfg ls
  end.
Definition configs (cfg0 : Config) (tr : list tevent) (n : nat) : Config := default cfg0 (published cfg0 (omap tlabel tr) !! n).

Lemma publish_same cfg l : reloads l = false → publish disk path fs cfg l = cfg.
Proof. destruct l as [| | | |t| | | |]; cbn; try done. by destruct (load_at disk path fs t). Qed.
Lemma published_at cfg ls ls' : published cfg (ls ++ ls') !! reload_count ls = Some (foldl (publish disk path fs) cfg ls).
Proof.
  revert cfg. induction ls as [|l ls IH]; intros cfg; cbn [app foldl].
  - unfold reload_count. cbn. induction ls' as [|l ls' IH']; [done|]. cbn. by destruct (reloads l).
  - cbn. unfold reload_count. cbn. destruct (reloads l) eqn:E; cbn; [apply IH|]. rewrite publish_same by done. apply IH.
Qed.
Lemma configs_at cfg0 tr tr' : configs cfg0 (tr ++ tr') (identity tr) = live_at cfg0 tr.
Proof. unfold configs, identity, live_at. by rewrite omap_app, published_at. Qed.
Lemma reload_count_counted n ls : foldl (counted disk path fs) n ls = (n + Z.of_nat (reload_count ls))%Z.
Proof.
  revert n. unfold reload_count. induction ls as [|l ls IH]; intros n; cbn; [lia|]. rewrite IH. unfold reloads at 2.
  destruct l as [| | | |t| | | |]; cbn; try done. destruct (is_ok _); cbn; lia.
Qed.
Lemma live_at_loaded cfg0 tr : loaded disk path fs cfg0 → loaded disk path fs (live_at cfg0 tr).
Proof.
  unfold live_at. generalize (omap tlabel tr). intros ls. revert cfg0.
  induction ls as [|l ls IH]; intros cfg0 Hc; [done|]. cbn. by apply IH, publish_loaded.
Qed.

(** ** What holds after every step *)

Section invariant.
Hypothesis Hshort : ∀ cfg srv tok, loaded disk path fs cfg → settings (Some cfg) = Ok (srv, tok) → Forall short (fingerprint_parts srv tok).
Hypothesis Hsha : ∀ a b : string, sha256_hex a = sha256_hex b → a = b.
Hypothesis Hmac : ∀ a b : string, hmac_sum a = hmac_sum b → a = b.
(** The whole run, whose prefixes are looked at. *)
Variables (cfg0 : Config) (run_ : list tevent).
Hypothesis Hload : loaded disk path fs cfg0.
Definition plain_arrivals (tr : list tevent) : Prop :=
  ∀ tra id i r trb, tr = tra ++ TArrive id i r :: trb → cred_plain (live_at cfg0 tra) r.
Hypothesis Hplain : plain_arrivals run_.
Notation cfgs := (configs cfg0 run_).
Notation known := (loaded disk path fs).

(** Requests, by the identities of their configurations, that were not done when the
    one that arrived after [tra] did. *)
Definition overlaps (tra : list tevent) (ptr : nat) : Prop := ∃ tru id i r trv,
  run_ = tru ++ TArrive id i r :: trv ∧ (∀ w fwd, TDone id w fwd ∉ tra) ∧ ptr = identity tru.
Definition result_ok (tra : list tevent) (id : nat) (i : Inputs) (r : Request) (x : Response * option Request) (s : Shared) : Prop :=
  after cfgs (overlaps tra) id s ∧ ∀ r2, x.2 = Some r2 →
    w_status x.1 = None ∧ passed_by (vouched_among cfgs (overlaps tra)) (cfgs (identity tra)) (in_now i) r r2.
(** A request in the middleware after [tr]. *)
Record thread_ok (tr : list tevent) (s : Shared) (th : thread) : Prop := mkThreadOk {
  tk_arrival : ∃ tra i r trb, tr = tra ++ TArrive (th_id th) i r :: trb ∧ (∀ w fwd, TDone (th_id th) w fwd ∉ tr) ∧
    th_ptr th = identity tra ∧
    safe (ct cfgs known (overlaps tra) (th_id th) (th_ptr th)) (th_prog th) s (result_ok tra (th_id th) i r)
}.
Record system_ok (tr : list tevent) (s : system) : Prop := {
  so_live : Watcher_Current (sy_watch s) = live_at cfg0 tr;
  so_count : ReloadCount (sy_watch s) = Z.of_nat (identity tr);
  so_inv : inv cfgs known (sy_shared s);
  so_threads : Forall (thread_ok tr (sy_shared s)) (sy_threads s);
  so_ids : NoDup (th_id <$> sy_threads s);
  so_next : (∀ th, th ∈ sy_threads s → th_id th < sy_next s) ∧ ∀ id w fwd, TDone id w fwd ∈ tr → id < sy_next s;
  so_lock : ∀ j q, sh_lock (sy_shared s) = Some (j, q) → ∃ th, th ∈ sy_threads s ∧ th_id th = j ∧ th_ptr th = q
}.

Lemma overlaps_self tra id i r trb : run_ = tra ++ TArrive id i r :: trb → (∀ w fwd, TDone id w fwd ∉ tra) → overlaps tra (identity tra).
Proof. intros E Hd. by exists tra, id, i, r, trb. Qed.
(** A request in the middleware overlaps with all that are there. *)
Lemma overlaps_thread tr s th tra : thread_ok tr s th → (∃ rest, run_ = tr ++ rest) → (∃ rest, tr = tra ++ rest) → overlaps tra (th_ptr th).
Proof.
  intros [(tru & i & r & trv & Etr & Hd & -> & _)] [rest Er] [rest' E]. exists tru, (th_id th), i, r, (trv ++ rest).
  split_and!; [by rewrite Er, Etr, <- app_assoc| |done]. intros w fwd Hin. apply (Hd w fwd). rewrite E. apply elem_of_app. by left.
Qed.
Lemma overlaps_known tra ptr : overlaps tra ptr → known (cfgs ptr).
Proof. intros (tru & id & i & r & trv & E & _ & ->). rewrite E, configs_at. by apply live_at_loaded. Qed.

(** What one request does, the others rely on. *)
Lemma guar_rely (with_ : nat → Prop) me ptr other s s' : guar cfgs me ptr s s' → other ≠ me → with_ ptr → rely cfgs with_ other s s'.
Proof.
  intros [H1 H2 H3 H4 H5] Hne Hw. split; [done|intros q; by apply H2| | | |].
  - intros q Hq. destruct (H3 _ _ Hq) as [?|[-> _]]; done.
  - intros j q Hq. destruct (H3 _ _ Hq) as [?|[_ ->]]; auto.
  - destruct H4; [by left|right; eauto].
  - destruct H5; [by left|right; eauto].
Qed.
Lemma thread_ok_event tr s th e : (∀ w fwd, e ≠ TDone (th_id th) w fwd) → thread_ok tr s th → thread_ok (tr ++ [e]) s th.
Proof.
  intros He [(tra & i & r & trb & -> & Hd & Hp & Hs)]. split. exists tra, i, r, (trb ++ [e]). split_and!; [by rewrite <- app_assoc| |done|done].
  intros w fwd [Hin|Hin%list_elem_of_singleton]%elem_of_app; [by eapply Hd|by eapply He].
Qed.
(** The others, after a step of one. *)
Lemma thread_ok_others tr s s' me ptr th : thread_ok tr s th → guar cfgs me ptr s s' → th_id th ≠ me →
  (∀ tra, (∃ rest, tr = tra ++ rest) → overlaps tra ptr) → thread_ok tr s' th.
Proof.
  intros [(tra & i & r & trb & E & Hd & Hp & Hs)] Hg Hne Ho. split. exists tra, i, r, trb. split_and!; [done..|].
  eapply safe_rely; [exact Hs|]. apply (guar_rely _ me ptr); [done..|]. apply Ho. by eexists.
Qed.

Lemma live_at_snoc tr e : live_at cfg0 (tr ++ [e]) = match tlabel e with Some l => publish disk path fs (live_at cfg0 tr) l | None => live_at cfg0 tr end.
Proof. unfold live_at. rewrite omap_app, foldl_app. cbn. by destruct (tlabel e). Qed.
Lemma identity_snoc tr e : Z.of_nat (identity (tr ++ [e])) =
  match tlabel e with Some l => counted disk path fs (Z.of_nat (identity tr)) l | None => Z.of_nat (identity tr) end.
Proof.
  assert (H : ∀ tr, Z.of_nat (identity tr) = foldl (counted disk path fs) 0%Z (omap tlabel tr)) by (intros tr'; by rewrite reload_count_counted).
  rewrite !H, omap_app, foldl_app. cbn. by destruct (tlabel e).
Qed.
Lemma not_done_event tr e id : (∀ w fwd, e ≠ TDone id w fwd) → (∀ w fwd, TDone id w fwd ∉ tr) → ∀ w fwd, TDone id w fwd ∉ tr ++ [e].
Proof. intros He Ht w fwd [Hin|Hin%list_elem_of_singleton]%elem_of_app; [by eapply Ht|by eapply He]. Qed.
Lemma dones_event tr e n : (∀ id w fwd, e ≠ TDone id w fwd) → (∀ id w fwd, TDone id w fwd ∈ tr → id < n) →
  ∀ id w fwd, TDone id w fwd ∈ tr ++ [e] → id < n.
Proof. intros He Ht id w fwd [Hin|Hin%list_elem_of_singleton]%elem_of_app; [by eapply Ht|by destruct (He id w fwd)]. Qed.

Lemma boot_inv w0 : inv cfgs known (sy_shared (boot w0)).
Proof.
  split; [|reflexivity|intros sv Hs; discriminate Hs|intros p Hp; discriminate Hp|intros o [= <-]; split; reflexivity].
  split; [|apply saml_ok_new|apply cache_ok_new]. split; [intros a rs H|intros a rs kf H]; cbn in H; by rewrite lookup_empty in H.
Qed.
Lemma boot_ok w0 : wt_current w0 = cfg0 → wt_reloadN w0 = 0%Z → system_ok [] (boot w0).
Proof.
  intros H1 H2. split; [done|done|apply boot_inv|constructor|constructor|split|by intros j q Hl].
  - by intros th ?%elem_of_nil.
  - by intros id w fwd ?%elem_of_nil.
Qed.
Lemma watch_ok tr s l w : system_ok tr s → wstep disk fsw_Add path fs (sy_watch s) l w →
  system_ok (tr ++ [TWatch l]) (mkSystem w (sy_shared s) (sy_threads s) (sy_next s)).
Proof.
  intros [H1 H2 H3 H4 H5 [H6 H6'] H7] (E1 & E2 & _)%wstep_published. unfold Watcher_Current, ReloadCount in *.
  split; cbn; [by rewrite live_at_snoc, <- H1|by unfold ReloadCount; rewrite identity_snoc, <- H2|done| |done| |done].
  - eapply Forall_impl; [exact H4|]. intros th. by apply thread_ok_event.
  - split; [done|]. by apply dones_event.
Qed.
Lemma arrive_ok tr s i r : system_ok tr s → let e := TArrive (sy_next s) i r in (∃ rest, run_ = tr ++ e :: rest) →
  let ptr := Z.to_nat (ReloadCount (sy_watch s)) in
  system_ok (tr ++ [e]) (mkSystem (sy_watch s) (sy_shared s)
    (mkThread (sy_next s) ptr (middleware_p loginFont (sy_next s) i ptr (Watcher_Current (sy_watch s)) new_response r) :: sy_threads s)
    (Datatypes.S (sy_next s))).
Proof.
  cbn zeta. intros [H1 H2 H3 H4 H5 [H6 H6'] H7] [rest E]. rewrite H2, Nat2Z.id, H1.
  assert (Hd : ∀ w fwd, TDone (sy_next s) w fwd ∉ tr) by (intros w fwd Hin%H6'; lia).
  rewrite Forall_forall in H4.
  split; cbn; [by rewrite live_at_snoc|by rewrite identity_snoc|done| | | |].
  - constructor; [|apply Forall_forall; intros th Hth; by apply thread_ok_event, H4].
    split. exists tr, i, r, []. split_and!; [done|by apply not_done_event|done|]. cbn [th_id th_ptr th_prog].
    assert (Ec : live_at cfg0 tr = cfgs (identity tr)) by (by rewrite E, configs_at). rewrite Ec.
    apply (middleware_safe cfgs known (overlaps tr) (sy_next s) (identity tr) (overlaps_known tr) (overlaps_self _ _ _ _ _ E Hd)
      (loaded_valid disk path fs) Hshort Hsha Hmac i r); [rewrite <- Ec; by eapply Hplain|done|done|].
    split.
    + intros j q (th & Hth & <- & <-)%H7. eapply overlaps_thread; [by apply H4|by eexists|by exists []; rewrite app_nil_r].
    + intros q (th & Hth%H6 & E' & _)%H7. lia.
  - constructor; [|done]. intros (th & E' & Hth%H6)%list_elem_of_fmap. lia.
  - split; [intros th [->|Hth%H6]%elem_of_cons; cbn; lia|]. intros id w fwd Hin.
    apply Nat.lt_lt_succ_r. revert id w fwd Hin. by apply dones_event.
  - intros j q (th & Hth & ?)%H7. exists th. split; [by right|done].
Qed.
(** The other requests. *)
Lemma others (bf af : list thread) th x : NoDup (th_id <$> bf ++ th :: af) → x ∈ bf ++ af → x ∈ bf ++ th :: af ∧ th_id x ≠ th_id th.
Proof.
  rewrite fmap_app, fmap_cons. intros (_ & Hb & [Ha _]%NoDup_cons)%NoDup_app Hx.
  split; [revert Hx; rewrite !elem_of_app, elem_of_cons; tauto|]. apply elem_of_app in Hx as [Hx|Hx]; intros E.
  - apply (Hb (th_id x)); [by apply list_elem_of_fmap_2|]. rewrite E. left.
  - apply Ha. rewrite <- E. by apply list_elem_of_fmap_2.
Qed.
Lemma elem_of_middle (bf af : list thread) th x : x ∈ bf ++ th :: af ↔ x = th ∨ x ∈ bf ++ af.
Proof. rewrite !elem_of_app, elem_of_cons. tauto. Qed.
Lemma act_ok tr s bf th af p sh : system_ok tr s → (∃ rest, run_ = tr ++ rest) →
  sy_threads s = bf ++ th :: af → step (th_prog th) (sy_shared s) = Some (p, sh) →
  system_ok (tr ++ [TAct (th_id th)]) (mkSystem (sy_watch s) sh (bf ++ mkThread (th_id th) (th_ptr th) p :: af) (sy_next s)).
Proof.
  intros [H1 H2 H3 H4 H5 [H6 H6'] H7] Hrun Eth Hs. rewrite Eth in *. rewrite Forall_forall in H4.
  assert (Hin : th ∈ bf ++ th :: af) by (apply elem_of_middle; by left).
  pose proof (H4 th Hin) as Ht. destruct Ht as [(tra & i & r & trb & E & Hd & Hp & Hsafe)].
  destruct (safe_step _ _ _ _ _ _ Hsafe H3 Hs) as (Hi & Hg & Hsafe'). clear Hsafe Hs.
  split; cbn; [by rewrite live_at_snoc|by rewrite identity_snoc|done| |by rewrite fmap_app in *| |].
  - apply Forall_forall. intros x [->|Hx]%elem_of_middle; apply thread_ok_event; try done.
    + split. by exists tra, i, r, trb.
    + destruct (others _ _ _ _ H5 Hx) as [Hx' Hne].
      eapply thread_ok_others; [by apply H4|exact Hg|done|]. intros tra' Hpre. by eapply (overlaps_thread tr _ th); [apply H4|..].
  - split; [|by apply dones_event]. intros x [->|Hx]%elem_of_middle; [by apply (H6 th)|]. by apply H6, (others _ _ _ _ H5 Hx).
  - setoid_rewrite elem_of_middle in H7. intros j q Hl.
    destruct (gu_lock _ _ _ _ _ Hg j q Hl) as [(x & [->|Hx] & <- & <-)%H7|[-> ->]]; [| |].
    + exists (mkThread (th_id th) (th_ptr th) p). split; [apply elem_of_middle; by left|done].
    + exists x. split; [apply elem_of_middle; by right|done].
    + exists (mkThread (th_id th) (th_ptr th) p). split; [apply elem_of_middle; by left|done].
Qed.
(** What a request that is done came to. *)
Lemma done_result tr s th w fwd : system_ok tr s → th ∈ sy_threads s → th_prog th = Ret (w, fwd) →
  ∃ tra i r trb, tr = tra ++ TArrive (th_id th) i r :: trb ∧ (∀ w fwd, TDone (th_id th) w fwd ∉ tr) ∧
    result_ok tra (th_id th) i r (w, fwd) (sy_shared s).
Proof.
  intros [_ _ H3 H4 _ _ _] Hin Ep. rewrite Forall_forall in H4. destruct (H4 th Hin) as [(tra & i & r & trb & E & Hd & _ & Hs)].
  exists tra, i, r, trb. split_and!; [done..|]. rewrite Ep in Hs. by apply (safe_ret _ _ _ _ Hs).
Qed.
Lemma done_ok tr s bf th af w fwd : system_ok tr s → sy_threads s = bf ++ th :: af → th_prog th = Ret (w, fwd) →
  system_ok (tr ++ [TDone (th_id th) w fwd]) (mkSystem (sy_watch s) (sy_shared s) (bf ++ af) (sy_next s)).
Proof.
  intros Hok Eth Ep. assert (Hin : th ∈ sy_threads s) by (rewrite Eth; apply elem_of_middle; by left).
  destruct (done_result tr s th w fwd Hok Hin Ep) as (tra & i & r & trb & _ & _ & [(_ & _ & Hlock) _]).
  destruct Hok as [H1 H2 H3 H4 H5 [H6 H6'] H7]. rewrite Forall_forall in H4.
  split; cbn; [by rewrite live_at_snoc|by rewrite identity_snoc|done| | | |].
  - apply Forall_forall. intros x Hx. rewrite Eth in H5. destruct (others _ _ _ _ H5 Hx) as [Hx' Hne]. rewrite <- Eth in Hx'.
    apply thread_ok_event; [|by apply H4]. intros w' fwd' [= E _ _]. by apply Hne.
  - rewrite Eth, fmap_app, fmap_cons in H5. rewrite fmap_app.
    apply NoDup_app in H5 as (Ha & Hb & [_ Hc]%NoDup_cons). apply NoDup_app. split_and!; [done| |done]. intros x Hx Hx'. apply (Hb x Hx). by right.
  - split; [intros x Hx; apply H6; rewrite Eth; apply elem_of_middle; by right|].
    intros id w' fwd' [Hx|Hx%list_elem_of_singleton]%elem_of_app; [by eapply H6'|]. injection Hx as -> _ _. by apply H6.
  - intros j q Hl. destruct (H7 j q Hl) as (x & Hx & <- & <-). rewrite Eth in Hx. apply elem_of_middle in Hx as [->|Hx]; [|eauto].
    by destruct (Hlock (th_ptr th)).
Qed.
Lemma tstep_ok tr s e s' : system_ok tr s → (∃ rest, run_ = tr ++ e :: rest) → tstep s e s' → system_ok (tr ++ [e]) s'.
Proof.
  intros Hok [rest E] Hs. destruct Hs as [l w Hw|i r Hnow Hroute ptr|bf th af p sh Eth Hp|bf th af w fwd Eth Hp].
  - by apply watch_ok.
  - apply arrive_ok; [done|]. by exists rest.
  - apply act_ok; [done| |done..]. by exists (TAct (th_id th) :: rest).
  - by apply done_ok.
Qed.
Lemma truns_ok w0 tr s : wt_current w0 = cfg0 → wt_reloadN w0 = 0%Z → truns (boot w0) tr s → (∃ rest, run_ = tr ++ rest) → system_ok tr s.
Proof.
  intros H1 H2. induction 1 as [|tr s1 e s2 Hr IH Hs]; intros [rest E]; [by apply boot_ok|].
  rewrite <- app_assoc in E. eapply tstep_ok; [|by exists rest|done]. apply IH. by exists (e :: rest).
Qed.
End invariant.
End threads.

(** ** One request at a time *)

(** A request that is alone takes its steps in order, and is done. *)
Lemma truns_alone {C : Crypto} {X : X509} {R : Regexp} {N : NetURL} {U : Unicode} {F : Floats} {J : JWT} {W : Network}
    {L : LoginNet} {O : OAuth2} {D : Sha256} {B : BasicCrypto} {En : Env} {M : SAMLMetadata} {SP : SAMLSP}
    {G : AEAD} {JS : OAuthJSON} {Op : OP} {LK : LocalKeys} {PM : PromModel} {Y : YAML} {K : Koanf} {JF : JSONFloat}
    disk add path fs font s0 tr wt id ptr next (p : prog Shared (Response * option Request)) sh x sh' :
  truns disk add path fs font s0 tr (mkSystem wt sh [mkThread id ptr p] next) → Atomic.run p sh = Some (x, sh') →
  ∃ n, truns disk add path fs font s0 ((tr ++ repeat (TAct id) n) ++ [TDone id x.1 x.2]) (mkSystem wt sh' [] next).
Proof.
  revert tr sh. induction p as [a|T op k IH]; intros tr sh Hr Hrun.
  - injection Hrun as -> ->. exists 0. cbn [repeat]. rewrite app_nil_r. eapply truns_snoc; [exact Hr|].
    exact (t_done disk add path fs font (mkSystem wt sh' [mkThread id ptr (Ret x)] next) [] (mkThread id ptr (Ret x)) [] x.1 x.2
      eq_refl (f_equal Ret (surjective_pairing x))).
  - cbn in Hrun. destruct (op sh) as [[b sh1]|] eqn:Eo; [|done].
    destruct (IH b (tr ++ [TAct id]) sh1) as [n Hn]; [|done|].
    + eapply truns_snoc; [exact Hr|].
      apply (t_act disk add path fs font (mkSystem wt sh [mkThread id ptr (Act op k)] next) [] (mkThread id ptr (Act op k)) [] (k b) sh1 eq_refl).
      cbn. by rewrite Eo.
    + exists (Datatypes.S n). cbn [repeat]. by rewrite <- (app_assoc tr [TAct id]) in Hn.
Qed.

Lemma truns_split {C : Crypto} {X : X509} {R : Regexp} {N : NetURL} {U : Unicode} {F : Floats} {J : JWT} {W : Network}
    {L : LoginNet} {O : OAuth2} {D : Sha256} {B : BasicCrypto} {En : Env} {M : SAMLMetadata} {SP : SAMLSP}
    {G : AEAD} {JS : OAuthJSON} {Op : OP} {LK : LocalKeys} {PM : PromModel} {Y : YAML} {K : Koanf} {JF : JSONFloat}
    disk add path fs font s0 tr s tr1 e tr2 : truns disk add path fs font s0 tr s → tr = tr1 ++ e :: tr2 →
  ∃ s1 s2, truns disk add path fs font s0 tr1 s1 ∧ tstep disk add path fs font s1 e s2.
Proof.
  intros Hr. revert tr2. induction Hr as [|tr s1 e' s2 Hr IH Hs]; intros tr2 E; [by destruct tr1|].
  destruct tr2 as [|e2 tr2 _] using rev_ind.
  - apply app_inj_tail in E as [-> ->]. eauto.
  - rewrite app_comm_cons, app_assoc in E. apply app_inj_tail in E as [E _]. by eapply IH.
Qed.

(** * Properties *)

(** The configurations of the requests that were in the middleware with the one that
    arrived after [tra] and was done after [tr]. *)
Definition meanwhile {C : Crypto} {X : X509} {R : Regexp} {N : NetURL} {U : Unicode} {F : Floats} {J : JWT} {W : Network}
    {L : LoginNet} {O : OAuth2} {D : Sha256} {B : BasicCrypto} {En : Env} {M : SAMLMetadata} {SP : SAMLSP}
    {G : AEAD} {JS : OAuthJSON} {Op : OP} {LK : LocalKeys} {PM : PromModel} {Y : YAML} {K : Koanf} {JF : JSONFloat}
    disk path fs (cfg0 : Config) (tra tr : list tevent) (c : Config) : Prop :=
  ∃ tru id i r trv, tr = tru ++ TArrive id i r :: trv ∧ (∀ w fwd, TDone id w fwd ∉ tra) ∧ c = live_at disk path fs cfg0 tru.

(** C4: requests inside the middleware at once. Take a run in which every request that
    presents Basic credentials presents, and meets configured, names, passwords, hashes
    and a realm free of NUL; SHA-256 and HMAC to be injective; and every setting the OAuth
    server's fingerprint is of to be shorter than 10^20 bytes. Then however the atomic
    steps of the requests in the middleware interleave, with each other and with reloads,
    a request is passed on only as one that the configuration live when it arrived lets
    through: by a password the hash in it accepts, a session read with a provider built
    for a source of the same SAML fingerprint, a token of one of its sources that verifies
    with keys built for a source of the same fingerprint (which leaves out the issuer);
    granted by its rules, and given the scope its labels demand. Only for a token that the
    proxy issued itself can the keys, and the denylist, be those of another
    configuration, and then of one that a request in the middleware at the same time
    arrived under. Where those all arrived under the same one, they are its own. (A refresh
    or the start of a login, the SAML provider's answer, and what one of the proxy's own
    routes does are single steps.) *)
Theorem concurrent_refines {C : Crypto} {X : X509} {R : Regexp} {N : NetURL} {U : Unicode} {F : Floats} {J : JWT} {W : Network}
    {L : LoginNet} {O : OAuth2} {D : Sha256} {B : BasicCrypto} {En : Env} {M : SAMLMetadata} {SP : SAMLSP}
    {G : AEAD} {JS : OAuthJSON} {Op : OP} {LK : LocalKeys} {PM : PromModel} {Y : YAML} {K : Koanf} {JF : JSONFloat}
    disk new add path fs font t0 w0 tr s tr1 id w r2 tr2
    (Hnew : NewWatcher disk new add path fs t0 = Ok w0) (Hrun : truns disk add path fs font (boot w0) tr s)
    (Hplain : plain_arrivals disk path fs (Watcher_Current w0) tr)
    (Hshort : ∀ cfg srv tok, loaded disk path fs cfg → settings (Some cfg) = Ok (srv, tok) → Forall short (fingerprint_parts srv tok))
    (Hsha : ∀ a b : string, sha256_hex a = sha256_hex b → a = b) (Hmac : ∀ a b : string, hmac_sum a = hmac_sum b → a = b)
    (Htr : tr = tr1 ++ TDone id w (Some r2) :: tr2) :
  ∃ tra i r trb, tr1 = tra ++ TArrive id i r :: trb ∧
    let cfg := live_at disk path fs (Watcher_Current w0) tra in
    let among := meanwhile disk path fs (Watcher_Current w0) tra tr1 in
    (∃ raw, Config_Validate raw = Ok cfg) ∧ w_status w = None ∧
    passed_by (λ kf sub, (∃ c, among c ∧ own_keys c kf) ∧ ∃ c, among c ∧ storage_denied (Some c) sub = false) cfg (in_now i) r r2 ∧
    ((∀ c, among c → c = cfg) → passed_by (vouched_by cfg) cfg (in_now i) r r2).
Proof.
  apply NewWatcher_ok in Hnew as (Hl & _ & Hn & _). assert (Hl0 : loaded disk path fs (Watcher_Current w0)) by by exists t0.
  destruct (truns_split _ _ _ _ _ _ _ _ _ _ _ Hrun Htr) as (s1 & s2 & Hr1 & Hs).
  assert (Hplain1 : plain_arrivals disk path fs (Watcher_Current w0) tr1).
  { intros tra i r id' trb E. apply (Hplain tra i r id' (trb ++ TDone id w (Some r2) :: tr2)). by rewrite Htr, E, <- app_assoc. }
  assert (Hok : system_ok disk path fs (Watcher_Current w0) tr1 tr1 s1).
  { eapply truns_ok; [done..|exact Hr1|exists []; by rewrite app_nil_r]. }
  inversion Hs as [| | |bf th af w' fwd Eth Ep]; subst.
  destruct (done_result _ _ _ _ _ tr1 s1 th w (Some r2) Hok) as (tra & i & r & trb & E & _ & _ & Hres);
    [rewrite Eth; apply elem_of_middle; by left|done|].
  destruct (Hres r2 eq_refl) as [Hw Hp]. cbn in Hw. exists tra, i, r, trb. split; [done|]. cbn zeta.
  assert (Ec : configs disk path fs (Watcher_Current w0) tr1 (identity disk path fs tra) = live_at disk path fs (Watcher_Current w0) tra)
    by (rewrite E; apply configs_at).
  rewrite Ec in Hp. split; [by eapply loaded_valid, live_at_loaded|]. split; [done|].
  assert (Ham : ∀ p, overlaps disk path fs tr1 tra p → meanwhile disk path fs (Watcher_Current w0) tra tr1 (configs disk path fs (Watcher_Current w0) tr1 p)).
  { intros p (tru & id' & i' & r' & trv & E' & Hd & ->). exists tru, id', i', r', trv. split_and!; [done..|]. rewrite E'. apply configs_at. }
  split.
  - eapply passed_by_mono; [|exact Hp]. intros kf sub [(p & Ho & H1) (p' & Ho' & H2)]. split; eauto.
  - intros Hone. eapply passed_by_mono; [|exact Hp]. intros kf sub [(p & Ho%Ham%Hone & H1) (p' & Ho'%Ham%Hone & H2)].
    rewrite Ho in H1. rewrite Ho' in H2. by split.
Qed.

(** ** Concrete runs *)

#[local] Existing Instances demo_crypto demo_x509 demo_regexp demo_neturl ascii_unicode demo_floats demo_token_lib
  demo_network demo_loginnet demo_oauth2 demo_sha demo_bcrypto demo_env demo_prom demo_metadata demo_sp
  demo_gcm demo_oauth_json demo_op demo_local_keys demo_fs demo_document demo_mid_koanf demo_float.

(** One request, alone. *)
Definition demo_boot : system := boot demo_source_watcher.
Definition demo_thread : thread :=
  mkThread 0 0 (middleware_p "font" 0 demo_inputs 0 demo_mid_config new_response demo_root).
Definition demo_in : system := mkSystem demo_source_watcher (sy_shared demo_boot) [demo_thread] 1.
Definition demo_out : Response * option Request * Shared :=
  match Atomic.run (th_prog demo_thread) (sy_shared demo_boot) with
  | Some x => x
  | None => (new_response, None, sy_shared demo_boot)
  end.
Lemma demo_truns : ∃ n, truns demo_disk demo_add demo_path None "font" demo_boot
  (([TArrive 0 demo_inputs demo_root] ++ repeat (TAct 0) n) ++ [TDone 0 demo_out.1.1 (Some (with_scope demo_scope demo_root))])
  (mkSystem demo_source_watcher demo_out.2 [] 1).
Proof.
  destruct (truns_alone demo_disk demo_add demo_path None "font" demo_boot [TArrive 0 demo_inputs demo_root] demo_source_watcher 0 0 1
    (th_prog demo_thread) (sy_shared demo_boot) demo_out.1 demo_out.2) as [n Hn].
  - apply (truns_snoc _ _ _ _ _ demo_boot [] demo_boot); [constructor|].
    apply (t_arrive demo_disk demo_add demo_path None "font" demo_boot demo_inputs demo_root); [reflexivity|vm_compute; reflexivity].
  - assert (H : bool_decide (is_Some (Atomic.run (th_prog demo_thread) (sy_shared demo_boot))) = true) by (vm_compute; reflexivity).
    apply bool_decide_eq_true in H. destruct H as [[x s] H]. unfold demo_out. by rewrite H.
  - exists n. assert (E : demo_out.1.2 = Some (with_scope demo_scope demo_root)) by (vm_compute; reflexivity). rewrite E in Hn. exact Hn.
Qed.
Definition comes (e : tevent) : bool := match e with TArrive _ _ _ => true | _ => false end.
Lemma sole_coming id0 i0 r0 es tra id i r trb : existsb comes es = false →
  TArrive id0 i0 r0 :: es = tra ++ TArrive id i r :: trb → tra = [] ∧ i = i0 ∧ r = r0.
Proof.
  intros Hes E. destruct tra as [|e tra]; [by injection E|]. exfalso. injection E as _ ->. rewrite existsb_app in Hes.
  cbn in Hes. by rewrite orb_true_r in Hes.
Qed.
Lemma no_comes n l : existsb comes l = false → existsb comes (repeat (TAct 0) n ++ l) = false.
Proof. induction n; [done|]. cbn. auto. Qed.
Lemma concurrent_refines_witness :
  passed_by (vouched_by demo_mid_config) demo_mid_config 0 demo_root (with_scope demo_scope demo_root).
Proof.
  destruct demo_truns as [n Hrun]. set (tr1 := [TArrive 0 demo_inputs demo_root] ++ repeat (TAct 0) n) in *.
  assert (Hsole : ∀ l, existsb comes l = false → ∀ tra id i r trb, tr1 ++ l = tra ++ TArrive id i r :: trb → tra = [] ∧ i = demo_inputs ∧ r = demo_root).
  { intros l Hl tra id i r trb E. apply (sole_coming 0 _ _ (repeat (TAct 0) n ++ l) tra id i r trb); [by apply no_comes|exact E]. }
  destruct (concurrent_refines demo_disk (Ok tt) demo_add demo_path None "font" 0 demo_source_watcher _ _ tr1 0 demo_out.1.1
    (with_scope demo_scope demo_root) [] demo_source Hrun) as (tra & i & r & trb & E & H); [|exact demo_short|exact (λ a b H, H)|exact (λ a b H, H)|reflexivity|].
  - intros tra id i r trb E. apply Hsole in E as (-> & _ & ->); [|reflexivity].
    intros src u pw _ He. assert (Hb : extractBasic demo_root = basicAbsent) by (vm_compute; reflexivity). congruence.
  - destruct (Hsole [] eq_refl tra 0 i r trb) as (-> & -> & ->); [rewrite app_nil_r; exact E|]. destruct H as (_ & _ & _ & H).
    apply H. intros c (tru & id' & i' & r' & trv & E' & _ & ->). destruct (Hsole [] eq_refl tru id' i' r' trv) as (-> & _); [rewrite app_nil_r; exact E'|].
    reflexivity.
Defined.

(** Two requests, by turns. *)
Definition todo : Type := prog Shared (Response * option Request).
Fixpoint interleave (turns : list bool) (p q : todo) (s : Shared) : todo * todo * Shared :=
  match turns with
  | [] => (p, q, s)
  | true :: turns => match step p s with Some (p, s) => interleave turns p q s | None => interleave turns p q s end
  | false :: turns => match step q s with Some (q, s) => interleave turns p q s | None => interleave turns p q s end
  end.
Definition verdict (p : todo) : option (list string * option Request) :=
  match p with Ret (w, fwd) => Some (w_rejections w, fwd) | _ => None end.

(** The demonstration configuration, and the one after it, in which "alice" is put on the
    denylist. *)
Definition demo_deny_raw : Config :=
  let c := demo_mid_raw in
  mkConfig (c_ListenAddr c) (c_Target c) (c_TargetCACert c) (c_Timeouts c)
    (mkInbound (i_Auth (c_Inbound c))
     ((λ o, mkOAuthServer (o_Disabled o) (o_SPBaseURL o) (o_MCPURL o) (o_CodeTTL o) (o_RefreshAbsoluteLifetime o)
              (o_SealingKeys o) (o_Clients o) (o_DynamicRegistration o) (mkDenylist ["alice"]) (o_sealing o)) <$> i_OAuthServer (c_Inbound c)))
    (c_Outbound c) (c_ACL c) (c_targetURL c) (c_targetCAPool c).
Definition demo_deny_config : Config := match demo_validate demo_deny_raw with Ok c => c | Err _ => demo_mid_raw end.
Definition demo_older : todo := middleware_p "font" 0 demo_inputs 0 demo_mid_config new_response demo_root.
Definition demo_newer : todo := middleware_p "font" 1 demo_inputs 1 demo_deny_config new_response demo_root.
(** The bound of [concurrent_refines] is reached: a request of alice's, under the
    configuration that denies her, is let through when one that arrived before the
    reload reconciles the OAuth registry between its own reconciliation and its look at the
    denylist.  Alone, it is refused. *)
Lemma denied_subject_passes :
  demo_validate demo_deny_raw = Ok demo_deny_config ∧
  verdict (interleave (repeat false 12 ++ repeat true 60 ++ repeat false 60) demo_older demo_newer (sy_shared demo_boot)).1.2 =
    Some ([], Some (with_scope demo_scope demo_root)) ∧
  verdict (interleave (repeat false 60) demo_older demo_newer (sy_shared demo_boot)).1.2 = Some ([reasonSubjectDenied], None).
Proof. split_and!; vm_compute; reflexivity. Qed.
