(* ===== verification/Progress.v ===== *)
(** No request in the middleware waits for ever: the one lock that a request holds from
    one step to another, the OAuth registry's, is taken and released in order. *)
From S2P Require Import Prelude GoStrings ConfigTypes PromScope GoURL GoHTTP Acl ConfigAuth ConfigMain Credentials Basic Jwks JwksConcurrent Session Login Saml OAuthServer Authenticate Middleware Registries Atomic Interleaved Interference PromFilter GoJSON PromRewrite PromSilence PromHandler Proxy Main Interpolate Source Watcher Process Threads.
#[local] Open Scope prog_scope.

(** * A request and the lock *)

Section lock.
Context {C : Crypto} {X : X509} {R : Regexp} {N : NetURL} {U : Unicode} {F : Floats} {J : JWT} {W : Network}
  {L : LoginNet} {O : OAuth2} {D : Sha256} {B : BasicCrypto} {En : Env} {M : SAMLMetadata} {SP : SAMLSP}
  {G : AEAD} {JS : OAuthJSON} {Op : OP} {LK : LocalKeys}.
Variable me : nat.
Implicit Types (s : Shared) (held : bool).

Definition lock_is held s : Prop := (∃ q, sh_lock s = Some (me, q)) ↔ held = true.
(** What a step does with the lock: nothing, take it when it is free, or release it. *)
Inductive lock_goes held s s' : bool → Prop :=
| lock_left : sh_lock s' = sh_lock s → lock_goes held s s' held
| lock_taken q : held = false → sh_lock s = None → sh_lock s' = Some (me, q) → lock_goes held s s' true
| lock_released : held = true → sh_lock s' = None → lock_goes held s s' false.
(** A program that does this, blocks only on the lock of another, and ends in [Q]. *)
Fixpoint orderly {A} (p : prog Shared A) (Q : A → bool → Prop) held : Prop :=
  match p with
  | Ret a => Q a held
  | Act op k => ∀ s, lock_is held s →
      match op s with
      | Some (b, s') => ∃ held', lock_goes held s s' held' ∧ orderly (k b) Q held'
      | None => held = false ∧ sh_lock s ≠ None
      end
  end.
Lemma orderly_bind {A T} (p : prog Shared A) (f : A → prog Shared T) Q held :
  orderly p (λ a h, orderly (f a) Q h) held → orderly (bind p f) Q held.
Proof.
  revert held. induction p as [a|T' op k IH]; cbn; intros held H; [done|]. intros s Hl. specialize (H s Hl).
  destruct (op s) as [[b s']|]; [|done]. destruct H as (held' & H1 & H2). exists held'. split; [done|by apply IH].
Qed.
(** A program that leaves the lock alone. *)
Definition leaves {A} (p : prog Shared A) : Prop := ∀ Q held, (∀ a, Q a held) → orderly p Q held.
Lemma leaves_ret {A} (a : A) : leaves (Ret a).
Proof. intros Q held H. apply H. Qed.
Lemma leaves_act {A} (op : Shared → option (A * Shared)) : (∀ s, ∃ b s', op s = Some (b, s') ∧ sh_lock s' = sh_lock s) → leaves (act op).
Proof. intros H Q held HQ s _. destruct (H s) as (b & s' & -> & E). exists held. split; [by constructor|apply HQ]. Qed.
Lemma leaves_regs {A} (f : Regs → A * Regs) : leaves (on_regs f).
Proof. apply leaves_act. intros s. destruct (f (sh_regs s)) as [b g]. by exists b, (with_regs g s). Qed.
Lemma leaves_bind {A T} (p : prog Shared A) (f : A → prog Shared T) : leaves p → (∀ a, leaves (f a)) → leaves (bind p f).
Proof. intros Hp Hf Q held HQ. apply orderly_bind, Hp. intros a. by apply Hf. Qed.

Ltac leave := repeat first
  [apply leaves_bind|apply leaves_ret|apply leaves_regs|progress intros|progress case_match|progress case_if|done].
Lemma leaves_close l : leaves (close_each l).
Proof. induction l as [|a l IH]; cbn [close_each]; leave. Qed.
Lemma leaves_jwt_reconcile ptr auth : leaves (jwt_reconcile ptr auth).
Proof. unfold jwt_reconcile. leave. apply leaves_close. Qed.
Lemma leaves_saml_reconcile ptr auth : leaves (saml_reconcile ptr auth).
Proof. unfold saml_reconcile. leave. Qed.
Lemma leaves_basic_reconcile ptr auth : leaves (basic_reconcile ptr auth).
Proof. unfold basic_reconcile. leave. Qed.
Lemma leaves_verify i src u pw : leaves (verify_p i src u pw).
Proof. unfold verify_p. cbn zeta. leave. Qed.
Lemma leaves_basic i cfg w r : leaves (basic_p i cfg w r).
Proof. unfold basic_p, enforceBasic_p. leave. apply leaves_verify. Qed.
Lemma leaves_keyfunc now src : leaves (Keyfunc_p now src).
Proof. unfold Keyfunc_p. leave. Qed.
Lemma leaves_candidates now raw srcs report have : leaves (try_candidates_p now raw srcs report have).
Proof.
  revert report have. induction srcs as [|src srcs IH]; intros report have; cbn [try_candidates_p]; [leave|].
  apply leaves_bind; [apply leaves_keyfunc|]. intros [kf|e]; [|apply IH]. destruct (verify raw src kf); [|apply IH].
  apply leaves_bind; [unfold denied_p; leave|]. intros []; [apply IH|leave].
Qed.
Lemma leaves_enforceJWT now w r cfg : leaves (enforceJWT_p now w r cfg).
Proof.
  unfold enforceJWT_p. cbn zeta.
  repeat first [apply leaves_ret|apply leaves_bind; [apply leaves_candidates|intros ?]|progress case_match|progress case_if].
Qed.
Lemma leaves_then (a b : pleg) : (∀ w r, leaves (a w r)) → (∀ w r, leaves (b w r)) → ∀ w r, leaves (pthen a b w r).
Proof. intros Ha Hb w r. apply leaves_bind; [done|]. intros [[[] ?] ?]; leave. Qed.
Lemma leaves_jwt i cfg tokens w r : leaves (jwt_p i cfg tokens w r).
Proof.
  unfold jwt_p. case_if; [|leave]. apply leaves_then; [intros; apply leaves_regs|]. intros w1 r1.
  apply leaves_bind; [apply leaves_enforceJWT|]. intros [[] w2]; [leave..|]. destruct (DropStaleLogin _ _ _).
  apply leaves_then; [intros; apply leaves_regs|]. intros w3 r3. apply leaves_bind; [apply leaves_enforceJWT|leave].
Qed.
Lemma leaves_authenticate i cfg w r : leaves (authenticate_p i cfg w r).
Proof.
  unfold authenticate_p. destruct (TakeRefreshCookies _ _) as [tokens r1].
  repeat (apply leaves_then; [first [apply leaves_basic|apply leaves_jwt|intros; apply leaves_regs]|]). intros. apply leaves_regs.
Qed.
Lemma leaves_route font i cfg w r : leaves (route_p font i cfg w r).
Proof. apply leaves_act. intros s. case_match; eauto. Qed.

Lemma oauth_orderly ptr cfg : orderly (oauth_reconcile me ptr cfg) (λ _ h, h = false) false.
Proof.
  apply orderly_bind, leaves_act; [eauto|]. intros []; [done|]. apply orderly_bind. intros s Hl. unfold oauth_lock.
  destruct (sh_lock s) as [[j q]|] eqn:El; [done|]. destruct (oauth_saw ptr s); [exists false; split; [by apply lock_left|done]|].
  exists true. split; [by eapply lock_taken|]. cbn [orderly]. apply orderly_bind, leaves_act; [eauto|]. intros [] s1 _.
  exists false. split; [by apply lock_released|done].
Qed.
Lemma middleware_orderly font i ptr cfg w r : orderly (middleware_p font me i ptr cfg w r) (λ _ h, h = false) false.
Proof.
  apply orderly_bind. apply orderly_bind, leaves_jwt_reconcile. intros _. apply orderly_bind, leaves_saml_reconcile. intros _.
  apply orderly_bind, leaves_basic_reconcile. intros _.
  assert (Hmono : ∀ (p : prog Shared unit) held (Q Q' : unit → bool → Prop), (∀ a h, Q a h → Q' a h) → orderly p Q held → orderly p Q' held).
  { induction p as [a|T op k IH]; cbn; intros held Q Q' HQ H; [by apply HQ|]. intros s Hl. specialize (H s Hl).
    destruct (op s) as [[b s']|]; [|done]. destruct H as (h' & H1 & H2). exists h'. split; [done|by eapply IH]. }
  eapply Hmono; [|apply oauth_orderly]. intros [] h ->. cbn beta.
  apply orderly_bind, leaves_route. intros [w1|]; [done|]. apply orderly_bind, leaves_authenticate. by intros x.
Qed.
End lock.

(** * The requests in the middleware *)

Section progress.
Context {C : Crypto} {X : X509} {R : Regexp} {N : NetURL} {U : Unicode} {F : Floats} {J : JWT} {W : Network}
  {L : LoginNet} {O : OAuth2} {D : Sha256} {B : BasicCrypto} {En : Env} {M : SAMLMetadata} {SP : SAMLSP}
  {G : AEAD} {JS : OAuthJSON} {Op : OP} {LK : LocalKeys} {PM : PromModel} {Y : YAML} {K : Koanf} {JF : JSONFloat}.
Variables (disk : Z → FS) (fsw_Add : Z → result unit) (path : string) (fs : option FlagSet) (loginFont : string).
Notation tstep := (tstep disk fsw_Add path fs loginFont).
Notation truns := (truns disk fsw_Add path fs loginFont).

(** The request can take its next step, or is done. *)
Definition can_go (s : system) (th : thread) : Prop :=
  ∃ e s', tstep s e s' ∧ (e = TAct (th_id th) ∨ ∃ w fwd, e = TDone (th_id th) w fwd).
Definition thread_orderly (sh : Shared) (th : thread) : Prop :=
  ∃ held, lock_is (th_id th) held sh ∧ orderly (th_id th) (th_prog th) (λ _ h, h = false) held.
Record orderly_ok (s : system) : Prop := {
  oo_threads : ∀ th, th ∈ sy_threads s → thread_orderly (sy_shared s) th;
  oo_ids : NoDup (th_id <$> sy_threads s);
  oo_next : ∀ th, th ∈ sy_threads s → th_id th < sy_next s;
  oo_lock : ∀ j q, sh_lock (sy_shared s) = Some (j, q) → ∃ th, th ∈ sy_threads s ∧ th_id th = j
}.
Lemma orderly_others me other held held' s s' : lock_is me held s → lock_goes me held s s' held' → other ≠ me →
  ∀ q, sh_lock s' = Some (other, q) ↔ sh_lock s = Some (other, q).
Proof.
  intros Hl Hg Hne q. destruct Hg as [->|q' Hh E ->|Hh ->]; [done| |].
  - rewrite E. split; [congruence|done].
  - destruct (proj2 Hl Hh) as [q' Hq]. rewrite Hq. split; [done|congruence].
Qed.
Lemma goes_is me held held' s s' : lock_is me held s → lock_goes me held s s' held' → lock_is me held' s'.
Proof.
  unfold lock_is. intros Hl [E|q _ _ E|_ E]; rewrite E; [done|naive_solver|]. split; [by intros [? ?]|done].
Qed.
Lemma act_orderly s bf th af p sh : orderly_ok s → sy_threads s = bf ++ th :: af → step (th_prog th) (sy_shared s) = Some (p, sh) →
  orderly_ok (mkSystem (sy_watch s) sh (bf ++ mkThread (th_id th) (th_ptr th) p :: af) (sy_next s)).
Proof.
  intros [H1 H2 H3 H4] Eth Hs. rewrite Eth in *.
  destruct (H1 th) as (held & Hl & Ho); [apply elem_of_middle; by left|].
  assert (∃ held', lock_goes (th_id th) held (sy_shared s) sh held' ∧ orderly (th_id th) p (λ _ h, h = false) held') as (held' & Hg & Ho').
  { destruct (th_prog th) as [a|T op k]; [done|]. cbn in Hs, Ho. specialize (Ho _ Hl). destruct (op (sy_shared s)) as [[b s1]|]; [|done].
    by injection Hs as <- <-. }
  pose proof (goes_is _ _ _ _ _ Hl Hg) as Hl'. set (th' := mkThread (th_id th) (th_ptr th) p).
  split; cbn [sy_threads sy_shared sy_next]; [|by rewrite fmap_app in *| |].
  - intros x [->|Hx]%elem_of_middle; [by exists held'|]. destruct (others _ _ _ _ H2 Hx) as [Hx' Hne].
    destruct (H1 x Hx') as (hx & Hlx & Hox). exists hx. split; [|done]. unfold lock_is in *.
    by setoid_rewrite (orderly_others _ _ _ _ _ _ Hl Hg Hne).
  - intros x [->|Hx]%elem_of_middle; [apply (H3 th), elem_of_middle; by left|]. apply H3, (others _ _ _ _ H2 Hx).
  - setoid_rewrite elem_of_middle in H4. intros j q Ej. destruct (decide (j = th_id th)) as [->|Hne]; [exists th'; split; [apply elem_of_middle; by left|done]|].
    apply (orderly_others _ _ _ _ _ _ Hl Hg Hne), H4 in Ej as (x & [->|Hx] & Ex); [done|]. exists x. split; [apply elem_of_middle; by right|done].
Qed.
Lemma tstep_orderly s e s' : orderly_ok s → tstep s e s' → orderly_ok s'.
Proof.
  intros Hok Hs. destruct Hs as [l w Hw|i r Hnow Hroute ptr|bf th af p sh Eth Hp|bf th af w fwd Eth Hp].
  - by destruct Hok.
  - destruct Hok as [H1 H2 H3 H4]. split; cbn [sy_threads sy_shared sy_next].
    + intros th [->|Hth]%elem_of_cons; [|by apply H1]. exists false. split; [|apply middleware_orderly].
      split; [|done]. intros [q (th & Hth%H3 & E)%H4]. cbn in E. lia.
    + constructor; [|done]. intros (th & E & Hth%H3)%list_elem_of_fmap. cbn in E. lia.
    + intros th [->|Hth%H3]%elem_of_cons; cbn; lia.
    + intros j q (th & Hth & E)%H4. exists th. split; [by right|done].
  - by apply act_orderly.
  - destruct Hok as [H1 H2 H3 H4]. rewrite Eth in *.
    destruct (H1 th) as (held & Hl & Ho); [apply elem_of_middle; by left|]. rewrite Hp in Ho. cbn in Ho. subst held.
    split; cbn [sy_threads sy_shared sy_next].
    + intros x Hx. apply H1, elem_of_middle. by right.
    + rewrite fmap_app, fmap_cons in H2. rewrite fmap_app. apply NoDup_app in H2 as (Ha & Hb & [_ Hc]%NoDup_cons).
      apply NoDup_app. split_and!; [done| |done]. intros x Hx Hx'. apply (Hb x Hx). by right.
    + intros x Hx. apply H3, elem_of_middle. by right.
    + intros j q Ej. destruct (H4 j q Ej) as (x & [->|Hx]%elem_of_middle & <-); [|eauto].
      destruct Hl as [Hl _]. by discriminate Hl; exists q.
Qed.
Lemma truns_orderly w0 tr s : truns (boot w0) tr s → orderly_ok s.
Proof.
  induction 1 as [|tr s1 e s2 Hr IH Hs]; [|by eapply tstep_orderly].
  split; [by intros th ?%elem_of_nil|constructor|by intros th ?%elem_of_nil|done].
Qed.
Lemma goes_on s th : th ∈ sy_threads s → thread_orderly (sy_shared s) th →
  can_go s th ∨ ∃ j q, sh_lock (sy_shared s) = Some (j, q) ∧ j ≠ th_id th.
Proof.
  intros (bf & af & Eth)%list_elem_of_split (held & Hl & Ho). destruct (th_prog th) as [[w fwd]|T op k] eqn:Ep.
  - left. exists (TDone (th_id th) w fwd). eexists. split; [by eapply t_done|eauto].
  - cbn in Ho. specialize (Ho _ Hl). destruct (op (sy_shared s)) as [[b s1]|] eqn:Eo.
    + left. exists (TAct (th_id th)). eexists. split; [|by left]. eapply t_act; [done|]. rewrite Ep. cbn. by rewrite Eo.
    + right. destruct Ho as [-> Hn]. destruct (sh_lock (sy_shared s)) as [[j q]|] eqn:El; [|done]. exists j, q. split; [done|].
      intros ->. destruct Hl as [Hl _]. discriminate Hl. rewrite El. by exists q.
Qed.
End progress.

(** * Properties *)

(** C25: no request waits for ever inside the middleware. Whatever steps were taken before,
    a request that is in the middleware can take its next step, or is done with it; or it
    waits for the lock of the OAuth registry, and then the request that has the lock can
    take its next step. And a request takes only finitely many, whatever it finds when it
    takes them. *)
Theorem requests_never_stuck {C : Crypto} {X : X509} {R : Regexp} {N : NetURL} {U : Unicode} {F : Floats} {J : JWT} {W : Network}
    {L : LoginNet} {O : OAuth2} {D : Sha256} {B : BasicCrypto} {En : Env} {M : SAMLMetadata} {SP : SAMLSP}
    {G : AEAD} {JS : OAuthJSON} {Op : OP} {LK : LocalKeys} {PM : PromModel} {Y : YAML} {K : Koanf} {JF : JSONFloat}
    disk add path fs font w0 tr s th (Hrun : truns disk add path fs font (boot w0) tr s) (Hth : th ∈ sy_threads s) :
  let go := can_go disk add path fs font s in
  (go th ∨ ∃ j q th', sh_lock (sy_shared s) = Some (j, q) ∧ j ≠ th_id th ∧ th' ∈ sy_threads s ∧ th_id th' = j ∧ go th') ∧
  Acc (λ p' p, ∃ sh sh', step p sh = Some (p', sh')) (th_prog th).
Proof.
  cbn zeta. split; [|apply step_wf]. pose proof (truns_orderly _ _ _ _ _ _ _ _ Hrun) as [H1 H2 H3 H4].
  destruct (goes_on disk add path fs font s th Hth (H1 th Hth)) as [Hgo|(j & q & El & Hne)]; [by left|]. right.
  destruct (H4 j q El) as (th' & Hth' & E). exists j, q, th'. split_and!; [done..|].
  destruct (goes_on disk add path fs font s th' Hth' (H1 th' Hth')) as [Hgo|(j' & q' & El' & Hne')]; [done|]. congruence.
Qed.

(** ** A concrete run *)

#[local] Existing Instances demo_crypto demo_x509 demo_regexp demo_neturl ascii_unicode demo_floats demo_token_lib
  demo_network demo_loginnet demo_oauth2 demo_sha demo_bcrypto demo_env demo_prom demo_metadata demo_sp
  demo_gcm demo_oauth_json demo_op demo_local_keys demo_fs demo_document demo_mid_koanf demo_float.
(** The request that has just arrived can take its first step. *)
Lemma requests_never_stuck_witness : can_go demo_disk demo_add demo_path None "font" demo_in demo_thread.
Proof.
  assert (Hrun : truns demo_disk demo_add demo_path None "font" demo_boot [TArrive 0 demo_inputs demo_root] demo_in).
  { apply (truns_snoc _ _ _ _ _ demo_boot [] demo_boot); [constructor|].
    apply (t_arrive demo_disk demo_add demo_path None "font" demo_boot demo_inputs demo_root); [reflexivity|vm_compute; reflexivity]. }
  destruct (requests_never_stuck demo_disk demo_add demo_path None "font" demo_source_watcher _ demo_in demo_thread Hrun) as [[H|H] _];
    [left|exact H|]. destruct H as (j & q & th' & El & _). discriminate El.
Defined.
